(** * var-gold: signal detection and position lifecycle engine

    A shallow embedding of the decision core of the PAXG/XAUT spread
    monitor: [src/models.py], [src/signals.py], [src/utils.py],
    [src/storage.py], [src/position_manager.py], [src/config_store.py],
    [src/collector.py], [src/bot.py] and [src/main.py].

    Conventions of the embedding.
    - Python [int] is [Z]; Python [float] is the kernel's binary64 [float],
      so [-x + y] and [>=] are the IEEE operations the interpreter runs.
    - A DynamoDB table is a finite map from its hash key to the item stored
      under it.  An item is an attribute map; each attribute the code ever
      writes is an optional field of the record [Item.t].
    - A float attribute is written as [Decimal(str(x))].  boto3 refuses
      NaN and Infinity, the table refuses a number out of its range, and
      either way the call raises before anything is written.  What
      [from_decimal] and [float] read back of an accepted number is the
      float that went in, but for [-0.0], which comes back as [0.0]; an
      item holds the float that is read back.  An integer attribute (a
      clock in milliseconds) is modelled as the integer itself: the clocks
      of the service are far inside the 38 digits of a DynamoDB number.
    - A [str] is a string of characters with code points below 256, one
      [ascii] each; text with other characters is outside the model.
    - Functions of the storage gateway and of the manager run in the monad
      [M]: they thread the [World] (tables, the supply of [uuid.uuid4()]
      values, the messages handed to the notifier) and may raise.
    - A [ClientError] other than [ConditionalCheckFailedException] (network,
      throttling) is a collaborator failure and is left out of the model. *)

From Stdlib Require Import ZArith Floats Lia Ascii.
From stdpp Require Import gmap strings list fin_maps pretty sorting.

Open Scope Z_scope.
Set Warnings "-inexact-float".

(** ** src/models.py *)

Module models.

Definition PAIR : string := "PAXG_XAUT".

(** The four [STATUS_*] string constants. *)
Inductive Status :=
| STATUS_OPEN_PENDING_CONFIRM
| STATUS_OPEN_CONFIRMED
| STATUS_CLOSE_SIGNALLED
| STATUS_CLOSED.

#[global] Instance Status_eq_dec : EqDecision Status.
Proof. solve_decision. Defined.

(** The text of each status constant, as stored in the table. *)
Definition status_text (s : Status) : string :=
  match s with
  | STATUS_OPEN_PENDING_CONFIRM => "OPEN_PENDING_CONFIRM"
  | STATUS_OPEN_CONFIRMED => "OPEN_CONFIRMED"
  | STATUS_CLOSE_SIGNALLED => "CLOSE_SIGNALLED"
  | STATUS_CLOSED => "CLOSED"
  end.

Module MarketSnapshot.
Record t := mk {
  ts_ms : Z;
  paxg_bid : float;
  paxg_ask : float;
  xaut_bid : float;
  xaut_ask : float;
  spread_open : float;
  spread_close : float;
  paxg_funding : option float;
  xaut_funding : option float;
  funding_diff_raw : option float;
  funding_diff_annual : option float;
  annual_factor : float;
  quote_size_paxg : string;
  quote_size_xaut : string;
  latency_ms : Z;
}.
End MarketSnapshot.

Module RuntimeConfig.
Record t := mk {
  api_url : string;
  quote_size : string;
  pair : string;
  poll_interval_sec : float;
  threshold_open : float;
  close_buffer : float;
  repeat_alert_sec : Z;
  annual_factor : float;
  config_refresh_sec : Z;
  data_ttl_days : Z;
  aws_region : string;
  ticks_table : string;
  positions_table : string;
  config_table : string;
  alerts_table : option string;
  tg_bot_token : option string;
  tg_allowed_chat_ids : gset string;
}.
End RuntimeConfig.

(** [metadata: dict[str, Any]]: the manager only ever stores optional
    floats under string keys. *)
Definition Metadata : Type := list (string * option float).

Module PositionRecord.
Record t := mk {
  position_id : string;
  status : Status;
  created_at_ts : Z;
  updated_at_ts : Z;
  signal_spread : float;
  signal_ts : Z;
  last_open_alert_ts : Z;
  entry_spread_actual : option float;
  opened_at_confirm_ts : option Z;
  close_trigger : option float;
  close_signalled_ts : option Z;
  last_close_alert_ts : option Z;
  close_spread_actual : option float;
  closed_at_confirm_ts : option Z;
  chat_id : option string;
  metadata : Metadata;
}.
End PositionRecord.

End models.

(** ** src/signals.py *)

Module signals.
Import models.

(** Python's [a >= b] on two floats. *)
Definition float_ge (a b : float) : bool := (b <=? a)%float.

(** [a >= b] in the order of the binary64 values: the IEEE comparison of
    [a] with [b] answers greater or equal (it answers nothing on a NaN). *)
Definition ieee_ge (a b : float) : Prop :=
  SFcompare (Prim2SF a) (Prim2SF b) = Some Gt
  ∨ SFcompare (Prim2SF a) (Prim2SF b) = Some Eq.

Definition is_open_signal (snapshot : MarketSnapshot.t) (threshold_open : float) : bool :=
  float_ge (MarketSnapshot.spread_open snapshot) threshold_open.

Definition close_trigger (entry_spread_actual close_buffer : float) : float :=
  (- entry_spread_actual + close_buffer)%float.

Definition is_close_signal (snapshot : MarketSnapshot.t) (position : PositionRecord.t) : bool :=
  match PositionRecord.close_trigger position with
  | None => false
  | Some trigger => float_ge (MarketSnapshot.spread_close snapshot) trigger
  end.

Definition should_repeat (last_alert_ts : option Z) (now_ms repeat_alert_sec : Z) : bool :=
  match last_alert_ts with
  | None => true
  | Some last => repeat_alert_sec * 1000 <=? now_ms - last
  end.

End signals.

(** ** The world outside the program

    The DynamoDB tables, the values [uuid.uuid4()] returns, and the
    messages handed to the [notify] callback. *)

Module world.
Import models.

(** The text [PositionManager._open_signal_message] and
    [_close_signal_message] render, kept as the arguments it is rendered
    from (the rendering itself is number formatting). *)
Inductive Message :=
| OpenSignalText (position : PositionRecord.t) (snapshot : MarketSnapshot.t)
    (threshold : float) (is_repeat : bool)
| CloseSignalText (position : PositionRecord.t) (snapshot : MarketSnapshot.t)
    (is_repeat : bool).

Definition message_position_id (m : Message) : string :=
  match m with
  | OpenSignalText position _ _ _ => PositionRecord.position_id position
  | CloseSignalText position _ _ => PositionRecord.position_id position
  end.

Definition message_is_repeat (m : Message) : bool :=
  match m with
  | OpenSignalText _ _ _ is_repeat => is_repeat
  | CloseSignalText _ _ is_repeat => is_repeat
  end.

(** An item of the positions table, without its hash key [position_id]:
    every attribute the code writes, absent ([None]) until written. *)
Module Item.
Record t := mk {
  status : option Status;
  created_at_ts : option Z;
  updated_at_ts : option Z;
  signal_spread : option float;
  signal_ts : option Z;
  last_open_alert_ts : option Z;
  metadata_json : option Metadata;
  entry_spread_actual : option float;
  close_trigger : option float;
  opened_at_confirm_ts : option Z;
  close_signalled_ts : option Z;
  last_close_alert_ts : option Z;
  close_spread_actual : option float;
  closed_at_confirm_ts : option Z;
  chat_id : option string;
}.
(** The attributes of a key that holds no item. *)
Definition empty : t :=
  mk None None None None None None None None None None None None None None None.
End Item.

(** The payload [put_alert] receives: the four keys every caller passes and
    the one extra spread it adds. *)
Module AlertPayload.
Record t := mk {
  ts_ms : Z;
  alert_type : string;
  position_id : string;
  message : string;
  spread : string * float;
}.
End AlertPayload.

(** A configuration value as [load_config_map] returns it, that is after
    [from_decimal]. *)
#[warnings="-register-all"] Inductive Raw :=
| RNone
| RBool (b : bool)
| RInt (z : Z)
| RFloat (f : float)
| RStr (s : string)
| RList (l : list Raw).

Record World := mkWorld {
  positions_table : gmap string Item.t;
  (** [None] when no alerts table is configured. *)
  alerts_table : option (gmap string AlertPayload.t);
  config_table : gmap string Raw;
  (** [uuid4_values n] is what the [n]-th call of [uuid.uuid4()] returns. *)
  uuid4_values : nat -> string;
  uuid4_calls : nat;
  sent : list Message;
  (** The finite numbers DynamoDB does not take: [out_of_range x] when
      boto3's decimal context or the service refuses [Decimal(str(x))] for
      its magnitude. *)
  out_of_range : float -> bool;
}.

Definition set_positions_table (f : gmap string Item.t -> gmap string Item.t) (w : World) : World :=
  mkWorld (f (positions_table w)) (alerts_table w) (config_table w)
    (uuid4_values w) (uuid4_calls w) (sent w) (out_of_range w).

Definition set_alerts_table (a : option (gmap string AlertPayload.t)) (w : World) : World :=
  mkWorld (positions_table w) a (config_table w)
    (uuid4_values w) (uuid4_calls w) (sent w) (out_of_range w).

Definition set_config_table (f : gmap string Raw -> gmap string Raw) (w : World) : World :=
  mkWorld (positions_table w) (alerts_table w) (f (config_table w))
    (uuid4_values w) (uuid4_calls w) (sent w) (out_of_range w).

(** The exceptions the code meets.  [NumberOutOfRange] stands for what a
    number out of DynamoDB's range raises: a signal of boto3's decimal
    context ([decimal.Overflow], [decimal.Underflow]) or the service's
    [ValidationException]; it is never the
    [ConditionalCheckFailedException] the gateway catches. *)
Inductive Exn :=
| KeyError (key : string)
| TypeError
| ValueError
| OverflowError
| NumberOutOfRange.

Inductive Outcome (A : Type) :=
| Returned (a : A)
| Raised (e : Exn).
Arguments Returned {A} a.
Arguments Raised {A} e.

Definition and_then {A B} (o : Outcome A) (k : A -> Outcome B) : Outcome B :=
  match o with
  | Returned a => k a
  | Raised e => Raised e
  end.

(** A computation that reads and writes the world and returns or raises. *)
Definition M (A : Type) : Type := World -> Outcome A * World.

Definition ret {A} (a : A) : M A := fun w => (Returned a, w).

Definition raise {A} (e : Exn) : M A := fun w => (Raised e, w).

Definition bind {A B} (m : M A) (k : A -> M B) : M B :=
  fun w =>
    match m w with
    | (Returned a, w') => k a w'
    | (Raised e, w') => (Raised e, w')
    end.

Definition of_outcome {A} (o : Outcome A) : M A := fun w => (o, w).

Definition get_world : M World := fun w => (Returned w, w).

Definition modify (f : World -> World) : M unit := fun w => (Returned tt, f w).

(** [uuid.uuid4()]: the next value of the supply. *)
Definition uuid4 : M string :=
  fun w =>
    (Returned (uuid4_values w (uuid4_calls w)),
     mkWorld (positions_table w) (alerts_table w) (config_table w)
       (uuid4_values w) (S (uuid4_calls w)) (sent w) (out_of_range w)).

(** Calling the [notify] callback: the message joins those sent. *)
Definition notify (m : Message) : M unit :=
  modify (fun w =>
    mkWorld (positions_table w) (alerts_table w) (config_table w)
      (uuid4_values w) (uuid4_calls w) (sent w ++ [m]) (out_of_range w)).

End world.

Notation "'let*' x ':=' m 'in' k" := (world.bind m (fun x => k))
  (at level 10, x name, m at level 100, k at level 200).

(** ** src/utils.py *)

Module utils.
Import world.

(** [safe_float(value)], given what [float(value)] does: the two errors it
    catches become [None], any other goes through. *)
Definition safe_float (float_of_value : Outcome float) : Outcome (option float) :=
  match float_of_value with
  | Returned f => Returned (Some f)
  | Raised TypeError => Returned None
  | Raised ValueError => Returned None
  | Raised e => Raised e
  end.

(** A float whose value is an integer: for [d = Decimal(str(f))] this is
    the test [d == d.to_integral_value()], the digits [str] prints being
    those of an integer exactly when [f] is one. *)
Definition is_integer (f : float) : bool :=
  match Prim2SF f with
  | S754_zero _ => true
  | S754_finite _ m e => (0 <=? e) || (Z.pos m mod 2 ^ (- e) =? 0)
  | _ => false
  end.

(** The [Decimal]s the code builds: [Decimal(str(v))] of an [int] or of a
    [float]. *)
Inductive Decimal :=
| DecimalOfInt (z : Z)
| DecimalOfFloat (f : float).

(** A value as a table holds it. *)
#[warnings="-register-all"] Inductive DdbValue :=
| DNone
| DBool (b : bool)
| DNumber (d : Decimal)
| DStr (s : string)
| DList (l : list DdbValue).

Section decimals.

(** Python's [int(Decimal(str(f)))] on a float whose value is an integer:
    the integer [str(f)] prints. *)
Variable int_of_decimal : float -> Z.

(** [from_decimal(value)]: a [Decimal] equal to its integral value comes
    back as an [int], any other as a [float] (the digits of [str(f)] read
    back as [f]); the elements of a list likewise; the rest as it is.  A
    NaN or an infinity is never in a table. *)
Fixpoint from_decimal (value : DdbValue) : Raw :=
  match value with
  | DNone => RNone
  | DBool b => RBool b
  | DNumber (DecimalOfInt z) => RInt z
  | DNumber (DecimalOfFloat f) =>
      if is_integer f then RInt (int_of_decimal f) else RFloat f
  | DStr s => RStr s
  | DList l => RList (List.map from_decimal l)
  end.

End decimals.

End utils.

(** ** src/storage.py *)

Module storage.
Import models world.

(** [Attr("status").eq(value)]: false on an item without the attribute. *)
Definition status_eq (value : Status) (item : Item.t) : bool :=
  bool_decide (Item.status item = Some value).

(** [Attr("status").is_in(values)]. *)
Definition status_is_in (values : list Status) (item : Item.t) : bool :=
  match Item.status item with
  | Some s => bool_decide (s ∈ values)
  | None => false
  end.

(** What a request carrying [Decimal(str(x))] raises, if anything, before
    it reaches the table: boto3's serializer raises [TypeError] on [NaN]
    and [Infinity]; [-Infinity] and a finite number out of DynamoDB's range
    are refused by the decimal context or by the service. *)
Definition number_error (w : World) (x : float) : option Exn :=
  if is_nan x || (x =? infinity)%float then Some TypeError
  else if (x =? neg_infinity)%float || out_of_range w x then Some NumberOutOfRange
  else None.

(** [float(from_decimal(Decimal(str(x))))] on a number the table took:
    [str] prints the shortest digits that read back as [x], an integral
    [Decimal] goes through [int] and a fractional one through [float], both
    rounding to the nearest binary64, so [x] comes back, and [-0.0], an
    integral [Decimal], comes back as [float(0)]. *)
Definition float_from_decimal (x : float) : float :=
  if (x =? 0)%float then 0%float else x.

(** The attribute value [Decimal(str(x))] in a request: the call raises
    when the number is refused, and the table holds what is read back. *)
Definition ddb_number (x : float) : M float :=
  fun w =>
    match number_error w x with
    | Some e => (Raised e, w)
    | None => (Returned (float_from_decimal x), w)
    end.

(** boto3's [Table.put_item] on the positions table: the item replaces
    whatever the key held. *)
Definition put_item (key : string) (item : Item.t) : M unit :=
  modify (set_positions_table (insert key item)).

(** boto3's [Table.update_item] on the positions table with
    [ReturnValues="ALL_NEW"].  The condition is evaluated on the item under
    the key, or on no attributes when there is none; a [SET] on a missing
    key creates the item.  [None] stands for the
    [ConditionalCheckFailedException] every conditional caller catches. *)
Definition update_item (key : string) (condition : Item.t -> bool)
    (set : Item.t -> Item.t) : M (option Item.t) :=
  let* w := get_world in
  let item := default Item.empty (positions_table w !! key) in
  if condition item then
    let* _ := put_item key (set item) in
    ret (Some (set item))
  else ret None.

Definition _position_from_item (position_id : string) (item : Item.t)
    : Outcome PositionRecord.t :=
  match Item.status item with
  | None => Raised (KeyError "status")
  | Some status =>
  match Item.created_at_ts item with
  | None => Raised (KeyError "created_at_ts")
  | Some created_at_ts =>
  match Item.updated_at_ts item with
  | None => Raised (KeyError "updated_at_ts")
  | Some updated_at_ts =>
  match Item.signal_spread item with
  | None => Raised (KeyError "signal_spread")
  | Some signal_spread =>
  match Item.signal_ts item with
  | None => Raised (KeyError "signal_ts")
  | Some signal_ts =>
    Returned
      {| PositionRecord.position_id := position_id;
         PositionRecord.status := status;
         PositionRecord.created_at_ts := created_at_ts;
         PositionRecord.updated_at_ts := updated_at_ts;
         PositionRecord.signal_spread := signal_spread;
         PositionRecord.signal_ts := signal_ts;
         PositionRecord.last_open_alert_ts :=
           default updated_at_ts (Item.last_open_alert_ts item);
         PositionRecord.entry_spread_actual := Item.entry_spread_actual item;
         PositionRecord.opened_at_confirm_ts := Item.opened_at_confirm_ts item;
         PositionRecord.close_trigger := Item.close_trigger item;
         PositionRecord.close_signalled_ts := Item.close_signalled_ts item;
         PositionRecord.last_close_alert_ts := Item.last_close_alert_ts item;
         PositionRecord.close_spread_actual := Item.close_spread_actual item;
         PositionRecord.closed_at_confirm_ts := Item.closed_at_confirm_ts item;
         PositionRecord.chat_id := Item.chat_id item;
         PositionRecord.metadata := default [] (Item.metadata_json item) |}
  end end end end end.

Definition create_pending_position (signal_spread : float) (signal_ts : Z)
    (metadata : Metadata) (now_ms : Z) : M PositionRecord.t :=
  let* position_id := uuid4 in
  let* signal_spread := ddb_number signal_spread in
  let item :=
    {| Item.status := Some STATUS_OPEN_PENDING_CONFIRM;
       Item.created_at_ts := Some now_ms;
       Item.updated_at_ts := Some now_ms;
       Item.signal_spread := Some signal_spread;
       Item.signal_ts := Some signal_ts;
       Item.last_open_alert_ts := Some now_ms;
       Item.metadata_json := Some metadata;
       Item.entry_spread_actual := None;
       Item.close_trigger := None;
       Item.opened_at_confirm_ts := None;
       Item.close_signalled_ts := None;
       Item.last_close_alert_ts := None;
       Item.close_spread_actual := None;
       Item.closed_at_confirm_ts := None;
       Item.chat_id := None |} in
  let* _ := put_item position_id item in
  of_outcome (_position_from_item position_id item).

Definition get_position (position_id : string) : M (option PositionRecord.t) :=
  let* w := get_world in
  match positions_table w !! position_id with
  | None => ret None
  | Some item =>
      let* p := of_outcome (_position_from_item position_id item) in
      ret (Some p)
  end.

(** The items a [scan] of the positions table returns under the filter
    built from [statuses] (no filter when [statuses] is empty or [None]),
    in the table's scan order; the pagination loop collects all of them. *)
Definition scan_positions (statuses : list Status) (table : gmap string Item.t)
    : list (string * Item.t) :=
  match statuses with
  | [] => map_to_list table
  | _ => List.filter (fun kv => status_is_in statuses kv.2) (map_to_list table)
  end.

(** [[self._position_from_item(item) for item in items]]. *)
Fixpoint positions_from_items (items : list (string * Item.t))
    : Outcome (list PositionRecord.t) :=
  match items with
  | [] => Returned []
  | (key, item) :: rest =>
      match _position_from_item key item with
      | Raised e => Raised e
      | Returned p =>
          match positions_from_items rest with
          | Raised e => Raised e
          | Returned ps => Returned (p :: ps)
          end
      end
  end.

(** [positions.sort(key=lambda p: p.signal_ts)]: Python's sort is stable,
    as is this insertion sort. *)
Fixpoint insert_by_signal_ts (p : PositionRecord.t) (l : list PositionRecord.t)
    : list PositionRecord.t :=
  match l with
  | [] => [p]
  | q :: l' =>
      if PositionRecord.signal_ts p <=? PositionRecord.signal_ts q
      then p :: q :: l'
      else q :: insert_by_signal_ts p l'
  end.

Definition sort_by_signal_ts (l : list PositionRecord.t) : list PositionRecord.t :=
  foldr insert_by_signal_ts [] l.

Definition list_positions (statuses : list Status) : M (list PositionRecord.t) :=
  let* w := get_world in
  let items := scan_positions statuses (positions_table w) in
  let* positions := of_outcome (positions_from_items items) in
  ret (sort_by_signal_ts positions).

(** [SET #st=:st, entry_spread_actual=:entry, close_trigger=:close_trigger,
    opened_at_confirm_ts=:opened_at, updated_at_ts=:updated_at, chat_id=:chat_id]. *)
Definition set_open_confirmed (entry_spread_actual close_trigger : float) (now_ms : Z) (chat_id : string) (item : Item.t) : Item.t :=
  {| Item.status := Some STATUS_OPEN_CONFIRMED;
     Item.created_at_ts := Item.created_at_ts item;
     Item.updated_at_ts := Some now_ms;
     Item.signal_spread := Item.signal_spread item;
     Item.signal_ts := Item.signal_ts item;
     Item.last_open_alert_ts := Item.last_open_alert_ts item;
     Item.metadata_json := Item.metadata_json item;
     Item.entry_spread_actual := Some entry_spread_actual;
     Item.close_trigger := Some close_trigger;
     Item.opened_at_confirm_ts := Some now_ms;
     Item.close_signalled_ts := Item.close_signalled_ts item;
     Item.last_close_alert_ts := Item.last_close_alert_ts item;
     Item.close_spread_actual := Item.close_spread_actual item;
     Item.closed_at_confirm_ts := Item.closed_at_confirm_ts item;
     Item.chat_id := Some chat_id |}.

Definition confirm_open (position_id : string) (entry_spread_actual close_buffer : float)
    (now_ms : Z) (chat_id : string) : M (option PositionRecord.t) :=
  let close_trigger := (- entry_spread_actual + close_buffer)%float in
  let* entry := ddb_number entry_spread_actual in
  let* close_trigger := ddb_number close_trigger in
  let* resp :=
    update_item position_id (status_eq STATUS_OPEN_PENDING_CONFIRM)
      (set_open_confirmed entry close_trigger now_ms chat_id) in
  match resp with
  | None => ret None
  | Some attributes =>
      let* p := of_outcome (_position_from_item position_id attributes) in
      ret (Some p)
  end.

(** [SET last_open_alert_ts=:ts, updated_at_ts=:ts]. *)
Definition set_open_alert_sent (now_ms : Z) (item : Item.t) : Item.t :=
  {| Item.status := Item.status item;
     Item.created_at_ts := Item.created_at_ts item;
     Item.updated_at_ts := Some now_ms;
     Item.signal_spread := Item.signal_spread item;
     Item.signal_ts := Item.signal_ts item;
     Item.last_open_alert_ts := Some now_ms;
     Item.metadata_json := Item.metadata_json item;
     Item.entry_spread_actual := Item.entry_spread_actual item;
     Item.close_trigger := Item.close_trigger item;
     Item.opened_at_confirm_ts := Item.opened_at_confirm_ts item;
     Item.close_signalled_ts := Item.close_signalled_ts item;
     Item.last_close_alert_ts := Item.last_close_alert_ts item;
     Item.close_spread_actual := Item.close_spread_actual item;
     Item.closed_at_confirm_ts := Item.closed_at_confirm_ts item;
     Item.chat_id := Item.chat_id item |}.

Definition mark_open_alert_sent (position_id : string) (now_ms : Z) : M unit :=
  let* _ :=
    update_item position_id (fun _ => true)
      (set_open_alert_sent now_ms) in
  ret tt.

(** [SET #st=:st, close_signalled_ts=:ts, last_close_alert_ts=:ts, updated_at_ts=:ts]. *)
Definition set_close_signalled (now_ms : Z) (item : Item.t) : Item.t :=
  {| Item.status := Some STATUS_CLOSE_SIGNALLED;
     Item.created_at_ts := Item.created_at_ts item;
     Item.updated_at_ts := Some now_ms;
     Item.signal_spread := Item.signal_spread item;
     Item.signal_ts := Item.signal_ts item;
     Item.last_open_alert_ts := Item.last_open_alert_ts item;
     Item.metadata_json := Item.metadata_json item;
     Item.entry_spread_actual := Item.entry_spread_actual item;
     Item.close_trigger := Item.close_trigger item;
     Item.opened_at_confirm_ts := Item.opened_at_confirm_ts item;
     Item.close_signalled_ts := Some now_ms;
     Item.last_close_alert_ts := Some now_ms;
     Item.close_spread_actual := Item.close_spread_actual item;
     Item.closed_at_confirm_ts := Item.closed_at_confirm_ts item;
     Item.chat_id := Item.chat_id item |}.

Definition mark_close_signalled (position_id : string) (now_ms : Z)
    : M (option PositionRecord.t) :=
  let* resp :=
    update_item position_id (status_eq STATUS_OPEN_CONFIRMED)
      (set_close_signalled now_ms) in
  match resp with
  | None => ret None
  | Some attributes =>
      let* p := of_outcome (_position_from_item position_id attributes) in
      ret (Some p)
  end.

(** [SET last_close_alert_ts=:ts, updated_at_ts=:ts]. *)
Definition set_close_alert_sent (now_ms : Z) (item : Item.t) : Item.t :=
  {| Item.status := Item.status item;
     Item.created_at_ts := Item.created_at_ts item;
     Item.updated_at_ts := Some now_ms;
     Item.signal_spread := Item.signal_spread item;
     Item.signal_ts := Item.signal_ts item;
     Item.last_open_alert_ts := Item.last_open_alert_ts item;
     Item.metadata_json := Item.metadata_json item;
     Item.entry_spread_actual := Item.entry_spread_actual item;
     Item.close_trigger := Item.close_trigger item;
     Item.opened_at_confirm_ts := Item.opened_at_confirm_ts item;
     Item.close_signalled_ts := Item.close_signalled_ts item;
     Item.last_close_alert_ts := Some now_ms;
     Item.close_spread_actual := Item.close_spread_actual item;
     Item.closed_at_confirm_ts := Item.closed_at_confirm_ts item;
     Item.chat_id := Item.chat_id item |}.

Definition mark_close_alert_sent (position_id : string) (now_ms : Z)
    : M (option PositionRecord.t) :=
  let* resp :=
    update_item position_id (fun _ => true)
      (set_close_alert_sent now_ms) in
  match resp with
  | None => ret None
  | Some attributes =>
      let* p := of_outcome (_position_from_item position_id attributes) in
      ret (Some p)
  end.

(** [SET #st=:st, close_spread_actual=:close_actual, closed_at_confirm_ts=:closed_at,
    updated_at_ts=:updated_at, chat_id=:chat_id]. *)
Definition set_closed (close_spread_actual : float) (now_ms : Z) (chat_id : string) (item : Item.t) : Item.t :=
  {| Item.status := Some STATUS_CLOSED;
     Item.created_at_ts := Item.created_at_ts item;
     Item.updated_at_ts := Some now_ms;
     Item.signal_spread := Item.signal_spread item;
     Item.signal_ts := Item.signal_ts item;
     Item.last_open_alert_ts := Item.last_open_alert_ts item;
     Item.metadata_json := Item.metadata_json item;
     Item.entry_spread_actual := Item.entry_spread_actual item;
     Item.close_trigger := Item.close_trigger item;
     Item.opened_at_confirm_ts := Item.opened_at_confirm_ts item;
     Item.close_signalled_ts := Item.close_signalled_ts item;
     Item.last_close_alert_ts := Item.last_close_alert_ts item;
     Item.close_spread_actual := Some close_spread_actual;
     Item.closed_at_confirm_ts := Some now_ms;
     Item.chat_id := Some chat_id |}.

Definition close_position (position_id : string) (close_spread_actual : float)
    (now_ms : Z) (chat_id : string) : M (option PositionRecord.t) :=
  let* close_actual := ddb_number close_spread_actual in
  let* resp :=
    update_item position_id
      (status_is_in [STATUS_OPEN_CONFIRMED; STATUS_CLOSE_SIGNALLED])
      (set_closed close_actual now_ms chat_id) in
  match resp with
  | None => ret None
  | Some attributes =>
      let* p := of_outcome (_position_from_item position_id attributes) in
      ret (Some p)
  end.

(** [load_config_map]: the whole configuration table, values through
    [from_decimal]. *)
Definition load_config_map : M (gmap string Raw) :=
  let* w := get_world in
  ret (config_table w).

(** [put_alert]: no write without an alerts table; otherwise the payload is
    stored under a fresh [alert_id], its spread as [_to_ddb_value] makes it
    a [Decimal].  The [ttl_epoch] attribute, read off the wall clock, is
    not modelled. *)
Definition put_alert (payload : AlertPayload.t) : M unit :=
  let* w := get_world in
  match alerts_table w with
  | None => ret tt
  | Some _ =>
      let* alert_id := uuid4 in
      let* value := ddb_number (AlertPayload.spread payload).2 in
      let item :=
        {| AlertPayload.ts_ms := AlertPayload.ts_ms payload;
           AlertPayload.alert_type := AlertPayload.alert_type payload;
           AlertPayload.position_id := AlertPayload.position_id payload;
           AlertPayload.message := AlertPayload.message payload;
           AlertPayload.spread := ((AlertPayload.spread payload).1, value) |} in
      modify (fun w' =>
        set_alerts_table (insert alert_id item <$> alerts_table w') w')
  end.

(** [_to_ddb_value(value)]: a [bool] and [None] as they are, an [int] and
    a [float] as [Decimal(str(value))], the elements of a list likewise,
    the rest as it is. *)
Fixpoint _to_ddb_value (value : Raw) : utils.DdbValue :=
  match value with
  | RNone => utils.DNone
  | RBool b => utils.DBool b
  | RInt z => utils.DNumber (utils.DecimalOfInt z)
  | RFloat f => utils.DNumber (utils.DecimalOfFloat f)
  | RStr s => utils.DStr s
  | RList l => utils.DList (List.map _to_ddb_value l)
  end.

(** [save_config_value]: [_to_ddb_value(value)] is stored under the key,
    and the table holds it as [load_config_map] reads it back, through
    [from_decimal].  boto3 refuses some numbers (NaN, the infinities,
    numbers beyond the range or the 38 digits of a DynamoDB number):
    [rejects value] is the error it raises on them, before any write.
    The [updated_at_ts] attribute, read off the wall clock, is not
    modelled. *)
Definition save_config_value (rejects : Raw -> option Exn) (int_of_decimal : float -> Z)
    (key : string) (value : Raw) : M unit :=
  match rejects value with
  | Some e => raise e
  | None =>
      modify (set_config_table
                (insert key (utils.from_decimal int_of_decimal (_to_ddb_value value))))
  end.

End storage.

(** ** src/position_manager.py *)

Module position_manager.
Import models world signals.

Definition _open_signal_message (position : PositionRecord.t)
    (snapshot : MarketSnapshot.t) (threshold : float) (is_repeat : bool) : Message :=
  OpenSignalText position snapshot threshold is_repeat.

Definition _close_signal_message (position : PositionRecord.t)
    (snapshot : MarketSnapshot.t) (is_repeat : bool) : Message :=
  CloseSignalText position snapshot is_repeat.

(** The [notify] argument is the world's notifier. *)
Definition process_open_signals (snapshot : MarketSnapshot.t) (cfg : RuntimeConfig.t)
    (now_ms : Z) : M unit :=
  if negb (is_open_signal snapshot (RuntimeConfig.threshold_open cfg)) then ret tt
  else
    let* pending := storage.list_positions [STATUS_OPEN_PENDING_CONFIRM] in
    match last pending with
    | None =>
        let* position :=
          storage.create_pending_position
            (MarketSnapshot.spread_open snapshot)
            (MarketSnapshot.ts_ms snapshot)
            [("spread_close", Some (MarketSnapshot.spread_close snapshot));
             ("funding_diff_annual", MarketSnapshot.funding_diff_annual snapshot)]
            now_ms in
        let* _ :=
          notify (_open_signal_message position snapshot
                    (RuntimeConfig.threshold_open cfg) false) in
        storage.put_alert
          {| AlertPayload.ts_ms := now_ms;
             AlertPayload.alert_type := "OPEN_SIGNAL";
             AlertPayload.position_id := PositionRecord.position_id position;
             AlertPayload.message := "open signal created";
             AlertPayload.spread := ("spread_open", MarketSnapshot.spread_open snapshot) |}
    | Some latest_pending =>
        if should_repeat (Some (PositionRecord.last_open_alert_ts latest_pending))
             now_ms (RuntimeConfig.repeat_alert_sec cfg)
        then
          let* _ :=
            notify (_open_signal_message latest_pending snapshot
                      (RuntimeConfig.threshold_open cfg) true) in
          let* _ :=
            storage.mark_open_alert_sent
              (PositionRecord.position_id latest_pending) now_ms in
          storage.put_alert
            {| AlertPayload.ts_ms := now_ms;
               AlertPayload.alert_type := "OPEN_SIGNAL_REPEAT";
               AlertPayload.position_id := PositionRecord.position_id latest_pending;
               AlertPayload.message := "open signal reminder";
               AlertPayload.spread := ("spread_open", MarketSnapshot.spread_open snapshot) |}
        else ret tt
    end.

(** [for position in positions: body(position)]. *)
Fixpoint for_each {A} (l : list A) (body : A -> M unit) : M unit :=
  match l with
  | [] => ret tt
  | x :: l' => let* _ := body x in for_each l' body
  end.

(** The body of the loop of [process_close_signals]. *)
Definition close_signal_step (snapshot : MarketSnapshot.t) (cfg : RuntimeConfig.t)
    (now_ms : Z) (position : PositionRecord.t) : M unit :=
  match PositionRecord.close_trigger position with
  | None => ret tt
  | Some _ =>
      if bool_decide (PositionRecord.status position = STATUS_OPEN_CONFIRMED)
         && is_close_signal snapshot position
      then
        let* updated :=
          storage.mark_close_signalled (PositionRecord.position_id position) now_ms in
        match updated with
        | None => ret tt
        | Some updated =>
            let* _ := notify (_close_signal_message updated snapshot false) in
            storage.put_alert
              {| AlertPayload.ts_ms := now_ms;
                 AlertPayload.alert_type := "CLOSE_SIGNAL";
                 AlertPayload.position_id := PositionRecord.position_id position;
                 AlertPayload.message := "close signal triggered";
                 AlertPayload.spread :=
                   ("spread_close", MarketSnapshot.spread_close snapshot) |}
        end
      else if bool_decide (PositionRecord.status position = STATUS_CLOSE_SIGNALLED)
              && should_repeat (PositionRecord.last_close_alert_ts position)
                   now_ms (RuntimeConfig.repeat_alert_sec cfg)
      then
        let* _ := notify (_close_signal_message position snapshot true) in
        let* _ :=
          storage.mark_close_alert_sent (PositionRecord.position_id position) now_ms in
        storage.put_alert
          {| AlertPayload.ts_ms := now_ms;
             AlertPayload.alert_type := "CLOSE_SIGNAL_REPEAT";
             AlertPayload.position_id := PositionRecord.position_id position;
             AlertPayload.message := "close signal reminder";
             AlertPayload.spread :=
               ("spread_close", MarketSnapshot.spread_close snapshot) |}
      else ret tt
  end.

Definition process_close_signals (snapshot : MarketSnapshot.t) (cfg : RuntimeConfig.t)
    (now_ms : Z) : M unit :=
  let* open_positions :=
    storage.list_positions [STATUS_OPEN_CONFIRMED; STATUS_CLOSE_SIGNALLED] in
  for_each open_positions (close_signal_step snapshot cfg now_ms).

Definition confirm_open (chat_id : string) (entry_spread_actual close_buffer : float)
    (now_ms : Z) (position_id : option string) : M (option PositionRecord.t) :=
  match position_id with
  | Some target_id =>
      storage.confirm_open target_id entry_spread_actual close_buffer now_ms chat_id
  | None =>
      let* pending := storage.list_positions [STATUS_OPEN_PENDING_CONFIRM] in
      match last pending with
      | None => ret None
      | Some latest =>
          storage.confirm_open (PositionRecord.position_id latest)
            entry_spread_actual close_buffer now_ms chat_id
      end
  end.

Definition confirm_close (chat_id : string) (close_spread_actual : float)
    (now_ms : Z) (position_id : option string) : M (option PositionRecord.t) :=
  match position_id with
  | Some target_id =>
      storage.close_position target_id close_spread_actual now_ms chat_id
  | None =>
      let* candidates :=
        storage.list_positions [STATUS_OPEN_CONFIRMED; STATUS_CLOSE_SIGNALLED] in
      if bool_decide (length candidates ≠ 1%nat) then ret None
      else
        match head candidates with
        | None => ret None
        | Some candidate =>
            storage.close_position (PositionRecord.position_id candidate)
              close_spread_actual now_ms chat_id
        end
  end.

Definition list_active_positions : M (list PositionRecord.t) :=
  storage.list_positions
    [STATUS_OPEN_PENDING_CONFIRM; STATUS_OPEN_CONFIRMED; STATUS_CLOSE_SIGNALLED].

End position_manager.

(** ** src/config_store.py *)

Module config_store.
Import models world.

Module RC := RuntimeConfig.

(** The Python types [float], [int] and [list], used as casters. *)
Inductive Caster := float_type | int_type | list_type.

Definition DYNAMIC_KEYS : list (string * Caster) :=
  [("threshold_open", float_type);
   ("close_buffer", float_type);
   ("repeat_alert_sec", int_type);
   ("annual_factor", float_type);
   ("poll_interval_sec", float_type);
   ("allowed_chat_ids", list_type)].

(** [c.isspace()], the white space of [str.strip()] and [str.split()]:
    the code points 9 to 13 and 28 to 32, the next line U+0085 and the
    no-break space U+00A0. *)
Definition is_space (c : Ascii.ascii) : bool :=
  let n := Ascii.nat_of_ascii c in
  ((9 <=? n)%nat && (n <=? 13)%nat) || ((28 <=? n)%nat && (n <=? 32)%nat)
  || (n =? 133)%nat || (n =? 160)%nat.

Fixpoint lstrip (s : string) : string :=
  match s with
  | EmptyString => EmptyString
  | String c s' => if is_space c then lstrip s' else s
  end.

Definition reverse_string (s : string) : string :=
  String.string_of_list_ascii (rev (String.list_ascii_of_string s)).

Definition strip (s : string) : string :=
  reverse_string (lstrip (reverse_string (lstrip s))).

Fixpoint split_on (sep : Ascii.ascii) (s : string) : list string :=
  match s with
  | EmptyString => [EmptyString]
  | String c s' =>
      if Ascii.eqb c sep then EmptyString :: split_on sep s'
      else
        match split_on sep s' with
        | [] => [String c EmptyString]
        | part :: parts => String c part :: parts
        end
  end.

Definition non_empty (s : string) : bool :=
  match s with
  | EmptyString => false
  | String _ _ => true
  end.

(** [float(z)] for an [int]: the nearest binary64, ties to even;
    [OverflowError] beyond the range. *)
Definition float_of_int (z : Z) : Outcome float :=
  let f := SF2Prim (binary_normalize prec emax z 0 false) in
  if is_infinity f then Raised OverflowError else Returned f.

(** [int(f)] for a [float]: truncation towards zero. *)
Definition int_of_float (f : float) : Outcome Z :=
  match Prim2SF f with
  | S754_nan => Raised ValueError
  | S754_infinity _ => Raised OverflowError
  | S754_zero _ => Returned 0
  | S754_finite sign m e =>
      let magnitude := if 0 <=? e then Z.pos m * 2 ^ e else Z.pos m / 2 ^ (- e) in
      Returned (if sign then - magnitude else magnitude)
  end.

(** [max(a, b)] of two arguments keeps [a] unless [b > a]. *)
Definition max_float (a b : float) : float := if (a <? b)%float then b else a.

Definition max_int (a b : Z) : Z := if a <? b then b else a.

Definition set_threshold_open (v : float) (c : RC.t) : RC.t :=
  RC.mk (RC.api_url c) (RC.quote_size c) (RC.pair c) (RC.poll_interval_sec c)
    v (RC.close_buffer c) (RC.repeat_alert_sec c) (RC.annual_factor c)
    (RC.config_refresh_sec c) (RC.data_ttl_days c) (RC.aws_region c)
    (RC.ticks_table c) (RC.positions_table c) (RC.config_table c)
    (RC.alerts_table c) (RC.tg_bot_token c) (RC.tg_allowed_chat_ids c).

Definition set_close_buffer (v : float) (c : RC.t) : RC.t :=
  RC.mk (RC.api_url c) (RC.quote_size c) (RC.pair c) (RC.poll_interval_sec c)
    (RC.threshold_open c) v (RC.repeat_alert_sec c) (RC.annual_factor c)
    (RC.config_refresh_sec c) (RC.data_ttl_days c) (RC.aws_region c)
    (RC.ticks_table c) (RC.positions_table c) (RC.config_table c)
    (RC.alerts_table c) (RC.tg_bot_token c) (RC.tg_allowed_chat_ids c).

Definition set_repeat_alert_sec (v : Z) (c : RC.t) : RC.t :=
  RC.mk (RC.api_url c) (RC.quote_size c) (RC.pair c) (RC.poll_interval_sec c)
    (RC.threshold_open c) (RC.close_buffer c) v (RC.annual_factor c)
    (RC.config_refresh_sec c) (RC.data_ttl_days c) (RC.aws_region c)
    (RC.ticks_table c) (RC.positions_table c) (RC.config_table c)
    (RC.alerts_table c) (RC.tg_bot_token c) (RC.tg_allowed_chat_ids c).

Definition set_annual_factor (v : float) (c : RC.t) : RC.t :=
  RC.mk (RC.api_url c) (RC.quote_size c) (RC.pair c) (RC.poll_interval_sec c)
    (RC.threshold_open c) (RC.close_buffer c) (RC.repeat_alert_sec c) v
    (RC.config_refresh_sec c) (RC.data_ttl_days c) (RC.aws_region c)
    (RC.ticks_table c) (RC.positions_table c) (RC.config_table c)
    (RC.alerts_table c) (RC.tg_bot_token c) (RC.tg_allowed_chat_ids c).

Definition set_poll_interval_sec (v : float) (c : RC.t) : RC.t :=
  RC.mk (RC.api_url c) (RC.quote_size c) (RC.pair c) v
    (RC.threshold_open c) (RC.close_buffer c) (RC.repeat_alert_sec c)
    (RC.annual_factor c)
    (RC.config_refresh_sec c) (RC.data_ttl_days c) (RC.aws_region c)
    (RC.ticks_table c) (RC.positions_table c) (RC.config_table c)
    (RC.alerts_table c) (RC.tg_bot_token c) (RC.tg_allowed_chat_ids c).

Definition set_tg_allowed_chat_ids (v : gset string) (c : RC.t) : RC.t :=
  RC.mk (RC.api_url c) (RC.quote_size c) (RC.pair c) (RC.poll_interval_sec c)
    (RC.threshold_open c) (RC.close_buffer c) (RC.repeat_alert_sec c)
    (RC.annual_factor c)
    (RC.config_refresh_sec c) (RC.data_ttl_days c) (RC.aws_region c)
    (RC.ticks_table c) (RC.positions_table c) (RC.config_table c)
    (RC.alerts_table c) (RC.tg_bot_token c) v.

Module RuntimeConfigStore.
Record t := mk {
  _base : RuntimeConfig.t;
  _current : RuntimeConfig.t;
  _last_refresh_ms : Z;
}.
End RuntimeConfigStore.

Section builtins.

(** Python's [float(s)] and [int(s)] on a [str] ([None]: [ValueError]) and
    [str(v)] on a value. *)
Variable float_of_str : string -> option float.
Variable int_of_str : string -> option Z.
Variable str_of : Raw -> string.

(** [float(x)]. *)
Definition py_float (x : Raw) : Outcome float :=
  match x with
  | RNone => Raised TypeError
  | RBool b => Returned (if b then 1%float else 0%float)
  | RInt z => float_of_int z
  | RFloat f => Returned f
  | RStr s =>
      match float_of_str s with
      | Some f => Returned f
      | None => Raised ValueError
      end
  | RList _ => Raised TypeError
  end.

(** [int(x)]. *)
Definition py_int (x : Raw) : Outcome Z :=
  match x with
  | RNone => Raised TypeError
  | RBool b => Returned (if b then 1 else 0)
  | RInt z => Returned z
  | RFloat f => int_of_float f
  | RStr s =>
      match int_of_str s with
      | Some z => Returned z
      | None => Raised ValueError
      end
  | RList _ => Raised TypeError
  end.

(** [list(x)]. *)
Definition py_list (x : Raw) : Outcome (list Raw) :=
  match x with
  | RList l => Returned l
  | RStr s => Returned ((fun c => RStr (String c EmptyString)) <$> String.list_ascii_of_string s)
  | _ => Raised TypeError
  end.

(** [caster(raw)]. *)
Definition call (caster : Caster) (raw : Raw) : Outcome Raw :=
  match caster with
  | float_type => and_then (py_float raw) (fun f => Returned (RFloat f))
  | int_type => and_then (py_int raw) (fun z => Returned (RInt z))
  | list_type => and_then (py_list raw) (fun l => Returned (RList l))
  end.

Definition _parse_chat_ids (raw : Raw) : gset string :=
  match raw with
  | RNone => ∅
  | RStr s => list_to_set (List.filter non_empty (strip <$> split_on ","%char s))
  | RList l => list_to_set (List.filter non_empty ((fun v => strip (str_of v)) <$> l))
  | _ => if non_empty (strip (str_of raw)) then {[ strip (str_of raw) ]} else ∅
  end.

(** The body of the [try] in [_merge_overrides]. *)
Definition apply_override (key : string) (caster : Caster) (raw : Raw) (config : RC.t)
    : Outcome RC.t :=
  if String.eqb key "allowed_chat_ids" then
    Returned (set_tg_allowed_chat_ids (_parse_chat_ids raw) config)
  else if String.eqb key "poll_interval_sec" then
    and_then (and_then (call caster raw) py_float)
      (fun v => Returned (set_poll_interval_sec (max_float 0.5 v) config))
  else if String.eqb key "repeat_alert_sec" then
    and_then (and_then (call caster raw) py_int)
      (fun v => Returned (set_repeat_alert_sec (max_int 30 v) config))
  else if String.eqb key "annual_factor" then
    and_then (and_then (call caster raw) py_float)
      (fun v => Returned (set_annual_factor v config))
  else if String.eqb key "threshold_open" then
    and_then (and_then (call caster raw) py_float)
      (fun v => Returned (set_threshold_open v config))
  else if String.eqb key "close_buffer" then
    and_then (and_then (call caster raw) py_float)
      (fun v => Returned (set_close_buffer v config))
  else Returned config.

(** One round of the loop: [continue] when the key has no override, and
    when the body raises [TypeError] or [ValueError]. *)
Definition merge_step (overrides : gmap string Raw) (config : RC.t)
    (entry : string * Caster) : Outcome RC.t :=
  match overrides !! entry.1 with
  | None => Returned config
  | Some raw =>
      match apply_override entry.1 entry.2 raw config with
      | Returned config' => Returned config'
      | Raised TypeError => Returned config
      | Raised ValueError => Returned config
      | Raised e => Raised e
      end
  end.

Fixpoint merge_loop (overrides : gmap string Raw) (entries : list (string * Caster))
    (config : RC.t) : Outcome RC.t :=
  match entries with
  | [] => Returned config
  | entry :: rest =>
      and_then (merge_step overrides config entry) (merge_loop overrides rest)
  end.

Definition _merge_overrides (base : RC.t) (overrides : gmap string Raw) : Outcome RC.t :=
  merge_loop overrides DYNAMIC_KEYS base.

Definition init (base_config : RC.t) : RuntimeConfigStore.t :=
  RuntimeConfigStore.mk base_config base_config 0.

Definition current (self : RuntimeConfigStore.t) : RC.t :=
  RuntimeConfigStore._current self.

(** [refresh] returns the store as the call leaves it, and the snapshot. *)
Definition refresh (self : RuntimeConfigStore.t) (now_ms : Z)
    : M (RuntimeConfigStore.t * RC.t) :=
  if now_ms - RuntimeConfigStore._last_refresh_ms self
     <? RC.config_refresh_sec (RuntimeConfigStore._current self) * 1000
  then ret (self, current self)
  else
    let* overrides := storage.load_config_map in
    let* merged := of_outcome (_merge_overrides (RuntimeConfigStore._base self) overrides) in
    let self' :=
      RuntimeConfigStore.mk (RuntimeConfigStore._base self) merged now_ms in
    ret (self', current self').

(** [save_override] returns the store as the call leaves it, due for a
    refresh, and the snapshot, which is still the old one.  [rejects] is
    boto3's refusal of a value and [int_of_decimal] Python's
    [int(Decimal(str(f)))], as in [storage.save_config_value]. *)
Definition save_override (rejects : Raw -> option Exn) (int_of_decimal : float -> Z)
    (self : RuntimeConfigStore.t) (key : string) (value : Raw)
    : M (RuntimeConfigStore.t * RC.t) :=
  let* _ := storage.save_config_value rejects int_of_decimal key value in
  let self' :=
    RuntimeConfigStore.mk (RuntimeConfigStore._base self)
      (RuntimeConfigStore._current self) 0 in
  ret (self', current self').

End builtins.

End config_store.

(** ** src/collector.py *)

Module collector.
Import models world.

(** A value of [resp.json()]; an object is a map from its keys. *)
#[warnings="-register-all"] Inductive Json :=
| JNull
| JBool (b : bool)
| JInt (z : Z)
| JFloat (f : float)
| JStr (s : string)
| JList (l : list Json)
| JDict (d : gmap string Json).

(** [d.get(key)]. *)
Definition get (key : string) (d : gmap string Json) : Json :=
  default JNull (d !! key).

(** What [fetch_snapshot] raises: a [CollectorError] with its message, or
    an exception of the code it calls. *)
Inductive Failure :=
| CollectorError (message : string)
| Uncaught (e : Exn).

Inductive Result (A : Type) :=
| Fetched (a : A)
| Failed (f : Failure).
Arguments Fetched {A} a.
Arguments Failed {A} f.

(** An exception of a called function goes through. *)
Definition calling {A B} (o : Outcome A) (k : A -> Result B) : Result B :=
  match o with
  | Returned a => k a
  | Raised e => Failed (Uncaught e)
  end.

Module MarketCollector.
Record t := mk {
  api_url : string;
  quote_size : string;
  annual_factor : float;
  timeout_sec : Z;
}.
End MarketCollector.

(** [sorted(keys, key=lambda v: str(v))]: the insertion sort is stable as
    Python's sort is, and the order of strings is that of their code
    points. *)
Fixpoint insert_key (key : string) (keys : list string) : list string :=
  match keys with
  | [] => [key]
  | k :: keys' =>
      if String.leb key k then key :: k :: keys' else k :: insert_key key keys'
  end.

Definition sorted_keys (keys : list string) : list string :=
  foldr insert_key [] keys.

Section parsing.

(** Python's [float(s)] on a [str], [None] for its [ValueError]. *)
Variable float_of_str : string -> option float.

(** [float(value)] on a JSON value. *)
Definition py_float (value : Json) : Outcome float :=
  match value with
  | JNull => Raised TypeError
  | JBool b => Returned (if b then 1%float else 0%float)
  | JInt z => config_store.float_of_int z
  | JFloat f => Returned f
  | JStr s =>
      match float_of_str s with
      | Some f => Returned f
      | None => Raised ValueError
      end
  | JList _ => Raised TypeError
  | JDict _ => Raised TypeError
  end.

(** [safe_float(value)] on a JSON value. *)
Definition safe_float (value : Json) : Outcome (option float) :=
  utils.safe_float (py_float value).

Definition _find_listing (listings : list Json) (ticker : string)
    : option (gmap string Json) :=
  let matches (item : Json) : option (gmap string Json) :=
    match item with
    | JDict d =>
        match d !! "ticker" with
        | Some (JStr t) => if String.eqb t ticker then Some d else None
        | _ => None
        end
    | _ => None
    end in
  (fix find (items : list Json) : option (gmap string Json) :=
     match items with
     | [] => None
     | item :: rest =>
         match matches item with
         | Some d => Some d
         | None => find rest
         end
     end) listings.

Definition _extract_quote_level (quote : Json) : Outcome (option (float * float)) :=
  match quote with
  | JDict d =>
      and_then (safe_float (get "bid" d)) (fun bid =>
      and_then (safe_float (get "ask" d)) (fun ask =>
      match bid, ask with
      | Some bid, Some ask => Returned (Some (bid, ask))
      | _, _ => Returned None
      end))
  | _ => Returned None
  end.

(** The loop of [_extract_quote] over the sorted keys. *)
Fixpoint first_quote_level (keys : list string) (quotes : gmap string Json)
    : Outcome (option (float * float * string)) :=
  match keys with
  | [] => Returned None
  | key :: rest =>
      and_then (_extract_quote_level (get key quotes)) (fun parsed =>
      match parsed with
      | Some (bid, ask) => Returned (Some (bid, ask, key))
      | None => first_quote_level rest quotes
      end)
  end.

Definition _extract_quote (self : MarketCollector.t) (listing : gmap string Json)
    : Outcome (option (float * float * string)) :=
  match get "quotes" listing with
  | JDict quotes =>
      if bool_decide (quotes = ∅) then Returned None
      else
        and_then (_extract_quote_level (get (MarketCollector.quote_size self) quotes))
          (fun preferred =>
           match preferred with
           | Some (bid, ask) => Returned (Some (bid, ask, MarketCollector.quote_size self))
           | None => first_quote_level (sorted_keys (map_to_list quotes).*1) quotes
           end)
  | _ => Returned None
  end.

(** [fetch_snapshot], given what the HTTP call produced (the text of its
    exception, or the decoded payload) and the two clock readings
    [latency_ms] and [now_utc_ms()]. *)
Definition fetch_snapshot (self : MarketCollector.t) (response : string + Json)
    (latency_ms ts_ms : Z) : Result MarketSnapshot.t :=
  match response with
  | inl exc => Failed (CollectorError (String.append "API request failed: " exc))
  | inr (JDict payload) =>
      match get "listings" payload with
      | JList listings =>
          match _find_listing listings "PAXG", _find_listing listings "XAUT" with
          | Some paxg, Some xaut =>
              calling (_extract_quote self paxg) (fun paxg_quote =>
              calling (_extract_quote self xaut) (fun xaut_quote =>
              match paxg_quote, xaut_quote with
              | Some (paxg_bid, paxg_ask, paxg_quote_size),
                Some (xaut_bid, xaut_ask, xaut_quote_size) =>
                  calling (safe_float (get "funding_rate" paxg)) (fun paxg_funding =>
                  calling (safe_float (get "funding_rate" xaut)) (fun xaut_funding =>
                  let funding_diff_raw :=
                    match paxg_funding, xaut_funding with
                    | Some p, Some x => Some (p - x)%float
                    | _, _ => None
                    end in
                  let funding_diff_annual :=
                    match funding_diff_raw with
                    | Some raw => Some (raw * MarketCollector.annual_factor self)%float
                    | None => None
                    end in
                  Fetched
                    {| MarketSnapshot.ts_ms := ts_ms;
                       MarketSnapshot.paxg_bid := paxg_bid;
                       MarketSnapshot.paxg_ask := paxg_ask;
                       MarketSnapshot.xaut_bid := xaut_bid;
                       MarketSnapshot.xaut_ask := xaut_ask;
                       MarketSnapshot.spread_open := (paxg_bid - xaut_ask)%float;
                       MarketSnapshot.spread_close := (xaut_bid - paxg_ask)%float;
                       MarketSnapshot.paxg_funding := paxg_funding;
                       MarketSnapshot.xaut_funding := xaut_funding;
                       MarketSnapshot.funding_diff_raw := funding_diff_raw;
                       MarketSnapshot.funding_diff_annual := funding_diff_annual;
                       MarketSnapshot.annual_factor := MarketCollector.annual_factor self;
                       MarketSnapshot.quote_size_paxg := paxg_quote_size;
                       MarketSnapshot.quote_size_xaut := xaut_quote_size;
                       MarketSnapshot.latency_ms := latency_ms |}))
              | _, _ => Failed (CollectorError "Missing quote data for PAXG/XAUT")
              end))
          | _, _ => Failed (CollectorError "PAXG or XAUT listing missing")
          end
      | _ => Failed (CollectorError "API payload missing listings list")
      end
  | inr _ => Failed (CollectorError "API payload is not an object")
  end.

End parsing.

End collector.

(** ** src/bot.py *)

Module bot.
Import world.

Module BotCommand.
Record t := mk {
  chat_id : string;
  user_id : string;
  text : string;
}.
End BotCommand.

Module TelegramBot.
Record t := mk {
  token : option string;
  allowed_chat_ids : gset string;
}.
End TelegramBot.

(** [__init__]: [allowed_chat_ids or set()]. *)
Definition init (token : option string) (allowed_chat_ids : option (gset string))
    : TelegramBot.t :=
  TelegramBot.mk token (default ∅ allowed_chat_ids).

(** [bool(self.token)]. *)
Definition enabled (self : TelegramBot.t) : bool :=
  match TelegramBot.token self with
  | Some token => config_store.non_empty token
  | None => false
  end.

Definition update_allowed_chat_ids (self : TelegramBot.t) (allowed_chat_ids : gset string)
    : TelegramBot.t :=
  TelegramBot.mk (TelegramBot.token self) allowed_chat_ids.

Definition is_authorized (self : TelegramBot.t) (chat_id : string) : bool :=
  if bool_decide (TelegramBot.allowed_chat_ids self = ∅) then false
  else bool_decide (chat_id ∈ TelegramBot.allowed_chat_ids self).

(** [send_message]: nothing without a token; otherwise the message is
    posted to the chat, here added to the messages [posted] so far.  A
    failure of the HTTP call is a collaborator failure, left out. *)
Definition send_message {T} (self : TelegramBot.t) (chat_id : string) (message : T)
    (posted : list (string * T)) : list (string * T) :=
  if enabled self then posted ++ [(chat_id, message)] else posted.

(** [for chat_id in self.allowed_chat_ids: self.send_message(...)], in the
    order the set is iterated. *)
Definition send_to_allowed {T} (self : TelegramBot.t) (message : T)
    (posted : list (string * T)) : list (string * T) :=
  foldl (fun posted chat_id => send_message self chat_id message posted) posted
    (elements (TelegramBot.allowed_chat_ids self)).

(** What [poll_commands] raises: the failure of the HTTP call or of the
    decoding of its answer, the [TypeError] of a loop over a value that is
    not iterable, the [AttributeError] of [.get] on a value that is no
    object. *)
Inductive PollError :=
| HttpError
| NotIterable
| NoAttribute.

Inductive Polled (A : Type) :=
| Received (a : A)
| PollFailed (e : PollError).
Arguments Received {A} a.
Arguments PollFailed {A} e.

(** [bool(value)] on a JSON value. *)
Definition truthy (value : collector.Json) : bool :=
  match value with
  | collector.JNull => false
  | collector.JBool b => b
  | collector.JInt z => negb (z =? 0)
  | collector.JFloat f => negb (f =? 0)%float
  | collector.JStr s => config_store.non_empty s
  | collector.JList l => match l with [] => false | _ :: _ => true end
  | collector.JDict d => negb (bool_decide (d = ∅))
  end.

(** [isinstance(value, int)]: a [bool] is an [int]. *)
Definition int_value (value : collector.Json) : option Z :=
  match value with
  | collector.JInt z => Some z
  | collector.JBool b => Some (if b then 1 else 0)
  | _ => None
  end.

(** [for update in data.get("result", [])]: the values the loop visits.
    The keys of an object and the characters of a text are iterated too;
    none is an object. *)
Definition iterate (result : option collector.Json) : Polled (list collector.Json) :=
  match result with
  | None => Received []
  | Some (collector.JList l) => Received l
  | Some (collector.JDict d) => Received (collector.JStr <$> (map_to_list d).*1)
  | Some (collector.JStr s) =>
      Received ((fun c => collector.JStr (String c EmptyString))
                  <$> String.list_ascii_of_string s)
  | Some _ => PollFailed NotIterable
  end.

(** [(value or {}).get("id", "")]. *)
Definition id_of (value : collector.Json) : Polled collector.Json :=
  if truthy value then
    match value with
    | collector.JDict d => Received (default (collector.JStr "") (d !! "id"))
    | _ => PollFailed NoAttribute
    end
  else Received (collector.JStr "").

(** [text.startswith("/")]. *)
Definition starts_with_slash (text : string) : bool :=
  match text with
  | String c _ => Ascii.eqb c "/"%char
  | EmptyString => false
  end.

Section polling.

(** Python's [str(v)] on a JSON value that is no text. *)
Variable str_of_json : collector.Json -> string.

(** [str(value)]: a text is its own [str]. *)
Definition str_of (value : collector.Json) : string :=
  match value with
  | collector.JStr s => s
  | _ => str_of_json value
  end.

(** The body of the loop of [poll_commands], on the commands and the
    offset collected so far. *)
Definition poll_update (update : collector.Json) (state : list BotCommand.t * option Z)
    : Polled (list BotCommand.t * option Z) :=
  match update with
  | collector.JDict u =>
      let next_offset :=
        match int_value (collector.get "update_id" u) with
        | Some update_id => Some (update_id + 1)
        | None => state.2
        end in
      match collector.get "message" u with
      | collector.JDict message =>
          match collector.get "text" message with
          | collector.JStr text =>
              if starts_with_slash text then
                match id_of (collector.get "chat" message) with
                | PollFailed e => PollFailed e
                | Received chat_value =>
                    match id_of (collector.get "from" message) with
                    | PollFailed e => PollFailed e
                    | Received user_value =>
                        let chat_id := str_of chat_value in
                        let user_id := str_of user_value in
                        if config_store.non_empty chat_id then
                          Received
                            (state.1 ++ [BotCommand.mk chat_id user_id
                                           (config_store.strip text)],
                             next_offset)
                        else Received (state.1, next_offset)
                    end
                end
              else Received (state.1, next_offset)
          | _ => Received (state.1, next_offset)
          end
      | _ => Received (state.1, next_offset)
      end
  | _ => Received state
  end.

Fixpoint poll_updates (updates : list collector.Json)
    (state : list BotCommand.t * option Z) : Polled (list BotCommand.t * option Z) :=
  match updates with
  | [] => Received state
  | update :: rest =>
      match poll_update update state with
      | PollFailed e => PollFailed e
      | Received state' => poll_updates rest state'
      end
  end.

(** [poll_commands], given what the HTTP call produced: [None] when it or
    the decoding of its answer raised, the decoded answer otherwise. *)
Definition poll_commands (self : TelegramBot.t) (offset : option Z)
    (response : option collector.Json) : Polled (list BotCommand.t * option Z) :=
  if negb (enabled self) then Received ([], offset)
  else
    match response with
    | None => PollFailed HttpError
    | Some (collector.JDict data) =>
        if truthy (collector.get "ok" data) then
          match iterate (data !! "result") with
          | PollFailed e => PollFailed e
          | Received updates => poll_updates updates ([], offset)
          end
        else Received ([], offset)
    | Some _ => Received ([], offset)
    end.

End polling.

End bot.

(** ** src/main.py *)

Module main.
Import models world.

(** What leaves a command handler uncaught, or reaches its [except]. *)
Inductive Failure :=
| Exception (e : Exn)
| IndexError.

(** The text of a message posted to Telegram, kept as the arguments it is
    rendered from. *)
Inductive Text :=
| UnauthorizedText
| HelpText
| NoSnapshotText
| StatusText (snapshot : MarketSnapshot.t) (threshold_open : float)
| NoActivePositionsText
| ActivePositionsText (positions : list PositionRecord.t)
| OpenUsageText
| NoPendingMatchedText
| OpenConfirmedText (position_id : string) (entry_spread_actual close_trigger : float)
| CloseUsageText
| NoOpenMatchedText
| CloseConfirmedText (position_id : string) (close_spread_actual : float)
| SetUsageText
| UnsupportedKeyText
| InvalidValueTypeText
| UpdatedText (key : string) (effective : Raw)
| ConfigText (cfg : RuntimeConfig.t)
| UnknownCommandText
| CommandFailedText (exc : Failure)
| ApiFailureAlertText (consecutive_failures : Z) (reason : string).

(** The fields of [MonitorService] the handlers read and write; the
    storage gateway and the position manager are the tables of the
    [World]. *)
Module MonitorService.
Record t := mk {
  config_store : config_store.RuntimeConfigStore.t;
  last_snapshot : option MarketSnapshot.t;
  last_update_id : option Z;
  bot : bot.TelegramBot.t;
  api_failure_count : Z;
  last_api_failure_alert_ts : Z;
  api_failure_alert_threshold : Z;
  api_failure_alert_cooldown_sec : Z;
}.
End MonitorService.

Definition set_config_store (v : config_store.RuntimeConfigStore.t) (self : MonitorService.t)
    : MonitorService.t :=
  MonitorService.mk v (MonitorService.last_snapshot self)
    (MonitorService.last_update_id self) (MonitorService.bot self)
    (MonitorService.api_failure_count self) (MonitorService.last_api_failure_alert_ts self)
    (MonitorService.api_failure_alert_threshold self)
    (MonitorService.api_failure_alert_cooldown_sec self).

Definition set_last_update_id (v : option Z) (self : MonitorService.t) : MonitorService.t :=
  MonitorService.mk (MonitorService.config_store self) (MonitorService.last_snapshot self)
    v (MonitorService.bot self)
    (MonitorService.api_failure_count self) (MonitorService.last_api_failure_alert_ts self)
    (MonitorService.api_failure_alert_threshold self)
    (MonitorService.api_failure_alert_cooldown_sec self).

Definition set_api_failure_count (v : Z) (self : MonitorService.t) : MonitorService.t :=
  MonitorService.mk (MonitorService.config_store self) (MonitorService.last_snapshot self)
    (MonitorService.last_update_id self)
    (MonitorService.bot self) v (MonitorService.last_api_failure_alert_ts self)
    (MonitorService.api_failure_alert_threshold self)
    (MonitorService.api_failure_alert_cooldown_sec self).

Definition set_last_api_failure_alert_ts (v : Z) (self : MonitorService.t)
    : MonitorService.t :=
  MonitorService.mk (MonitorService.config_store self) (MonitorService.last_snapshot self)
    (MonitorService.last_update_id self)
    (MonitorService.bot self) (MonitorService.api_failure_count self) v
    (MonitorService.api_failure_alert_threshold self)
    (MonitorService.api_failure_alert_cooldown_sec self).

(** The running service: its object, the messages posted to Telegram so
    far, the tables. *)
Record Process := mkProcess {
  service : MonitorService.t;
  posted : list (string * Text);
  tables : World;
}.

Inductive Result (A : Type) :=
| Ok (a : A)
| Fail (f : Failure).
Arguments Ok {A} a.
Arguments Fail {A} f.

(** A method of the service: it reads and writes the process and returns
    or raises. *)
Definition P (A : Type) : Type := Process -> Result A * Process.

Definition ok {A} (a : A) : P A := fun p => (Ok a, p).

Definition fail {A} (f : Failure) : P A := fun p => (Fail f, p).

Definition bind_p {A B} (m : P A) (k : A -> P B) : P B :=
  fun p =>
    match m p with
    | (Ok a, p') => k a p'
    | (Fail f, p') => (Fail f, p')
    end.

Notation "'let!' x ':=' m 'in' k" := (bind_p m (fun x => k))
  (at level 10, x name, m at level 100, k at level 200).

(** A call into the storage gateway or the manager. *)
Definition lift {A} (m : M A) : P A :=
  fun p =>
    match m (tables p) with
    | (Returned a, w) => (Ok a, mkProcess (service p) (posted p) w)
    | (Raised e, w) => (Fail (Exception e), mkProcess (service p) (posted p) w)
    end.

Definition get_service : P MonitorService.t := fun p => (Ok (service p), p).

Definition set_service (self : MonitorService.t) : P unit :=
  fun p => (Ok tt, mkProcess self (posted p) (tables p)).

(** [try: body except Exception as exc: handler(exc)]: what the body did
    before it raised stays done. *)
Definition try_except {A} (body : P A) (handler : Failure -> P A) : P A :=
  fun p =>
    match body p with
    | (Ok a, p') => (Ok a, p')
    | (Fail exc, p') => handler exc p'
    end.

(** [self.bot.send_message(chat_id, message)]. *)
Definition send_message (chat_id : string) (message : Text) : P unit :=
  fun p =>
    (Ok tt,
     mkProcess (service p)
       (bot.send_message (MonitorService.bot (service p)) chat_id message (posted p))
       (tables p)).

(** [_notify_allowed]: to every allowed chat, when the bot has a token and
    a chat is allowed; a failed send is logged and skipped. *)
Definition _notify_allowed (message : Text) : P unit :=
  fun p =>
    let bot := MonitorService.bot (service p) in
    if bot.enabled bot
       && negb (bool_decide (bot.TelegramBot.allowed_chat_ids bot = ∅))
    then
      (Ok tt,
       mkProcess (service p)
         (foldl (fun posted chat_id => bot.send_message bot chat_id message posted)
            (posted p) (elements (bot.TelegramBot.allowed_chat_ids bot)))
         (tables p))
    else (Ok tt, p).

Definition _handle_api_failure (error : string) (now_ms : Z) : P unit :=
  let! self := get_service in
  let! _ :=
    set_service (set_api_failure_count (MonitorService.api_failure_count self + 1) self) in
  let! self := get_service in
  if MonitorService.api_failure_count self
     <? MonitorService.api_failure_alert_threshold self
  then ok tt
  else if now_ms - MonitorService.last_api_failure_alert_ts self
          <? MonitorService.api_failure_alert_cooldown_sec self * 1000
  then ok tt
  else
    let! _ := set_service (set_last_api_failure_alert_ts now_ms self) in
    _notify_allowed
      (ApiFailureAlertText (MonitorService.api_failure_count self) error).

(** [str.split()]: the words between runs of white space. *)
Fixpoint tokens (s : string) : string * list string :=
  match s with
  | EmptyString => (EmptyString, [])
  | String c s' =>
      let (token, rest) := tokens s' in
      if config_store.is_space c
      then (EmptyString, if config_store.non_empty token then token :: rest else rest)
      else (String c token, rest)
  end.

Definition split (s : string) : list string :=
  let (token, rest) := tokens s in
  if config_store.non_empty token then token :: rest else rest.

(** [str.lower()]: the capital letters A to Z and, of the Latin-1 range,
    U+00C0 to U+00DE but for the sign U+00D7, go to the letter 32 code
    points up. *)
Definition lower_ascii (c : Ascii.ascii) : Ascii.ascii :=
  let n := Ascii.nat_of_ascii c in
  if ((65 <=? n)%nat && (n <=? 90)%nat)
     || ((192 <=? n)%nat && (n <=? 222)%nat && negb (n =? 215)%nat)
  then Ascii.ascii_of_nat (n + 32) else c.

Fixpoint lower (s : string) : string :=
  match s with
  | EmptyString => EmptyString
  | String c s' => String (lower_ascii c) (lower s')
  end.

(** The [key_map] of [_handle_set_command]. *)
Definition key_map (key_alias : string) : option (string * config_store.Caster) :=
  if String.eqb key_alias "open" then Some ("threshold_open", config_store.float_type)
  else if String.eqb key_alias "repeat" then Some ("repeat_alert_sec", config_store.int_type)
  else if String.eqb key_alias "annual" then Some ("annual_factor", config_store.float_type)
  else if String.eqb key_alias "close_buffer"
  then Some ("close_buffer", config_store.float_type)
  else if String.eqb key_alias "poll"
  then Some ("poll_interval_sec", config_store.float_type)
  else None.

(** The [effective_map] of [_handle_set_command], at one of its keys. *)
Definition effective (key : string) (cfg : RuntimeConfig.t) : Raw :=
  if String.eqb key "threshold_open" then RFloat (RuntimeConfig.threshold_open cfg)
  else if String.eqb key "repeat_alert_sec" then RInt (RuntimeConfig.repeat_alert_sec cfg)
  else if String.eqb key "annual_factor" then RFloat (RuntimeConfig.annual_factor cfg)
  else if String.eqb key "close_buffer" then RFloat (RuntimeConfig.close_buffer cfg)
  else RFloat (RuntimeConfig.poll_interval_sec cfg).

Section handlers.

(** Python's [float(s)] and [int(s)] on a [str] ([None]: [ValueError]) and
    [str(v)] on a value; boto3's refusal of a value and Python's
    [int(Decimal(str(f)))]; the error [format_position_summary] raises on
    a position whose [updated_at_ts] is out of the range of
    [datetime.fromtimestamp], if it is. *)
Variable float_of_str : string -> option float.
Variable int_of_str : string -> option Z.
Variable str_of : Raw -> string.
Variable rejects : Raw -> option Exn.
Variable int_of_decimal : float -> Z.
Variable summary_error : PositionRecord.t -> option Exn.

(** [float(text)], a [ValueError] on text that is no number. *)
Definition float_of_text (text : string) : P float :=
  match float_of_str text with
  | Some f => ok f
  | None => fail (Exception ValueError)
  end.

(** [caster(raw_value)] on text, [None] for its [ValueError]. *)
Definition cast_text (caster : config_store.Caster) (raw_value : string) : option Raw :=
  match caster with
  | config_store.float_type => RFloat <$> float_of_str raw_value
  | config_store.int_type => RInt <$> int_of_str raw_value
  | config_store.list_type =>
      Some (RList ((fun c => RStr (String c EmptyString))
                     <$> String.list_ascii_of_string raw_value))
  end.

(** [for pos in positions: lines.append(format_position_summary(pos))]. *)
Fixpoint format_summaries (positions : list PositionRecord.t) : P unit :=
  match positions with
  | [] => ok tt
  | position :: rest =>
      match summary_error position with
      | Some e => fail (Exception e)
      | None => format_summaries rest
      end
  end.

(** The part of [_handle_open_command] after the arguments are read. *)
Definition confirm_open_command (chat_id : string) (cfg : RuntimeConfig.t) (now_ms : Z)
    (position_id : option string) (entry_spread_actual : float) : P unit :=
  let! position :=
    lift (position_manager.confirm_open chat_id entry_spread_actual
            (RuntimeConfig.close_buffer cfg) now_ms position_id) in
  match position with
  | None => send_message chat_id NoPendingMatchedText
  | Some position =>
      let! _ :=
        match PositionRecord.entry_spread_actual position,
              PositionRecord.close_trigger position with
        | Some entry, Some trigger =>
            send_message chat_id
              (OpenConfirmedText (PositionRecord.position_id position) entry trigger)
        | _, _ => fail (Exception TypeError)
        end in
      lift (storage.put_alert
              {| AlertPayload.ts_ms := now_ms;
                 AlertPayload.alert_type := "OPEN_CONFIRMED";
                 AlertPayload.position_id := PositionRecord.position_id position;
                 AlertPayload.message := "position open confirmed";
                 AlertPayload.spread := ("entry_spread_actual", entry_spread_actual) |})
  end.

Definition _handle_open_command (parts : list string) (chat_id : string)
    (cfg : RuntimeConfig.t) (now_ms : Z) : P unit :=
  match parts with
  | [_; actual] =>
      let! entry_spread_actual := float_of_text actual in
      confirm_open_command chat_id cfg now_ms None entry_spread_actual
  | [_; position_id; actual] =>
      let! entry_spread_actual := float_of_text actual in
      confirm_open_command chat_id cfg now_ms (Some position_id) entry_spread_actual
  | _ => send_message chat_id OpenUsageText
  end.

(** The part of [_handle_close_command] after the arguments are read. *)
Definition confirm_close_command (chat_id : string) (now_ms : Z)
    (position_id : option string) (close_spread_actual : float) : P unit :=
  let! position :=
    lift (position_manager.confirm_close chat_id close_spread_actual now_ms
            position_id) in
  match position with
  | None => send_message chat_id NoOpenMatchedText
  | Some position =>
      let! _ :=
        match PositionRecord.close_spread_actual position with
        | Some actual =>
            send_message chat_id
              (CloseConfirmedText (PositionRecord.position_id position) actual)
        | None => fail (Exception TypeError)
        end in
      lift (storage.put_alert
              {| AlertPayload.ts_ms := now_ms;
                 AlertPayload.alert_type := "CLOSE_CONFIRMED";
                 AlertPayload.position_id := PositionRecord.position_id position;
                 AlertPayload.message := "position close confirmed";
                 AlertPayload.spread := ("close_spread_actual", close_spread_actual) |})
  end.

Definition _handle_close_command (parts : list string) (chat_id : string) (now_ms : Z)
    : P unit :=
  match parts with
  | [_; actual] =>
      let! close_spread_actual := float_of_text actual in
      confirm_close_command chat_id now_ms None close_spread_actual
  | [_; position_id; actual] =>
      let! close_spread_actual := float_of_text actual in
      confirm_close_command chat_id now_ms (Some position_id) close_spread_actual
  | _ => send_message chat_id CloseUsageText
  end.

Definition _handle_set_command (parts : list string) (chat_id : string) (now_ms : Z)
    : P unit :=
  match parts with
  | [_; alias; value] =>
      let key_alias := lower (config_store.strip alias) in
      let raw_value := config_store.strip value in
      match key_map key_alias with
      | None => send_message chat_id UnsupportedKeyText
      | Some (key, caster) =>
          match cast_text caster raw_value with
          | None => send_message chat_id InvalidValueTypeText
          | Some value =>
              let! self := get_service in
              let! saved :=
                lift (config_store.save_override rejects int_of_decimal
                        (MonitorService.config_store self) key value) in
              let! _ := set_service (set_config_store saved.1 self) in
              let! self := get_service in
              let! refreshed :=
                lift (config_store.refresh float_of_str int_of_str str_of
                        (MonitorService.config_store self) now_ms) in
              let! _ := set_service (set_config_store refreshed.1 self) in
              send_message chat_id (UpdatedText key (effective key refreshed.2))
          end
      end
  | _ => send_message chat_id SetUsageText
  end.

(** The body of the [try] of [_handle_command]. *)
Definition dispatch (cmd : string) (parts : list string) (chat_id : string)
    (cfg : RuntimeConfig.t) (now_ms : Z) : P unit :=
  if String.eqb cmd "/start" || String.eqb cmd "/help" then
    send_message chat_id HelpText
  else if String.eqb cmd "/status" then
    let! self := get_service in
    match MonitorService.last_snapshot self with
    | None => send_message chat_id NoSnapshotText
    | Some snapshot =>
        send_message chat_id (StatusText snapshot (RuntimeConfig.threshold_open cfg))
    end
  else if String.eqb cmd "/positions" then
    let! positions := lift position_manager.list_active_positions in
    match positions with
    | [] => send_message chat_id NoActivePositionsText
    | _ =>
        let! _ := format_summaries positions in
        send_message chat_id (ActivePositionsText positions)
    end
  else if String.eqb cmd "/open" then _handle_open_command parts chat_id cfg now_ms
  else if String.eqb cmd "/close" then _handle_close_command parts chat_id now_ms
  else if String.eqb cmd "/set" then _handle_set_command parts chat_id now_ms
  else if String.eqb cmd "/config" then send_message chat_id (ConfigText cfg)
  else send_message chat_id UnknownCommandText.

Definition _handle_command (command : bot.BotCommand.t) (cfg : RuntimeConfig.t)
    (now_ms : Z) : P unit :=
  let chat_id := bot.BotCommand.chat_id command in
  let! self := get_service in
  if negb (bot.is_authorized (MonitorService.bot self) chat_id) then
    send_message chat_id UnauthorizedText
  else
    match split (bot.BotCommand.text command) with
    | [] => fail IndexError
    | first :: rest =>
        try_except (dispatch (lower first) (first :: rest) chat_id cfg now_ms)
          (fun exc => send_message chat_id (CommandFailedText exc))
    end.

(** Python's [str(v)] on a JSON value that is no text. *)
Variable str_of_json : collector.Json -> string.

(** [for command in commands: self._handle_command(command, cfg, now_ms)]. *)
Fixpoint handle_commands (commands : list bot.BotCommand.t) (cfg : RuntimeConfig.t)
    (now_ms : Z) : P unit :=
  match commands with
  | [] => ok tt
  | command :: rest =>
      let! _ := _handle_command command cfg now_ms in
      handle_commands rest cfg now_ms
  end.

(** [_poll_bot_commands], given what the HTTP call of the poll produced. *)
Definition _poll_bot_commands (cfg : RuntimeConfig.t) (now_ms : Z)
    (response : option collector.Json) : P unit :=
  let! self := get_service in
  if negb (bot.enabled (MonitorService.bot self)) then ok tt
  else
    match bot.poll_commands str_of_json (MonitorService.bot self)
            (MonitorService.last_update_id self) response with
    | bot.PollFailed _ => ok tt
    | bot.Received (commands, next_offset) =>
        let! _ := set_service (set_last_update_id next_offset self) in
        handle_commands commands cfg now_ms
    end.

End handlers.

(** What one round of [run] does with the outcome of [fetch_snapshot]: a
    snapshot resets the count of failures, a failure goes to
    [_handle_api_failure]. *)
Inductive Fetch :=
| Fetched
| FetchFailed (error : string).

Definition record_fetch (outcome : Fetch) (now_ms : Z) : P unit :=
  match outcome with
  | Fetched =>
      let! self := get_service in
      set_service (set_api_failure_count 0 self)
  | FetchFailed error => _handle_api_failure error now_ms
  end.

End main.

(** ** Vocabulary of the properties: sequences of storage calls, invariants *)

Module lifecycle.
Import models world.

(** One call of the storage gateway on the positions table. *)
Inductive Op :=
| Create (signal_spread : float) (signal_ts : Z) (metadata : Metadata) (now_ms : Z)
| ConfirmOpen (position_id : string) (entry_spread_actual close_buffer : float)
    (now_ms : Z) (chat_id : string)
| MarkOpenAlertSent (position_id : string) (now_ms : Z)
| MarkCloseSignalled (position_id : string) (now_ms : Z)
| MarkCloseAlertSent (position_id : string) (now_ms : Z)
| ClosePosition (position_id : string) (close_spread_actual : float)
    (now_ms : Z) (chat_id : string).

(** The world after the call, whatever it returned. *)
Definition run_op (op : Op) (w : World) : World :=
  match op with
  | Create signal_spread signal_ts metadata now_ms =>
      (storage.create_pending_position signal_spread signal_ts metadata now_ms w).2
  | ConfirmOpen position_id entry_spread_actual close_buffer now_ms chat_id =>
      (storage.confirm_open position_id entry_spread_actual close_buffer now_ms chat_id w).2
  | MarkOpenAlertSent position_id now_ms =>
      (storage.mark_open_alert_sent position_id now_ms w).2
  | MarkCloseSignalled position_id now_ms =>
      (storage.mark_close_signalled position_id now_ms w).2
  | MarkCloseAlertSent position_id now_ms =>
      (storage.mark_close_alert_sent position_id now_ms w).2
  | ClosePosition position_id close_spread_actual now_ms chat_id =>
      (storage.close_position position_id close_spread_actual now_ms chat_id w).2
  end.

Definition run (ops : list Op) (w : World) : World :=
  foldl (fun w op => run_op op w) w ops.

(** The [status] attribute stored under a key, if any. *)
Definition status_of (w : World) (position_id : string) : option Status :=
  match positions_table w !! position_id with
  | Some item => Item.status item
  | None => None
  end.

(** The place of a status in the order of legal transitions. *)
Definition rank (s : Status) : nat :=
  match s with
  | STATUS_OPEN_PENDING_CONFIRM => 0
  | STATUS_OPEN_CONFIRMED => 1
  | STATUS_CLOSE_SIGNALLED => 2
  | STATUS_CLOSED => 3
  end.

(** [uuid.uuid4()] never returns this key again. *)
Definition never_drawn (w : World) (position_id : string) : Prop :=
  ∀ n : nat, (uuid4_calls w ≤ n)%nat → uuid4_values w n ≠ position_id.

(** An item that has a status has the attributes
    [_position_from_item] requires. *)
Definition wf_item (item : Item.t) : bool :=
  match Item.status item with
  | None => true
  | Some _ =>
      bool_decide (is_Some (Item.created_at_ts item))
      && bool_decide (is_Some (Item.updated_at_ts item))
      && bool_decide (is_Some (Item.signal_spread item))
      && bool_decide (is_Some (Item.signal_ts item))
  end.

Definition wf_table (table : gmap string Item.t) : Prop :=
  map_Forall (fun _ item => wf_item item = true) table.

(** The arguments of one [confirm_open] command. *)
Record ConfirmArgs := mkConfirmArgs {
  arg_chat_id : string;
  arg_entry_spread_actual : float;
  arg_close_buffer : float;
  arg_now_ms : Z;
}.

Definition manager_confirm_open (a : ConfirmArgs) (position_id : string)
    : M (option PositionRecord.t) :=
  position_manager.confirm_open (arg_chat_id a) (arg_entry_spread_actual a)
    (arg_close_buffer a) (arg_now_ms a) (Some position_id).

(** What [storage.confirm_open] raises before its request reaches the
    table, if anything: the refusal of the entry spread or, the entry being
    accepted, of the close trigger. *)
Definition confirm_open_error (w : World) (entry_spread_actual close_buffer : float)
    : option Exn :=
  match storage.number_error w entry_spread_actual with
  | Some e => Some e
  | None =>
      storage.number_error w (signals.close_trigger entry_spread_actual close_buffer)
  end.

(** The table takes the numbers of the confirmation [a]. *)
Definition confirmable (w : World) (a : ConfirmArgs) : Prop :=
  confirm_open_error w (arg_entry_spread_actual a) (arg_close_buffer a) = None.

(** Two confirmations of the same key, [a1] before [a2]: the first returns
    the record it wrote, now OPEN_CONFIRMED with its own entry spread as
    the table holds it; the second returns [None] and leaves the world as
    the first left it. *)
Definition first_confirmer_wins (w : World) (position_id : string)
    (a1 a2 : ConfirmArgs) : Prop :=
  ∃ (r1 : PositionRecord.t) (w1 : World),
    manager_confirm_open a1 position_id w = (Returned (Some r1), w1)
    ∧ PositionRecord.position_id r1 = position_id
    ∧ PositionRecord.status r1 = STATUS_OPEN_CONFIRMED
    ∧ PositionRecord.entry_spread_actual r1
      = Some (storage.float_from_decimal (arg_entry_spread_actual a1))
    ∧ PositionRecord.chat_id r1 = Some (arg_chat_id a1)
    ∧ manager_confirm_open a2 position_id w1 = (Returned None, w1)
    ∧ storage.get_position position_id w1 = (Returned (Some r1), w1).

(** A confirmation whose numbers the table refuses raises, and the world
    stays as it was, the position still to be confirmed. *)
Definition refused_confirmer_raises (w : World) (position_id : string)
    (a : ConfirmArgs) : Prop :=
  ∀ e, confirm_open_error w (arg_entry_spread_actual a) (arg_close_buffer a) = Some e →
       manager_confirm_open a position_id w = (Raised e, w).

(** What a conditional update returns once the write went through: the
    record of the new attributes. *)
Definition returned_record (position_id : string) (attributes : Item.t)
    : Outcome (option PositionRecord.t) :=
  and_then (storage._position_from_item position_id attributes)
    (fun p => Returned (Some p)).

(** The item [create_pending_position] writes, and its record under a key. *)
Definition created_item (signal_spread : float) (signal_ts : Z)
    (metadata : Metadata) (now_ms : Z) : Item.t :=
  {| Item.status := Some STATUS_OPEN_PENDING_CONFIRM;
     Item.created_at_ts := Some now_ms;
     Item.updated_at_ts := Some now_ms;
     Item.signal_spread := Some signal_spread;
     Item.signal_ts := Some signal_ts;
     Item.last_open_alert_ts := Some now_ms;
     Item.metadata_json := Some metadata;
     Item.entry_spread_actual := None;
     Item.close_trigger := None;
     Item.opened_at_confirm_ts := None;
     Item.close_signalled_ts := None;
     Item.last_close_alert_ts := None;
     Item.close_spread_actual := None;
     Item.closed_at_confirm_ts := None;
     Item.chat_id := None |}.

Definition created_record (position_id : string) (signal_spread : float)
    (signal_ts : Z) (metadata : Metadata) (now_ms : Z) : PositionRecord.t :=
  {| PositionRecord.position_id := position_id;
     PositionRecord.status := STATUS_OPEN_PENDING_CONFIRM;
     PositionRecord.created_at_ts := now_ms;
     PositionRecord.updated_at_ts := now_ms;
     PositionRecord.signal_spread := signal_spread;
     PositionRecord.signal_ts := signal_ts;
     PositionRecord.last_open_alert_ts := now_ms;
     PositionRecord.entry_spread_actual := None;
     PositionRecord.opened_at_confirm_ts := None;
     PositionRecord.close_trigger := None;
     PositionRecord.close_signalled_ts := None;
     PositionRecord.last_close_alert_ts := None;
     PositionRecord.close_spread_actual := None;
     PositionRecord.closed_at_confirm_ts := None;
     PositionRecord.chat_id := None;
     PositionRecord.metadata := metadata |}.

(** What [put_alert] raises on a payload with the spread [x], if anything:
    the refusal of the number, when there is an alerts table. *)
Definition put_alert_error (w : World) (x : float) : option Exn :=
  match alerts_table w with
  | None => None
  | Some _ => storage.number_error w x
  end.

(** The metadata [process_open_signals] stores with a new position. *)
Definition signal_metadata (snapshot : MarketSnapshot.t) : Metadata :=
  [("spread_close", Some (MarketSnapshot.spread_close snapshot));
   ("funding_diff_annual", MarketSnapshot.funding_diff_annual snapshot)].

(** The next value of [uuid.uuid4()]. *)
Definition next_uuid (w : World) : string := uuid4_values w (uuid4_calls w).

(** Two configurations with the same five numeric settings. *)
Definition same_numbers (c c' : RuntimeConfig.t) : Prop :=
  RuntimeConfig.threshold_open c' = RuntimeConfig.threshold_open c
  ∧ RuntimeConfig.close_buffer c' = RuntimeConfig.close_buffer c
  ∧ RuntimeConfig.repeat_alert_sec c' = RuntimeConfig.repeat_alert_sec c
  ∧ RuntimeConfig.annual_factor c' = RuntimeConfig.annual_factor c
  ∧ RuntimeConfig.poll_interval_sec c' = RuntimeConfig.poll_interval_sec c.

(** A cast that raises one of the two errors [_merge_overrides] catches. *)
Definition cast_fails {A} (o : Outcome A) : Prop :=
  o = Raised TypeError ∨ o = Raised ValueError.

(** A listed position on which one round of [process_close_signals] at
    [now_ms] stays silent: close-signalled, its last close alert less than
    the repeat interval ago. *)
Definition in_cooldown (cfg : RuntimeConfig.t) (now_ms : Z) (p : PositionRecord.t)
    : Prop :=
  PositionRecord.status p = STATUS_CLOSE_SIGNALLED
  ∧ signals.should_repeat (PositionRecord.last_close_alert_ts p) now_ms
      (RuntimeConfig.repeat_alert_sec cfg) = false.

(** Every key of [table'] holds what it held in [table], or an item whose
    last close alert was stamped at [t]. *)
Definition stamped_since (t : Z) (table table' : gmap string Item.t) : Prop :=
  ∀ key : string,
    table' !! key = table !! key
    ∨ ∃ item, table' !! key = Some item ∧ Item.last_close_alert_ts item = Some t.

(** The order of a listing: by signal time. *)
Definition ts_le (p q : PositionRecord.t) : Prop :=
  PositionRecord.signal_ts p ≤ PositionRecord.signal_ts q.

(** [p] is the record of the item [kv.2] stored under the key [kv.1]. *)
Definition converts (kv : string * Item.t) (p : PositionRecord.t) : Prop :=
  storage._position_from_item kv.1 kv.2 = Returned p.

(** A computation that leaves a well-formed table well-formed. *)
Definition preserves_wf {A} (m : M A) : Prop :=
  ∀ w : World, wf_table (positions_table w) → wf_table (positions_table (m w).2).

(** The number of items of the table whose status is one of [statuses]. *)
Definition count_status (statuses : list Status) (table : gmap string Item.t) : nat :=
  length (List.filter (fun kv => storage.status_is_in statuses kv.2) (map_to_list table)).

(** The filter of a scan: every item when no status is asked for. *)
Definition selected (statuses : list Status) (item : Item.t) : bool :=
  match statuses with
  | [] => true
  | _ => storage.status_is_in statuses item
  end.

(** [p] is the record of an item the table holds under [p]'s key and the
    scan selects. *)
Definition listed_from (statuses : list Status) (table : gmap string Item.t)
    (p : PositionRecord.t) : Prop :=
  ∃ item,
    table !! PositionRecord.position_id p = Some item
    ∧ selected statuses item = true
    ∧ storage._position_from_item (PositionRecord.position_id p) item = Returned p.

(** The scan selects an item whose conversion raises [e]. *)
Definition unconvertible (statuses : list Status) (table : gmap string Item.t)
    (e : Exn) : Prop :=
  ∃ key item,
    table !! key = Some item
    ∧ selected statuses item = true
    ∧ storage._position_from_item key item = Raised e.

(** [r] after [mark_open_alert_sent] at [t]. *)
Definition stamp_open_alert (t : Z) (r : PositionRecord.t) : PositionRecord.t :=
  {| PositionRecord.position_id := PositionRecord.position_id r;
     PositionRecord.status := PositionRecord.status r;
     PositionRecord.created_at_ts := PositionRecord.created_at_ts r;
     PositionRecord.updated_at_ts := t;
     PositionRecord.signal_spread := PositionRecord.signal_spread r;
     PositionRecord.signal_ts := PositionRecord.signal_ts r;
     PositionRecord.last_open_alert_ts := t;
     PositionRecord.entry_spread_actual := PositionRecord.entry_spread_actual r;
     PositionRecord.opened_at_confirm_ts := PositionRecord.opened_at_confirm_ts r;
     PositionRecord.close_trigger := PositionRecord.close_trigger r;
     PositionRecord.close_signalled_ts := PositionRecord.close_signalled_ts r;
     PositionRecord.last_close_alert_ts := PositionRecord.last_close_alert_ts r;
     PositionRecord.close_spread_actual := PositionRecord.close_spread_actual r;
     PositionRecord.closed_at_confirm_ts := PositionRecord.closed_at_confirm_ts r;
     PositionRecord.chat_id := PositionRecord.chat_id r;
     PositionRecord.metadata := PositionRecord.metadata r |}.

(** [r] after [mark_close_alert_sent] at [t]. *)
Definition stamp_close_alert (t : Z) (r : PositionRecord.t) : PositionRecord.t :=
  {| PositionRecord.position_id := PositionRecord.position_id r;
     PositionRecord.status := PositionRecord.status r;
     PositionRecord.created_at_ts := PositionRecord.created_at_ts r;
     PositionRecord.updated_at_ts := t;
     PositionRecord.signal_spread := PositionRecord.signal_spread r;
     PositionRecord.signal_ts := PositionRecord.signal_ts r;
     PositionRecord.last_open_alert_ts := PositionRecord.last_open_alert_ts r;
     PositionRecord.entry_spread_actual := PositionRecord.entry_spread_actual r;
     PositionRecord.opened_at_confirm_ts := PositionRecord.opened_at_confirm_ts r;
     PositionRecord.close_trigger := PositionRecord.close_trigger r;
     PositionRecord.close_signalled_ts := PositionRecord.close_signalled_ts r;
     PositionRecord.last_close_alert_ts := Some t;
     PositionRecord.close_spread_actual := PositionRecord.close_spread_actual r;
     PositionRecord.closed_at_confirm_ts := PositionRecord.closed_at_confirm_ts r;
     PositionRecord.chat_id := PositionRecord.chat_id r;
     PositionRecord.metadata := PositionRecord.metadata r |}.

(** [r] after [mark_close_signalled] at [t]. *)
Definition promoted (t : Z) (r : PositionRecord.t) : PositionRecord.t :=
  {| PositionRecord.position_id := PositionRecord.position_id r;
     PositionRecord.status := STATUS_CLOSE_SIGNALLED;
     PositionRecord.created_at_ts := PositionRecord.created_at_ts r;
     PositionRecord.updated_at_ts := t;
     PositionRecord.signal_spread := PositionRecord.signal_spread r;
     PositionRecord.signal_ts := PositionRecord.signal_ts r;
     PositionRecord.last_open_alert_ts := PositionRecord.last_open_alert_ts r;
     PositionRecord.entry_spread_actual := PositionRecord.entry_spread_actual r;
     PositionRecord.opened_at_confirm_ts := PositionRecord.opened_at_confirm_ts r;
     PositionRecord.close_trigger := PositionRecord.close_trigger r;
     PositionRecord.close_signalled_ts := Some t;
     PositionRecord.last_close_alert_ts := Some t;
     PositionRecord.close_spread_actual := PositionRecord.close_spread_actual r;
     PositionRecord.closed_at_confirm_ts := PositionRecord.closed_at_confirm_ts r;
     PositionRecord.chat_id := PositionRecord.chat_id r;
     PositionRecord.metadata := PositionRecord.metadata r |}.

(** The record of a pending position [r] once it was confirmed open at
    [opened_at] with [entry_spread_actual] and then confirmed closed at
    [closed_at] with [close_spread_actual] by [chat_id], the three numbers
    as the table holds them. *)
Definition closed_record (r : PositionRecord.t) (entry_spread_actual close_buffer : float)
    (opened_at : Z) (close_spread_actual : float) (closed_at : Z) (chat_id : string)
    : PositionRecord.t :=
  {| PositionRecord.position_id := PositionRecord.position_id r;
     PositionRecord.status := STATUS_CLOSED;
     PositionRecord.created_at_ts := PositionRecord.created_at_ts r;
     PositionRecord.updated_at_ts := closed_at;
     PositionRecord.signal_spread := PositionRecord.signal_spread r;
     PositionRecord.signal_ts := PositionRecord.signal_ts r;
     PositionRecord.last_open_alert_ts := PositionRecord.last_open_alert_ts r;
     PositionRecord.entry_spread_actual :=
       Some (storage.float_from_decimal entry_spread_actual);
     PositionRecord.opened_at_confirm_ts := Some opened_at;
     PositionRecord.close_trigger :=
       Some (storage.float_from_decimal
               (signals.close_trigger entry_spread_actual close_buffer));
     PositionRecord.close_signalled_ts := PositionRecord.close_signalled_ts r;
     PositionRecord.last_close_alert_ts := PositionRecord.last_close_alert_ts r;
     PositionRecord.close_spread_actual :=
       Some (storage.float_from_decimal close_spread_actual);
     PositionRecord.closed_at_confirm_ts := Some closed_at;
     PositionRecord.chat_id := Some chat_id;
     PositionRecord.metadata := PositionRecord.metadata r |}.

(** What the later life of a position leaves alone in an item that had
    status [s]: the signal it was created from, always; the entry of the
    trade, once confirmed open; the whole outcome, once closed.  Only the
    alert stamps and [updated_at_ts] stay free. *)
Definition frozen (s : Status) (item item' : Item.t) : Prop :=
  (Item.created_at_ts item' = Item.created_at_ts item
   ∧ Item.signal_spread item' = Item.signal_spread item
   ∧ Item.signal_ts item' = Item.signal_ts item
   ∧ Item.metadata_json item' = Item.metadata_json item)
  ∧ (s ≠ STATUS_OPEN_PENDING_CONFIRM →
     Item.entry_spread_actual item' = Item.entry_spread_actual item
     ∧ Item.close_trigger item' = Item.close_trigger item
     ∧ Item.opened_at_confirm_ts item' = Item.opened_at_confirm_ts item)
  ∧ (s = STATUS_CLOSED →
     Item.status item' = Some STATUS_CLOSED
     ∧ Item.close_signalled_ts item' = Item.close_signalled_ts item
     ∧ Item.close_spread_actual item' = Item.close_spread_actual item
     ∧ Item.closed_at_confirm_ts item' = Item.closed_at_confirm_ts item
     ∧ Item.chat_id item' = Item.chat_id item).

(** The number of positions awaiting their open confirmation. *)
Definition pending_count (table : gmap string Item.t) : nat :=
  count_status [STATUS_OPEN_PENDING_CONFIRM] table.

(** A computation that adds no pending position. *)
Definition adds_no_pending {A} (m : M A) : Prop :=
  ∀ w : World,
    (pending_count (positions_table (m w).2) ≤ pending_count (positions_table w))%nat.

(** The messages of [new] about the position [position_id]. *)
Definition messages_about (position_id : string) (new : list Message) : list Message :=
  List.filter (fun m => String.eqb (message_position_id m) position_id) new.

(** The branch the body of the loop of [process_close_signals] takes on a
    listed position: the first close signal, a reminder, or nothing. *)
Inductive CloseAction := Promote | Remind | Skip.

Definition close_action (snapshot : MarketSnapshot.t) (cfg : RuntimeConfig.t)
    (now_ms : Z) (p : PositionRecord.t) : CloseAction :=
  match PositionRecord.close_trigger p with
  | None => Skip
  | Some _ =>
      if bool_decide (PositionRecord.status p = STATUS_OPEN_CONFIRMED)
         && signals.is_close_signal snapshot p
      then Promote
      else if bool_decide (PositionRecord.status p = STATUS_CLOSE_SIGNALLED)
              && signals.should_repeat (PositionRecord.last_close_alert_ts p)
                   now_ms (RuntimeConfig.repeat_alert_sec cfg)
      then Remind
      else Skip
  end.

(** The item a branch leaves under the key of the position. *)
Definition close_round_item (a : CloseAction) (now_ms : Z) (item : Item.t) : Item.t :=
  match a with
  | Promote => storage.set_close_signalled now_ms item
  | Remind => storage.set_close_alert_sent now_ms item
  | Skip => item
  end.

(** The messages a branch sends about the position [p] stored as [item]. *)
Definition close_round_messages (a : CloseAction) (snapshot : MarketSnapshot.t)
    (now_ms : Z) (p : PositionRecord.t) (item : Item.t) (new : list Message) : Prop :=
  match a with
  | Promote =>
      ∃ updated,
        storage._position_from_item (PositionRecord.position_id p)
          (storage.set_close_signalled now_ms item) = Returned updated
        ∧ new = [CloseSignalText updated snapshot false]
  | Remind => new = [CloseSignalText p snapshot true]
  | Skip => new = []
  end.

(** [p] is the record of the item the table holds under its key. *)
Definition stored_as (table : gmap string Item.t) (p : PositionRecord.t)
    (item : Item.t) : Prop :=
  table !! PositionRecord.position_id p = Some item
  ∧ storage._position_from_item (PositionRecord.position_id p) item = Returned p.

(** The value a setting takes from the stored override [raw]: the cast
    value through [f] when there is one and its cast returns, else
    [fallback]. *)
Definition override_or {A} (raw : option Raw) (cast : Raw → Outcome A) (f : A → A)
    (fallback : A) : A :=
  match raw with
  | Some raw =>
      match cast raw with
      | Returned v => f v
      | Raised _ => fallback
      end
  | None => fallback
  end.

(** Two configurations of the same deployment: everything no override can
    reach is equal. *)
Definition same_deployment (c c' : RuntimeConfig.t) : Prop :=
  RuntimeConfig.api_url c' = RuntimeConfig.api_url c
  ∧ RuntimeConfig.quote_size c' = RuntimeConfig.quote_size c
  ∧ RuntimeConfig.pair c' = RuntimeConfig.pair c
  ∧ RuntimeConfig.config_refresh_sec c' = RuntimeConfig.config_refresh_sec c
  ∧ RuntimeConfig.data_ttl_days c' = RuntimeConfig.data_ttl_days c
  ∧ RuntimeConfig.aws_region c' = RuntimeConfig.aws_region c
  ∧ RuntimeConfig.ticks_table c' = RuntimeConfig.ticks_table c
  ∧ RuntimeConfig.positions_table c' = RuntimeConfig.positions_table c
  ∧ RuntimeConfig.config_table c' = RuntimeConfig.config_table c
  ∧ RuntimeConfig.alerts_table c' = RuntimeConfig.alerts_table c
  ∧ RuntimeConfig.tg_bot_token c' = RuntimeConfig.tg_bot_token c.

(** A cast that raises the error [_merge_overrides] does not catch. *)
Definition overflows {A} (raw : option Raw) (cast : Raw → Outcome A) : Prop :=
  ∃ r, raw = Some r ∧ cast r = Raised OverflowError.

(** What the handling of a fetch reads and writes of the service: the
    count of consecutive failures, the time of the last alert, and the two
    limits. *)
Definition same_failure_state (self self' : main.MonitorService.t) : Prop :=
  main.MonitorService.api_failure_count self' = main.MonitorService.api_failure_count self
  ∧ main.MonitorService.last_api_failure_alert_ts self'
    = main.MonitorService.last_api_failure_alert_ts self
  ∧ main.MonitorService.api_failure_alert_threshold self'
    = main.MonitorService.api_failure_alert_threshold self
  ∧ main.MonitorService.api_failure_alert_cooldown_sec self'
    = main.MonitorService.api_failure_alert_cooldown_sec self.

(** A step of the service: the handling of the outcome of a fetch at a
    clock, or anything else the service does (in [run]: the refresh of the
    configuration, the update of the allowed chats, the poll of the bot,
    the tick, the signals), which may post, write the tables and change
    the other fields of the service. *)
Inductive Step :=
| Handle (outcome : main.Fetch) (now_ms : Z)
| Rest (f : main.Process → main.Process).

Definition run_step (p : main.Process) (step : Step) : main.Process :=
  match step with
  | Handle outcome now_ms => (main.record_fetch outcome now_ms p).2
  | Rest f => f p
  end.

Definition run_steps (steps : list Step) (p : main.Process) : main.Process :=
  foldl run_step p steps.

(** A step that assigns none of the four fields the handling of a fetch
    works with; the handling itself is under no such condition. *)
Definition keeps_failure_state (step : Step) : Prop :=
  match step with
  | Handle _ _ => True
  | Rest f => ∀ p, same_failure_state (main.service p) (main.service (f p))
  end.

(** The handlings among the steps. *)
Definition handlings (steps : list Step) : list (main.Fetch * Z) :=
  omap (fun step =>
          match step with
          | Handle outcome now_ms => Some (outcome, now_ms)
          | Rest _ => None
          end) steps.

(** No handling of a fetch among the steps, run from [p], posts
    anything. *)
Definition handlings_post_nothing (steps : list Step) (p : main.Process) : Prop :=
  ∀ before outcome now_ms after,
    steps = before ++ Handle outcome now_ms :: after →
    main.posted (main.record_fetch outcome now_ms (run_steps before p)).2
    = main.posted (run_steps before p).

(** The alert of an API failure, posted to every allowed chat. *)
Definition api_failure_alerts (self : main.MonitorService.t) (count : Z) (error : string)
    : list (string * main.Text) :=
  (fun chat_id => (chat_id, main.ApiFailureAlertText count error))
    <$> elements (bot.TelegramBot.allowed_chat_ids (main.MonitorService.bot self)).

(** The order of the keys of a JSON object, as a relation. *)
Definition key_le (a b : string) : Prop := String.leb a b = true.

(** The process after one reply to [chat_id], nothing else touched. *)
Definition replied (p : main.Process) (chat_id : string) (reply : main.Text)
    : main.Process :=
  main.mkProcess (main.service p)
    (bot.send_message (main.MonitorService.bot (main.service p)) chat_id reply
       (main.posted p))
    (main.tables p).

(** Everything of the service but its two failure counters. *)
Definition same_settings (self self' : main.MonitorService.t) : Prop :=
  main.MonitorService.config_store self' = main.MonitorService.config_store self
  ∧ (main.MonitorService.last_snapshot self' = main.MonitorService.last_snapshot self
     ∧ main.MonitorService.last_update_id self' = main.MonitorService.last_update_id self)
  ∧ main.MonitorService.bot self' = main.MonitorService.bot self
  ∧ main.MonitorService.api_failure_alert_threshold self'
    = main.MonitorService.api_failure_alert_threshold self
  ∧ main.MonitorService.api_failure_alert_cooldown_sec self'
    = main.MonitorService.api_failure_alert_cooldown_sec self.

(** A text with a character that is no white space. *)
Fixpoint has_word (s : string) : bool :=
  match s with
  | EmptyString => false
  | String c s' => negb (config_store.is_space c) || has_word s'
  end.

(** What the poll of the bot reads of the service: the bot and the offset
    of the next poll. *)
Definition same_poll_state (self self' : main.MonitorService.t) : Prop :=
  main.MonitorService.last_update_id self' = main.MonitorService.last_update_id self
  ∧ main.MonitorService.bot self' = main.MonitorService.bot self.

(** A method that leaves both as they are in [self]. *)
Definition keeps_poll_state {A} (self : main.MonitorService.t) (m : main.P A) : Prop :=
  ∀ p, same_poll_state self (main.service p) →
       same_poll_state self (main.service (m p).2).

(** The [update_id] of an update that is an object with an integer one. *)
Definition update_id_of (update : collector.Json) : option Z :=
  match update with
  | collector.JDict u => bot.int_value (collector.get "update_id" u)
  | _ => None
  end.

(** The updates the loop of [poll_commands] visits in an answer: those of
    the ["result"] of an object whose ["ok"] is true, none in any other
    answer. *)
Definition updates_of (response : option collector.Json) : list collector.Json :=
  match response with
  | Some (collector.JDict data) =>
      if bot.truthy (collector.get "ok" data) then
        match bot.iterate (data !! "result") with
        | bot.Received updates => updates
        | bot.PollFailed _ => []
        end
      else []
  | _ => []
  end.

(** The offset after a list of updates: the successor of the [update_id]
    of the last update that has one, the offset given when none has. *)
Definition offset_after (offset : option Z) (updates : list collector.Json)
    : option Z :=
  match last (omap update_id_of updates) with
  | Some update_id => Some (update_id + 1)
  | None => offset
  end.

End lifecycle.

(** ** Sample worlds, after [tests/test_position_manager.py] *)

Module samples.
Import models world.

Definition snapshot (spread_open spread_close : float) : MarketSnapshot.t :=
  {| MarketSnapshot.ts_ms := 1000;
     MarketSnapshot.paxg_bid := 2300;
     MarketSnapshot.paxg_ask := 2301;
     MarketSnapshot.xaut_bid := 2299;
     MarketSnapshot.xaut_ask := 2300;
     MarketSnapshot.spread_open := spread_open;
     MarketSnapshot.spread_close := spread_close;
     MarketSnapshot.paxg_funding := Some 0.01%float;
     MarketSnapshot.xaut_funding := Some 0.005%float;
     MarketSnapshot.funding_diff_raw := Some 0.005%float;
     MarketSnapshot.funding_diff_annual := Some 1.825%float;
     MarketSnapshot.annual_factor := 365;
     MarketSnapshot.quote_size_paxg := "size_100k";
     MarketSnapshot.quote_size_xaut := "size_100k";
     MarketSnapshot.latency_ms := 20 |}.

(** The defaults of [load_runtime_config]. *)
Definition cfg : RuntimeConfig.t :=
  {| RuntimeConfig.api_url := "https://omni-client-api.prod.ap-northeast-1.variational.io/metadata/stats";
     RuntimeConfig.quote_size := "size_100k";
     RuntimeConfig.pair := PAIR;
     RuntimeConfig.poll_interval_sec := 2;
     RuntimeConfig.threshold_open := 40;
     RuntimeConfig.close_buffer := 0;
     RuntimeConfig.repeat_alert_sec := 300;
     RuntimeConfig.annual_factor := 365;
     RuntimeConfig.config_refresh_sec := 30;
     RuntimeConfig.data_ttl_days := 90;
     RuntimeConfig.aws_region := "ap-northeast-1";
     RuntimeConfig.ticks_table := "var_gold_ticks";
     RuntimeConfig.positions_table := "var_gold_positions";
     RuntimeConfig.config_table := "var_gold_config";
     RuntimeConfig.alerts_table := Some "var_gold_alerts";
     RuntimeConfig.tg_bot_token := None;
     RuntimeConfig.tg_allowed_chat_ids := ∅ |}.

(** A pending position without metadata. *)
Definition pending_item (signal_spread : float) (signal_ts now_ms : Z) : Item.t :=
  lifecycle.created_item signal_spread signal_ts [] now_ms.

Definition pending_record (position_id : string) (signal_spread : float)
    (signal_ts now_ms : Z) : PositionRecord.t :=
  lifecycle.created_record position_id signal_spread signal_ts [] now_ms.

(** The item of the position of [test_close_signal_promotes_position]. *)
Definition confirmed_item (status : Status) (last_close_alert_ts : option Z) : Item.t :=
  {| Item.status := Some status;
     Item.created_at_ts := Some 1;
     Item.updated_at_ts := Some 1;
     Item.signal_spread := Some 42%float;
     Item.signal_ts := Some 1;
     Item.last_open_alert_ts := Some 1;
     Item.metadata_json := Some [];
     Item.entry_spread_actual := Some 39%float;
     Item.close_trigger := Some (-39)%float;
     Item.opened_at_confirm_ts := Some 1;
     Item.close_signalled_ts := last_close_alert_ts;
     Item.last_close_alert_ts := last_close_alert_ts;
     Item.close_spread_actual := None;
     Item.closed_at_confirm_ts := None;
     Item.chat_id := Some "chat" |}.

(** Its record while OPEN_CONFIRMED. *)
Definition confirmed_record (position_id : string) : PositionRecord.t :=
  {| PositionRecord.position_id := position_id;
     PositionRecord.status := STATUS_OPEN_CONFIRMED;
     PositionRecord.created_at_ts := 1;
     PositionRecord.updated_at_ts := 1;
     PositionRecord.signal_spread := 42;
     PositionRecord.signal_ts := 1;
     PositionRecord.last_open_alert_ts := 1;
     PositionRecord.entry_spread_actual := Some 39%float;
     PositionRecord.opened_at_confirm_ts := Some 1;
     PositionRecord.close_trigger := Some (-39)%float;
     PositionRecord.close_signalled_ts := None;
     PositionRecord.last_close_alert_ts := None;
     PositionRecord.close_spread_actual := None;
     PositionRecord.closed_at_confirm_ts := None;
     PositionRecord.chat_id := Some "chat";
     PositionRecord.metadata := [] |}.

(** A supply of identifiers, all different. *)
Definition uuids (n : nat) : string := String "u" (pretty n).

(** A table that takes zero and every number from [1e-130] to below
    [1e126] in magnitude. *)
Definition beyond_range (x : float) : bool :=
  (1e126 <=? abs x)%float || ((0 <? abs x)%float && (abs x <? 1e-130)%float).

Definition world_of (table : gmap string Item.t) : World :=
  {| positions_table := table;
     alerts_table := Some ∅;
     config_table := ∅;
     uuid4_values := uuids;
     uuid4_calls := 0;
     sent := [];
     out_of_range := beyond_range |}.

Definition one_pending : World :=
  world_of {[ "p1" := pending_item 42 1000 2000000 ]}.

Definition two_pending : World :=
  world_of (<[ "p2" := pending_item 43 5000 2004000 ]>
             {[ "p1" := pending_item 42 1000 2000000 ]}).

Definition two_open : World :=
  world_of (<[ "p2" := confirmed_item STATUS_CLOSE_SIGNALLED (Some 2500000) ]>
             {[ "p1" := confirmed_item STATUS_OPEN_CONFIRMED None ]}).

(** The overrides of the samples hold no text that is a number: on them
    [float(s)] and [int(s)] raise [ValueError]. *)
Definition float_of_str (s : string) : option float := None.

Definition int_of_str (s : string) : option Z := None.

(** [str(v)] on the values the samples use. *)
Definition str_of (v : Raw) : string :=
  match v with
  | RStr s => s
  | RInt z => pretty z
  | RNone => "None"
  | RBool true => "True"
  | RBool false => "False"
  | _ => ""
  end.

Definition refresh (self : config_store.RuntimeConfigStore.t) (now_ms : Z)
    : M (config_store.RuntimeConfigStore.t * RuntimeConfig.t) :=
  config_store.refresh float_of_str int_of_str str_of self now_ms.

(** A world whose configuration table holds [overrides]. *)
Definition config_world (overrides : gmap string Raw) : World :=
  {| positions_table := ∅;
     alerts_table := Some ∅;
     config_table := overrides;
     uuid4_values := uuids;
     uuid4_calls := 0;
     sent := [];
     out_of_range := beyond_range |}.

(** The store after a refresh at 100 s that found the override
    [threshold_open = 45]. *)
Definition store_with_45 : config_store.RuntimeConfigStore.t :=
  config_store.RuntimeConfigStore.mk cfg
    (config_store.set_threshold_open 45 cfg) 100000.

Definition alice : lifecycle.ConfirmArgs := lifecycle.mkConfirmArgs "alice" 39 0 2100000.

Definition bob : lifecycle.ConfirmArgs := lifecycle.mkConfirmArgs "bob" 38.5 2 2100001.

(** A confirmation whose entry spread is no number. *)
Definition carol : lifecycle.ConfirmArgs := lifecycle.mkConfirmArgs "carol" nan 0 2100002.

(** A bot with a token that allows the chat "alice". *)
Definition telegram_bot : bot.TelegramBot.t :=
  bot.TelegramBot.mk (Some "123:abc") {[ "alice" ]}.

(** The service as [__init__] leaves it, with the default alert threshold
    of 3 failures and cooldown of 300 seconds. *)
Definition monitor : main.MonitorService.t :=
  main.MonitorService.mk (config_store.init cfg) None None telegram_bot 0 0 3 300.

(** The service over the tables of [w], nothing posted yet. *)
Definition process_of (self : main.MonitorService.t) (w : World) : main.Process :=
  main.mkProcess self [] w.

(** The table accepts every value, and every position has a summary. *)
Definition rejects (value : Raw) : option Exn := None.

Definition summary_error (position : PositionRecord.t) : option Exn := None.

(** [float(s)] and [int(s)] on the texts the sample commands carry. *)
Definition float_of_text (s : string) : option float :=
  if String.eqb s "39" then Some 39%float
  else if String.eqb s "-38.2" then Some (-38.2)%float
  else if String.eqb s "45" then Some 45%float
  else if String.eqb s "nan" then Some nan
  else None.

Definition int_of_text (s : string) : option Z :=
  if String.eqb s "10" then Some 10
  else if String.eqb s "600" then Some 600
  else None.

(** [int(Decimal(str(f)))] on the numbers of the samples, whose digits
    are those of the float itself. *)
Definition int_of_decimal (f : float) : Z :=
  match config_store.int_of_float f with
  | Returned z => z
  | Raised _ => 0
  end.

Definition _handle_command (command : bot.BotCommand.t) (cfg : RuntimeConfig.t)
    (now_ms : Z) : main.P unit :=
  main._handle_command float_of_text int_of_text str_of rejects int_of_decimal
    summary_error command cfg now_ms.

(** A payload of the API: two listings, each with quotes at two sizes. *)
Definition quote_level (bid ask : Z) : collector.Json :=
  collector.JDict
    (<[ "bid" := collector.JInt bid ]> {[ "ask" := collector.JInt ask ]}).

Definition quotes (bid ask : Z) : gmap string collector.Json :=
  <[ "size_100k" := quote_level bid ask ]>
    {[ "size_1k" := quote_level (bid + 1) (ask - 1) ]}.

Definition listing (ticker : string) (bid ask : Z) : gmap string collector.Json :=
  <[ "ticker" := collector.JStr ticker ]>
    {[ "quotes" := collector.JDict (quotes bid ask) ]}.

Definition payload : collector.Json :=
  collector.JDict
    {[ "listings" :=
         collector.JList [collector.JDict (listing "XAUT" 2299 2300);
                          collector.JDict (listing "PAXG" 2340 2341)] ]}.

Definition market_collector : collector.MarketCollector.t :=
  collector.MarketCollector.mk
    "https://omni-client-api.prod.ap-northeast-1.variational.io/metadata/stats"
    "size_100k" 365 10.

(** [str(v)] on the identifiers of the sample updates. *)
Definition str_of_json (value : collector.Json) : string :=
  match value with
  | collector.JInt z => pretty z
  | collector.JNull => "None"
  | collector.JBool true => "True"
  | collector.JBool false => "False"
  | _ => ""
  end.

(** A stretch of the service: a failed fetch, a reply to a chat, a failed
    fetch. *)
Definition reply_step : lifecycle.Step :=
  lifecycle.Rest (fun p => (main.send_message "alice" main.HelpText p).2).

Definition failure_steps : list lifecycle.Step :=
  [lifecycle.Handle (main.FetchFailed "timeout") 1000; reply_step;
   lifecycle.Handle (main.FetchFailed "timeout") 3000].

(** An update of [getUpdates] carrying [text] from the chat [chat_id]. *)
Definition update (update_id : Z) (chat_id : collector.Json) (text : string)
    : collector.Json :=
  collector.JDict
    (<[ "update_id" := collector.JInt update_id ]>
       {[ "message" :=
            collector.JDict
              (<[ "text" := collector.JStr text ]>
                 (<[ "chat" := collector.JDict {[ "id" := chat_id ]} ]>
                    {[ "from" := collector.JDict {[ "id" := collector.JInt 7 ]} ]})) ]}).

(** An answer of [getUpdates]: a command, a text that is none. *)
Definition updates : collector.Json :=
  collector.JDict
    (<[ "ok" := collector.JBool true ]>
       {[ "result" :=
            collector.JList [update 11 (collector.JStr "alice") "/status ";
                             update 12 (collector.JInt 42) "hello"] ]}).

End samples.

(** * Properties *)

Import models world lifecycle.

(** ** Signals *)

Section ieee_order.

(** Swapping the operands of the IEEE comparison reverses its result. *)
Lemma SFcompare_swap (f1 f2 : spec_float) :
  SFcompare f2 f1 = CompOpp <$> SFcompare f1 f2.
Proof.
  destruct f1 as [s1| s1| |s1 m1 e1], f2 as [s2| s2| |s2 m2 e2]; simpl;
    try reflexivity;
    try (destruct s1; reflexivity);
    try (destruct s2; reflexivity);
    try (destruct s1, s2; reflexivity).
  destruct s1, s2; simpl; try reflexivity;
    rewrite (Z.compare_antisym e1 e2);
    destruct (e1 ?= e2) eqn:He; simpl; try reflexivity;
    rewrite (Pos.compare_cont_antisym m1 m2 Eq); simpl;
    destruct (Pos.compare_cont Eq m1 m2); reflexivity.
Qed.

Lemma SFcompare_refl (f : spec_float) :
  f ≠ S754_nan → SFcompare f f = Some Eq.
Proof.
  destruct f as [s| s| |s m e]; simpl; intros Hnan; try congruence.
  - destruct s; reflexivity.
  - destruct s; rewrite Z.compare_refl;
      change (Pos.compare_cont Eq m m) with (Pos.compare m m);
      rewrite Pos.compare_refl; reflexivity.
Qed.

Lemma is_nan_false (x : float) : is_nan x = false → Prim2SF x ≠ S754_nan.
Proof.
  unfold is_nan. rewrite FloatAxioms.eqb_spec. intros H Hnan.
  rewrite Hnan in H. discriminate H.
Qed.

Lemma float_ge_ieee (x y : float) :
  signals.float_ge x y = true ↔ signals.ieee_ge x y.
Proof.
  unfold signals.float_ge, signals.ieee_ge.
  rewrite FloatAxioms.leb_spec. unfold SFleb.
  rewrite (SFcompare_swap (Prim2SF x) (Prim2SF y)).
  destruct (SFcompare (Prim2SF x) (Prim2SF y)) as [[ | | ]|]; simpl;
    split; intros H; try discriminate H; try tauto;
    destruct H as [H|H]; discriminate H.
Qed.

(** What is read back of a number is equal to it in the order of the
    floats. *)
Lemma float_from_decimal_eqb (x : float) :
  is_nan x = false → (storage.float_from_decimal x =? x)%float = true.
Proof.
  intros Hnum. unfold storage.float_from_decimal.
  destruct (x =? 0)%float eqn:Hzero.
  - rewrite FloatAxioms.eqb_spec in *. unfold SFeqb in *.
    rewrite (SFcompare_swap (Prim2SF x) (Prim2SF 0)).
    destruct (SFcompare (Prim2SF x) (Prim2SF 0)) as [[]|]; simpl in *;
      congruence.
  - rewrite FloatAxioms.eqb_spec. unfold SFeqb.
    rewrite SFcompare_refl; [reflexivity|]. apply is_nan_false, Hnum.
Qed.

(** The comparisons do not tell what is read back of a number from the
    number. *)
Lemma ieee_ge_from_decimal (x t : float) :
  signals.ieee_ge x (storage.float_from_decimal t) ↔ signals.ieee_ge x t.
Proof.
  unfold storage.float_from_decimal.
  destruct (t =? 0)%float eqn:Hzero; [|reflexivity].
  rewrite FloatAxioms.eqb_spec in Hzero. unfold SFeqb in Hzero.
  unfold signals.ieee_ge.
  change (Prim2SF 0) with (S754_zero false) in *.
  destruct (Prim2SF t) as [st|st| |st mt et]; simpl in Hzero;
    try discriminate Hzero; try (destruct st; discriminate Hzero).
  destruct (Prim2SF x) as [sx|sx| |sx mx ex]; reflexivity.
Qed.

End ieee_order.

(** C8. For every snapshot and threshold, [is_open_signal] is true exactly
    when [spread_open >= threshold_open] in the order of binary64 values,
    and a spread equal to the threshold (any number, that is not a NaN)
    is a signal. *)
Theorem is_open_signal_iff (snapshot : MarketSnapshot.t) (threshold_open : float) :
  (signals.is_open_signal snapshot threshold_open = true
     ↔ signals.ieee_ge (MarketSnapshot.spread_open snapshot) threshold_open)
  ∧ (is_nan threshold_open = false →
     MarketSnapshot.spread_open snapshot = threshold_open →
     signals.is_open_signal snapshot threshold_open = true).
Proof.
  split.
  - unfold signals.is_open_signal. apply float_ge_ieee.
  - intros Hnum Heq. unfold signals.is_open_signal.
    apply float_ge_ieee. rewrite Heq. right.
    apply SFcompare_refl, is_nan_false, Hnum.
Qed.

Lemma is_open_signal_iff_witness :
  is_nan 40 = false
  ∧ MarketSnapshot.spread_open (samples.snapshot 40 (-39)) = 40%float
  ∧ signals.is_open_signal (samples.snapshot 40 (-39)) 40 = true.
Proof.
  split; [vm_compute; reflexivity|]. split; [reflexivity|].
  apply (proj2 (is_open_signal_iff (samples.snapshot 40 (-39)) 40)).
  - vm_compute. reflexivity.
  - reflexivity.
Defined.

(** C7. [should_repeat] is true exactly when no alert was stamped yet or
    the time since the stamp, in milliseconds, is at least the interval of
    [repeat_alert_sec] seconds; the bound is inclusive, as the three values
    of the unit test show at every [now_ms]. *)
Theorem should_repeat_iff (last_alert_ts : option Z) (now_ms repeat_alert_sec : Z) :
  (signals.should_repeat last_alert_ts now_ms repeat_alert_sec = true
     ↔ last_alert_ts = None
       ∨ ∃ last, last_alert_ts = Some last ∧ (now_ms - last >= repeat_alert_sec * 1000)%Z)
  ∧ signals.should_repeat None now_ms 300 = true
  ∧ signals.should_repeat (Some (now_ms - 299000)) now_ms 300 = false
  ∧ signals.should_repeat (Some (now_ms - 300000)) now_ms 300 = true.
Proof.
  repeat split.
  - destruct last_alert_ts as [last|]; simpl; intros H.
    + right. exists last. split; [reflexivity|]. apply Z.leb_le in H. lia.
    + left. reflexivity.
  - intros [->|(last & -> & H)]; simpl; [reflexivity|].
    apply Z.leb_le. lia.
  - simpl. apply Z.leb_gt. lia.
  - simpl. apply Z.leb_le. lia.
Qed.

(** ** The storage gateway *)

Section storage_facts.

Lemma bind_Returned {A B} (m : M A) (k : A → M B) (w w' : World) (a : A) :
  m w = (Returned a, w') → bind m k w = k a w'.
Proof. intros H. unfold bind. rewrite H. reflexivity. Qed.

Lemma bind_Raised {A B} (m : M A) (k : A → M B) (w w' : World) (e : Exn) :
  m w = (Raised e, w') → bind m k w = (Raised e, w').
Proof. intros H. unfold bind. rewrite H. reflexivity. Qed.

Lemma bind_update_item_hit {B} (key : string) (condition : Item.t → bool)
    (set : Item.t → Item.t) (k : option Item.t → M B) (w : World) (item : Item.t) :
  positions_table w !! key = Some item →
  condition item = true →
  bind (storage.update_item key condition set) k w
  = k (Some (set item)) (set_positions_table (insert key (set item)) w).
Proof.
  intros Hlook Hcond. unfold storage.update_item, bind, get_world.
  rewrite Hlook. simpl. rewrite Hcond. reflexivity.
Qed.

Lemma bind_update_item_miss {B} (key : string) (condition : Item.t → bool)
    (set : Item.t → Item.t) (k : option Item.t → M B) (w : World) :
  condition (default Item.empty (positions_table w !! key)) = false →
  bind (storage.update_item key condition set) k w = k None w.
Proof.
  intros Hcond. unfold storage.update_item, bind, get_world.
  rewrite Hcond. reflexivity.
Qed.

Lemma bind_update_item_always {B} (key : string) (set : Item.t → Item.t)
    (k : option Item.t → M B) (w : World) :
  bind (storage.update_item key (fun _ => true) set) k w
  = k (Some (set (default Item.empty (positions_table w !! key))))
      (set_positions_table
         (insert key (set (default Item.empty (positions_table w !! key)))) w).
Proof. reflexivity. Qed.

Lemma returned_record_run (position_id : string) (attributes : Item.t) (w : World) :
  (let* p := of_outcome (storage._position_from_item position_id attributes) in
   ret (Some p)) w
  = (lifecycle.returned_record position_id attributes, w).
Proof.
  unfold bind, of_outcome, ret, lifecycle.returned_record, and_then.
  destruct (storage._position_from_item position_id attributes); reflexivity.
Qed.

Lemma status_of_lookup (w : World) (position_id : string) (item : Item.t) :
  positions_table w !! position_id = Some item →
  lifecycle.status_of w position_id = Item.status item.
Proof. intros H. unfold lifecycle.status_of. rewrite H. reflexivity. Qed.

Lemma status_of_default (w : World) (position_id : string) :
  Item.status (default Item.empty (positions_table w !! position_id))
  = lifecycle.status_of w position_id.
Proof.
  unfold lifecycle.status_of.
  destruct (positions_table w !! position_id); reflexivity.
Qed.

Lemma status_of_Some (w : World) (position_id : string) (s : Status) :
  lifecycle.status_of w position_id = Some s →
  ∃ item, positions_table w !! position_id = Some item ∧ Item.status item = Some s.
Proof.
  unfold lifecycle.status_of.
  destruct (positions_table w !! position_id) as [item|]; [eauto|discriminate].
Qed.

(** A number the table takes is finite and within its range. *)
Lemma number_error_None (w : World) (x : float) :
  storage.number_error w x = None →
  is_nan x = false
  ∧ (x =? infinity)%float = false
  ∧ (x =? neg_infinity)%float = false
  ∧ out_of_range w x = false.
Proof.
  unfold storage.number_error.
  destruct (is_nan x), (x =? infinity)%float, (x =? neg_infinity)%float,
    (out_of_range w x); simpl; intros H; try discriminate H; auto.
Qed.

(** A number the table takes goes into the request as the float that is
    read back; a number it refuses makes the call raise. *)
Lemma bind_ddb_number_accepted {B} (x : float) (k : float → M B) (w : World) :
  storage.number_error w x = None →
  bind (storage.ddb_number x) k w = k (storage.float_from_decimal x) w.
Proof. intros H. unfold bind, storage.ddb_number. rewrite H. reflexivity. Qed.

Lemma bind_ddb_number_refused {B} (x : float) (k : float → M B) (w : World) (e : Exn) :
  storage.number_error w x = Some e →
  bind (storage.ddb_number x) k w = (Raised e, w).
Proof. intros H. unfold bind, storage.ddb_number. rewrite H. reflexivity. Qed.

Lemma confirm_open_error_None (w : World) (entry_spread_actual close_buffer : float) :
  lifecycle.confirm_open_error w entry_spread_actual close_buffer = None →
  storage.number_error w entry_spread_actual = None
  ∧ storage.number_error w (- entry_spread_actual + close_buffer)%float = None.
Proof.
  unfold lifecycle.confirm_open_error, signals.close_trigger.
  destruct (storage.number_error w entry_spread_actual); [discriminate|auto].
Qed.

Lemma confirm_open_hit (w : World) (position_id : string) (item : Item.t)
    (entry_spread_actual close_buffer : float) (now_ms : Z) (chat_id : string) :
  positions_table w !! position_id = Some item →
  Item.status item = Some STATUS_OPEN_PENDING_CONFIRM →
  lifecycle.confirm_open_error w entry_spread_actual close_buffer = None →
  storage.confirm_open position_id entry_spread_actual close_buffer now_ms chat_id w
  = (lifecycle.returned_record position_id
       (storage.set_open_confirmed (storage.float_from_decimal entry_spread_actual)
          (storage.float_from_decimal (- entry_spread_actual + close_buffer))
          now_ms chat_id item),
     set_positions_table
       (insert position_id
          (storage.set_open_confirmed (storage.float_from_decimal entry_spread_actual)
             (storage.float_from_decimal (- entry_spread_actual + close_buffer))
             now_ms chat_id item)) w).
Proof.
  intros Hlook Hst [Hentry Htrigger]%confirm_open_error_None.
  unfold storage.confirm_open.
  rewrite (bind_ddb_number_accepted _ _ _ Hentry),
    (bind_ddb_number_accepted _ _ _ Htrigger).
  rewrite (bind_update_item_hit _ _ _ _ _ _ Hlook).
  - apply returned_record_run.
  - unfold storage.status_eq. rewrite Hst. reflexivity.
Qed.

Lemma confirm_open_miss (w : World) (position_id : string)
    (entry_spread_actual close_buffer : float) (now_ms : Z) (chat_id : string) :
  lifecycle.status_of w position_id ≠ Some STATUS_OPEN_PENDING_CONFIRM →
  lifecycle.confirm_open_error w entry_spread_actual close_buffer = None →
  storage.confirm_open position_id entry_spread_actual close_buffer now_ms chat_id w
  = (Returned None, w).
Proof.
  intros Hst [Hentry Htrigger]%confirm_open_error_None.
  unfold storage.confirm_open.
  rewrite (bind_ddb_number_accepted _ _ _ Hentry),
    (bind_ddb_number_accepted _ _ _ Htrigger).
  rewrite bind_update_item_miss; [reflexivity|].
  unfold storage.status_eq. rewrite status_of_default.
  apply bool_decide_eq_false_2, Hst.
Qed.

(** The serializer runs before the condition is tried: a refused number
    raises whatever the status is, and nothing is written. *)
Lemma confirm_open_refused (w : World) (position_id : string)
    (entry_spread_actual close_buffer : float) (now_ms : Z) (chat_id : string)
    (e : Exn) :
  lifecycle.confirm_open_error w entry_spread_actual close_buffer = Some e →
  storage.confirm_open position_id entry_spread_actual close_buffer now_ms chat_id w
  = (Raised e, w).
Proof.
  unfold lifecycle.confirm_open_error, signals.close_trigger, storage.confirm_open.
  destruct (storage.number_error w entry_spread_actual) as [e'|] eqn:Hentry.
  - intros [= ->]. apply bind_ddb_number_refused, Hentry.
  - intros Htrigger. rewrite (bind_ddb_number_accepted _ _ _ Hentry).
    apply bind_ddb_number_refused, Htrigger.
Qed.

Lemma mark_close_signalled_hit (w : World) (position_id : string) (item : Item.t)
    (now_ms : Z) :
  positions_table w !! position_id = Some item →
  Item.status item = Some STATUS_OPEN_CONFIRMED →
  storage.mark_close_signalled position_id now_ms w
  = (lifecycle.returned_record position_id (storage.set_close_signalled now_ms item),
     set_positions_table
       (insert position_id (storage.set_close_signalled now_ms item)) w).
Proof.
  intros Hlook Hst. unfold storage.mark_close_signalled.
  rewrite (bind_update_item_hit _ _ _ _ _ _ Hlook).
  - apply returned_record_run.
  - unfold storage.status_eq. rewrite Hst. reflexivity.
Qed.

Lemma mark_close_signalled_miss (w : World) (position_id : string) (now_ms : Z) :
  lifecycle.status_of w position_id ≠ Some STATUS_OPEN_CONFIRMED →
  storage.mark_close_signalled position_id now_ms w = (Returned None, w).
Proof.
  intros Hst. unfold storage.mark_close_signalled.
  rewrite bind_update_item_miss; [reflexivity|].
  unfold storage.status_eq. rewrite status_of_default.
  apply bool_decide_eq_false_2, Hst.
Qed.

Lemma close_position_hit (w : World) (position_id : string) (item : Item.t)
    (close_spread_actual : float) (now_ms : Z) (chat_id : string) :
  positions_table w !! position_id = Some item →
  (Item.status item = Some STATUS_OPEN_CONFIRMED
   ∨ Item.status item = Some STATUS_CLOSE_SIGNALLED) →
  storage.number_error w close_spread_actual = None →
  storage.close_position position_id close_spread_actual now_ms chat_id w
  = (lifecycle.returned_record position_id
       (storage.set_closed (storage.float_from_decimal close_spread_actual)
          now_ms chat_id item),
     set_positions_table
       (insert position_id
          (storage.set_closed (storage.float_from_decimal close_spread_actual)
             now_ms chat_id item)) w).
Proof.
  intros Hlook Hst Hnumber. unfold storage.close_position.
  rewrite (bind_ddb_number_accepted _ _ _ Hnumber).
  rewrite (bind_update_item_hit _ _ _ _ _ _ Hlook).
  - apply returned_record_run.
  - unfold storage.status_is_in. destruct Hst as [-> | ->]; reflexivity.
Qed.

Lemma close_position_miss (w : World) (position_id : string)
    (close_spread_actual : float) (now_ms : Z) (chat_id : string) :
  lifecycle.status_of w position_id ≠ Some STATUS_OPEN_CONFIRMED →
  lifecycle.status_of w position_id ≠ Some STATUS_CLOSE_SIGNALLED →
  storage.number_error w close_spread_actual = None →
  storage.close_position position_id close_spread_actual now_ms chat_id w
  = (Returned None, w).
Proof.
  intros Hoc Hcs Hnumber. unfold storage.close_position.
  rewrite (bind_ddb_number_accepted _ _ _ Hnumber).
  rewrite bind_update_item_miss; [reflexivity|].
  unfold storage.status_is_in. rewrite status_of_default.
  destruct (lifecycle.status_of w position_id) as [[]|]; try reflexivity; congruence.
Qed.

Lemma close_position_refused (w : World) (position_id : string)
    (close_spread_actual : float) (now_ms : Z) (chat_id : string) (e : Exn) :
  storage.number_error w close_spread_actual = Some e →
  storage.close_position position_id close_spread_actual now_ms chat_id w
  = (Raised e, w).
Proof. intros Hnumber. apply bind_ddb_number_refused, Hnumber. Qed.

Lemma mark_open_alert_sent_run (w : World) (position_id : string) (now_ms : Z) :
  storage.mark_open_alert_sent position_id now_ms w
  = (Returned tt,
     set_positions_table
       (insert position_id
          (storage.set_open_alert_sent now_ms
             (default Item.empty (positions_table w !! position_id)))) w).
Proof. reflexivity. Qed.

Lemma mark_close_alert_sent_run (w : World) (position_id : string) (now_ms : Z) :
  storage.mark_close_alert_sent position_id now_ms w
  = (lifecycle.returned_record position_id
       (storage.set_close_alert_sent now_ms
          (default Item.empty (positions_table w !! position_id))),
     set_positions_table
       (insert position_id
          (storage.set_close_alert_sent now_ms
             (default Item.empty (positions_table w !! position_id)))) w).
Proof.
  unfold storage.mark_close_alert_sent. rewrite bind_update_item_always.
  apply returned_record_run.
Qed.

Lemma get_position_Some (position_id : string) (w : World) (r : PositionRecord.t) :
  storage.get_position position_id w = (Returned (Some r), w) →
  ∃ item, positions_table w !! position_id = Some item
          ∧ storage._position_from_item position_id item = Returned r.
Proof.
  unfold storage.get_position, bind, get_world, of_outcome, ret.
  destruct (positions_table w !! position_id) as [item|]; [|discriminate].
  destruct (storage._position_from_item position_id item) as [p|e] eqn:Hp;
    intros H; inversion H; subst. eauto.
Qed.

Lemma get_position_lookup (position_id : string) (w : World) (item : Item.t) :
  positions_table w !! position_id = Some item →
  storage.get_position position_id w
  = (lifecycle.returned_record position_id item, w).
Proof.
  intros Hlook. unfold storage.get_position, bind at 1, get_world.
  rewrite Hlook. apply returned_record_run.
Qed.

End storage_facts.

(** Reads the attributes of an item off a record it converted to. *)
Ltac invert_item Hconv item :=
  let st := fresh "st" in
  let ca := fresh "ca" in
  let ua := fresh "ua" in
  let ss := fresh "ss" in
  let sts := fresh "sts" in
  destruct item as [st ca ua ss sts ? ? ? ? ? ? ? ? ? ?];
  unfold storage._position_from_item in Hconv; simpl in Hconv;
  destruct st; [|discriminate Hconv];
  destruct ca; [|discriminate Hconv];
  destruct ua; [|discriminate Hconv];
  destruct ss; [|discriminate Hconv];
  destruct sts; [|discriminate Hconv];
  inversion Hconv; subst; clear Hconv; simpl in *.

Lemma position_from_item_status (position_id : string) (item : Item.t)
    (r : PositionRecord.t) :
  storage._position_from_item position_id item = Returned r →
  Item.status item = Some (PositionRecord.status r)
  ∧ PositionRecord.position_id r = position_id.
Proof. intros Hconv. invert_item Hconv item. split; reflexivity. Qed.

Lemma wf_item_converts (position_id : string) (item : Item.t) (s : Status) :
  Item.status item = Some s →
  lifecycle.wf_item item = true →
  ∃ r, storage._position_from_item position_id item = Returned r.
Proof.
  unfold lifecycle.wf_item, storage._position_from_item.
  intros -> Hwf.
  repeat (apply andb_prop in Hwf as [Hwf ?]).
  repeat match goal with
         | H : bool_decide (is_Some _) = true |- _ =>
             apply bool_decide_eq_true_1 in H as [? ->]
         end.
  eexists. reflexivity.
Qed.

Lemma converts_wf_item (position_id : string) (item : Item.t) (r : PositionRecord.t) :
  storage._position_from_item position_id item = Returned r →
  lifecycle.wf_item item = true.
Proof. intros Hconv. invert_item Hconv item. reflexivity. Qed.

Lemma confirm_open_first_wins (w : World) (position_id : string)
    (r : PositionRecord.t) (a1 a2 : lifecycle.ConfirmArgs) :
  storage.get_position position_id w = (Returned (Some r), w) →
  PositionRecord.status r = STATUS_OPEN_PENDING_CONFIRM →
  lifecycle.confirmable w a1 →
  lifecycle.confirmable w a2 →
  lifecycle.first_confirmer_wins w position_id a1 a2.
Proof.
  intros Hget Hst Ha1 Ha2.
  apply get_position_Some in Hget as (item & Hlook & Hconv).
  pose proof (position_from_item_status _ _ _ Hconv) as [Hstatus _].
  rewrite Hst in Hstatus.
  unfold lifecycle.first_confirmer_wins, lifecycle.manager_confirm_open,
    position_manager.confirm_open.
  rewrite (confirm_open_hit _ _ _ _ _ _ _ Hlook Hstatus Ha1).
  invert_item Hconv item.
  eexists _, _. split; [reflexivity|]. simpl.
  repeat split.
  - rewrite confirm_open_miss; [reflexivity| |exact Ha2].
    unfold lifecycle.status_of. simpl. rewrite lookup_insert_eq. discriminate.
  - erewrite get_position_lookup by (simpl; apply lookup_insert_eq).
    reflexivity.
Qed.

(** C1. In every world where [position_id] holds a position whose status is
    OPEN_PENDING_CONFIRM, of two [confirm_open] calls on it whose numbers
    the table takes, the one that runs first returns the updated record and
    the other returns [None] without writing, whichever of the two runs
    first; the status stored at the end is OPEN_CONFIRMED, with the
    winner's values.  A call whose entry spread or close trigger the table
    refuses (a NaN, an infinity, a number out of range) is no confirmer:
    it raises before the condition is tried and leaves the position to be
    confirmed. *)
Theorem confirm_open_exactly_one_winner (w : World) (position_id : string)
    (r : PositionRecord.t) (a1 a2 : lifecycle.ConfirmArgs) :
  storage.get_position position_id w = (Returned (Some r), w) →
  PositionRecord.status r = STATUS_OPEN_PENDING_CONFIRM →
  lifecycle.confirmable w a1 →
  lifecycle.confirmable w a2 →
  lifecycle.first_confirmer_wins w position_id a1 a2
  ∧ lifecycle.first_confirmer_wins w position_id a2 a1
  ∧ lifecycle.status_of (lifecycle.run_op
        (lifecycle.ConfirmOpen position_id (lifecycle.arg_entry_spread_actual a2)
           (lifecycle.arg_close_buffer a2) (lifecycle.arg_now_ms a2)
           (lifecycle.arg_chat_id a2))
        (lifecycle.run_op
          (lifecycle.ConfirmOpen position_id (lifecycle.arg_entry_spread_actual a1)
             (lifecycle.arg_close_buffer a1) (lifecycle.arg_now_ms a1)
             (lifecycle.arg_chat_id a1)) w)) position_id
    = Some STATUS_OPEN_CONFIRMED
  ∧ ∀ a, lifecycle.refused_confirmer_raises w position_id a.
Proof.
  intros Hget Hst Ha1 Ha2.
  pose proof (confirm_open_first_wins w position_id r a1 a2 Hget Hst Ha1 Ha2) as H12.
  pose proof (confirm_open_first_wins w position_id r a2 a1 Hget Hst Ha2 Ha1) as H21.
  split; [exact H12|]. split; [exact H21|]. split.
  - destruct H12 as (r1 & w1 & Hfirst & Hid & Hstatus & _ & _ & Hsecond & Hfinal).
    unfold lifecycle.manager_confirm_open, position_manager.confirm_open
      in Hfirst, Hsecond.
    simpl. rewrite Hfirst. simpl. rewrite Hsecond. simpl.
    apply get_position_Some in Hfinal as (item & Hlook & Hconv).
    rewrite (status_of_lookup _ _ _ Hlook).
    apply position_from_item_status in Hconv as [-> _]. congruence.
  - intros a e Herror. apply confirm_open_refused, Herror.
Qed.

Lemma confirm_open_exactly_one_winner_witness :
  storage.get_position "p1" samples.one_pending
    = (Returned (Some (samples.pending_record "p1" 42 1000 2000000)), samples.one_pending)
  ∧ lifecycle.confirmable samples.one_pending samples.alice
  ∧ lifecycle.confirmable samples.one_pending samples.bob
  ∧ lifecycle.first_confirmer_wins samples.one_pending "p1" samples.alice samples.bob
  ∧ lifecycle.first_confirmer_wins samples.one_pending "p1" samples.bob samples.alice
  ∧ lifecycle.refused_confirmer_raises samples.one_pending "p1" samples.carol.
Proof.
  assert (Hget : storage.get_position "p1" samples.one_pending
    = (Returned (Some (samples.pending_record "p1" 42 1000 2000000)), samples.one_pending))
    by (vm_compute; reflexivity).
  assert (Halice : lifecycle.confirmable samples.one_pending samples.alice)
    by (vm_compute; reflexivity).
  assert (Hbob : lifecycle.confirmable samples.one_pending samples.bob)
    by (vm_compute; reflexivity).
  split; [exact Hget|]. split; [exact Halice|]. split; [exact Hbob|].
  destruct (confirm_open_exactly_one_winner samples.one_pending "p1"
              (samples.pending_record "p1" 42 1000 2000000)
              samples.alice samples.bob Hget eq_refl Halice Hbob)
    as (H1 & H2 & _ & Hrefused).
  split; [exact H1|]. split; [exact H2|]. apply Hrefused.
Defined.

(** C9. For every entry spread and buffer, [close_trigger] is the binary64
    sum of the negated entry spread and the buffer, so
    [close_trigger(39, 0) = -39] and [close_trigger(39, 2) = -37].  When
    the table takes the entry spread and this sum, the [close_trigger]
    that the storage gateway's [confirm_open] writes to a pending position,
    and returns in the record, is this same number: the float
    [from_decimal] reads back of it, equal to it in the order of the
    floats (and the same float but for [-0.0], which is read back as
    [0.0]).  When the table refuses one of the two, [confirm_open] raises
    and writes no trigger. *)
Theorem close_trigger_rule (entry_spread_actual close_buffer : float) :
  signals.close_trigger entry_spread_actual close_buffer
    = (- entry_spread_actual + close_buffer)%float
  ∧ Prim2SF (signals.close_trigger entry_spread_actual close_buffer)
    = SF64add (SFopp (Prim2SF entry_spread_actual)) (Prim2SF close_buffer)
  ∧ signals.close_trigger 39 0 = (-39)%float
  ∧ signals.close_trigger 39 2 = (-37)%float
  ∧ (∀ w position_id r now_ms chat_id,
       storage.get_position position_id w = (Returned (Some r), w) →
       PositionRecord.status r = STATUS_OPEN_PENDING_CONFIRM →
       lifecycle.confirm_open_error w entry_spread_actual close_buffer = None →
       ∃ r' w' trigger,
         storage.confirm_open position_id entry_spread_actual close_buffer now_ms
           chat_id w = (Returned (Some r'), w')
         ∧ PositionRecord.close_trigger r' = Some trigger
         ∧ (Item.close_trigger <$> positions_table w' !! position_id)
           = Some (Some trigger)
         ∧ trigger
           = storage.float_from_decimal
               (signals.close_trigger entry_spread_actual close_buffer)
         ∧ (trigger =? signals.close_trigger entry_spread_actual close_buffer)%float
           = true
         ∧ ((signals.close_trigger entry_spread_actual close_buffer =? 0)%float = false →
            trigger = signals.close_trigger entry_spread_actual close_buffer))
  ∧ (∀ w position_id now_ms chat_id e,
       lifecycle.confirm_open_error w entry_spread_actual close_buffer = Some e →
       storage.confirm_open position_id entry_spread_actual close_buffer now_ms
         chat_id w = (Raised e, w)).
Proof.
  split; [reflexivity|].
  split.
  { unfold signals.close_trigger.
    rewrite FloatAxioms.add_spec, FloatAxioms.opp_spec. reflexivity. }
  split; [vm_compute; reflexivity|].
  split; [vm_compute; reflexivity|].
  split; [|intros w position_id now_ms chat_id e; apply confirm_open_refused].
  intros w position_id r now_ms chat_id Hget Hst Haccepted.
  apply get_position_Some in Hget as (item & Hlook & Hconv).
  pose proof (position_from_item_status _ _ _ Hconv) as [Hstatus _].
  rewrite Hst in Hstatus.
  rewrite (confirm_open_hit _ _ _ _ _ _ _ Hlook Hstatus Haccepted).
  apply confirm_open_error_None in Haccepted as [_ Htrigger].
  invert_item Hconv item.
  eexists _, _, _. split; [reflexivity|]. simpl. split; [reflexivity|].
  split; [rewrite lookup_insert_eq; reflexivity|].
  split; [reflexivity|].
  split.
  - apply float_from_decimal_eqb.
    apply number_error_None in Htrigger as [Hnum _]. exact Hnum.
  - unfold storage.float_from_decimal, signals.close_trigger. intros ->. reflexivity.
Qed.

Lemma close_trigger_rule_witness :
  storage.get_position "p1" samples.one_pending
    = (Returned (Some (samples.pending_record "p1" 42 1000 2000000)), samples.one_pending)
  ∧ lifecycle.confirm_open_error samples.one_pending 39 2 = None
  ∧ (∃ r' w',
       storage.confirm_open "p1" 39 2 2100000 "alice" samples.one_pending
       = (Returned (Some r'), w')
       ∧ PositionRecord.close_trigger r' = Some (-37)%float
       ∧ (Item.close_trigger <$> positions_table w' !! "p1") = Some (Some (-37)%float))
  ∧ storage.confirm_open "p1" nan 2 2100000 "alice" samples.one_pending
    = (Raised TypeError, samples.one_pending).
Proof.
  assert (Hget : storage.get_position "p1" samples.one_pending
    = (Returned (Some (samples.pending_record "p1" 42 1000 2000000)), samples.one_pending))
    by (vm_compute; reflexivity).
  assert (Haccepted : lifecycle.confirm_open_error samples.one_pending 39 2 = None)
    by (vm_compute; reflexivity).
  split; [exact Hget|]. split; [exact Haccepted|].
  destruct (close_trigger_rule 39 2) as (_ & _ & _ & _ & Hwritten & _).
  destruct (close_trigger_rule nan 2) as (_ & _ & _ & _ & _ & Hrefused).
  split; [|apply Hrefused; vm_compute; reflexivity].
  destruct (Hwritten samples.one_pending "p1"
              (samples.pending_record "p1" 42 1000 2000000) 2100000 "alice"
              Hget eq_refl Haccepted)
    as (r' & w' & trigger & Hrun & Hrecord & Htable & Heq & _).
  exists r', w'. split; [exact Hrun|].
  assert (trigger = (-37)%float) as -> by (rewrite Heq; vm_compute; reflexivity).
  split; [exact Hrecord|exact Htable].
Defined.

(** ** Listing positions *)

Section listing_facts.

Lemma insert_by_signal_ts_perm (p : PositionRecord.t) (l : list PositionRecord.t) :
  storage.insert_by_signal_ts p l ≡ₚ p :: l.
Proof.
  induction l as [|q l IH]; simpl; [reflexivity|].
  destruct (PositionRecord.signal_ts p <=? PositionRecord.signal_ts q).
  - reflexivity.
  - rewrite IH. apply Permutation_swap.
Qed.

Lemma sort_by_signal_ts_perm (l : list PositionRecord.t) :
  storage.sort_by_signal_ts l ≡ₚ l.
Proof.
  induction l as [|p l IH]; simpl; [reflexivity|].
  rewrite insert_by_signal_ts_perm, IH. reflexivity.
Qed.

Lemma sort_by_signal_ts_length (l : list PositionRecord.t) :
  length (storage.sort_by_signal_ts l) = length l.
Proof. apply Permutation_length, sort_by_signal_ts_perm. Qed.

Lemma insert_by_signal_ts_sorted (p : PositionRecord.t) (l : list PositionRecord.t) :
  StronglySorted ts_le l → StronglySorted ts_le (storage.insert_by_signal_ts p l).
Proof.
  induction 1 as [|q l Hsorted IH Hall]; simpl.
  - repeat constructor.
  - destruct (PositionRecord.signal_ts p <=? PositionRecord.signal_ts q) eqn:Hle.
    + apply Z.leb_le in Hle. constructor; [constructor; assumption|].
      constructor; [exact Hle|].
      eapply Forall_impl; [exact Hall|]. intros x Hx. unfold ts_le in *. lia.
    + apply Z.leb_gt in Hle. constructor; [exact IH|].
      rewrite insert_by_signal_ts_perm. constructor; [|exact Hall].
      unfold ts_le. lia.
Qed.

Lemma sort_by_signal_ts_sorted (l : list PositionRecord.t) :
  StronglySorted ts_le (storage.sort_by_signal_ts l).
Proof.
  induction l as [|p l IH]; simpl; [constructor|].
  apply insert_by_signal_ts_sorted, IH.
Qed.

Lemma sorted_last_max (l : list PositionRecord.t) (p : PositionRecord.t) :
  StronglySorted ts_le l → last l = Some p → Forall (fun q => ts_le q p) l.
Proof.
  induction 1 as [|q l Hsorted IH Hall]; intros Hlast; [constructor|].
  destruct l as [|q' l'].
  - simpl in Hlast. inversion Hlast; subst. repeat constructor. unfold ts_le. lia.
  - rewrite last_cons_cons in Hlast. specialize (IH Hlast).
    constructor; [|exact IH].
    apply last_Some_elem_of in Hlast.
    rewrite Forall_forall in Hall. apply Hall, Hlast.
Qed.

(** The last position of a listing carries the latest signal of all. *)
Lemma sort_last_latest (l : list PositionRecord.t) (p : PositionRecord.t) :
  last (storage.sort_by_signal_ts l) = Some p →
  p ∈ l ∧ ∀ q, q ∈ l → PositionRecord.signal_ts q ≤ PositionRecord.signal_ts p.
Proof.
  intros Hlast. split.
  - rewrite <- (sort_by_signal_ts_perm l). eapply last_Some_elem_of, Hlast.
  - intros q Hq.
    pose proof (sorted_last_max _ _ (sort_by_signal_ts_sorted l) Hlast) as Hall.
    rewrite Forall_forall in Hall. apply Hall.
    rewrite (sort_by_signal_ts_perm l). exact Hq.
Qed.

Lemma positions_from_items_Forall2 (items : list (string * Item.t))
    (ps : list PositionRecord.t) :
  storage.positions_from_items items = Returned ps ↔ Forall2 converts items ps.
Proof.
  revert ps. induction items as [|[key item] items IH]; intros ps; simpl.
  - split.
    + intros H. inversion H. constructor.
    + intros H. inversion H. reflexivity.
  - unfold converts at 1. simpl. split.
    + destruct (storage._position_from_item key item) as [p|e] eqn:Hp; [|discriminate].
      destruct (storage.positions_from_items items) as [ps'|e] eqn:Hps; [|discriminate].
      intros H. inversion H; subst. constructor; [exact Hp|].
      apply IH. reflexivity.
    + intros H. inversion H as [|kv p items' ps' Hp Hrest]; subst.
      unfold converts in Hp. simpl in Hp. rewrite Hp.
      apply IH in Hrest. rewrite Hrest. reflexivity.
Qed.

Lemma positions_from_items_total (items : list (string * Item.t)) :
  Forall (fun kv => is_Some (Item.status kv.2) ∧ lifecycle.wf_item kv.2 = true) items →
  ∃ ps, storage.positions_from_items items = Returned ps.
Proof.
  induction 1 as [|[key item] items [[s Hs] Hwf] Hall IH]; simpl.
  - eexists. reflexivity.
  - simpl in Hs, Hwf.
    destruct (wf_item_converts key item s Hs Hwf) as [p ->].
    destruct IH as [ps ->]. eexists. reflexivity.
Qed.

Lemma scan_positions_elem (statuses : list Status) (table : gmap string Item.t)
    (key : string) (item : Item.t) :
  statuses ≠ [] →
  (key, item) ∈ storage.scan_positions statuses table
  ↔ table !! key = Some item ∧ storage.status_is_in statuses item = true.
Proof.
  intros Hne. unfold storage.scan_positions.
  destruct statuses as [|s statuses]; [congruence|].
  rewrite list_elem_of_In, filter_In, <- list_elem_of_In, elem_of_map_to_list.
  reflexivity.
Qed.

Lemma scan_positions_count (statuses : list Status) (table : gmap string Item.t) :
  statuses ≠ [] →
  length (storage.scan_positions statuses table) = lifecycle.count_status statuses table.
Proof.
  intros Hne. unfold storage.scan_positions, lifecycle.count_status.
  destruct statuses; [congruence|reflexivity].
Qed.

Lemma list_positions_run (statuses : list Status) (w : World) :
  storage.list_positions statuses w
  = (and_then (storage.positions_from_items
                 (storage.scan_positions statuses (positions_table w)))
       (fun ps => Returned (storage.sort_by_signal_ts ps)), w).
Proof.
  unfold storage.list_positions, bind, get_world, of_outcome, ret, and_then.
  destruct (storage.positions_from_items _); reflexivity.
Qed.

(** On a well-formed table a filtered listing returns, as many positions
    as the table has items of these statuses, each the record of an item
    of the table. *)
Lemma list_positions_wf (statuses : list Status) (w : World) :
  statuses ≠ [] →
  lifecycle.wf_table (positions_table w) →
  ∃ ps,
    storage.list_positions statuses w = (Returned (storage.sort_by_signal_ts ps), w)
    ∧ Forall2 converts (storage.scan_positions statuses (positions_table w)) ps
    ∧ length (storage.sort_by_signal_ts ps)
      = lifecycle.count_status statuses (positions_table w).
Proof.
  intros Hne Hwf.
  destruct (positions_from_items_total
              (storage.scan_positions statuses (positions_table w))) as [ps Hps].
  { apply Forall_forall. intros [key item] Hin.
    apply scan_positions_elem in Hin as [Hlook Hst]; [|exact Hne].
    simpl. split.
    - unfold storage.status_is_in in Hst.
      destruct (Item.status item); [eauto|discriminate].
    - exact (Hwf key item Hlook). }
  exists ps. rewrite list_positions_run, Hps. simpl.
  split; [reflexivity|].
  pose proof (proj1 (positions_from_items_Forall2 _ _) Hps) as Hall.
  split; [exact Hall|].
  rewrite sort_by_signal_ts_length, <- (Forall2_length _ _ _ Hall).
  apply scan_positions_count, Hne.
Qed.

(** Every position of a listing is the record of an item of the table
    with one of the statuses asked for. *)
Lemma listed_position (statuses : list Status) (table : gmap string Item.t)
    (ps : list PositionRecord.t) (p : PositionRecord.t) :
  statuses ≠ [] →
  Forall2 converts (storage.scan_positions statuses table) ps →
  p ∈ ps →
  ∃ item,
    table !! PositionRecord.position_id p = Some item
    ∧ storage.status_is_in statuses item = true
    ∧ storage._position_from_item (PositionRecord.position_id p) item = Returned p.
Proof.
  intros Hne Hall Hin.
  apply list_elem_of_lookup in Hin as [i Hi].
  destruct (Forall2_lookup_r _ _ _ _ _ Hall Hi) as ([key item] & Hkv & Hconv).
  apply list_elem_of_lookup_2 in Hkv.
  unfold converts in Hconv. simpl in Hconv.
  apply scan_positions_elem in Hkv as [Hlook Hst]; [|exact Hne].
  destruct (position_from_item_status _ _ _ Hconv) as [_ Hid].
  exists item. rewrite Hid. auto.
Qed.

End listing_facts.

(** ** Resolving the target of a confirmation *)

Lemma wf_table_decide (table : gmap string Item.t) :
  bool_decide (wf_table table) = true → wf_table table.
Proof. apply bool_decide_eq_true_1. Qed.

Lemma cons_ne_nil {A} (x : A) (l : list A) : x :: l ≠ [].
Proof. discriminate. Qed.

Lemma length_one_inv {A} (l : list A) :
  length l = 1%nat → ∃ x, l = [x].
Proof.
  destruct l as [|x [|y l]]; simpl; intros H; try discriminate H.
  exists x. reflexivity.
Qed.

(** C5. [confirm_close] without a position id, on a well-formed table:
    when the positions that are OPEN_CONFIRMED or CLOSE_SIGNALLED are not
    exactly one (none, or two and more) it returns [None] and writes
    nothing, whatever the close spread, a NaN or an infinity included: no
    request is made.  When there is exactly one it closes that one and
    returns its record, if the table takes the close spread, and raises
    without writing if the table refuses it. *)
Theorem confirm_close_needs_exactly_one (w : World) (chat_id : string)
    (close_spread_actual : float) (now_ms : Z) :
  wf_table (positions_table w) →
  (count_status [STATUS_OPEN_CONFIRMED; STATUS_CLOSE_SIGNALLED] (positions_table w)
     ≠ 1%nat →
   position_manager.confirm_close chat_id close_spread_actual now_ms None w
   = (Returned None, w))
  ∧ (count_status [STATUS_OPEN_CONFIRMED; STATUS_CLOSE_SIGNALLED] (positions_table w)
     = 1%nat →
     (storage.number_error w close_spread_actual = None →
      ∃ r w',
        position_manager.confirm_close chat_id close_spread_actual now_ms None w
        = (Returned (Some r), w')
        ∧ PositionRecord.status r = STATUS_CLOSED
        ∧ PositionRecord.close_spread_actual r
          = Some (storage.float_from_decimal close_spread_actual)
        ∧ status_of w (PositionRecord.position_id r) ≠ Some STATUS_OPEN_PENDING_CONFIRM
        ∧ status_of w (PositionRecord.position_id r) ≠ Some STATUS_CLOSED
        ∧ status_of w' (PositionRecord.position_id r) = Some STATUS_CLOSED)
     ∧ (∀ e, storage.number_error w close_spread_actual = Some e →
             position_manager.confirm_close chat_id close_spread_actual now_ms None w
             = (Raised e, w))).
Proof.
  intros Hwf.
  destruct (list_positions_wf [STATUS_OPEN_CONFIRMED; STATUS_CLOSE_SIGNALLED] w)
    as (ps & Hlist & Hall & Hlen); [discriminate|exact Hwf|].
  unfold position_manager.confirm_close.
  rewrite (bind_Returned _ _ _ _ _ Hlist).
  split.
  - intros Hcount. rewrite bool_decide_eq_true_2; [reflexivity|].
    rewrite Hlen. exact Hcount.
  - intros Hcount. rewrite bool_decide_eq_false_2 by (rewrite Hlen; lia).
    rewrite Hcount in Hlen. apply length_one_inv in Hlen as [c Hc].
    rewrite Hc. simpl.
    assert (Hin : c ∈ ps).
    { rewrite <- (sort_by_signal_ts_perm ps), Hc. apply list_elem_of_here. }
    destruct (listed_position [STATUS_OPEN_CONFIRMED; STATUS_CLOSE_SIGNALLED]
                _ _ _ (cons_ne_nil _ _) Hall Hin)
      as (item & Hlook & Hst & Hconv).
    assert (Hopen : Item.status item = Some STATUS_OPEN_CONFIRMED
                    ∨ Item.status item = Some STATUS_CLOSE_SIGNALLED).
    { unfold storage.status_is_in in Hst.
      destruct (Item.status item) as [[]|]; try discriminate Hst; auto. }
    split; [|intros e Hrefused; apply close_position_refused, Hrefused].
    intros Haccepted.
    rewrite (close_position_hit _ _ _ _ _ _ Hlook Hopen Haccepted).
    pose proof (status_of_lookup _ _ _ Hlook) as Hstat.
    invert_item Hconv item.
    eexists _, _. split; [reflexivity|]. simpl.
    rewrite Hstat. unfold status_of. simpl. rewrite lookup_insert_eq.
    repeat split; destruct Hopen as [Ho|Ho]; congruence.
Qed.

Lemma confirm_close_needs_exactly_one_witness :
  wf_table (positions_table samples.two_open)
  ∧ count_status [STATUS_OPEN_CONFIRMED; STATUS_CLOSE_SIGNALLED]
      (positions_table samples.two_open) = 2%nat
  ∧ position_manager.confirm_close "alice" (-38.2) 2600000 None samples.two_open
    = (Returned None, samples.two_open).
Proof.
  assert (Hwf : wf_table (positions_table samples.two_open))
    by (apply wf_table_decide; vm_compute; reflexivity).
  split; [exact Hwf|]. split; [vm_compute; reflexivity|].
  apply (proj1 (confirm_close_needs_exactly_one samples.two_open "alice"
                  (-38.2) 2600000 Hwf)).
  vm_compute. discriminate.
Defined.

(** C3, as the code has it. [confirm_open] without a position id, on a
    well-formed table, lists the OPEN_PENDING_CONFIRM positions: with none
    it returns [None] and writes nothing; otherwise, one or several, it
    targets the last of the listing, the one with the latest signal time:
    when the table takes the entry spread and the close trigger it
    confirms that position and returns its record, and when the table
    refuses one of them it raises and writes nothing. *)
Theorem confirm_open_targets_latest_pending (w : World) (chat_id : string)
    (entry_spread_actual close_buffer : float) (now_ms : Z) :
  wf_table (positions_table w) →
  ∃ pending,
    storage.list_positions [STATUS_OPEN_PENDING_CONFIRM] w = (Returned pending, w)
    ∧ length pending = count_status [STATUS_OPEN_PENDING_CONFIRM] (positions_table w)
    ∧ match last pending with
      | None =>
          position_manager.confirm_open chat_id entry_spread_actual close_buffer
            now_ms None w = (Returned None, w)
      | Some latest =>
          (∀ p, p ∈ pending →
                PositionRecord.signal_ts p ≤ PositionRecord.signal_ts latest)
          ∧ status_of w (PositionRecord.position_id latest)
            = Some STATUS_OPEN_PENDING_CONFIRM
          ∧ position_manager.confirm_open chat_id entry_spread_actual close_buffer
              now_ms None w
            = storage.confirm_open (PositionRecord.position_id latest)
                entry_spread_actual close_buffer now_ms chat_id w
          ∧ (confirm_open_error w entry_spread_actual close_buffer = None →
             ∃ r w',
               position_manager.confirm_open chat_id entry_spread_actual close_buffer
                 now_ms None w = (Returned (Some r), w')
               ∧ PositionRecord.position_id r = PositionRecord.position_id latest
               ∧ PositionRecord.status r = STATUS_OPEN_CONFIRMED
               ∧ PositionRecord.entry_spread_actual r
                 = Some (storage.float_from_decimal entry_spread_actual)
               ∧ status_of w' (PositionRecord.position_id latest)
                 = Some STATUS_OPEN_CONFIRMED)
          ∧ (∀ e, confirm_open_error w entry_spread_actual close_buffer = Some e →
                  position_manager.confirm_open chat_id entry_spread_actual
                    close_buffer now_ms None w = (Raised e, w))
      end.
Proof.
  intros Hwf.
  destruct (list_positions_wf [STATUS_OPEN_PENDING_CONFIRM] w)
    as (ps & Hlist & Hall & Hlen); [discriminate|exact Hwf|].
  exists (storage.sort_by_signal_ts ps).
  split; [exact Hlist|]. split; [exact Hlen|].
  unfold position_manager.confirm_open.
  rewrite (bind_Returned _ _ _ _ _ Hlist).
  destruct (last (storage.sort_by_signal_ts ps)) as [latest|] eqn:Hlast;
    [|reflexivity].
  destruct (sort_last_latest _ _ Hlast) as [Hin Hmax].
  split.
  { intros p Hp. apply Hmax. rewrite <- (sort_by_signal_ts_perm ps). exact Hp. }
  destruct (listed_position [STATUS_OPEN_PENDING_CONFIRM]
              _ _ _ (cons_ne_nil _ _) Hall Hin)
    as (item & Hlook & Hst & Hconv).
  assert (Hpending : Item.status item = Some STATUS_OPEN_PENDING_CONFIRM).
  { unfold storage.status_is_in in Hst.
    destruct (Item.status item) as [[]|]; try discriminate Hst; reflexivity. }
  rewrite (status_of_lookup _ _ _ Hlook).
  split; [exact Hpending|]. split; [reflexivity|].
  split; [|intros e Hrefused; apply confirm_open_refused, Hrefused].
  intros Haccepted.
  rewrite (confirm_open_hit _ _ _ _ _ _ _ Hlook Hpending Haccepted).
  invert_item Hconv item.
  eexists _, _. split; [reflexivity|]. simpl.
  unfold status_of. simpl. rewrite lookup_insert_eq. repeat split.
Qed.

Lemma confirm_open_targets_latest_pending_witness :
  wf_table (positions_table samples.two_pending)
  ∧ confirm_open_error samples.two_pending 39 0 = None
  ∧ last [samples.pending_record "p1" 42 1000 2000000;
          samples.pending_record "p2" 43 5000 2004000]
    = Some (samples.pending_record "p2" 43 5000 2004000)
  ∧ ∃ r w',
      position_manager.confirm_open "alice" 39 0 2100000 None samples.two_pending
      = (Returned (Some r), w')
      ∧ PositionRecord.position_id r = "p2"
      ∧ PositionRecord.status r = STATUS_OPEN_CONFIRMED
      ∧ PositionRecord.entry_spread_actual r = Some (storage.float_from_decimal 39)
      ∧ status_of w' "p2" = Some STATUS_OPEN_CONFIRMED.
Proof.
  assert (Hwf : wf_table (positions_table samples.two_pending))
    by (apply wf_table_decide; vm_compute; reflexivity).
  assert (Haccepted : confirm_open_error samples.two_pending 39 0 = None)
    by (vm_compute; reflexivity).
  split; [exact Hwf|]. split; [exact Haccepted|]. split; [reflexivity|].
  destruct (confirm_open_targets_latest_pending samples.two_pending "alice"
              39 0 2100000 Hwf) as (pending & Hlist & _ & Hlatest).
  assert (Hpending : storage.list_positions [STATUS_OPEN_PENDING_CONFIRM]
                       samples.two_pending
                     = (Returned [samples.pending_record "p1" 42 1000 2000000;
                                  samples.pending_record "p2" 43 5000 2004000],
                        samples.two_pending))
    by (vm_compute; reflexivity).
  rewrite Hpending in Hlist. injection Hlist as <-.
  cbn [last] in Hlatest. destruct Hlatest as (_ & _ & _ & Hconfirmed & _).
  exact (Hconfirmed Haccepted).
Defined.

(** C3 as stated fails: with two positions pending, [confirm_open] without
    a position id does not answer no-match; it confirms the one with the
    later signal, p2. *)
Lemma confirm_open_ambiguous_confirms_latest :
  count_status [STATUS_OPEN_PENDING_CONFIRM] (positions_table samples.two_pending)
    = 2%nat
  ∧ (position_manager.confirm_open "alice" 39 0 2100000 None samples.two_pending).1
    = Returned (Some
        {| PositionRecord.position_id := "p2";
           PositionRecord.status := STATUS_OPEN_CONFIRMED;
           PositionRecord.created_at_ts := 2004000;
           PositionRecord.updated_at_ts := 2100000;
           PositionRecord.signal_spread := 43;
           PositionRecord.signal_ts := 5000;
           PositionRecord.last_open_alert_ts := 2004000;
           PositionRecord.entry_spread_actual := Some 39%float;
           PositionRecord.opened_at_confirm_ts := Some 2100000;
           PositionRecord.close_trigger := Some (-39)%float;
           PositionRecord.close_signalled_ts := None;
           PositionRecord.last_close_alert_ts := None;
           PositionRecord.close_spread_actual := None;
           PositionRecord.closed_at_confirm_ts := None;
           PositionRecord.chat_id := Some "alice";
           PositionRecord.metadata := [] |})
  ∧ status_of
      (position_manager.confirm_open "alice" 39 0 2100000 None samples.two_pending).2
      "p2" = Some STATUS_OPEN_CONFIRMED
  ∧ status_of samples.two_pending "p2" = Some STATUS_OPEN_PENDING_CONFIRM.
Proof. repeat split; vm_compute; reflexivity. Qed.

(** ** Open signals *)

Section open_signal_facts.

(** The verdict on a number depends on the table's range alone. *)
Lemma number_error_frame (w w' : World) (x : float) :
  out_of_range w' = out_of_range w →
  storage.number_error w' x = storage.number_error w x.
Proof. intros H. unfold storage.number_error. rewrite H. reflexivity. Qed.

Lemma create_pending_position_run (signal_spread : float) (signal_ts : Z)
    (metadata : Metadata) (now_ms : Z) (w : World) :
  storage.number_error w signal_spread = None →
  storage.create_pending_position signal_spread signal_ts metadata now_ms w
  = (Returned (created_record (next_uuid w)
                 (storage.float_from_decimal signal_spread) signal_ts metadata now_ms),
     mkWorld
       (<[next_uuid w :=
            created_item (storage.float_from_decimal signal_spread)
              signal_ts metadata now_ms]>
          (positions_table w))
       (alerts_table w) (config_table w) (uuid4_values w) (S (uuid4_calls w))
       (sent w) (out_of_range w)).
Proof.
  intros Haccepted. unfold storage.create_pending_position, uuid4.
  unfold bind at 1. rewrite bind_ddb_number_accepted; [reflexivity|].
  rewrite <- Haccepted. apply number_error_frame. reflexivity.
Qed.

(** A spread the table refuses: the identifier is drawn, nothing is
    written. *)
Lemma create_pending_position_refused (signal_spread : float) (signal_ts : Z)
    (metadata : Metadata) (now_ms : Z) (w : World) (e : Exn) :
  storage.number_error w signal_spread = Some e →
  storage.create_pending_position signal_spread signal_ts metadata now_ms w
  = (Raised e,
     mkWorld (positions_table w) (alerts_table w) (config_table w) (uuid4_values w)
       (S (uuid4_calls w)) (sent w) (out_of_range w)).
Proof.
  intros Hrefused. unfold storage.create_pending_position, uuid4.
  unfold bind at 1. apply bind_ddb_number_refused.
  rewrite <- Hrefused. apply number_error_frame. reflexivity.
Qed.

Lemma notify_run (m : Message) (w : World) :
  notify m w
  = (Returned tt,
     mkWorld (positions_table w) (alerts_table w) (config_table w)
       (uuid4_values w) (uuid4_calls w) (sent w ++ [m]) (out_of_range w)).
Proof. reflexivity. Qed.

(** [put_alert] touches neither the positions nor the messages sent; it
    returns, unless there is an alerts table and it refuses the spread of
    the payload. *)
Lemma put_alert_run (payload : AlertPayload.t) (w : World) :
  ∃ w',
    storage.put_alert payload w
    = (match put_alert_error w (AlertPayload.spread payload).2 with
       | Some e => Raised e
       | None => Returned tt
       end, w')
    ∧ positions_table w' = positions_table w
    ∧ sent w' = sent w
    ∧ config_table w' = config_table w
    ∧ uuid4_values w' = uuid4_values w
    ∧ (uuid4_calls w ≤ uuid4_calls w')%nat
    ∧ out_of_range w' = out_of_range w
    ∧ (alerts_table w = None → w' = w).
Proof.
  unfold storage.put_alert, put_alert_error, bind at 1, get_world.
  destruct (alerts_table w) as [alerts|] eqn:Halerts.
  - unfold bind at 1, uuid4.
    match goal with
    | |- context [bind (storage.ddb_number ?x) ?k ?w1] =>
        assert (storage.number_error w1 x = storage.number_error w x) as Hsame
          by (apply number_error_frame; reflexivity);
        destruct (storage.number_error w x) as [e|] eqn:Hnumber;
        [rewrite (bind_ddb_number_refused x k w1 e Hsame)
        |rewrite (bind_ddb_number_accepted x k w1 Hsame)]
    end.
    + eexists. split; [reflexivity|]. simpl.
      repeat split; try reflexivity; try lia; try discriminate.
    + eexists. split; [reflexivity|]. simpl.
      repeat split; try reflexivity; try lia; try discriminate.
  - exists w. repeat split; reflexivity.
Qed.

(** A number the table takes is no obstacle to [put_alert], in any later
    world. *)
Lemma put_alert_error_accepted (w w' : World) (x : float) :
  out_of_range w' = out_of_range w →
  storage.number_error w x = None →
  put_alert_error w' x = None.
Proof.
  intros Hrange Haccepted. unfold put_alert_error.
  rewrite (number_error_frame w w' x Hrange), Haccepted.
  destruct (alerts_table w'); reflexivity.
Qed.

(** [put_alert] does not change what a later [put_alert] refuses. *)
Lemma put_alert_keeps_error (payload : AlertPayload.t) (w : World) (x : float) :
  put_alert_error (storage.put_alert payload w).2 x = put_alert_error w x.
Proof.
  unfold put_alert_error.
  assert (out_of_range (storage.put_alert payload w).2 = out_of_range w
          ∧ (alerts_table (storage.put_alert payload w).2 = None
             ↔ alerts_table w = None)) as [Hrange Halerts].
  { unfold storage.put_alert, bind, get_world, uuid4, storage.ddb_number.
    destruct (alerts_table w) as [alerts|] eqn:Hw; simpl; [|rewrite Hw; tauto].
    destruct (storage.number_error _ _); simpl; rewrite Hw; simpl;
      split; try reflexivity; split; discriminate. }
  rewrite (number_error_frame _ _ x Hrange).
  destruct (alerts_table w) as [alerts|].
  - destruct (alerts_table (storage.put_alert payload w).2); [reflexivity|].
    destruct Halerts as [Hnone _]. discriminate (Hnone eq_refl).
  - rewrite (proj2 Halerts eq_refl). reflexivity.
Qed.

Lemma put_alert_returns (payload : AlertPayload.t) (w : World) :
  put_alert_error w (AlertPayload.spread payload).2 = None →
  ∃ w',
    storage.put_alert payload w = (Returned tt, w')
    ∧ positions_table w' = positions_table w
    ∧ sent w' = sent w
    ∧ config_table w' = config_table w
    ∧ uuid4_values w' = uuid4_values w
    ∧ (uuid4_calls w ≤ uuid4_calls w')%nat
    ∧ out_of_range w' = out_of_range w
    ∧ (alerts_table w = None → w' = w).
Proof.
  intros Haccepted. destruct (put_alert_run payload w) as (w' & Hput & Hframe).
  rewrite Haccepted in Hput. exists w'. split; [exact Hput|exact Hframe].
Qed.

End open_signal_facts.

(** C6. One call of [process_open_signals] on a well-formed table hands
    the notifier at most one message, and returns when the table takes the
    snapshot's spread.  Without an open signal it changes nothing.  With an
    open signal and no position pending it writes one item, under the next
    uuid, holding the snapshot's spread and time and the stamp [now_ms],
    and sends one message, not a reminder; if the table refuses the spread
    it raises instead, with nothing written and nothing sent.  With a
    position pending it adds no key to the table; while less than
    [repeat_alert_sec] seconds passed since the last open alert of the
    latest pending position it changes nothing, and once they passed an
    open signal sends one reminder and sets that stamp to [now_ms]. *)
Theorem process_open_signals_cases (w : World) (snapshot : MarketSnapshot.t)
    (cfg : RuntimeConfig.t) (now_ms : Z) :
  wf_table (positions_table w) →
  ∃ (pending : list PositionRecord.t) (new : list Message),
    storage.list_positions [STATUS_OPEN_PENDING_CONFIRM] w = (Returned pending, w)
    ∧ length pending = count_status [STATUS_OPEN_PENDING_CONFIRM] (positions_table w)
    ∧ (storage.number_error w (MarketSnapshot.spread_open snapshot) = None →
       (position_manager.process_open_signals snapshot cfg now_ms w).1 = Returned tt)
    ∧ sent (position_manager.process_open_signals snapshot cfg now_ms w).2
      = sent w ++ new
    ∧ (length new ≤ 1)%nat
    ∧ (signals.is_open_signal snapshot (RuntimeConfig.threshold_open cfg) = false →
       position_manager.process_open_signals snapshot cfg now_ms w = (Returned tt, w))
    ∧ (signals.is_open_signal snapshot (RuntimeConfig.threshold_open cfg) = true →
       pending = [] →
       (storage.number_error w (MarketSnapshot.spread_open snapshot) = None →
        new = [OpenSignalText
                 (created_record (next_uuid w)
                    (storage.float_from_decimal (MarketSnapshot.spread_open snapshot))
                    (MarketSnapshot.ts_ms snapshot) (signal_metadata snapshot) now_ms)
                 snapshot (RuntimeConfig.threshold_open cfg) false]
        ∧ positions_table (position_manager.process_open_signals snapshot cfg now_ms w).2
          = <[next_uuid w :=
                created_item
                  (storage.float_from_decimal (MarketSnapshot.spread_open snapshot))
                  (MarketSnapshot.ts_ms snapshot) (signal_metadata snapshot) now_ms]>
              (positions_table w)
        ∧ (positions_table w !! next_uuid w = None →
           size (positions_table
                   (position_manager.process_open_signals snapshot cfg now_ms w).2)
           = S (size (positions_table w))))
       ∧ (∀ e, storage.number_error w (MarketSnapshot.spread_open snapshot) = Some e →
               (position_manager.process_open_signals snapshot cfg now_ms w).1
               = Raised e
               ∧ new = []
               ∧ positions_table
                   (position_manager.process_open_signals snapshot cfg now_ms w).2
                 = positions_table w))
    ∧ (∀ latest, last pending = Some latest →
       dom (positions_table (position_manager.process_open_signals snapshot cfg now_ms w).2)
       = dom (positions_table w)
       ∧ (now_ms - PositionRecord.last_open_alert_ts latest
            < RuntimeConfig.repeat_alert_sec cfg * 1000 →
          position_manager.process_open_signals snapshot cfg now_ms w = (Returned tt, w))
       ∧ (signals.is_open_signal snapshot (RuntimeConfig.threshold_open cfg) = true →
          RuntimeConfig.repeat_alert_sec cfg * 1000
            ≤ now_ms - PositionRecord.last_open_alert_ts latest →
          new = [OpenSignalText latest snapshot (RuntimeConfig.threshold_open cfg) true]
          ∧ (0 ≤ RuntimeConfig.repeat_alert_sec cfg →
             PositionRecord.last_open_alert_ts latest ≤ now_ms)
          ∧ ∃ item,
              positions_table w !! PositionRecord.position_id latest = Some item
              ∧ positions_table
                  (position_manager.process_open_signals snapshot cfg now_ms w).2
                = <[PositionRecord.position_id latest :=
                      storage.set_open_alert_sent now_ms item]> (positions_table w)
              ∧ Item.last_open_alert_ts (storage.set_open_alert_sent now_ms item)
                = Some now_ms)).
Proof.
  intros Hwf.
  destruct (list_positions_wf [STATUS_OPEN_PENDING_CONFIRM] w)
    as (ps & Hlist & Hall & Hlen); [discriminate|exact Hwf|].
  exists (storage.sort_by_signal_ts ps).
  unfold position_manager.process_open_signals.
  destruct (signals.is_open_signal snapshot (RuntimeConfig.threshold_open cfg))
    eqn:Hfired; cbn [negb].
  2:{ (* no signal *)
    exists []. rewrite app_nil_r. simpl.
    repeat split; try reflexivity; try assumption; try lia; try discriminate. }
  rewrite (bind_Returned _ _ _ _ _ Hlist).
  destruct (last (storage.sort_by_signal_ts ps)) as [latest|] eqn:Hlast.
  - (* a position is pending *)
    destruct (sort_last_latest _ _ Hlast) as [Hin _].
    destruct (listed_position [STATUS_OPEN_PENDING_CONFIRM] _ _ _
                (cons_ne_nil _ _) Hall Hin) as (item & Hlook & _ & _).
    destruct (signals.should_repeat
                (Some (PositionRecord.last_open_alert_ts latest)) now_ms
                (RuntimeConfig.repeat_alert_sec cfg)) eqn:Hrep.
    + (* reminder *)
      simpl in Hrep. apply Z.leb_le in Hrep.
      rewrite (bind_Returned _ _ _ _ _ (notify_run _ _)).
      erewrite bind_Returned by apply mark_open_alert_sent_run.
      match goal with
      | |- context [storage.put_alert ?payload ?w1] =>
          destruct (put_alert_run payload w1)
            as (w' & Hput & Htable & Hsent & _);
          assert (storage.number_error w1 (MarketSnapshot.spread_open snapshot)
                  = storage.number_error w (MarketSnapshot.spread_open snapshot))
            as Hsame by (apply number_error_frame; reflexivity)
      end.
      rewrite Hput. simpl in Htable, Hsent. rewrite Hlook in Htable. simpl in Htable.
      exists [OpenSignalText latest snapshot (RuntimeConfig.threshold_open cfg) true].
      cbn [fst snd]. rewrite Htable, Hsent.
      split; [exact Hlist|]. split; [exact Hlen|].
      split.
      { intros Haccepted. unfold put_alert_error. cbn [AlertPayload.spread snd].
        rewrite Hsame, Haccepted. destruct (alerts_table _); reflexivity. }
      split; [reflexivity|]. split; [simpl; lia|]. split; [discriminate|].
      split.
      { intros _ Hnil. rewrite Hnil in Hlast. discriminate Hlast. }
      intros latest' Hlatest'. inversion Hlatest'; subst latest'.
      split.
      { apply dom_insert_lookup_L. rewrite Hlook. eauto. }
      split; [intros Hlt; lia|].
      intros _ _. split; [reflexivity|]. split; [intros Hpos; lia|].
      exists item. repeat split; assumption || reflexivity.
    + (* within the interval *)
      simpl in Hrep. apply Z.leb_gt in Hrep.
      exists []. rewrite app_nil_r. simpl.
      split; [exact Hlist|]. split; [exact Hlen|]. split; [reflexivity|].
      split; [reflexivity|]. split; [lia|]. split; [discriminate|].
      split.
      { intros _ Hnil. rewrite Hnil in Hlast. discriminate Hlast. }
      intros latest' Hlatest'. inversion Hlatest'; subst latest'.
      split; [reflexivity|]. split; [reflexivity|].
      intros _ Hle. lia.
  - (* no position is pending *)
    destruct (storage.number_error w (MarketSnapshot.spread_open snapshot))
      as [e|] eqn:Hnumber.
    + (* the table refuses the spread *)
      rewrite (bind_Raised _ _ _ _ _
                 (create_pending_position_refused _ _ _ _ _ _ Hnumber)).
      exists []. rewrite app_nil_r. cbn [fst snd sent positions_table].
      split; [exact Hlist|]. split; [exact Hlen|]. split; [discriminate|].
      split; [reflexivity|]. split; [simpl; lia|]. split; [discriminate|].
      split.
      { intros _ _. split; [discriminate|].
        intros e' [= <-]. repeat split. }
      intros latest' Hlatest'. discriminate Hlatest'.
    + rewrite (bind_Returned _ _ _ _ _
                 (create_pending_position_run _ _ _ _ _ Hnumber)).
      rewrite (bind_Returned _ _ _ _ _ (notify_run _ _)).
      match goal with
      | |- context [storage.put_alert ?payload ?w1] =>
          destruct (put_alert_returns payload w1)
            as (w' & Hput & Htable & Hsent & _);
          [apply (put_alert_error_accepted w); [reflexivity|exact Hnumber]|]
      end.
      rewrite Hput. simpl in Htable, Hsent.
      eexists. cbn [fst snd]. rewrite Htable, Hsent.
      split; [exact Hlist|]. split; [exact Hlen|]. split; [reflexivity|].
      split; [reflexivity|]. split; [simpl; lia|]. split; [discriminate|].
      split.
      { intros _ _. split; [|discriminate].
        intros _. split; [reflexivity|]. split; [reflexivity|].
        intros Hfresh. apply map_size_insert_None, Hfresh. }
      intros latest' Hlatest'. discriminate Hlatest'.
Qed.

Lemma process_open_signals_cases_witness :
  wf_table (positions_table samples.one_pending)
  ∧ ∃ new : list Message,
      position_manager.process_open_signals (samples.snapshot 42 (-38.5))
        samples.cfg 2400000 samples.one_pending
      = (Returned tt,
         (position_manager.process_open_signals (samples.snapshot 42 (-38.5))
            samples.cfg 2400000 samples.one_pending).2)
      ∧ sent (position_manager.process_open_signals (samples.snapshot 42 (-38.5))
                samples.cfg 2400000 samples.one_pending).2
        = sent samples.one_pending ++ new
      ∧ new = [OpenSignalText (samples.pending_record "p1" 42 1000 2000000)
                 (samples.snapshot 42 (-38.5)) 40 true]
      ∧ positions_table
          (position_manager.process_open_signals (samples.snapshot 42 (-38.5))
             samples.cfg 2400000 samples.one_pending).2
        = <[ "p1" := storage.set_open_alert_sent 2400000
                       (samples.pending_item 42 1000 2000000) ]>
            (positions_table samples.one_pending).
Proof.
  assert (Hwf : wf_table (positions_table samples.one_pending))
    by (apply wf_table_decide; vm_compute; reflexivity).
  split; [exact Hwf|].
  destruct (process_open_signals_cases samples.one_pending
              (samples.snapshot 42 (-38.5)) samples.cfg 2400000 Hwf)
    as (pending & new & Hlist & _ & Hreturns & Hsent & _ & _ & _ & Hlatest).
  assert (Hpending : storage.list_positions [STATUS_OPEN_PENDING_CONFIRM]
                       samples.one_pending
                     = (Returned [samples.pending_record "p1" 42 1000 2000000],
                        samples.one_pending))
    by (vm_compute; reflexivity).
  rewrite Hpending in Hlist. injection Hlist as <-.
  destruct (Hlatest _ eq_refl) as (_ & _ & Hreminder).
  destruct Hreminder as (Hnew & _ & item & Hlook & Htable & _);
    [vm_compute; reflexivity|vm_compute; discriminate|].
  assert (Hitem : item = samples.pending_item 42 1000 2000000).
  { vm_compute in Hlook. injection Hlook as <-. reflexivity. }
  exists new. split.
  { rewrite (surjective_pairing (position_manager.process_open_signals _ _ _ _)) at 1.
    rewrite Hreturns; [reflexivity|vm_compute; reflexivity]. }
  split; [exact Hsent|]. split; [exact Hnew|].
  rewrite Htable, Hitem. reflexivity.
Defined.

(** ** Well-formedness of the table is an invariant *)

Section well_formed.

Lemma wf_table_insert (table : gmap string Item.t) (key : string) (item : Item.t) :
  wf_item item = true → wf_table table → wf_table (<[key := item]> table).
Proof. intros Hitem Hwf. apply map_Forall_insert_2; assumption. Qed.

Lemma wf_item_empty : wf_item Item.empty = true.
Proof. reflexivity. Qed.

Lemma wf_item_created (signal_spread : float) (signal_ts : Z) (metadata : Metadata)
    (now_ms : Z) :
  wf_item (created_item signal_spread signal_ts metadata now_ms) = true.
Proof. reflexivity. Qed.

Ltac wf_by_cases item :=
  destruct item as [[s|] [ca|] [ua|] [ss|] [sts|] ? ? ? ? ? ? ? ? ? ?];
  unfold wf_item; cbn; try reflexivity; try discriminate.

Lemma wf_item_set_open_confirmed (e c : float) (now_ms : Z) (chat_id : string)
    (item : Item.t) :
  wf_item item = true →
  storage.status_eq STATUS_OPEN_PENDING_CONFIRM item = true →
  wf_item (storage.set_open_confirmed e c now_ms chat_id item) = true.
Proof. wf_by_cases item. Qed.

Lemma wf_item_set_close_signalled (now_ms : Z) (item : Item.t) :
  wf_item item = true →
  storage.status_eq STATUS_OPEN_CONFIRMED item = true →
  wf_item (storage.set_close_signalled now_ms item) = true.
Proof. wf_by_cases item. Qed.

Lemma wf_item_set_closed (c : float) (now_ms : Z) (chat_id : string) (item : Item.t) :
  wf_item item = true →
  storage.status_is_in [STATUS_OPEN_CONFIRMED; STATUS_CLOSE_SIGNALLED] item = true →
  wf_item (storage.set_closed c now_ms chat_id item) = true.
Proof. wf_by_cases item. Qed.

Lemma wf_item_set_open_alert_sent (now_ms : Z) (item : Item.t) :
  wf_item item = true →
  wf_item (storage.set_open_alert_sent now_ms item) = true.
Proof. wf_by_cases item. Qed.

Lemma wf_item_set_close_alert_sent (now_ms : Z) (item : Item.t) :
  wf_item item = true →
  wf_item (storage.set_close_alert_sent now_ms item) = true.
Proof. wf_by_cases item. Qed.

Lemma preserves_wf_ret {A} (a : A) : preserves_wf (ret a).
Proof. intros w Hwf. exact Hwf. Qed.

Lemma preserves_wf_of_outcome {A} (o : Outcome A) : preserves_wf (of_outcome o).
Proof. intros w Hwf. exact Hwf. Qed.

Lemma preserves_wf_bind {A B} (m : M A) (k : A → M B) :
  preserves_wf m → (∀ a, preserves_wf (k a)) → preserves_wf (bind m k).
Proof.
  intros Hm Hk w Hwf. unfold bind.
  specialize (Hm w Hwf). destruct (m w) as [[a|e] w1]; simpl in *.
  - apply Hk, Hm.
  - exact Hm.
Qed.

Lemma preserves_wf_uuid4 : preserves_wf uuid4.
Proof. intros w Hwf. exact Hwf. Qed.

Lemma preserves_wf_notify (m : Message) : preserves_wf (notify m).
Proof. intros w Hwf. exact Hwf. Qed.

Lemma preserves_wf_put_alert (payload : AlertPayload.t) :
  preserves_wf (storage.put_alert payload).
Proof.
  intros w Hwf. destruct (put_alert_run payload w) as (w' & Hrun & Htable & _).
  rewrite Hrun. cbn [snd]. rewrite Htable. exact Hwf.
Qed.

Lemma preserves_wf_put_item (key : string) (item : Item.t) :
  wf_item item = true → preserves_wf (storage.put_item key item).
Proof. intros Hitem w Hwf. apply wf_table_insert; assumption. Qed.

Lemma preserves_wf_update_item (key : string) (condition : Item.t → bool)
    (set : Item.t → Item.t) :
  (∀ item, wf_item item = true → condition item = true → wf_item (set item) = true) →
  preserves_wf (storage.update_item key condition set).
Proof.
  intros Hset w Hwf. unfold storage.update_item, bind, get_world.
  assert (Hitem : wf_item (default Item.empty (positions_table w !! key)) = true).
  { destruct (positions_table w !! key) as [item|] eqn:Hlook; simpl.
    - exact (Hwf key item Hlook).
    - reflexivity. }
  destruct (condition (default Item.empty (positions_table w !! key))) eqn:Hcond;
    simpl.
  - apply wf_table_insert; [|exact Hwf]. apply Hset; assumption.
  - exact Hwf.
Qed.

Lemma preserves_wf_list_positions (statuses : list Status) :
  preserves_wf (storage.list_positions statuses).
Proof. intros w Hwf. rewrite list_positions_run. exact Hwf. Qed.

Lemma preserves_wf_returned (position_id : string) (resp : option Item.t) :
  preserves_wf
    (match resp with
     | None => ret None
     | Some attributes =>
         let* p := of_outcome (storage._position_from_item position_id attributes) in
         ret (Some p)
     end).
Proof.
  destruct resp as [attributes|]; [|apply preserves_wf_ret].
  apply preserves_wf_bind; [apply preserves_wf_of_outcome|].
  intros p. apply preserves_wf_ret.
Qed.

Lemma preserves_wf_ddb_number (x : float) : preserves_wf (storage.ddb_number x).
Proof.
  intros w Hwf. unfold storage.ddb_number.
  destruct (storage.number_error w x); exact Hwf.
Qed.

Lemma preserves_wf_create (signal_spread : float) (signal_ts : Z)
    (metadata : Metadata) (now_ms : Z) :
  preserves_wf (storage.create_pending_position signal_spread signal_ts metadata now_ms).
Proof.
  apply preserves_wf_bind; [apply preserves_wf_uuid4|]. intros position_id.
  apply preserves_wf_bind; [apply preserves_wf_ddb_number|]. intros spread.
  apply preserves_wf_bind; [|intros _; apply preserves_wf_of_outcome].
  apply preserves_wf_put_item. reflexivity.
Qed.

Lemma preserves_wf_confirm_open (position_id : string) (e b : float) (now_ms : Z)
    (chat_id : string) :
  preserves_wf (storage.confirm_open position_id e b now_ms chat_id).
Proof.
  apply preserves_wf_bind; [apply preserves_wf_ddb_number|]. intros entry.
  apply preserves_wf_bind; [apply preserves_wf_ddb_number|]. intros trigger.
  apply preserves_wf_bind; [|apply preserves_wf_returned].
  apply preserves_wf_update_item. intros item. apply wf_item_set_open_confirmed.
Qed.

Lemma preserves_wf_mark_open_alert_sent (position_id : string) (now_ms : Z) :
  preserves_wf (storage.mark_open_alert_sent position_id now_ms).
Proof.
  apply preserves_wf_bind; [|intros resp; apply preserves_wf_ret].
  apply preserves_wf_update_item. intros item Hwf _.
  apply wf_item_set_open_alert_sent, Hwf.
Qed.

Lemma preserves_wf_mark_close_signalled (position_id : string) (now_ms : Z) :
  preserves_wf (storage.mark_close_signalled position_id now_ms).
Proof.
  apply preserves_wf_bind; [|apply preserves_wf_returned].
  apply preserves_wf_update_item. intros item. apply wf_item_set_close_signalled.
Qed.

Lemma preserves_wf_mark_close_alert_sent (position_id : string) (now_ms : Z) :
  preserves_wf (storage.mark_close_alert_sent position_id now_ms).
Proof.
  apply preserves_wf_bind; [|apply preserves_wf_returned].
  apply preserves_wf_update_item. intros item Hwf _.
  apply wf_item_set_close_alert_sent, Hwf.
Qed.

Lemma preserves_wf_close_position (position_id : string) (c : float) (now_ms : Z)
    (chat_id : string) :
  preserves_wf (storage.close_position position_id c now_ms chat_id).
Proof.
  apply preserves_wf_bind; [apply preserves_wf_ddb_number|]. intros close_actual.
  apply preserves_wf_bind; [|apply preserves_wf_returned].
  apply preserves_wf_update_item. intros item. apply wf_item_set_closed.
Qed.

(** Every storage call keeps the table well-formed, and so does every
    sequence of them from the empty table. *)
Lemma wf_table_run_op (op : Op) (w : World) :
  wf_table (positions_table w) → wf_table (positions_table (run_op op w)).
Proof.
  destruct op; cbv beta iota delta [run_op].
  - apply preserves_wf_create.
  - apply preserves_wf_confirm_open.
  - apply preserves_wf_mark_open_alert_sent.
  - apply preserves_wf_mark_close_signalled.
  - apply preserves_wf_mark_close_alert_sent.
  - apply preserves_wf_close_position.
Qed.

Lemma wf_table_run (ops : list Op) (w : World) :
  wf_table (positions_table w) → wf_table (positions_table (run ops w)).
Proof.
  revert w. induction ops as [|op ops IH]; intros w Hwf; simpl; [exact Hwf|].
  apply IH, wf_table_run_op, Hwf.
Qed.

Lemma wf_table_empty : wf_table ∅.
Proof. apply map_Forall_empty. Qed.

Lemma preserves_wf_for_each {A} (l : list A) (body : A → M unit) :
  (∀ x, preserves_wf (body x)) → preserves_wf (position_manager.for_each l body).
Proof.
  intros Hbody. induction l as [|x l IH]; simpl.
  - apply preserves_wf_ret.
  - apply preserves_wf_bind; [apply Hbody|]. intros _. exact IH.
Qed.

(** The four operations of the manager keep the table well-formed. *)
Lemma preserves_wf_process_open_signals (snapshot : MarketSnapshot.t)
    (cfg : RuntimeConfig.t) (now_ms : Z) :
  preserves_wf (position_manager.process_open_signals snapshot cfg now_ms).
Proof.
  unfold position_manager.process_open_signals.
  destruct (negb _); [apply preserves_wf_ret|].
  apply preserves_wf_bind; [apply preserves_wf_list_positions|].
  intros pending. destruct (last pending) as [latest|].
  - destruct (signals.should_repeat _ _ _); [|apply preserves_wf_ret].
    apply preserves_wf_bind; [apply preserves_wf_notify|]. intros _.
    apply preserves_wf_bind; [apply preserves_wf_mark_open_alert_sent|]. intros _.
    apply preserves_wf_put_alert.
  - apply preserves_wf_bind; [apply preserves_wf_create|]. intros position.
    apply preserves_wf_bind; [apply preserves_wf_notify|]. intros _.
    apply preserves_wf_put_alert.
Qed.

Lemma preserves_wf_process_close_signals (snapshot : MarketSnapshot.t)
    (cfg : RuntimeConfig.t) (now_ms : Z) :
  preserves_wf (position_manager.process_close_signals snapshot cfg now_ms).
Proof.
  unfold position_manager.process_close_signals.
  apply preserves_wf_bind; [apply preserves_wf_list_positions|].
  intros positions. apply preserves_wf_for_each. intros p.
  unfold position_manager.close_signal_step.
  destruct (PositionRecord.close_trigger p); [|apply preserves_wf_ret].
  destruct (_ && _).
  - apply preserves_wf_bind; [apply preserves_wf_mark_close_signalled|].
    intros [updated|]; [|apply preserves_wf_ret].
    apply preserves_wf_bind; [apply preserves_wf_notify|]. intros _.
    apply preserves_wf_put_alert.
  - destruct (_ && _); [|apply preserves_wf_ret].
    apply preserves_wf_bind; [apply preserves_wf_notify|]. intros _.
    apply preserves_wf_bind; [apply preserves_wf_mark_close_alert_sent|]. intros _.
    apply preserves_wf_put_alert.
Qed.

Lemma preserves_wf_manager_confirm_open (chat_id : string) (e b : float)
    (now_ms : Z) (position_id : option string) :
  preserves_wf (position_manager.confirm_open chat_id e b now_ms position_id).
Proof.
  unfold position_manager.confirm_open.
  destruct position_id as [target|]; [apply preserves_wf_confirm_open|].
  apply preserves_wf_bind; [apply preserves_wf_list_positions|].
  intros pending. destruct (last pending); [|apply preserves_wf_ret].
  apply preserves_wf_confirm_open.
Qed.

Lemma preserves_wf_manager_confirm_close (chat_id : string) (c : float)
    (now_ms : Z) (position_id : option string) :
  preserves_wf (position_manager.confirm_close chat_id c now_ms position_id).
Proof.
  unfold position_manager.confirm_close.
  destruct position_id as [target|]; [apply preserves_wf_close_position|].
  apply preserves_wf_bind; [apply preserves_wf_list_positions|].
  intros candidates. destruct (bool_decide _); [apply preserves_wf_ret|].
  destruct (head candidates); [|apply preserves_wf_ret].
  apply preserves_wf_close_position.
Qed.

End well_formed.

(** ** The order of the statuses *)

Section status_order.

Lemma rank_inj (s1 s2 : Status) : rank s1 = rank s2 → s1 = s2.
Proof. destruct s1, s2; simpl; intros H; congruence. Qed.

Lemma status_of_insert (w : World) (key position_id : string) (item : Item.t) :
  status_of (set_positions_table (insert key item) w) position_id
  = if decide (key = position_id) then Item.status item
    else status_of w position_id.
Proof.
  unfold status_of. simpl. rewrite lookup_insert.
  destruct (decide (key = position_id)); reflexivity.
Qed.

Lemma never_drawn_set_positions_table (w : World) (position_id : string)
    (f : gmap string Item.t → gmap string Item.t) :
  never_drawn w position_id →
  never_drawn (set_positions_table f w) position_id.
Proof. intros H. exact H. Qed.

(** One storage call keeps a stored status or moves it up the order. *)
Lemma run_op_status (op : Op) (w : World) (position_id : string) (s : Status) :
  status_of w position_id = Some s →
  never_drawn w position_id →
  ∃ s', status_of (run_op op w) position_id = Some s'
        ∧ (rank s ≤ rank s')%nat
        ∧ never_drawn (run_op op w) position_id.
Proof.
  intros Hs Hfresh.
  destruct op as [ss sts md now|key e b now chat|key now|key now|key now|key c now chat];
    cbv beta iota delta [run_op].
  - (* create *)
    destruct (storage.number_error w ss) as [ex|] eqn:Hnumber.
    { rewrite (create_pending_position_refused _ _ _ _ _ _ Hnumber). simpl.
      exists s. split; [exact Hs|]. split; [lia|].
      intros n Hn. apply Hfresh. simpl in Hn. lia. }
    rewrite (create_pending_position_run _ _ _ _ _ Hnumber). simpl.
    exists s. split; [|split; [lia|]].
    + unfold status_of in *. simpl. rewrite lookup_insert_ne; [exact Hs|].
      apply Hfresh. lia.
    + intros n Hn. apply Hfresh. simpl in Hn. lia.
  - (* confirm_open *)
    destruct (confirm_open_error w e b) as [ex|] eqn:Hnumber.
    { rewrite (confirm_open_refused _ _ _ _ _ _ _ Hnumber). simpl. exists s. auto. }
    destruct (decide (status_of w key = Some STATUS_OPEN_PENDING_CONFIRM)) as [Hk|Hk].
    + destruct (status_of_Some _ _ _ Hk) as (item & Hlook & Hst).
      rewrite (confirm_open_hit _ _ _ _ _ _ _ Hlook Hst Hnumber). simpl.
      rewrite status_of_insert. destruct (decide (key = position_id)) as [->|Hne].
      * exists STATUS_OPEN_CONFIRMED. simpl.
        rewrite Hs in Hk. inversion Hk; subst. simpl. auto.
      * exists s. auto.
    + rewrite (confirm_open_miss _ _ _ _ _ _ Hk Hnumber). simpl. exists s. auto.
  - (* mark_open_alert_sent *)
    rewrite mark_open_alert_sent_run. simpl.
    rewrite status_of_insert. destruct (decide (key = position_id)) as [->|Hne].
    + exists s. simpl. rewrite status_of_default. auto.
    + exists s. auto.
  - (* mark_close_signalled *)
    destruct (decide (status_of w key = Some STATUS_OPEN_CONFIRMED)) as [Hk|Hk].
    + destruct (status_of_Some _ _ _ Hk) as (item & Hlook & Hst).
      rewrite (mark_close_signalled_hit _ _ _ _ Hlook Hst). simpl.
      rewrite status_of_insert. destruct (decide (key = position_id)) as [->|Hne].
      * exists STATUS_CLOSE_SIGNALLED. simpl.
        rewrite Hs in Hk. inversion Hk; subst. simpl. auto.
      * exists s. auto.
    + rewrite (mark_close_signalled_miss _ _ _ Hk). simpl. exists s. auto.
  - (* mark_close_alert_sent *)
    rewrite mark_close_alert_sent_run. simpl.
    rewrite status_of_insert. destruct (decide (key = position_id)) as [->|Hne].
    + exists s. simpl. rewrite status_of_default. auto.
    + exists s. auto.
  - (* close_position *)
    destruct (storage.number_error w c) as [ex|] eqn:Hnumber.
    { rewrite (close_position_refused _ _ _ _ _ _ Hnumber). simpl. exists s. auto. }
    destruct (decide (status_of w key = Some STATUS_OPEN_CONFIRMED)) as [Hoc|Hoc];
      [|destruct (decide (status_of w key = Some STATUS_CLOSE_SIGNALLED)) as [Hcs|Hcs]].
    + destruct (status_of_Some _ _ _ Hoc) as (item & Hlook & Hst).
      rewrite (close_position_hit _ _ _ _ _ _ Hlook (or_introl Hst) Hnumber). simpl.
      rewrite status_of_insert. destruct (decide (key = position_id)) as [->|Hne].
      * exists STATUS_CLOSED. simpl. destruct s; simpl; auto with lia.
      * exists s. auto.
    + destruct (status_of_Some _ _ _ Hcs) as (item & Hlook & Hst).
      rewrite (close_position_hit _ _ _ _ _ _ Hlook (or_intror Hst) Hnumber). simpl.
      rewrite status_of_insert. destruct (decide (key = position_id)) as [->|Hne].
      * exists STATUS_CLOSED. simpl. destruct s; simpl; auto with lia.
      * exists s. auto.
    + rewrite (close_position_miss _ _ _ _ _ Hoc Hcs Hnumber). simpl. exists s. auto.
Qed.

Lemma run_status (ops : list Op) (w : World) (position_id : string) (s : Status) :
  status_of w position_id = Some s →
  never_drawn w position_id →
  ∃ s', status_of (run ops w) position_id = Some s'
        ∧ (rank s ≤ rank s')%nat
        ∧ never_drawn (run ops w) position_id.
Proof.
  revert w s. induction ops as [|op ops IH]; intros w s Hs Hfresh; simpl.
  - exists s. auto.
  - destruct (run_op_status op w position_id s Hs Hfresh) as (s1 & Hs1 & Hle1 & Hfresh1).
    destruct (IH _ _ Hs1 Hfresh1) as (s2 & Hs2 & Hle2 & Hfresh2).
    exists s2. split; [exact Hs2|]. split; [lia|exact Hfresh2].
Qed.

End status_order.

(** C2. A position whose key the uuid supply never returns again keeps a
    status through every sequence of storage calls, whatever their
    numbers, and the status only moves up the order OPEN_PENDING_CONFIRM <
    OPEN_CONFIRMED < CLOSE_SIGNALLED < CLOSED: at any two moments of the
    sequence the later status is not below the earlier.  A creation whose
    spread the table takes starts its position at OPEN_PENDING_CONFIRM,
    and each status-changing write carries its guard: with numbers the
    table takes, [confirm_open] answers [None] and writes nothing unless
    the status is OPEN_PENDING_CONFIRM, [mark_close_signalled] unless it is
    OPEN_CONFIRMED, [close_position] unless it is OPEN_CONFIRMED or
    CLOSE_SIGNALLED, and under the guard each sets the next status.  With
    a number the table refuses the write raises before its guard is tried,
    and the record stays as it is. *)
Theorem status_never_regresses (w : World) (position_id : string) (s : Status)
    (ops1 ops2 : list Op) :
  status_of w position_id = Some s →
  never_drawn w position_id →
  (∃ s1 s2,
     status_of (run ops1 w) position_id = Some s1
     ∧ status_of (run (ops1 ++ ops2) w) position_id = Some s2
     ∧ (rank s ≤ rank s1)%nat ∧ (rank s1 ≤ rank s2)%nat)
  ∧ (∀ a b, rank a = rank b → a = b)
  ∧ (∀ signal_spread signal_ts metadata now,
       storage.number_error w signal_spread = None →
       status_of
         (run_op (Create signal_spread signal_ts metadata now) w) (next_uuid w)
       = Some STATUS_OPEN_PENDING_CONFIRM)
  ∧ (∀ e b now chat,
       s ≠ STATUS_OPEN_PENDING_CONFIRM →
       confirm_open_error w e b = None →
       storage.confirm_open position_id e b now chat w = (Returned None, w))
  ∧ (∀ e b now chat,
       s = STATUS_OPEN_PENDING_CONFIRM →
       confirm_open_error w e b = None →
       status_of (storage.confirm_open position_id e b now chat w).2 position_id
       = Some STATUS_OPEN_CONFIRMED)
  ∧ (∀ now,
       s ≠ STATUS_OPEN_CONFIRMED →
       storage.mark_close_signalled position_id now w = (Returned None, w))
  ∧ (∀ now,
       s = STATUS_OPEN_CONFIRMED →
       status_of (storage.mark_close_signalled position_id now w).2 position_id
       = Some STATUS_CLOSE_SIGNALLED)
  ∧ (∀ c now chat,
       s ≠ STATUS_OPEN_CONFIRMED → s ≠ STATUS_CLOSE_SIGNALLED →
       storage.number_error w c = None →
       storage.close_position position_id c now chat w = (Returned None, w))
  ∧ (∀ c now chat,
       s = STATUS_OPEN_CONFIRMED ∨ s = STATUS_CLOSE_SIGNALLED →
       storage.number_error w c = None →
       status_of (storage.close_position position_id c now chat w).2 position_id
       = Some STATUS_CLOSED)
  ∧ (∀ e b now chat ex,
       confirm_open_error w e b = Some ex →
       storage.confirm_open position_id e b now chat w = (Raised ex, w))
  ∧ (∀ c now chat ex,
       storage.number_error w c = Some ex →
       storage.close_position position_id c now chat w = (Raised ex, w))
  ∧ (∀ signal_spread signal_ts metadata now ex,
       storage.number_error w signal_spread = Some ex →
       (storage.create_pending_position signal_spread signal_ts metadata now w).1
       = Raised ex
       ∧ positions_table (run_op (Create signal_spread signal_ts metadata now) w)
         = positions_table w).
Proof.
  intros Hs Hfresh.
  destruct (status_of_Some _ _ _ Hs) as (item & Hlook & Hst).
  split.
  { destruct (run_status ops1 w position_id s Hs Hfresh) as (s1 & Hs1 & Hle1 & Hfresh1).
    destruct (run_status ops2 _ position_id s1 Hs1 Hfresh1) as (s2 & Hs2 & Hle2 & _).
    exists s1, s2. unfold run in *. rewrite foldl_app. auto. }
  split; [exact rank_inj|].
  split.
  { intros signal_spread signal_ts metadata now Haccepted.
    cbv beta iota delta [run_op].
    rewrite (create_pending_position_run _ _ _ _ _ Haccepted).
    unfold status_of. cbn [snd positions_table].
    rewrite lookup_insert_eq. reflexivity. }
  split.
  { intros e b now chat Hne. apply confirm_open_miss. rewrite Hs. congruence. }
  split.
  { intros e b now chat -> Haccepted.
    rewrite (confirm_open_hit _ _ _ _ _ _ _ Hlook Hst Haccepted). simpl.
    rewrite status_of_insert, decide_True by reflexivity. reflexivity. }
  split.
  { intros now Hne. apply mark_close_signalled_miss. rewrite Hs. congruence. }
  split.
  { intros now ->.
    rewrite (mark_close_signalled_hit _ _ _ _ Hlook Hst). simpl.
    rewrite status_of_insert, decide_True by reflexivity. reflexivity. }
  split.
  { intros c now chat Hoc Hcs. apply close_position_miss; rewrite Hs; congruence. }
  split.
  { intros c now chat Hopen Haccepted.
    rewrite (close_position_hit _ _ _ _ _ _ Hlook); [| |exact Haccepted].
    - simpl. rewrite status_of_insert, decide_True by reflexivity. reflexivity.
    - rewrite Hst. destruct Hopen as [-> | ->]; auto. }
  split.
  { intros e b now chat ex. apply confirm_open_refused. }
  split.
  { intros c now chat ex. apply close_position_refused. }
  intros signal_spread signal_ts metadata now ex Hrefused.
  cbv beta iota delta [run_op].
  rewrite (create_pending_position_refused _ _ _ _ _ _ Hrefused).
  split; reflexivity.
Qed.

Lemma never_drawn_samples (table : gmap string Item.t) :
  never_drawn (samples.world_of table) "p1".
Proof. intros n _ H. unfold samples.world_of, samples.uuids in H. simpl in H. discriminate H. Qed.

Lemma status_never_regresses_witness :
  status_of samples.one_pending "p1" = Some STATUS_OPEN_PENDING_CONFIRM
  ∧ never_drawn samples.one_pending "p1"
  ∧ ∃ s1 s2,
      status_of
        (run [ConfirmOpen "p1" 39 0 2100000 "alice"; MarkCloseSignalled "p1" 2500000]
           samples.one_pending) "p1" = Some s1
      ∧ status_of
          (run ([ConfirmOpen "p1" 39 0 2100000 "alice"; MarkCloseSignalled "p1" 2500000]
                ++ [ConfirmOpen "p1" 38 0 2600000 "bob";
                    ClosePosition "p1" nan 2650000 "carol";
                    Create 42 3000 [] 2700000;
                    ClosePosition "p1" (-38.2) 2800000 "alice";
                    MarkCloseSignalled "p1" 2900000])
             samples.one_pending) "p1" = Some s2
      ∧ (rank STATUS_OPEN_PENDING_CONFIRM ≤ rank s1)%nat ∧ (rank s1 ≤ rank s2)%nat.
Proof.
  split; [vm_compute; reflexivity|].
  split; [apply never_drawn_samples|].
  exact (proj1 (status_never_regresses samples.one_pending "p1"
                  STATUS_OPEN_PENDING_CONFIRM _ _ eq_refl
                  (never_drawn_samples _))).
Defined.

(** ** Configuration overrides *)

Section override_facts.

Variable float_of_str : string → option float.
Variable int_of_str : string → option Z.
Variable str_of : Raw → string.

Abbreviation py_float := (config_store.py_float float_of_str).
Abbreviation py_int := (config_store.py_int int_of_str).
Abbreviation merge_step := (config_store.merge_step float_of_str int_of_str str_of).
Abbreviation _merge_overrides := (config_store._merge_overrides float_of_str int_of_str str_of).
Abbreviation refresh := (config_store.refresh float_of_str int_of_str str_of).

Lemma float_of_cast (raw : Raw) :
  and_then (config_store.call float_of_str int_of_str config_store.float_type raw) py_float
  = py_float raw.
Proof. unfold config_store.call. destruct (py_float raw); reflexivity. Qed.

Lemma int_of_cast (raw : Raw) :
  and_then (config_store.call float_of_str int_of_str config_store.int_type raw) py_int
  = py_int raw.
Proof. unfold config_store.call. destruct (py_int raw); reflexivity. Qed.

Ltac step_cases :=
  unfold config_store.merge_step, config_store.apply_override;
  cbn [fst snd String.eqb Ascii.eqb Bool.eqb];
  match goal with
  | |- context [?o !! ?k] => destruct (o !! k) as [raw|] eqn:Hraw
  end;
  [ rewrite ?float_of_cast, ?int_of_cast
  | let H := fresh in intros H; inversion H; subst; unfold same_numbers; tauto ].

Lemma step_threshold_open (o : gmap string Raw) (c c' : RuntimeConfig.t) :
  merge_step o c ("threshold_open", config_store.float_type) = Returned c' →
  (c' = c
   ∨ ∃ raw v, o !! "threshold_open" = Some raw ∧ py_float raw = Returned v
              ∧ c' = config_store.set_threshold_open v c).
Proof.
  step_cases.
  destruct (py_float raw) as [v|[]] eqn:Hv; simpl; intros H; inversion H; subst;
    eauto 10.
Qed.

Lemma step_close_buffer (o : gmap string Raw) (c c' : RuntimeConfig.t) :
  merge_step o c ("close_buffer", config_store.float_type) = Returned c' →
  (c' = c
   ∨ ∃ raw v, o !! "close_buffer" = Some raw ∧ py_float raw = Returned v
              ∧ c' = config_store.set_close_buffer v c).
Proof.
  step_cases.
  destruct (py_float raw) as [v|[]] eqn:Hv; simpl; intros H; inversion H; subst;
    eauto 10.
Qed.

Lemma step_repeat_alert_sec (o : gmap string Raw) (c c' : RuntimeConfig.t) :
  merge_step o c ("repeat_alert_sec", config_store.int_type) = Returned c' →
  (c' = c
   ∨ ∃ raw v, o !! "repeat_alert_sec" = Some raw ∧ py_int raw = Returned v
              ∧ c' = config_store.set_repeat_alert_sec (config_store.max_int 30 v) c).
Proof.
  step_cases.
  destruct (py_int raw) as [v|[]] eqn:Hv; simpl; intros H; inversion H; subst;
    eauto 10.
Qed.

Lemma step_annual_factor (o : gmap string Raw) (c c' : RuntimeConfig.t) :
  merge_step o c ("annual_factor", config_store.float_type) = Returned c' →
  (c' = c
   ∨ ∃ raw v, o !! "annual_factor" = Some raw ∧ py_float raw = Returned v
              ∧ c' = config_store.set_annual_factor v c).
Proof.
  step_cases.
  destruct (py_float raw) as [v|[]] eqn:Hv; simpl; intros H; inversion H; subst;
    eauto 10.
Qed.

Lemma step_poll_interval_sec (o : gmap string Raw) (c c' : RuntimeConfig.t) :
  merge_step o c ("poll_interval_sec", config_store.float_type) = Returned c' →
  (c' = c
   ∨ ∃ raw v, o !! "poll_interval_sec" = Some raw ∧ py_float raw = Returned v
              ∧ c' = config_store.set_poll_interval_sec
                       (config_store.max_float 0.5 v) c).
Proof.
  step_cases.
  destruct (py_float raw) as [v|[]] eqn:Hv; simpl; intros H; inversion H; subst;
    eauto 10.
Qed.

Lemma step_allowed_chat_ids (o : gmap string Raw) (c c' : RuntimeConfig.t) :
  merge_step o c ("allowed_chat_ids", config_store.list_type) = Returned c' →
  same_numbers c c'.
Proof.
  step_cases.
  intros H. inversion H; subst. unfold same_numbers. simpl. tauto.
Qed.

Lemma max_float_floor (v : float) :
  (0.5 <=? config_store.max_float 0.5 v)%float = true.
Proof.
  unfold config_store.max_float.
  destruct (0.5 <? v)%float eqn:Hlt; [|vm_compute; reflexivity].
  rewrite FloatAxioms.ltb_spec in Hlt. rewrite FloatAxioms.leb_spec.
  unfold SFltb in Hlt. unfold SFleb.
  destruct (SFcompare (Prim2SF 0.5) (Prim2SF v)) as [[]|]; congruence.
Qed.

Lemma max_int_floor (v : Z) : 30 ≤ config_store.max_int 30 v.
Proof. unfold config_store.max_int. destruct (30 <? v) eqn:H; lia. Qed.

(** C4, as the code has it. When [refresh] reloads (the interval has
    passed) and the merge returns, the store's snapshot becomes the merge
    of the stored overrides onto the base configuration: for each of the
    five numeric keys, a stored override whose cast raises [TypeError] or
    [ValueError] is dropped and the key takes the value of the base
    configuration, whatever the snapshot held before; the poll interval is
    the base's or at least 0.5, the repeat interval the base's or at least
    30. *)
Theorem failed_override_falls_back_to_base (self : config_store.RuntimeConfigStore.t)
    (now_ms : Z) (w : World) (merged : RuntimeConfig.t) :
  RuntimeConfig.config_refresh_sec (config_store.RuntimeConfigStore._current self) * 1000
    ≤ now_ms - config_store.RuntimeConfigStore._last_refresh_ms self →
  _merge_overrides (config_store.RuntimeConfigStore._base self) (config_table w)
    = Returned merged →
  refresh self now_ms w
    = (Returned
         (config_store.RuntimeConfigStore.mk
            (config_store.RuntimeConfigStore._base self) merged now_ms,
          merged), w)
  ∧ (∀ raw, config_table w !! "threshold_open" = Some raw →
            cast_fails (py_float raw) →
            RuntimeConfig.threshold_open merged
            = RuntimeConfig.threshold_open (config_store.RuntimeConfigStore._base self))
  ∧ (∀ raw, config_table w !! "close_buffer" = Some raw →
            cast_fails (py_float raw) →
            RuntimeConfig.close_buffer merged
            = RuntimeConfig.close_buffer (config_store.RuntimeConfigStore._base self))
  ∧ (∀ raw, config_table w !! "repeat_alert_sec" = Some raw →
            cast_fails (py_int raw) →
            RuntimeConfig.repeat_alert_sec merged
            = RuntimeConfig.repeat_alert_sec (config_store.RuntimeConfigStore._base self))
  ∧ (∀ raw, config_table w !! "annual_factor" = Some raw →
            cast_fails (py_float raw) →
            RuntimeConfig.annual_factor merged
            = RuntimeConfig.annual_factor (config_store.RuntimeConfigStore._base self))
  ∧ (∀ raw, config_table w !! "poll_interval_sec" = Some raw →
            cast_fails (py_float raw) →
            RuntimeConfig.poll_interval_sec merged
            = RuntimeConfig.poll_interval_sec (config_store.RuntimeConfigStore._base self))
  ∧ (RuntimeConfig.poll_interval_sec merged
       = RuntimeConfig.poll_interval_sec (config_store.RuntimeConfigStore._base self)
     ∨ (0.5 <=? RuntimeConfig.poll_interval_sec merged)%float = true)
  ∧ (RuntimeConfig.repeat_alert_sec merged
       = RuntimeConfig.repeat_alert_sec (config_store.RuntimeConfigStore._base self)
     ∨ 30 ≤ RuntimeConfig.repeat_alert_sec merged).
Proof.
  intros Hdue Hmerge. split.
  { unfold config_store.refresh.
    rewrite (proj2 (Z.ltb_ge _ _) Hdue).
    unfold storage.load_config_map.
    cbv beta iota delta [bind get_world ret of_outcome].
    rewrite Hmerge. reflexivity. }
  revert Hmerge.
  generalize (config_store.RuntimeConfigStore._base self) as base.
  generalize (config_table w) as o. intros o base.
  unfold config_store._merge_overrides, config_store.DYNAMIC_KEYS.
  cbn [config_store.merge_loop].
  destruct (merge_step o base ("threshold_open", config_store.float_type))
    as [c1|] eqn:H1; cbn [and_then]; [|discriminate].
  destruct (merge_step o c1 ("close_buffer", config_store.float_type))
    as [c2|] eqn:H2; cbn [and_then]; [|discriminate].
  destruct (merge_step o c2 ("repeat_alert_sec", config_store.int_type))
    as [c3|] eqn:H3; cbn [and_then]; [|discriminate].
  destruct (merge_step o c3 ("annual_factor", config_store.float_type))
    as [c4|] eqn:H4; cbn [and_then]; [|discriminate].
  destruct (merge_step o c4 ("poll_interval_sec", config_store.float_type))
    as [c5|] eqn:H5; cbn [and_then]; [|discriminate].
  destruct (merge_step o c5 ("allowed_chat_ids", config_store.list_type))
    as [c6|] eqn:H6; cbn [and_then]; [|discriminate].
  intros Hmerge. inversion Hmerge; subst c6. clear Hmerge.
  apply step_threshold_open in H1. apply step_close_buffer in H2.
  apply step_repeat_alert_sec in H3. apply step_annual_factor in H4.
  apply step_poll_interval_sec in H5. apply step_allowed_chat_ids in H6.
  destruct H6 as (E1 & E2 & E3 & E4 & E5).
  rewrite E1, E2, E3, E4, E5. clear E1 E2 E3 E4 E5.
  destruct H1 as [->|(r1 & v1 & L1 & C1 & ->)];
    destruct H2 as [->|(r2 & v2 & L2 & C2 & ->)];
    destruct H3 as [->|(r3 & v3 & L3 & C3 & ->)];
    destruct H4 as [->|(r4 & v4 & L4 & C4 & ->)];
    destruct H5 as [->|(r5 & v5 & L5 & C5 & ->)];
    cbn [RuntimeConfig.threshold_open RuntimeConfig.close_buffer
         RuntimeConfig.repeat_alert_sec RuntimeConfig.annual_factor
         RuntimeConfig.poll_interval_sec
         config_store.set_threshold_open config_store.set_close_buffer
         config_store.set_repeat_alert_sec config_store.set_annual_factor
         config_store.set_poll_interval_sec];
    repeat match goal with
           | |- _ ∧ _ => split
           | |- ∀ raw, _ !! _ = Some raw → cast_fails _ → _ =>
               let raw := fresh "raw" in
               let Hraw := fresh "Hraw" in
               let Hfail := fresh "Hfail" in
               intros raw Hraw Hfail;
               first [ reflexivity
                     | exfalso; destruct Hfail as [Hfail|Hfail]; congruence ]
           | |- _ ∨ _ =>
               first [ left; reflexivity
                     | right; apply max_float_floor
                     | right; apply max_int_floor ]
           end.
Qed.

End override_facts.

Lemma failed_override_falls_back_to_base_witness :
  RuntimeConfig.config_refresh_sec
      (config_store.RuntimeConfigStore._current samples.store_with_45) * 1000
    ≤ 200000 - config_store.RuntimeConfigStore._last_refresh_ms samples.store_with_45
  ∧ config_store._merge_overrides samples.float_of_str samples.int_of_str
      samples.str_of samples.cfg {[ "threshold_open" := RStr "abc" ]}
    = Returned samples.cfg
  ∧ samples.refresh samples.store_with_45 200000
      (samples.config_world {[ "threshold_open" := RStr "abc" ]})
    = (Returned
         (config_store.RuntimeConfigStore.mk samples.cfg samples.cfg 200000,
          samples.cfg),
       samples.config_world {[ "threshold_open" := RStr "abc" ]}).
Proof.
  assert (Hdue : RuntimeConfig.config_refresh_sec
      (config_store.RuntimeConfigStore._current samples.store_with_45) * 1000
    ≤ 200000 - config_store.RuntimeConfigStore._last_refresh_ms samples.store_with_45)
    by (vm_compute; discriminate).
  assert (Hmerge : config_store._merge_overrides samples.float_of_str
      samples.int_of_str samples.str_of samples.cfg
      {[ "threshold_open" := RStr "abc" ]} = Returned samples.cfg)
    by (vm_compute; reflexivity).
  split; [exact Hdue|]. split; [exact Hmerge|].
  exact (proj1 (failed_override_falls_back_to_base samples.float_of_str
                  samples.int_of_str samples.str_of samples.store_with_45 200000
                  (samples.config_world {[ "threshold_open" := RStr "abc" ]})
                  samples.cfg Hdue Hmerge)).
Defined.

(** C4 as stated fails: the value in effect before the refresh does not
    stay.  A first refresh finds the override [threshold_open = 45] and
    makes 45 effective; the stored override then becomes a value whose cast
    raises ([None]: [TypeError]); the next refresh drops it and the
    threshold in effect is the base's 40, not the 45 of before. *)
Lemma failed_override_loses_prior_value :
  samples.refresh (config_store.init samples.cfg) 100000
    (samples.config_world {[ "threshold_open" := RInt 45 ]})
  = (Returned (samples.store_with_45, config_store.set_threshold_open 45 samples.cfg),
     samples.config_world {[ "threshold_open" := RInt 45 ]})
  ∧ RuntimeConfig.threshold_open (config_store.set_threshold_open 45 samples.cfg)
    = 45%float
  ∧ config_store.py_float samples.float_of_str RNone = Raised TypeError
  ∧ samples.refresh samples.store_with_45 200000
      (samples.config_world {[ "threshold_open" := RNone ]})
    = (Returned
         (config_store.RuntimeConfigStore.mk samples.cfg samples.cfg 200000,
          samples.cfg),
       samples.config_world {[ "threshold_open" := RNone ]})
  ∧ RuntimeConfig.threshold_open samples.cfg = 40%float.
Proof. repeat split; vm_compute; reflexivity. Qed.

(** ** Alert stamps and the reminder cooldown *)

Section cooldown_facts.

Lemma scan_positions_nil (statuses : list Status) (table : gmap string Item.t) :
  statuses ≠ [] →
  count_status statuses table = 0%nat →
  storage.scan_positions statuses table = [].
Proof.
  intros Hne Hcount. apply length_zero_iff_nil.
  rewrite scan_positions_count by exact Hne. exact Hcount.
Qed.

(** With a position pending whose last open alert is less than the repeat
    interval ago, [process_open_signals] changes nothing. *)
Lemma open_tick_in_cooldown (w : World) (snapshot : MarketSnapshot.t)
    (cfg : RuntimeConfig.t) (now_ms : Z) (pending : list PositionRecord.t)
    (latest : PositionRecord.t) :
  storage.list_positions [STATUS_OPEN_PENDING_CONFIRM] w = (Returned pending, w) →
  last pending = Some latest →
  now_ms - PositionRecord.last_open_alert_ts latest
    < RuntimeConfig.repeat_alert_sec cfg * 1000 →
  position_manager.process_open_signals snapshot cfg now_ms w = (Returned tt, w).
Proof.
  intros Hlist Hlast Hlt. unfold position_manager.process_open_signals.
  destruct (negb _); [reflexivity|].
  rewrite (bind_Returned _ _ _ _ _ Hlist), Hlast.
  unfold signals.should_repeat.
  rewrite (proj2 (Z.leb_gt _ _) Hlt). reflexivity.
Qed.

(** With an open signal whose spread the table takes and nothing pending,
    [process_open_signals] puts the new item under the next uuid. *)
Lemma open_tick_creates (w : World) (snapshot : MarketSnapshot.t)
    (cfg : RuntimeConfig.t) (now_ms : Z) :
  signals.is_open_signal snapshot (RuntimeConfig.threshold_open cfg) = true →
  storage.list_positions [STATUS_OPEN_PENDING_CONFIRM] w = (Returned [], w) →
  storage.number_error w (MarketSnapshot.spread_open snapshot) = None →
  positions_table (position_manager.process_open_signals snapshot cfg now_ms w).2
  = <[next_uuid w :=
        created_item (storage.float_from_decimal (MarketSnapshot.spread_open snapshot))
          (MarketSnapshot.ts_ms snapshot) (signal_metadata snapshot) now_ms]>
      (positions_table w).
Proof.
  intros Hfired Hlist Haccepted. unfold position_manager.process_open_signals.
  rewrite Hfired. cbn [negb].
  rewrite (bind_Returned _ _ _ _ _ Hlist). cbn [last].
  rewrite (bind_Returned _ _ _ _ _ (create_pending_position_run _ _ _ _ _ Haccepted)).
  rewrite (bind_Returned _ _ _ _ _ (notify_run _ _)).
  match goal with
  | |- context [storage.put_alert ?payload ?w1] =>
      destruct (put_alert_run payload w1) as (w' & Hput & Htable & _)
  end.
  rewrite Hput. exact Htable.
Qed.

(** After a creation at [t] into a table with nothing pending, every
    pending position listed carries the open-alert stamp [t], and there is
    one. *)
Lemma pending_after_creation (w w1 : World) (key : string) (signal_spread : float)
    (signal_ts : Z) (metadata : Metadata) (t : Z) :
  wf_table (positions_table w) →
  count_status [STATUS_OPEN_PENDING_CONFIRM] (positions_table w) = 0%nat →
  positions_table w1
    = <[key := created_item signal_spread signal_ts metadata t]> (positions_table w) →
  ∃ pending latest,
    storage.list_positions [STATUS_OPEN_PENDING_CONFIRM] w1 = (Returned pending, w1)
    ∧ last pending = Some latest
    ∧ PositionRecord.last_open_alert_ts latest = t.
Proof.
  intros Hwf Hcount Htable.
  assert (Hwf1 : wf_table (positions_table w1)).
  { rewrite Htable. apply wf_table_insert; [reflexivity|exact Hwf]. }
  destruct (list_positions_wf [STATUS_OPEN_PENDING_CONFIRM] w1 (cons_ne_nil _ _) Hwf1)
    as (ps & Hlist & Hall & Hlen).
  assert (Hstamp : ∀ p, p ∈ ps → PositionRecord.last_open_alert_ts p = t).
  { intros p Hp.
    destruct (listed_position _ _ _ _ (cons_ne_nil _ _) Hall Hp)
      as (item & Hlook & Hst & Hconv).
    rewrite Htable in Hlook. rewrite lookup_insert in Hlook.
    destruct (decide (key = PositionRecord.position_id p)) as [Hkey|Hkey].
    - inversion Hlook; subst item. unfold storage._position_from_item in Hconv.
      simpl in Hconv. inversion Hconv. reflexivity.
    - exfalso.
      assert (Hin : (PositionRecord.position_id p, item)
                    ∈ storage.scan_positions [STATUS_OPEN_PENDING_CONFIRM]
                        (positions_table w)).
      { apply scan_positions_elem; [apply cons_ne_nil|]. split; assumption. }
      rewrite (scan_positions_nil _ _ (cons_ne_nil _ _) Hcount) in Hin.
      inversion Hin. }
  assert (Hne : storage.sort_by_signal_ts ps ≠ []).
  { intros Hnil. apply (f_equal length) in Hnil.
    rewrite sort_by_signal_ts_length, <- (Forall2_length _ _ _ Hall) in Hnil.
    assert (Hin : (key, created_item signal_spread signal_ts metadata t)
                  ∈ storage.scan_positions [STATUS_OPEN_PENDING_CONFIRM]
                      (positions_table w1)).
    { apply scan_positions_elem; [apply cons_ne_nil|]. split; [|reflexivity].
      rewrite Htable. apply lookup_insert_eq. }
    destruct (storage.scan_positions [STATUS_OPEN_PENDING_CONFIRM] (positions_table w1));
      [inversion Hin|discriminate Hnil]. }
  destruct (last (storage.sort_by_signal_ts ps)) as [latest|] eqn:Hlast.
  - exists (storage.sort_by_signal_ts ps), latest.
    split; [exact Hlist|]. split; [exact Hlast|].
    apply Hstamp. apply (sort_last_latest _ _ Hlast).
  - apply last_None in Hlast. contradiction.
Qed.

End cooldown_facts.

Section close_signal_facts.

Lemma stamped_since_refl (t : Z) (table : gmap string Item.t) :
  stamped_since t table table.
Proof. intros key. left. reflexivity. Qed.

Lemma stamped_since_trans (t : Z) (a b c : gmap string Item.t) :
  stamped_since t a b → stamped_since t b c → stamped_since t a c.
Proof.
  intros Hab Hbc key.
  destruct (Hbc key) as [Heq|Hstamp]; [|right; exact Hstamp].
  rewrite Heq. apply Hab.
Qed.

Lemma stamped_since_insert (t : Z) (table : gmap string Item.t) (key : string)
    (item : Item.t) :
  Item.last_close_alert_ts item = Some t →
  stamped_since t table (<[key := item]> table).
Proof.
  intros Hstamp key'. destruct (decide (key = key')) as [->|Hne].
  - right. exists item. rewrite lookup_insert_eq. auto.
  - left. apply lookup_insert_ne, Hne.
Qed.

Lemma returned_record_id (position_id : string) (item : Item.t)
    (r : PositionRecord.t) :
  returned_record position_id item = Returned (Some r) →
  PositionRecord.position_id r = position_id.
Proof.
  unfold returned_record, and_then.
  destruct (storage._position_from_item position_id item) as [p|e] eqn:Hconv;
    [|discriminate].
  intros H. inversion H; subst. apply (position_from_item_status _ _ _ Hconv).
Qed.

(** One round of the loop of [process_close_signals]: the messages it
    sends are about its position, it sends none for a position in
    cooldown, and every item it writes is stamped at [now_ms]. *)
Lemma close_signal_step_effect (snapshot : MarketSnapshot.t) (cfg : RuntimeConfig.t)
    (now_ms : Z) (p : PositionRecord.t) (w : World) :
  ∃ new,
    sent (position_manager.close_signal_step snapshot cfg now_ms p w).2 = sent w ++ new
    ∧ (∀ m, m ∈ new → message_position_id m = PositionRecord.position_id p)
    ∧ (in_cooldown cfg now_ms p → new = [])
    ∧ stamped_since now_ms (positions_table w)
        (positions_table (position_manager.close_signal_step snapshot cfg now_ms p w).2).
Proof.
  assert (Hquiet : ∃ new : list Message,
             sent w = sent w ++ new
             ∧ (∀ m, m ∈ new → message_position_id m = PositionRecord.position_id p)
             ∧ (in_cooldown cfg now_ms p → new = [])
             ∧ stamped_since now_ms (positions_table w) (positions_table w)).
  { exists []. rewrite app_nil_r. split; [reflexivity|]. split.
    - intros m Hm. inversion Hm.
    - split; [reflexivity|apply stamped_since_refl]. }
  unfold position_manager.close_signal_step.
  destruct (PositionRecord.close_trigger p) as [trigger|]; [|exact Hquiet].
  destruct (bool_decide (PositionRecord.status p = STATUS_OPEN_CONFIRMED)
            && signals.is_close_signal snapshot p) eqn:Hfirst.
  - (* the close signal fires on a confirmed position *)
    apply andb_prop in Hfirst as [Hoc _]. apply bool_decide_eq_true_1 in Hoc.
    destruct (decide (status_of w (PositionRecord.position_id p)
                      = Some STATUS_OPEN_CONFIRMED)) as [Hk|Hk].
    + destruct (status_of_Some _ _ _ Hk) as (item & Hlook & Hst).
      pose proof (mark_close_signalled_hit w _ item now_ms Hlook Hst) as Hrun.
      destruct (returned_record (PositionRecord.position_id p)
                  (storage.set_close_signalled now_ms item))
        as [[updated|]|e] eqn:Hrr.
      * rewrite (bind_Returned _ _ _ _ _ Hrun).
        rewrite (bind_Returned _ _ _ _ _ (notify_run _ _)).
        match goal with
        | |- context [storage.put_alert ?payload ?w1] =>
            destruct (put_alert_run payload w1) as (w' & Hput & Htable & Hsent & _)
        end.
        rewrite Hput. cbn [snd]. rewrite Htable, Hsent. cbn [sent positions_table].
        eexists. split; [reflexivity|]. split.
        { intros m Hm. apply list_elem_of_singleton in Hm. subst m. simpl.
          apply (returned_record_id _ _ _ Hrr). }
        split.
        { intros [Hcs _]. congruence. }
        simpl. apply stamped_since_insert. reflexivity.
      * rewrite (bind_Returned _ _ _ _ _ Hrun). cbn [ret snd].
        exists []. rewrite app_nil_r. split; [reflexivity|]. split.
        { intros m Hm. inversion Hm. }
        split; [reflexivity|].
        simpl. apply stamped_since_insert. reflexivity.
      * rewrite (bind_Raised _ _ _ _ _ Hrun). cbn [snd].
        exists []. rewrite app_nil_r. split; [reflexivity|]. split.
        { intros m Hm. inversion Hm. }
        split; [reflexivity|].
        simpl. apply stamped_since_insert. reflexivity.
    + rewrite (bind_Returned _ _ _ _ _ (mark_close_signalled_miss _ _ _ Hk)).
      exact Hquiet.
  - destruct (bool_decide (PositionRecord.status p = STATUS_CLOSE_SIGNALLED)
              && signals.should_repeat (PositionRecord.last_close_alert_ts p)
                   now_ms (RuntimeConfig.repeat_alert_sec cfg)) eqn:Hsecond;
      [|exact Hquiet].
    (* a reminder *)
    apply andb_prop in Hsecond as [_ Hrep].
    rewrite (bind_Returned _ _ _ _ _ (notify_run _ _)).
    match goal with
    | |- context [bind (storage.mark_close_alert_sent ?key ?now) _ ?w1] =>
        pose proof (mark_close_alert_sent_run w1 key now) as Hrun
    end.
    cbn [positions_table] in Hrun.
    match type of Hrun with
    | _ = (?o, _) => destruct o as [r|e] eqn:Hrr
    end.
    + rewrite (bind_Returned _ _ _ _ _ Hrun).
      match goal with
      | |- context [storage.put_alert ?payload ?w1] =>
          destruct (put_alert_run payload w1) as (w' & Hput & Htable & Hsent & _)
      end.
      rewrite Hput. cbn [snd]. rewrite Htable, Hsent. cbn [sent positions_table].
      eexists. split; [reflexivity|]. split.
      { intros m Hm. apply list_elem_of_singleton in Hm. subst m. reflexivity. }
      split.
      { intros [_ Hcool]. congruence. }
      simpl. apply stamped_since_insert. reflexivity.
    + rewrite (bind_Raised _ _ _ _ _ Hrun). cbn [snd sent positions_table].
      eexists. split; [reflexivity|]. split.
      { intros m Hm. apply list_elem_of_singleton in Hm. subst m. reflexivity. }
      split.
      { intros [_ Hcool]. congruence. }
      simpl. apply stamped_since_insert. reflexivity.
Qed.

(** The whole loop, over a listing taken beforehand. *)
Lemma close_signal_loop_effect (snapshot : MarketSnapshot.t) (cfg : RuntimeConfig.t)
    (now_ms : Z) (l : list PositionRecord.t) (w : World) :
  ∃ new,
    sent (position_manager.for_each l
            (position_manager.close_signal_step snapshot cfg now_ms) w).2
    = sent w ++ new
    ∧ (∀ m, m ∈ new →
            ∃ p, p ∈ l ∧ message_position_id m = PositionRecord.position_id p
                 ∧ ¬ in_cooldown cfg now_ms p)
    ∧ stamped_since now_ms (positions_table w)
        (positions_table
           (position_manager.for_each l
              (position_manager.close_signal_step snapshot cfg now_ms) w).2).
Proof.
  revert w. induction l as [|p l IH]; intros w.
  - exists []. rewrite app_nil_r. simpl. split; [reflexivity|]. split.
    + intros m Hm. inversion Hm.
    + apply stamped_since_refl.
  - destruct (close_signal_step_effect snapshot cfg now_ms p w)
      as (new1 & Hsent1 & Hid1 & Hcool1 & Hstamp1).
    assert (Habout : ∀ m, m ∈ new1 →
              ∃ q, q ∈ p :: l ∧ message_position_id m = PositionRecord.position_id q
                   ∧ ¬ in_cooldown cfg now_ms q).
    { intros m Hm. exists p. split; [apply list_elem_of_here|].
      split; [apply Hid1, Hm|].
      intros Hcool. rewrite (Hcool1 Hcool) in Hm. inversion Hm. }
    cbn [position_manager.for_each].
    destruct (position_manager.close_signal_step snapshot cfg now_ms p w)
      as [[[]|e] w1] eqn:Hstep; cbn [snd] in Hsent1, Hstamp1;
      [rewrite (bind_Returned _ _ _ _ _ Hstep)
      |rewrite (bind_Raised _ _ _ _ _ Hstep)].
    + destruct (IH w1) as (new2 & Hsent2 & Hid2 & Hstamp2).
      exists (new1 ++ new2). rewrite Hsent2, Hsent1, app_assoc.
      split; [reflexivity|]. split.
      * intros m Hm. apply elem_of_app in Hm as [Hm|Hm]; [apply Habout, Hm|].
        destruct (Hid2 m Hm) as (q & Hq & Hmq & Hnot).
        exists q. split; [apply list_elem_of_further, Hq|]. auto.
      * eapply stamped_since_trans; eassumption.
    + exists new1. cbn [snd]. split; [exact Hsent1|]. split; assumption.
Qed.

End close_signal_facts.

Section cooldown_after_transition.

Lemma wf_item_fields (item : Item.t) (s : Status) :
  Item.status item = Some s →
  wf_item item = true →
  ∃ ca ua ss sts,
    Item.created_at_ts item = Some ca ∧ Item.updated_at_ts item = Some ua
    ∧ Item.signal_spread item = Some ss ∧ Item.signal_ts item = Some sts.
Proof.
  unfold wf_item. intros -> Hwf.
  repeat (apply andb_prop in Hwf as [Hwf ?]).
  repeat match goal with
         | H : bool_decide (is_Some _) = true |- _ =>
             apply bool_decide_eq_true_1 in H as [? ?]
         end.
  eauto 10.
Qed.

Lemma position_from_item_last_close (position_id : string) (item : Item.t)
    (r : PositionRecord.t) :
  storage._position_from_item position_id item = Returned r →
  PositionRecord.last_close_alert_ts r = Item.last_close_alert_ts item.
Proof. intros Hconv. invert_item Hconv item. reflexivity. Qed.

Lemma should_repeat_in_cooldown (t now_ms repeat_alert_sec : Z) :
  now_ms - t < repeat_alert_sec * 1000 →
  signals.should_repeat (Some t) now_ms repeat_alert_sec = false.
Proof. intros Hlt. simpl. apply Z.leb_gt, Hlt. Qed.

(** One call of [process_close_signals]: the messages it sends are about
    positions of the table that are not in cooldown, and every item it
    writes is stamped at [now_ms]. *)
Lemma close_tick_effect (snapshot : MarketSnapshot.t) (cfg : RuntimeConfig.t)
    (now_ms : Z) (w : World) :
  ∃ new,
    sent (position_manager.process_close_signals snapshot cfg now_ms w).2
    = sent w ++ new
    ∧ (∀ m, m ∈ new →
         ∃ p item,
           positions_table w !! PositionRecord.position_id p = Some item
           ∧ storage._position_from_item (PositionRecord.position_id p) item = Returned p
           ∧ message_position_id m = PositionRecord.position_id p
           ∧ ¬ in_cooldown cfg now_ms p)
    ∧ stamped_since now_ms (positions_table w)
        (positions_table
           (position_manager.process_close_signals snapshot cfg now_ms w).2).
Proof.
  unfold position_manager.process_close_signals.
  pose proof (list_positions_run [STATUS_OPEN_CONFIRMED; STATUS_CLOSE_SIGNALLED] w)
    as Hlist.
  destruct (storage.positions_from_items
              (storage.scan_positions [STATUS_OPEN_CONFIRMED; STATUS_CLOSE_SIGNALLED]
                 (positions_table w))) as [ps|e] eqn:Hps; cbn [and_then] in Hlist.
  - rewrite (bind_Returned _ _ _ _ _ Hlist).
    apply positions_from_items_Forall2 in Hps.
    destruct (close_signal_loop_effect snapshot cfg now_ms
                (storage.sort_by_signal_ts ps) w) as (new & Hsent & Habout & Hstamp).
    exists new. split; [exact Hsent|]. split; [|exact Hstamp].
    intros m Hm. destruct (Habout m Hm) as (p & Hp & Hid & Hnot).
    rewrite (sort_by_signal_ts_perm ps) in Hp.
    destruct (listed_position _ _ _ _ (cons_ne_nil _ _) Hps Hp)
      as (item & Hlook & _ & Hconv).
    exists p, item. auto.
  - rewrite (bind_Raised _ _ _ _ _ Hlist). cbn [snd].
    exists []. rewrite app_nil_r. split; [reflexivity|]. split.
    + intros m Hm. inversion Hm.
    + apply stamped_since_refl.
Qed.

End cooldown_after_transition.

(** C10. The two transitions that arm a reminder stamp its clock, on a
    well-formed table: [create_pending_position] at [t], with a spread the
    table takes, returns and stores [last_open_alert_ts = t] (with a spread
    the table refuses it raises and there is no position);
    [mark_close_signalled] at [t] on an OPEN_CONFIRMED position returns and
    stores [last_close_alert_ts = close_signalled_ts = t]; and
    [should_repeat] on such a stamp is false until [repeat_alert_sec]
    seconds passed.  So after [process_open_signals] created a position at
    [t], a call of it less than the repeat interval later sends nothing;
    and after [process_close_signals] at [t] moved a position to
    CLOSE_SIGNALLED, a call of it less than the repeat interval later sends
    no message about that position. *)
Theorem alert_stamp_starts_cooldown (w : World) (snapshot : MarketSnapshot.t)
    (cfg : RuntimeConfig.t) (t : Z) :
  wf_table (positions_table w) →
  (∀ signal_spread signal_ts metadata,
     storage.number_error w signal_spread = None →
     ∃ r w1,
       storage.create_pending_position signal_spread signal_ts metadata t w
       = (Returned r, w1)
       ∧ PositionRecord.last_open_alert_ts r = t
       ∧ (Item.last_open_alert_ts <$> positions_table w1 !! PositionRecord.position_id r)
         = Some (Some t)
       ∧ ∀ now_ms repeat_alert_sec,
           now_ms - t < repeat_alert_sec * 1000 →
           signals.should_repeat (Some (PositionRecord.last_open_alert_ts r))
             now_ms repeat_alert_sec = false)
  ∧ (∀ position_id,
       status_of w position_id = Some STATUS_OPEN_CONFIRMED →
       ∃ r w1,
         storage.mark_close_signalled position_id t w = (Returned (Some r), w1)
         ∧ PositionRecord.status r = STATUS_CLOSE_SIGNALLED
         ∧ PositionRecord.last_close_alert_ts r = Some t
         ∧ PositionRecord.close_signalled_ts r = Some t
         ∧ (Item.last_close_alert_ts <$> positions_table w1 !! position_id)
           = Some (Some t)
         ∧ ∀ now_ms repeat_alert_sec,
             now_ms - t < repeat_alert_sec * 1000 →
             signals.should_repeat (PositionRecord.last_close_alert_ts r)
               now_ms repeat_alert_sec = false)
  ∧ (signals.is_open_signal snapshot (RuntimeConfig.threshold_open cfg) = true →
     count_status [STATUS_OPEN_PENDING_CONFIRM] (positions_table w) = 0%nat →
     storage.number_error w (MarketSnapshot.spread_open snapshot) = None →
     ∀ snapshot2 cfg2 now2,
       now2 - t < RuntimeConfig.repeat_alert_sec cfg2 * 1000 →
       position_manager.process_open_signals snapshot2 cfg2 now2
         (position_manager.process_open_signals snapshot cfg t w).2
       = (Returned tt, (position_manager.process_open_signals snapshot cfg t w).2))
  ∧ (∀ position_id,
       status_of w position_id = Some STATUS_OPEN_CONFIRMED →
       status_of (position_manager.process_close_signals snapshot cfg t w).2 position_id
         = Some STATUS_CLOSE_SIGNALLED →
       ∀ snapshot2 cfg2 now2,
         now2 - t < RuntimeConfig.repeat_alert_sec cfg2 * 1000 →
         ∃ new,
           sent (position_manager.process_close_signals snapshot2 cfg2 now2
                   (position_manager.process_close_signals snapshot cfg t w).2).2
           = sent (position_manager.process_close_signals snapshot cfg t w).2 ++ new
           ∧ ∀ m, m ∈ new → message_position_id m ≠ position_id)
  ∧ (∀ signal_spread signal_ts metadata e,
       storage.number_error w signal_spread = Some e →
       (storage.create_pending_position signal_spread signal_ts metadata t w).1
       = Raised e
       ∧ positions_table
           (storage.create_pending_position signal_spread signal_ts metadata t w).2
         = positions_table w).
Proof.
  intros Hwf. split; [|split; [|split; [|split]]].
  5:{ intros signal_spread signal_ts metadata e Hrefused.
      rewrite (create_pending_position_refused _ _ _ _ _ _ Hrefused).
      split; reflexivity. }
  - (* creation *)
    intros signal_spread signal_ts metadata Haccepted.
    rewrite (create_pending_position_run _ _ _ _ _ Haccepted). eexists _, _.
    split; [reflexivity|]. cbn [PositionRecord.last_open_alert_ts created_record
      PositionRecord.position_id positions_table].
    split; [reflexivity|]. split.
    + rewrite lookup_insert_eq. reflexivity.
    + intros now_ms rep. apply should_repeat_in_cooldown.
  - (* close signalled *)
    intros position_id Hoc.
    destruct (status_of_Some _ _ _ Hoc) as (item & Hlook & Hst).
    destruct (wf_item_fields item _ Hst (Hwf _ _ Hlook))
      as (ca & ua & ss & sts & Hca & Hua & Hss & Hsts).
    rewrite (mark_close_signalled_hit _ _ _ _ Hlook Hst).
    unfold returned_record, storage._position_from_item, storage.set_close_signalled.
    cbn [Item.status Item.created_at_ts Item.updated_at_ts Item.signal_spread
         Item.signal_ts].
    rewrite Hca, Hss, Hsts. cbn [and_then].
    eexists _, _. split; [reflexivity|].
    cbn [PositionRecord.status PositionRecord.last_close_alert_ts
         PositionRecord.close_signalled_ts Item.last_close_alert_ts
         Item.close_signalled_ts set_positions_table positions_table].
    split; [reflexivity|]. split; [reflexivity|]. split; [reflexivity|]. split.
    + rewrite lookup_insert_eq. reflexivity.
    + intros now_ms rep. apply should_repeat_in_cooldown.
  - (* the tick after a creation *)
    intros Hfired Hcount Haccepted snapshot2 cfg2 now2 Hlt.
    assert (Hlist : storage.list_positions [STATUS_OPEN_PENDING_CONFIRM] w
                    = (Returned [], w)).
    { rewrite list_positions_run.
      rewrite (scan_positions_nil _ _ (cons_ne_nil _ _) Hcount). reflexivity. }
    pose proof (open_tick_creates w snapshot cfg t Hfired Hlist Haccepted) as Htable.
    destruct (pending_after_creation w _ _ _ _ _ _ Hwf Hcount Htable)
      as (pending & latest & Hlist1 & Hlast & Hstamp).
    apply (open_tick_in_cooldown _ _ _ _ _ _ Hlist1 Hlast).
    rewrite Hstamp. exact Hlt.
  - (* the tick after a close signal *)
    intros position_id Hoc Hcs snapshot2 cfg2 now2 Hlt.
    destruct (close_tick_effect snapshot cfg t w) as (_ & _ & _ & Hstamped).
    destruct (status_of_Some _ _ _ Hcs) as (item1 & Hlook1 & Hst1).
    assert (Hlast : Item.last_close_alert_ts item1 = Some t).
    { destruct (Hstamped position_id) as [Hsame|(item' & Hlook' & Hstamp')].
      - exfalso. unfold status_of in Hoc. rewrite <- Hsame, Hlook1 in Hoc. congruence.
      - congruence. }
    destruct (close_tick_effect snapshot2 cfg2 now2
                (position_manager.process_close_signals snapshot cfg t w).2)
      as (new & Hsent & Habout & _).
    exists new. split; [exact Hsent|].
    intros m Hm Hid.
    destruct (Habout m Hm) as (p & item & Hlook & Hconv & Hmp & Hnot).
    apply Hnot. rewrite Hid in Hmp. rewrite <- Hmp in Hlook, Hconv.
    rewrite Hlook1 in Hlook. inversion Hlook; subst item.
    split.
    + destruct (position_from_item_status _ _ _ Hconv) as [Hstatus _]. congruence.
    + rewrite (position_from_item_last_close _ _ _ Hconv), Hlast.
      apply should_repeat_in_cooldown, Hlt.
Qed.

Lemma alert_stamp_starts_cooldown_witness :
  wf_table (positions_table samples.two_open)
  ∧ status_of samples.two_open "p1" = Some STATUS_OPEN_CONFIRMED
  ∧ status_of
      (position_manager.process_close_signals (samples.snapshot 42 (-38.9))
         samples.cfg 2600000 samples.two_open).2 "p1"
    = Some STATUS_CLOSE_SIGNALLED
  ∧ ∃ new,
      sent (position_manager.process_close_signals (samples.snapshot 41 (-38.5))
              samples.cfg 2899999
              (position_manager.process_close_signals (samples.snapshot 42 (-38.9))
                 samples.cfg 2600000 samples.two_open).2).2
      = sent (position_manager.process_close_signals (samples.snapshot 42 (-38.9))
                samples.cfg 2600000 samples.two_open).2 ++ new
      ∧ ∀ m, m ∈ new → message_position_id m ≠ "p1".
Proof.
  assert (Hwf : wf_table (positions_table samples.two_open))
    by (apply wf_table_decide; vm_compute; reflexivity).
  assert (Hoc : status_of samples.two_open "p1" = Some STATUS_OPEN_CONFIRMED)
    by (vm_compute; reflexivity).
  assert (Hcs : status_of
      (position_manager.process_close_signals (samples.snapshot 42 (-38.9))
         samples.cfg 2600000 samples.two_open).2 "p1"
    = Some STATUS_CLOSE_SIGNALLED) by (vm_compute; reflexivity).
  split; [exact Hwf|]. split; [exact Hoc|]. split; [exact Hcs|].
  apply (proj1 (proj2 (proj2 (proj2
    (alert_stamp_starts_cooldown samples.two_open (samples.snapshot 42 (-38.9))
       samples.cfg 2600000 Hwf)))) "p1" Hoc Hcs
    (samples.snapshot 41 (-38.5)) samples.cfg 2899999).
  vm_compute. reflexivity.
Defined.

(** ** The unit tests of the repository, run on the model *)

(** [test_open_signal_threshold]. *)
Example test_open_signal_threshold :
  signals.is_open_signal (samples.snapshot 40.01 (-39)) 40 = true
  ∧ signals.is_open_signal (samples.snapshot 40.01 (-39)) 41 = false.
Proof. split; vm_compute; reflexivity. Qed.

(** [test_close_signal_for_position]. *)
Example test_close_signal_for_position :
  signals.is_close_signal (samples.snapshot 42 (-38.9))
    (samples.confirmed_record "p1") = true
  ∧ storage._position_from_item "p1"
      (samples.confirmed_item STATUS_OPEN_CONFIRMED None)
    = Returned (samples.confirmed_record "p1").
Proof. split; vm_compute; reflexivity. Qed.

(** [test_create_pending_open_signal]: one position, pending, and one
    message. *)
Example test_create_pending_open_signal :
  size (positions_table
          (position_manager.process_open_signals (samples.snapshot 42 (-38.5))
             samples.cfg 2000000 (samples.world_of ∅)).2) = 1%nat
  ∧ status_of
      (position_manager.process_open_signals (samples.snapshot 42 (-38.5))
         samples.cfg 2000000 (samples.world_of ∅)).2 (samples.uuids 0)
    = Some STATUS_OPEN_PENDING_CONFIRM
  ∧ length (sent
      (position_manager.process_open_signals (samples.snapshot 42 (-38.5))
         samples.cfg 2000000 (samples.world_of ∅)).2) = 1%nat.
Proof. repeat split; vm_compute; reflexivity. Qed.

(** [test_close_signal_promotes_position]. *)
Example test_close_signal_promotes_position :
  status_of
    (position_manager.process_close_signals (samples.snapshot 41 (-38.9))
       samples.cfg 2500000
       (samples.world_of
          {[ "pos-1" := samples.confirmed_item STATUS_OPEN_CONFIRMED None ]})).2
    "pos-1" = Some STATUS_CLOSE_SIGNALLED
  ∧ length (sent
      (position_manager.process_close_signals (samples.snapshot 41 (-38.9))
         samples.cfg 2500000
         (samples.world_of
            {[ "pos-1" := samples.confirmed_item STATUS_OPEN_CONFIRMED None ]})).2)
    = 1%nat.
Proof. split; vm_compute; reflexivity. Qed.

(** The round trip of section 8 of the specification: created, confirmed
    open, close-signalled and confirmed closed, a position visits the four
    statuses in this order. *)
Example lifecycle_round_trip :
  status_of (run [Create 42 1000 [] 2000000] (samples.world_of ∅)) "u0"
    = Some STATUS_OPEN_PENDING_CONFIRM
  ∧ status_of
      (run [Create 42 1000 [] 2000000; ConfirmOpen "u0" 39 0 2100000 "alice"]
         (samples.world_of ∅)) "u0"
    = Some STATUS_OPEN_CONFIRMED
  ∧ status_of
      (run [Create 42 1000 [] 2000000; ConfirmOpen "u0" 39 0 2100000 "alice";
            MarkCloseSignalled "u0" 2500000]
         (samples.world_of ∅)) "u0"
    = Some STATUS_CLOSE_SIGNALLED
  ∧ status_of
      (run [Create 42 1000 [] 2000000; ConfirmOpen "u0" 39 0 2100000 "alice";
            MarkCloseSignalled "u0" 2500000;
            ClosePosition "u0" (-38.2) 2600000 "alice"]
         (samples.world_of ∅)) "u0"
    = Some STATUS_CLOSED.
Proof. repeat split; vm_compute; reflexivity. Qed.

(** * Further properties of the storage gateway *)

Section listing_shape.

Lemma scan_positions_selected (statuses : list Status) (table : gmap string Item.t)
    (key : string) (item : Item.t) :
  (key, item) ∈ storage.scan_positions statuses table
  ↔ table !! key = Some item ∧ selected statuses item = true.
Proof.
  destruct statuses as [|s statuses].
  - simpl. rewrite elem_of_map_to_list. tauto.
  - apply scan_positions_elem, cons_ne_nil.
Qed.

Lemma filter_keys_NoDup {A} (f : string * A → bool) (l : list (string * A)) :
  NoDup l.*1 → NoDup (List.filter f l).*1.
Proof.
  induction l as [|kv l IH]; simpl; intros Hnd; [constructor|].
  apply NoDup_cons in Hnd as [Hnotin Hnd].
  destruct (f kv); simpl; [|auto].
  apply NoDup_cons. split; [|auto].
  intros Hin. apply Hnotin.
  apply list_elem_of_fmap in Hin as (kv' & -> & Hin).
  apply list_elem_of_fmap. exists kv'. split; [reflexivity|].
  apply list_elem_of_In. apply list_elem_of_In, filter_In in Hin. tauto.
Qed.

Lemma scan_positions_NoDup (statuses : list Status) (table : gmap string Item.t) :
  NoDup (storage.scan_positions statuses table).*1.
Proof.
  unfold storage.scan_positions. destruct statuses.
  - apply NoDup_fst_map_to_list.
  - apply filter_keys_NoDup, NoDup_fst_map_to_list.
Qed.

Lemma converted_ids (items : list (string * Item.t)) (ps : list PositionRecord.t) :
  Forall2 converts items ps → PositionRecord.position_id <$> ps = items.*1.
Proof.
  induction 1 as [|[key item] p items ps Hconv _ IH]; simpl; [reflexivity|].
  f_equal; [|exact IH].
  exact (proj2 (position_from_item_status _ _ _ Hconv)).
Qed.

Lemma positions_from_items_Raised (items : list (string * Item.t)) (e : Exn) :
  storage.positions_from_items items = Raised e →
  ∃ key item, (key, item) ∈ items ∧ storage._position_from_item key item = Raised e.
Proof.
  induction items as [|[key item] items IH]; simpl; [discriminate|].
  destruct (storage._position_from_item key item) as [p|e'] eqn:Hp.
  - destruct (storage.positions_from_items items) as [ps|e'] eqn:Hps; [discriminate|].
    intros H. inversion H; subst.
    destruct (IH eq_refl) as (key' & item' & Hin & Hraise).
    exists key', item'. split; [right; exact Hin|exact Hraise].
  - intros H. inversion H; subst.
    exists key, item. split; [left|exact Hp].
Qed.

Lemma converted_listed (statuses : list Status) (table : gmap string Item.t)
    (ps : list PositionRecord.t) (p : PositionRecord.t) :
  Forall2 converts (storage.scan_positions statuses table) ps →
  p ∈ ps ↔ listed_from statuses table p.
Proof.
  intros Hall. split.
  - intros Hin. apply list_elem_of_lookup in Hin as [i Hi].
    destruct (Forall2_lookup_r _ _ _ _ _ Hall Hi) as ([key item] & Hkv & Hconv).
    apply list_elem_of_lookup_2 in Hkv.
    unfold converts in Hconv. simpl in Hconv.
    apply scan_positions_selected in Hkv as [Hlook Hsel].
    destruct (position_from_item_status _ _ _ Hconv) as [_ Hid].
    exists item. rewrite Hid. auto.
  - intros (item & Hlook & Hsel & Hconv).
    assert ((PositionRecord.position_id p, item)
            ∈ storage.scan_positions statuses table) as Hin.
    { apply scan_positions_selected. auto. }
    apply list_elem_of_lookup in Hin as [i Hi].
    destruct (Forall2_lookup_l _ _ _ _ _ Hall Hi) as (q & Hq & Hconv').
    unfold converts in Hconv'. simpl in Hconv'.
    rewrite Hconv in Hconv'. inversion Hconv'; subst.
    apply list_elem_of_lookup_2 in Hq. exact Hq.
Qed.

(** The shape of every listing: nothing is written; what is returned is
    sorted by signal time, holds each key once and is exactly the records
    of the selected items; what is raised comes from a selected item. *)
Lemma list_positions_shape (statuses : list Status) (w : World) :
  (storage.list_positions statuses w).2 = w
  ∧ match (storage.list_positions statuses w).1 with
    | Returned l =>
        StronglySorted ts_le l
        ∧ NoDup (PositionRecord.position_id <$> l)
        ∧ ∀ p, p ∈ l ↔ listed_from statuses (positions_table w) p
    | Raised e => unconvertible statuses (positions_table w) e
    end.
Proof.
  rewrite list_positions_run. simpl. split; [reflexivity|].
  destruct (storage.positions_from_items
              (storage.scan_positions statuses (positions_table w)))
    as [ps|e] eqn:Hps; simpl.
  - apply positions_from_items_Forall2 in Hps.
    split; [apply sort_by_signal_ts_sorted|]. split.
    + rewrite (sort_by_signal_ts_perm ps), (converted_ids _ _ Hps).
      apply scan_positions_NoDup.
    + intros p. rewrite (sort_by_signal_ts_perm ps).
      apply converted_listed, Hps.
  - destruct (positions_from_items_Raised _ _ Hps) as (key & item & Hin & Hraise).
    apply scan_positions_selected in Hin as [Hlook Hsel].
    exists key, item. auto.
Qed.

End listing_shape.

(** X1. Well-formedness of the positions table (every item with a status
    has the four attributes a record needs) is kept by every sequence of
    storage calls and by the four entry points of the manager; so after
    any such sequence a listing filtered by status returns, with as many
    positions as the table has items of these statuses. *)
Theorem well_formed_table_is_invariant (w : World) :
  wf_table (positions_table w) →
  (∀ ops, wf_table (positions_table (run ops w)))
  ∧ (∀ snapshot cfg now_ms,
       wf_table (positions_table
                   (position_manager.process_open_signals snapshot cfg now_ms w).2))
  ∧ (∀ snapshot cfg now_ms,
       wf_table (positions_table
                   (position_manager.process_close_signals snapshot cfg now_ms w).2))
  ∧ (∀ chat_id e b now_ms position_id,
       wf_table (positions_table
                   (position_manager.confirm_open chat_id e b now_ms position_id w).2))
  ∧ (∀ chat_id c now_ms position_id,
       wf_table (positions_table
                   (position_manager.confirm_close chat_id c now_ms position_id w).2))
  ∧ (∀ ops statuses,
       statuses ≠ [] →
       ∃ l,
         storage.list_positions statuses (run ops w) = (Returned l, run ops w)
         ∧ length l = count_status statuses (positions_table (run ops w))).
Proof.
  intros Hwf. split; [intros ops; apply wf_table_run, Hwf|].
  split; [intros; apply preserves_wf_process_open_signals, Hwf|].
  split; [intros; apply preserves_wf_process_close_signals, Hwf|].
  split; [intros; apply preserves_wf_manager_confirm_open, Hwf|].
  split; [intros; apply preserves_wf_manager_confirm_close, Hwf|].
  intros ops statuses Hne.
  destruct (list_positions_wf statuses (run ops w) Hne (wf_table_run ops w Hwf))
    as (ps & Hrun & _ & Hlen).
  eexists. split; [exact Hrun|exact Hlen].
Qed.

Lemma well_formed_table_is_invariant_witness :
  wf_table (positions_table samples.one_pending)
  ∧ ∃ l,
      storage.list_positions [STATUS_OPEN_CONFIRMED]
        (run [ConfirmOpen "p1" 39 0 2100000 "alice"; MarkOpenAlertSent "p9" 2200000]
           samples.one_pending)
      = (Returned l,
         run [ConfirmOpen "p1" 39 0 2100000 "alice"; MarkOpenAlertSent "p9" 2200000]
           samples.one_pending)
      ∧ length l
        = count_status [STATUS_OPEN_CONFIRMED]
            (positions_table
               (run [ConfirmOpen "p1" 39 0 2100000 "alice";
                     MarkOpenAlertSent "p9" 2200000] samples.one_pending)).
Proof.
  assert (wf_table (positions_table samples.one_pending)) as Hwf.
  { apply wf_table_decide. vm_compute. reflexivity. }
  split; [exact Hwf|].
  destruct (well_formed_table_is_invariant samples.one_pending Hwf)
    as (_ & _ & _ & _ & _ & Hlist).
  apply (Hlist [ConfirmOpen "p1" 39 0 2100000 "alice"; MarkOpenAlertSent "p9" 2200000]
           [STATUS_OPEN_CONFIRMED]).
  apply cons_ne_nil.
Defined.

(** X2. [list_positions] never writes.  When it returns, the list is
    sorted by [signal_ts] ascending, holds no position twice, and holds
    exactly the records of the items the status filter selects (all items
    without a filter).  When it raises, the error is the one
    [_position_from_item] raises on an item the filter selects; with a
    filter and a well-formed table it returns. *)
Theorem list_positions_sorted_and_exact (statuses : list Status) (w : World) :
  (storage.list_positions statuses w).2 = w
  ∧ match (storage.list_positions statuses w).1 with
    | Returned l =>
        StronglySorted ts_le l
        ∧ NoDup (PositionRecord.position_id <$> l)
        ∧ ∀ p, p ∈ l ↔ listed_from statuses (positions_table w) p
    | Raised e => unconvertible statuses (positions_table w) e
    end
  ∧ (statuses ≠ [] → wf_table (positions_table w) →
     ∃ l, (storage.list_positions statuses w).1 = Returned l).
Proof.
  destruct (list_positions_shape statuses w) as [Hworld Hshape].
  split; [exact Hworld|]. split; [exact Hshape|].
  intros Hne Hwf.
  destruct (list_positions_wf statuses w Hne Hwf) as (ps & Hrun & _).
  rewrite Hrun. eexists. reflexivity.
Qed.

Section round_trips.

Lemma position_from_created (position_id : string) (signal_spread : float)
    (signal_ts : Z) (metadata : Metadata) (now_ms : Z) :
  storage._position_from_item position_id
    (created_item signal_spread signal_ts metadata now_ms)
  = Returned (created_record position_id signal_spread signal_ts metadata now_ms).
Proof. reflexivity. Qed.

Lemma returned_record_not_None (position_id : string) (item : Item.t) :
  returned_record position_id item ≠ Returned None.
Proof.
  unfold returned_record.
  destruct (storage._position_from_item position_id item); simpl; discriminate.
Qed.

Lemma returned_record_Some (position_id : string) (item : Item.t)
    (r : PositionRecord.t) :
  storage._position_from_item position_id item = Returned r →
  returned_record position_id item = Returned (Some r).
Proof. intros H. unfold returned_record. rewrite H. reflexivity. Qed.

Lemma get_position_insert (w : World) (position_id : string) (item : Item.t)
    (r : PositionRecord.t) :
  storage._position_from_item position_id item = Returned r →
  storage.get_position position_id (set_positions_table (insert position_id item) w)
  = (Returned (Some r), set_positions_table (insert position_id item) w).
Proof.
  intros Hconv.
  rewrite (get_position_lookup _ _ item); [|simpl; apply lookup_insert_eq].
  rewrite (returned_record_Some _ _ _ Hconv). reflexivity.
Qed.

Lemma position_from_stamped_open (position_id : string) (item : Item.t)
    (r : PositionRecord.t) (t : Z) :
  storage._position_from_item position_id item = Returned r →
  storage._position_from_item position_id (storage.set_open_alert_sent t item)
  = Returned (stamp_open_alert t r).
Proof. intros Hconv. invert_item Hconv item. reflexivity. Qed.

Lemma position_from_stamped_close (position_id : string) (item : Item.t)
    (r : PositionRecord.t) (t : Z) :
  storage._position_from_item position_id item = Returned r →
  storage._position_from_item position_id (storage.set_close_alert_sent t item)
  = Returned (match Item.last_open_alert_ts item with
              | Some _ => stamp_close_alert t r
              | None => stamp_open_alert t (stamp_close_alert t r)
              end).
Proof.
  intros Hconv. invert_item Hconv item.
  match goal with |- context [default _ ?o] => destruct o end; reflexivity.
Qed.

Lemma position_from_promoted (position_id : string) (item : Item.t)
    (r : PositionRecord.t) (t : Z) :
  storage._position_from_item position_id item = Returned r →
  is_Some (Item.last_open_alert_ts item) →
  storage._position_from_item position_id (storage.set_close_signalled t item)
  = Returned (promoted t r).
Proof.
  intros Hconv [t0 Ht0]. invert_item Hconv item. rewrite Ht0. reflexivity.
Qed.

End round_trips.

(** X3. [create_pending_position] with a spread the table takes returns a
    pending record under the next uuid, carrying the signal it was given,
    the spread as the table holds it (the same float, but [0.0] for
    [-0.0]); [get_position] on that key then returns the same record; the
    creation touches no other key and sends nothing.  With a spread the
    table refuses (a NaN, an infinity, a number out of range) the creation
    raises: the identifier is drawn and nothing is written.
    [get_position] returns [None] exactly on a key the table does not
    hold. *)
Theorem create_then_get_round_trip (w : World) (signal_spread : float)
    (signal_ts : Z) (metadata : Metadata) (now_ms : Z) (key : string) :
  (storage.number_error w signal_spread = None →
   ∃ r w1,
     storage.create_pending_position signal_spread signal_ts metadata now_ms w
     = (Returned r, w1)
     ∧ PositionRecord.position_id r = next_uuid w
     ∧ PositionRecord.status r = STATUS_OPEN_PENDING_CONFIRM
     ∧ PositionRecord.signal_spread r = storage.float_from_decimal signal_spread
     ∧ (PositionRecord.signal_spread r =? signal_spread)%float = true
     ∧ PositionRecord.signal_ts r = signal_ts
     ∧ PositionRecord.metadata r = metadata
     ∧ PositionRecord.created_at_ts r = now_ms
     ∧ PositionRecord.close_trigger r = None
     ∧ storage.get_position (PositionRecord.position_id r) w1 = (Returned (Some r), w1)
     ∧ (∀ other, other ≠ next_uuid w →
                 positions_table w1 !! other = positions_table w !! other)
     ∧ sent w1 = sent w)
  ∧ (∀ e, storage.number_error w signal_spread = Some e →
          ∃ w1,
            storage.create_pending_position signal_spread signal_ts metadata now_ms w
            = (Raised e, w1)
            ∧ positions_table w1 = positions_table w
            ∧ uuid4_calls w1 = S (uuid4_calls w)
            ∧ sent w1 = sent w)
  ∧ (is_nan signal_spread = true → storage.number_error w signal_spread = Some TypeError)
  ∧ (storage.get_position key w = (Returned None, w)
     ↔ positions_table w !! key = None).
Proof.
  split; [|split; [|split]].
  - intros Haccepted. rewrite (create_pending_position_run _ _ _ _ _ Haccepted).
    eexists _, _. split; [reflexivity|]. simpl.
    repeat (split; [reflexivity|]).
    split.
    { apply float_from_decimal_eqb. apply (number_error_None _ _ Haccepted). }
    repeat (split; [reflexivity|]).
    split.
    + rewrite (get_position_lookup _ _
                 (created_item (storage.float_from_decimal signal_spread)
                    signal_ts metadata now_ms));
        [|simpl; apply lookup_insert_eq].
      reflexivity.
    + split; [|reflexivity].
      intros other Hne. apply lookup_insert_ne. congruence.
  - intros e Hrefused. rewrite (create_pending_position_refused _ _ _ _ _ _ Hrefused).
    eexists. split; [reflexivity|]. repeat split.
  - intros Hnan. unfold storage.number_error. rewrite Hnan. reflexivity.
  - split.
    + intros Hget. destruct (positions_table w !! key) as [item|] eqn:Hlook;
        [|reflexivity].
      rewrite (get_position_lookup _ _ _ Hlook) in Hget.
      inversion Hget as [Hrec]. destruct (returned_record_not_None _ _ Hrec).
    + intros Hlook. unfold storage.get_position, bind, get_world.
      rewrite Hlook. reflexivity.
Qed.

(** X4. On a stored position the two alert stamps change nothing but the
    clock: [mark_open_alert_sent] at [t] sets [last_open_alert_ts] and
    [updated_at_ts] to [t], [mark_close_alert_sent] sets
    [last_close_alert_ts] and [updated_at_ts]; the status and every other
    field of the record read back are as before, and no other key is
    touched.  One exception, on an item stored without
    [last_open_alert_ts]: the record falls back on [updated_at_ts] for it,
    so the close stamp moves the open stamp of the record too. *)
Theorem alert_stamps_change_only_the_clock (w : World) (position_id : string)
    (item : Item.t) (r : PositionRecord.t) (t : Z) :
  positions_table w !! position_id = Some item →
  storage._position_from_item position_id item = Returned r →
  (∃ w1,
     storage.mark_open_alert_sent position_id t w = (Returned tt, w1)
     ∧ storage.get_position position_id w1
       = (Returned (Some (stamp_open_alert t r)), w1)
     ∧ (∀ other, other ≠ position_id →
                 positions_table w1 !! other = positions_table w !! other))
  ∧ (∃ w2 r2,
       storage.mark_close_alert_sent position_id t w = (Returned (Some r2), w2)
       ∧ storage.get_position position_id w2 = (Returned (Some r2), w2)
       ∧ (∀ other, other ≠ position_id →
                   positions_table w2 !! other = positions_table w !! other)
       ∧ (is_Some (Item.last_open_alert_ts item) → r2 = stamp_close_alert t r)
       ∧ (Item.last_open_alert_ts item = None →
          r2 = stamp_open_alert t (stamp_close_alert t r))).
Proof.
  intros Hlook Hconv. split.
  - rewrite mark_open_alert_sent_run, Hlook. simpl.
    eexists. split; [reflexivity|]. split.
    + apply get_position_insert, position_from_stamped_open, Hconv.
    + intros other Hne. simpl. apply lookup_insert_ne. congruence.
  - rewrite mark_close_alert_sent_run, Hlook. simpl.
    rewrite (returned_record_Some _ _ _ (position_from_stamped_close _ _ _ t Hconv)).
    eexists _, _. split; [reflexivity|]. split.
    + apply get_position_insert, position_from_stamped_close, Hconv.
    + split; [intros other Hne; simpl; apply lookup_insert_ne; congruence|].
      split.
      * intros [t0 ->]. reflexivity.
      * intros ->. reflexivity.
Qed.

Lemma alert_stamps_change_only_the_clock_witness :
  positions_table samples.one_pending !! "p1" = Some (samples.pending_item 42 1000 2000000)
  ∧ storage._position_from_item "p1" (samples.pending_item 42 1000 2000000)
    = Returned (samples.pending_record "p1" 42 1000 2000000)
  ∧ ∃ w1,
      storage.mark_open_alert_sent "p1" 2300000 samples.one_pending = (Returned tt, w1)
      ∧ storage.get_position "p1" w1
        = (Returned (Some (stamp_open_alert 2300000
                             (samples.pending_record "p1" 42 1000 2000000))), w1).
Proof.
  assert (positions_table samples.one_pending !! "p1"
          = Some (samples.pending_item 42 1000 2000000)) as Hlook
    by (vm_compute; reflexivity).
  assert (storage._position_from_item "p1" (samples.pending_item 42 1000 2000000)
          = Returned (samples.pending_record "p1" 42 1000 2000000)) as Hconv
    by reflexivity.
  split; [exact Hlook|]. split; [exact Hconv|].
  destruct (alert_stamps_change_only_the_clock samples.one_pending "p1" _ _ 2300000
              Hlook Hconv) as [(w1 & Hrun & Hread & _) _].
  exists w1. split; [exact Hrun|exact Hread].
Defined.

Section stubs.

Lemma position_from_item_no_status (position_id : string) (item : Item.t) :
  Item.status item = None →
  storage._position_from_item position_id item = Raised (KeyError "status").
Proof. intros H. unfold storage._position_from_item. rewrite H. reflexivity. Qed.

(** On a well-formed table the only error a conversion raises is the
    missing status. *)
Lemma wf_item_raises (position_id : string) (item : Item.t) (e : Exn) :
  wf_item item = true →
  storage._position_from_item position_id item = Raised e →
  Item.status item = None ∧ e = KeyError "status".
Proof.
  intros Hwf Hraise. destruct (Item.status item) as [s|] eqn:Hs.
  - destruct (wf_item_converts position_id item s Hs Hwf) as [r Hr]. congruence.
  - rewrite (position_from_item_no_status _ _ Hs) in Hraise.
    inversion Hraise. auto.
Qed.

Lemma selected_no_status (statuses : list Status) (item : Item.t) :
  statuses ≠ [] → Item.status item = None → selected statuses item = false.
Proof.
  intros Hne Hs. destruct statuses; [congruence|].
  unfold selected, storage.status_is_in. rewrite Hs. reflexivity.
Qed.

End stubs.

(** X5. An alert stamp is an unconditional [update_item]: on a key the
    table does not hold it creates an item with the two stamps and no
    status.  [get_position] on that key then raises [KeyError('status')],
    and so does the unfiltered [list_positions]; the listings filtered by
    status and the guarded writes, given numbers the table takes, do not
    see the item.  [mark_close_alert_sent] on a missing key raises that
    error itself, after the write. *)
Theorem alert_stamp_on_missing_key_leaves_stub (w : World) (position_id : string)
    (t : Z) :
  positions_table w !! position_id = None →
  wf_table (positions_table w) →
  ∃ w1,
    storage.mark_open_alert_sent position_id t w = (Returned tt, w1)
    ∧ positions_table w1
      = <[position_id := storage.set_open_alert_sent t Item.empty]> (positions_table w)
    ∧ storage.get_position position_id w1 = (Raised (KeyError "status"), w1)
    ∧ (storage.list_positions [] w1).1 = Raised (KeyError "status")
    ∧ (∀ statuses p,
         statuses ≠ [] →
         listed_from statuses (positions_table w1) p
         ↔ listed_from statuses (positions_table w) p)
    ∧ (∀ e b now_ms chat_id,
         confirm_open_error w e b = None →
         storage.confirm_open position_id e b now_ms chat_id w1 = (Returned None, w1))
    ∧ (∀ c now_ms chat_id,
         storage.number_error w c = None →
         storage.close_position position_id c now_ms chat_id w1 = (Returned None, w1))
    ∧ storage.mark_close_alert_sent position_id t w
      = (Raised (KeyError "status"),
         set_positions_table
           (insert position_id (storage.set_close_alert_sent t Item.empty)) w).
Proof.
  intros Hnone Hwf.
  rewrite mark_open_alert_sent_run, mark_close_alert_sent_run, Hnone. simpl.
  set (stub := storage.set_open_alert_sent t Item.empty).
  set (w1 := set_positions_table (insert position_id stub) w).
  assert (positions_table w1 !! position_id = Some stub) as Hstub
    by (simpl; apply lookup_insert_eq).
  assert (wf_table (positions_table w1)) as Hwf1.
  { simpl. apply wf_table_insert; [reflexivity|exact Hwf]. }
  assert (status_of w1 position_id = None) as Hstatus.
  { rewrite (status_of_lookup _ _ _ Hstub). reflexivity. }
  exists w1. split; [reflexivity|]. split; [reflexivity|].
  split; [rewrite (get_position_lookup _ _ _ Hstub); reflexivity|].
  split.
  { rewrite list_positions_run. cbn [fst].
    destruct (storage.positions_from_items
                (storage.scan_positions [] (positions_table w1))) as [ps|e] eqn:Hps.
    - apply positions_from_items_Forall2 in Hps.
      assert ((position_id, stub) ∈ storage.scan_positions [] (positions_table w1))
        as Hin by (apply scan_positions_selected; auto).
      apply list_elem_of_lookup in Hin as [i Hi].
      destruct (Forall2_lookup_l _ _ _ _ _ Hps Hi) as (q & _ & Hconv).
      unfold converts in Hconv. simpl in Hconv. discriminate Hconv.
    - destruct (positions_from_items_Raised _ _ Hps) as (key & item & Hin & Hraise).
      apply scan_positions_selected in Hin as [Hlook _].
      destruct (wf_item_raises key item e (Hwf1 key item Hlook) Hraise) as [_ ->].
      reflexivity. }
  split.
  { intros statuses p Hne. unfold listed_from. simpl.
    destruct (decide (PositionRecord.position_id p = position_id)) as [Heq|Hneq].
    - rewrite Heq, lookup_insert_eq, Hnone. split.
      + intros (item & Hitem & Hsel & _). inversion Hitem; subst item.
        rewrite (selected_no_status statuses stub Hne eq_refl) in Hsel.
        discriminate.
      + intros (item & Hitem & _). discriminate.
    - rewrite lookup_insert_ne; [reflexivity|congruence]. }
  split.
  { intros e b now_ms chat_id Haccepted.
    apply confirm_open_miss; [rewrite Hstatus; discriminate|exact Haccepted]. }
  split.
  { intros c now_ms chat_id Haccepted.
    apply close_position_miss; try (rewrite Hstatus; discriminate). exact Haccepted. }
  reflexivity.
Qed.

Lemma alert_stamp_on_missing_key_leaves_stub_witness :
  positions_table samples.one_pending !! "p9" = None
  ∧ wf_table (positions_table samples.one_pending)
  ∧ ∃ w1,
      storage.mark_open_alert_sent "p9" 2300000 samples.one_pending = (Returned tt, w1)
      ∧ storage.get_position "p9" w1 = (Raised (KeyError "status"), w1)
      ∧ (storage.list_positions [] w1).1 = Raised (KeyError "status").
Proof.
  assert (positions_table samples.one_pending !! "p9" = None) as Hnone
    by (vm_compute; reflexivity).
  assert (wf_table (positions_table samples.one_pending)) as Hwf.
  { apply wf_table_decide. vm_compute. reflexivity. }
  split; [exact Hnone|]. split; [exact Hwf|].
  destruct (alert_stamp_on_missing_key_leaves_stub samples.one_pending "p9" 2300000
              Hnone Hwf) as (w1 & Hrun & _ & Hget & Hlist & _).
  exists w1. auto.
Defined.

Section frozen_facts.

Lemma frozen_refl (s : Status) (item : Item.t) :
  (s = STATUS_CLOSED → Item.status item = Some STATUS_CLOSED) → frozen s item item.
Proof. intros H. unfold frozen. repeat split; auto. Qed.

Lemma frozen_trans (s s1 : Status) (a b c : Item.t) :
  (rank s ≤ rank s1)%nat → frozen s a b → frozen s1 b c → frozen s a c.
Proof.
  intros Hle (Hsig1 & Hentry1 & Hclosed1) (Hsig2 & Hentry2 & Hclosed2).
  unfold frozen.
  split; [intuition congruence|]. split.
  - intros Hs. assert (s1 ≠ STATUS_OPEN_PENDING_CONFIRM) as Hs1.
    { destruct s, s1; simpl in Hle; try congruence; lia. }
    specialize (Hentry1 Hs). specialize (Hentry2 Hs1). intuition congruence.
  - intros Hs. assert (s1 = STATUS_CLOSED) as Hs1.
    { subst s. destruct s1; simpl in Hle; try reflexivity; lia. }
    specialize (Hclosed1 Hs). specialize (Hclosed2 Hs1). intuition congruence.
Qed.

Ltac frozen_by_fields :=
  unfold frozen; simpl;
  repeat match goal with |- _ ∧ _ => split end;
  try reflexivity; intros; subst; try congruence; try discriminate;
  repeat match goal with |- _ ∧ _ => split end; try reflexivity; try congruence.

(** One storage call on the item of a position. *)
Lemma run_op_frozen (op : Op) (w : World) (position_id : string) (item : Item.t)
    (s : Status) :
  positions_table w !! position_id = Some item →
  Item.status item = Some s →
  never_drawn w position_id →
  ∃ item' s',
    positions_table (run_op op w) !! position_id = Some item'
    ∧ Item.status item' = Some s'
    ∧ (rank s ≤ rank s')%nat
    ∧ frozen s item item'
    ∧ never_drawn (run_op op w) position_id.
Proof.
  intros Hlook Hs Hfresh.
  assert (status_of w position_id = Some s) as Hstatus
    by (rewrite (status_of_lookup _ _ _ Hlook); exact Hs).
  assert (frozen s item item) as Hsame.
  { apply frozen_refl. intros ->. exact Hs. }
  destruct op as [ss sts md now|key e b now chat|key now|key now|key now|key c now chat];
    cbv beta iota delta [run_op].
  - destruct (storage.number_error w ss) as [ex|] eqn:Hnumber.
    { rewrite (create_pending_position_refused _ _ _ _ _ _ Hnumber). simpl.
      exists item, s. split; [exact Hlook|]. split; [exact Hs|]. split; [lia|].
      split; [exact Hsame|].
      intros n Hn. apply Hfresh. simpl in Hn. lia. }
    rewrite (create_pending_position_run _ _ _ _ _ Hnumber). simpl.
    exists item, s. rewrite lookup_insert_ne; [|apply Hfresh; lia].
    split; [exact Hlook|]. split; [exact Hs|]. split; [lia|].
    split; [exact Hsame|].
    intros n Hn. apply Hfresh. simpl in Hn. lia.
  - destruct (confirm_open_error w e b) as [ex|] eqn:Hnumber.
    { rewrite (confirm_open_refused _ _ _ _ _ _ _ Hnumber). simpl.
      exists item, s. auto. }
    destruct (decide (status_of w key = Some STATUS_OPEN_PENDING_CONFIRM)) as [Hk|Hk].
    + destruct (status_of_Some _ _ _ Hk) as (itemk & Hlookk & Hstk).
      rewrite (confirm_open_hit _ _ _ _ _ _ _ Hlookk Hstk Hnumber). simpl.
      destruct (decide (key = position_id)) as [->|Hne].
      * rewrite lookup_insert_eq. rewrite Hlook in Hlookk. inversion Hlookk; subst itemk.
        rewrite Hs in Hstk. inversion Hstk; subst s.
        eexists _, STATUS_OPEN_CONFIRMED. split; [reflexivity|].
        split; [reflexivity|]. split; [simpl; lia|]. split; [frozen_by_fields|auto].
      * rewrite lookup_insert_ne; [|exact Hne]. exists item, s. auto.
    + rewrite (confirm_open_miss _ _ _ _ _ _ Hk Hnumber). simpl. exists item, s. auto.
  - rewrite mark_open_alert_sent_run. simpl.
    destruct (decide (key = position_id)) as [->|Hne].
    + rewrite lookup_insert_eq, Hlook. simpl.
      eexists _, s. split; [reflexivity|]. split; [exact Hs|].
      split; [lia|]. split; [frozen_by_fields|auto].
    + rewrite lookup_insert_ne; [|exact Hne]. exists item, s. auto.
  - destruct (decide (status_of w key = Some STATUS_OPEN_CONFIRMED)) as [Hk|Hk].
    + destruct (status_of_Some _ _ _ Hk) as (itemk & Hlookk & Hstk).
      rewrite (mark_close_signalled_hit _ _ _ _ Hlookk Hstk). simpl.
      destruct (decide (key = position_id)) as [->|Hne].
      * rewrite lookup_insert_eq. rewrite Hlook in Hlookk. inversion Hlookk; subst itemk.
        rewrite Hs in Hstk. inversion Hstk; subst s.
        eexists _, STATUS_CLOSE_SIGNALLED. split; [reflexivity|].
        split; [reflexivity|]. split; [simpl; lia|]. split; [frozen_by_fields|auto].
      * rewrite lookup_insert_ne; [|exact Hne]. exists item, s. auto.
    + rewrite (mark_close_signalled_miss _ _ _ Hk). simpl. exists item, s. auto.
  - rewrite mark_close_alert_sent_run. simpl.
    destruct (decide (key = position_id)) as [->|Hne].
    + rewrite lookup_insert_eq, Hlook. simpl.
      eexists _, s. split; [reflexivity|]. split; [exact Hs|].
      split; [lia|]. split; [frozen_by_fields|auto].
    + rewrite lookup_insert_ne; [|exact Hne]. exists item, s. auto.
  - destruct (storage.number_error w c) as [ex|] eqn:Hnumber.
    { rewrite (close_position_refused _ _ _ _ _ _ Hnumber). simpl.
      exists item, s. auto. }
    destruct (decide (status_of w key = Some STATUS_OPEN_CONFIRMED
                      ∨ status_of w key = Some STATUS_CLOSE_SIGNALLED)) as [Hk|Hk].
    + assert (∃ itemk, positions_table w !! key = Some itemk
                       ∧ (Item.status itemk = Some STATUS_OPEN_CONFIRMED
                          ∨ Item.status itemk = Some STATUS_CLOSE_SIGNALLED))
        as (itemk & Hlookk & Hstk).
      { destruct Hk as [Hk|Hk]; destruct (status_of_Some _ _ _ Hk) as (i & ? & ?);
          exists i; auto. }
      rewrite (close_position_hit _ _ _ _ _ _ Hlookk Hstk Hnumber). simpl.
      destruct (decide (key = position_id)) as [->|Hne].
      * rewrite lookup_insert_eq. rewrite Hlook in Hlookk. inversion Hlookk; subst itemk.
        eexists _, STATUS_CLOSED. split; [reflexivity|].
        split; [reflexivity|]. split; [destruct s; simpl; lia|].
        split; [|auto].
        rewrite Hs in Hstk.
        destruct Hstk as [Hstk|Hstk]; inversion Hstk; subst s; frozen_by_fields.
      * rewrite lookup_insert_ne; [|exact Hne]. exists item, s. auto.
    + rewrite close_position_miss; [|tauto|tauto|exact Hnumber]. simpl.
      exists item, s. auto.
Qed.

Lemma run_frozen (ops : list Op) (w : World) (position_id : string) (item : Item.t)
    (s : Status) :
  positions_table w !! position_id = Some item →
  Item.status item = Some s →
  never_drawn w position_id →
  ∃ item' s',
    positions_table (run ops w) !! position_id = Some item'
    ∧ Item.status item' = Some s'
    ∧ (rank s ≤ rank s')%nat
    ∧ frozen s item item'
    ∧ never_drawn (run ops w) position_id.
Proof.
  revert w item s. induction ops as [|op ops IH]; intros w item s Hlook Hs Hfresh; simpl.
  - exists item, s. split; [exact Hlook|]. split; [exact Hs|]. split; [lia|].
    split; [|exact Hfresh]. apply frozen_refl. intros ->. exact Hs.
  - destruct (run_op_frozen op w position_id item s Hlook Hs Hfresh)
      as (item1 & s1 & Hlook1 & Hs1 & Hle1 & Hfrozen1 & Hfresh1).
    destruct (IH _ _ _ Hlook1 Hs1 Hfresh1)
      as (item2 & s2 & Hlook2 & Hs2 & Hle2 & Hfrozen2 & Hfresh2).
    exists item2, s2. split; [exact Hlook2|]. split; [exact Hs2|].
    split; [lia|]. split; [|exact Hfresh2].
    exact (frozen_trans _ _ _ _ _ Hle1 Hfrozen1 Hfrozen2).
Qed.

End frozen_facts.

(** X6. No sequence of storage calls rewrites the history of a position
    whose key is never drawn again: the signal it was created from
    ([created_at_ts], [signal_spread], [signal_ts], the metadata) never
    changes; once it is past OPEN_PENDING_CONFIRM its entry
    ([entry_spread_actual], [close_trigger], [opened_at_confirm_ts]) never
    changes; once it is CLOSED it stays CLOSED with the same
    [close_spread_actual], [closed_at_confirm_ts], [close_signalled_ts] and
    [chat_id].  Only the alert stamps and [updated_at_ts] may still move. *)
Theorem stored_history_is_never_rewritten (w : World) (position_id : string)
    (item : Item.t) (s : Status) (ops : list Op) :
  positions_table w !! position_id = Some item →
  Item.status item = Some s →
  never_drawn w position_id →
  ∃ item',
    positions_table (run ops w) !! position_id = Some item'
    ∧ frozen s item item'
    ∧ (s = STATUS_CLOSED → status_of (run ops w) position_id = Some STATUS_CLOSED).
Proof.
  intros Hlook Hs Hfresh.
  destruct (run_frozen ops w position_id item s Hlook Hs Hfresh)
    as (item' & s' & Hlook' & Hs' & Hle & Hfrozen & _).
  exists item'. split; [exact Hlook'|]. split; [exact Hfrozen|].
  intros ->. rewrite (status_of_lookup _ _ _ Hlook').
  destruct Hfrozen as (_ & _ & Hclosed). apply Hclosed. reflexivity.
Qed.

Lemma stored_history_is_never_rewritten_witness :
  positions_table samples.two_open !! "p1"
    = Some (samples.confirmed_item STATUS_OPEN_CONFIRMED None)
  ∧ never_drawn samples.two_open "p1"
  ∧ ∃ item',
      positions_table
        (run [ConfirmOpen "p1" 12 0 2100000 "bob"; MarkCloseAlertSent "p1" 2200000;
              ClosePosition "p1" (-38.2) 2600000 "alice"] samples.two_open) !! "p1"
      = Some item'
      ∧ frozen STATUS_OPEN_CONFIRMED
          (samples.confirmed_item STATUS_OPEN_CONFIRMED None) item'.
Proof.
  assert (positions_table samples.two_open !! "p1"
          = Some (samples.confirmed_item STATUS_OPEN_CONFIRMED None)) as Hlook
    by (vm_compute; reflexivity).
  split; [exact Hlook|]. split; [apply never_drawn_samples|].
  destruct (stored_history_is_never_rewritten samples.two_open "p1" _
              STATUS_OPEN_CONFIRMED
              [ConfirmOpen "p1" 12 0 2100000 "bob"; MarkCloseAlertSent "p1" 2200000;
               ClosePosition "p1" (-38.2) 2600000 "alice"]
              Hlook eq_refl (never_drawn_samples _)) as (item' & Hlook' & Hfrozen & _).
  exists item'. auto.
Defined.

(** X7. A pending position cannot be closed before it is confirmed open:
    [close_position] answers [None] and writes nothing.  Confirmed open and
    then closed, with numbers the table takes, it yields the record of the
    whole trade: CLOSED, with the entry spread, the close trigger
    [-entry + buffer] and the close spread as the table holds them, both
    confirmation times, and the chat of the closer in place of the chat of
    the opener; [get_position] reads that record back, and a second close
    or a late open confirmation answers [None].  A close with a number the
    table refuses raises and writes nothing. *)
Theorem confirm_open_then_close_position (w : World) (position_id : string)
    (item : Item.t) (r : PositionRecord.t)
    (entry_spread_actual close_buffer close_spread_actual : float)
    (opened_at closed_at : Z) (opener closer : string) :
  positions_table w !! position_id = Some item →
  storage._position_from_item position_id item = Returned r →
  PositionRecord.status r = STATUS_OPEN_PENDING_CONFIRM →
  is_Some (Item.last_open_alert_ts item) →
  confirm_open_error w entry_spread_actual close_buffer = None →
  storage.number_error w close_spread_actual = None →
  storage.close_position position_id close_spread_actual closed_at closer w
    = (Returned None, w)
  ∧ (∃ r1 w1 w2,
      storage.confirm_open position_id entry_spread_actual close_buffer opened_at
        opener w = (Returned (Some r1), w1)
      ∧ PositionRecord.chat_id r1 = Some opener
      ∧ storage.close_position position_id close_spread_actual closed_at closer w1
        = (Returned
             (Some (closed_record r entry_spread_actual close_buffer opened_at
                      close_spread_actual closed_at closer)), w2)
      ∧ storage.get_position position_id w2
        = (Returned
             (Some (closed_record r entry_spread_actual close_buffer opened_at
                      close_spread_actual closed_at closer)), w2)
      ∧ storage.close_position position_id close_spread_actual closed_at closer w2
        = (Returned None, w2)
      ∧ storage.confirm_open position_id entry_spread_actual close_buffer opened_at
          opener w2 = (Returned None, w2))
  ∧ (∀ c e, storage.number_error w c = Some e →
            storage.close_position position_id c closed_at closer w = (Raised e, w)).
Proof.
  intros Hlook Hconv Hpending [t0 Ht0] Hopen Hclosing.
  destruct (position_from_item_status _ _ _ Hconv) as [Hst _].
  rewrite Hpending in Hst.
  assert (status_of w position_id = Some STATUS_OPEN_PENDING_CONFIRM) as Hstatus
    by (rewrite (status_of_lookup _ _ _ Hlook); exact Hst).
  split.
  { apply close_position_miss; try (rewrite Hstatus; discriminate). exact Hclosing. }
  split; [|intros c e; apply close_position_refused].
  rewrite (confirm_open_hit _ _ _ _ _ _ _ Hlook Hst Hopen).
  set (item1 := storage.set_open_confirmed (storage.float_from_decimal entry_spread_actual)
                  (storage.float_from_decimal (- entry_spread_actual + close_buffer))
                  opened_at opener item).
  set (w1 := set_positions_table (insert position_id item1) w).
  assert (positions_table w1 !! position_id = Some item1) as Hlook1
    by (simpl; apply lookup_insert_eq).
  pose proof (close_position_hit w1 position_id item1 close_spread_actual closed_at
                closer Hlook1 (or_introl eq_refl) Hclosing) as Hclose.
  set (item2 := storage.set_closed (storage.float_from_decimal close_spread_actual)
                  closed_at closer item1) in *.
  set (w2 := set_positions_table (insert position_id item2) w1) in *.
  assert (storage._position_from_item position_id item2
          = Returned (closed_record r entry_spread_actual close_buffer opened_at
                        close_spread_actual closed_at closer)) as Hconv2.
  { subst item2 item1. invert_item Hconv item. rewrite Ht0. reflexivity. }
  assert (∃ r1, returned_record position_id item1 = Returned (Some r1)
                ∧ PositionRecord.chat_id r1 = Some opener) as (r1 & Hr1 & Hchat).
  { subst item1. invert_item Hconv item. eexists. split; reflexivity. }
  assert (status_of w2 position_id = Some STATUS_CLOSED) as Hstatus2.
  { unfold w2. rewrite status_of_insert, decide_True; reflexivity. }
  exists r1, w1, w2. rewrite Hr1.
  split; [reflexivity|]. split; [exact Hchat|].
  split; [rewrite Hclose, (returned_record_Some _ _ _ Hconv2); reflexivity|].
  split; [apply get_position_insert, Hconv2|].
  split.
  - apply close_position_miss; try (rewrite Hstatus2; discriminate). exact Hclosing.
  - apply confirm_open_miss; [rewrite Hstatus2; discriminate|exact Hopen].
Qed.

Lemma confirm_open_then_close_position_witness :
  positions_table samples.one_pending !! "p1" = Some (samples.pending_item 42 1000 2000000)
  ∧ confirm_open_error samples.one_pending 39 2 = None
  ∧ storage.number_error samples.one_pending (-38.2) = None
  ∧ storage.close_position "p1" (-38.2) 2600000 "bob" samples.one_pending
    = (Returned None, samples.one_pending)
  ∧ ∃ r1 w1 w2,
      storage.confirm_open "p1" 39 2 2100000 "alice" samples.one_pending
      = (Returned (Some r1), w1)
      ∧ storage.close_position "p1" (-38.2) 2600000 "bob" w1
        = (Returned
             (Some (closed_record (samples.pending_record "p1" 42 1000 2000000)
                      39 2 2100000 (-38.2) 2600000 "bob")), w2).
Proof.
  assert (positions_table samples.one_pending !! "p1"
          = Some (samples.pending_item 42 1000 2000000)) as Hlook
    by (vm_compute; reflexivity).
  assert (confirm_open_error samples.one_pending 39 2 = None) as Hopen
    by (vm_compute; reflexivity).
  assert (storage.number_error samples.one_pending (-38.2) = None) as Hclosing
    by (vm_compute; reflexivity).
  split; [exact Hlook|]. split; [exact Hopen|]. split; [exact Hclosing|].
  destruct (confirm_open_then_close_position samples.one_pending "p1"
              (samples.pending_item 42 1000 2000000)
              (samples.pending_record "p1" 42 1000 2000000)
              39 2 (-38.2) 2100000 2600000 "alice" "bob"
              Hlook eq_refl eq_refl (ex_intro _ 2000000 eq_refl) Hopen Hclosing)
    as (Hearly & (r1 & w1 & w2 & Hrun & _ & Hclose & _) & _).
  split; [exact Hearly|].
  exists r1, w1, w2. auto.
Defined.

(** X8. [is_close_signal] is false on a position without a close trigger,
    whatever the spread; on a position with a trigger it is true exactly
    when [spread_close >= close_trigger] in the order of binary64 values.
    So it never fires on a position as created, and on the record a
    [confirm_open] returns, the table having taken its numbers, it fires
    exactly when [spread_close >= -entry_spread_actual + close_buffer]. *)
Theorem is_close_signal_iff (snapshot : MarketSnapshot.t) (w : World)
    (position_id : string) (item : Item.t)
    (entry_spread_actual close_buffer : float) (now_ms : Z) (chat_id : string) :
  positions_table w !! position_id = Some item →
  Item.status item = Some STATUS_OPEN_PENDING_CONFIRM →
  wf_item item = true →
  confirm_open_error w entry_spread_actual close_buffer = None →
  (∀ p,
     signals.is_close_signal snapshot p = true
     ↔ ∃ trigger,
         PositionRecord.close_trigger p = Some trigger
         ∧ signals.ieee_ge (MarketSnapshot.spread_close snapshot) trigger)
  ∧ (∀ key signal_spread signal_ts metadata t,
       signals.is_close_signal snapshot
         (created_record key signal_spread signal_ts metadata t) = false)
  ∧ ∃ r w',
      storage.confirm_open position_id entry_spread_actual close_buffer now_ms
        chat_id w = (Returned (Some r), w')
      ∧ (signals.is_close_signal snapshot r = true
         ↔ signals.ieee_ge (MarketSnapshot.spread_close snapshot)
             (signals.close_trigger entry_spread_actual close_buffer)).
Proof.
  intros Hlook Hst Hwf Haccepted.
  assert (∀ p,
     signals.is_close_signal snapshot p = true
     ↔ ∃ trigger,
         PositionRecord.close_trigger p = Some trigger
         ∧ signals.ieee_ge (MarketSnapshot.spread_close snapshot) trigger) as Hiff.
  { intros p. unfold signals.is_close_signal.
    destruct (PositionRecord.close_trigger p) as [trigger|].
    - rewrite float_ge_ieee. split.
      + intros H. exists trigger. auto.
      + intros (trigger' & Heq & H). inversion Heq; subst. exact H.
    - split; [discriminate|]. intros (trigger & Heq & _). discriminate. }
  split; [exact Hiff|]. split; [reflexivity|].
  rewrite (confirm_open_hit _ _ _ _ _ _ _ Hlook Hst Haccepted).
  destruct (wf_item_converts position_id
              (storage.set_open_confirmed (storage.float_from_decimal entry_spread_actual)
                 (storage.float_from_decimal (- entry_spread_actual + close_buffer))
                 now_ms chat_id item)
              STATUS_OPEN_CONFIRMED eq_refl) as [r Hr].
  { apply wf_item_set_open_confirmed; [exact Hwf|].
    unfold storage.status_eq. rewrite Hst. reflexivity. }
  exists r. eexists. rewrite (returned_record_Some _ _ _ Hr).
  split; [reflexivity|].
  rewrite Hiff.
  assert (PositionRecord.close_trigger r
          = Some (storage.float_from_decimal
                    (signals.close_trigger entry_spread_actual close_buffer)))
    as Htrigger.
  { unfold storage._position_from_item in Hr. simpl in Hr.
    destruct (Item.created_at_ts item); [|discriminate].
    destruct (Item.signal_spread item); [|discriminate].
    destruct (Item.signal_ts item); [|discriminate].
    inversion Hr. reflexivity. }
  rewrite Htrigger, <- (ieee_ge_from_decimal _
                          (signals.close_trigger entry_spread_actual close_buffer)).
  split.
  - intros (trigger & Heq & H). inversion Heq; subst. exact H.
  - intros H. eexists. split; [reflexivity|exact H].
Qed.

Lemma is_close_signal_iff_witness :
  positions_table samples.one_pending !! "p1" = Some (samples.pending_item 42 1000 2000000)
  ∧ ∃ r w',
      storage.confirm_open "p1" 39 0 2100000 "alice" samples.one_pending
      = (Returned (Some r), w')
      ∧ (signals.is_close_signal (samples.snapshot 42 (-38.9)) r = true
         ↔ signals.ieee_ge
             (MarketSnapshot.spread_close (samples.snapshot 42 (-38.9)))
             (signals.close_trigger 39 0)).
Proof.
  assert (positions_table samples.one_pending !! "p1"
          = Some (samples.pending_item 42 1000 2000000)) as Hlook
    by (vm_compute; reflexivity).
  split; [exact Hlook|].
  destruct (is_close_signal_iff (samples.snapshot 42 (-38.9)) samples.one_pending "p1"
              (samples.pending_item 42 1000 2000000) 39 0 2100000 "alice"
              Hlook eq_refl eq_refl eq_refl) as (_ & _ & r & w' & Hrun & Hiff).
  exists r, w'. auto.
Defined.

(** X9. On a well-formed table [list_active_positions] returns, writing
    nothing, a list sorted by signal time in which a key appears exactly
    when the table holds it with one of the three statuses that are not
    CLOSED: a closed position is never listed, every other one is, once. *)
Theorem list_active_positions_excludes_closed (w : World) :
  wf_table (positions_table w) →
  ∃ l,
    position_manager.list_active_positions w = (Returned l, w)
    ∧ StronglySorted ts_le l
    ∧ NoDup (PositionRecord.position_id <$> l)
    ∧ (∀ p, p ∈ l → PositionRecord.status p ≠ STATUS_CLOSED)
    ∧ (∀ key,
         key ∈ PositionRecord.position_id <$> l
         ↔ ∃ s, status_of w key = Some s ∧ s ≠ STATUS_CLOSED).
Proof.
  intros Hwf. unfold position_manager.list_active_positions.
  set (active := [STATUS_OPEN_PENDING_CONFIRM; STATUS_OPEN_CONFIRMED;
                  STATUS_CLOSE_SIGNALLED]).
  destruct (list_positions_wf active w (cons_ne_nil _ _) Hwf) as (ps & Hrun & _ & _).
  destruct (list_positions_shape active w) as [_ Hshape].
  rewrite Hrun in Hshape |- *. simpl in Hshape.
  destruct Hshape as (Hsorted & Hnodup & Hmem).
  exists (storage.sort_by_signal_ts ps).
  split; [reflexivity|]. split; [exact Hsorted|]. split; [exact Hnodup|].
  assert (∀ item s, Item.status item = Some s →
            (selected active item = true ↔ s ≠ STATUS_CLOSED)) as Hactive.
  { intros item s Hs. unfold selected, active, storage.status_is_in. rewrite Hs.
    destruct s; split; intros H; try reflexivity; try congruence;
      try (vm_compute in H; discriminate). }
  split.
  - intros p Hin. apply Hmem in Hin as (item & Hlook & Hsel & Hconv).
    destruct (position_from_item_status _ _ _ Hconv) as [Hst _].
    apply (Hactive item _ Hst), Hsel.
  - intros key. rewrite list_elem_of_fmap. split.
    + intros (p & -> & Hin). apply Hmem in Hin as (item & Hlook & Hsel & Hconv).
      destruct (position_from_item_status _ _ _ Hconv) as [Hst _].
      exists (PositionRecord.status p).
      rewrite (status_of_lookup _ _ _ Hlook). split; [exact Hst|].
      apply (Hactive item _ Hst), Hsel.
    + intros (s & Hs & Hne).
      destruct (status_of_Some _ _ _ Hs) as (item & Hlook & Hst).
      destruct (wf_item_converts key item s Hst (Hwf key item Hlook)) as [p Hp].
      destruct (position_from_item_status _ _ _ Hp) as [_ Hid].
      exists p. split; [symmetry; exact Hid|].
      apply Hmem. exists item. rewrite Hid.
      split; [exact Hlook|]. split; [|exact Hp].
      apply (Hactive item s Hst), Hne.
Qed.

Lemma list_active_positions_excludes_closed_witness :
  wf_table (positions_table samples.two_open)
  ∧ ∃ l,
      position_manager.list_active_positions samples.two_open
      = (Returned l, samples.two_open)
      ∧ ∀ p, p ∈ l → PositionRecord.status p ≠ STATUS_CLOSED.
Proof.
  assert (wf_table (positions_table samples.two_open)) as Hwf.
  { apply wf_table_decide. vm_compute. reflexivity. }
  split; [exact Hwf|].
  destruct (list_active_positions_excludes_closed samples.two_open Hwf)
    as (l & Hrun & _ & _ & Hopen & _).
  exists l. auto.
Defined.

(** * Further properties of the position manager *)

Section pending_count_facts.

Lemma filter_length_Permutation {A} (f : A → bool) (l k : list A) :
  l ≡ₚ k → length (List.filter f l) = length (List.filter f k).
Proof.
  induction 1 as [|x l k _ IH|x y l|l k m _ IH1 _ IH2]; simpl.
  - reflexivity.
  - destruct (f x); simpl; congruence.
  - destruct (f x), (f y); reflexivity.
  - congruence.
Qed.

Lemma count_status_insert_fresh (statuses : list Status) (table : gmap string Item.t)
    (key : string) (item : Item.t) :
  table !! key = None →
  count_status statuses (<[key := item]> table)
  = ((if storage.status_is_in statuses item then 1 else 0)
     + count_status statuses table)%nat.
Proof.
  intros Hnone. unfold count_status.
  rewrite (filter_length_Permutation _ _ _ (map_to_list_insert table key item Hnone)).
  simpl. destruct (storage.status_is_in statuses item); reflexivity.
Qed.

(** A write replaces the item of its key in the count. *)
Lemma count_status_insert (statuses : list Status) (table : gmap string Item.t)
    (key : string) (item : Item.t) :
  (count_status statuses (<[key := item]> table)
   + (if storage.status_is_in statuses (default Item.empty (table !! key))
      then 1 else 0)
   = (if storage.status_is_in statuses item then 1 else 0)
     + count_status statuses table)%nat.
Proof.
  destruct (table !! key) as [old|] eqn:Hold; simpl.
  - rewrite <- (insert_delete_eq table key item).
    rewrite (count_status_insert_fresh _ _ _ _ (lookup_delete_eq table key)).
    rewrite <- (insert_delete_id table key old Hold) at 2.
    rewrite (count_status_insert_fresh _ _ _ _ (lookup_delete_eq table key)).
    lia.
  - rewrite (count_status_insert_fresh _ _ _ _ Hold).
    change (storage.status_is_in statuses Item.empty) with false. lia.
Qed.

Lemma adds_no_pending_ret {A} (a : A) : adds_no_pending (ret a).
Proof. intros w. simpl. lia. Qed.

Lemma adds_no_pending_of_outcome {A} (o : Outcome A) : adds_no_pending (of_outcome o).
Proof. intros w. simpl. lia. Qed.

Lemma adds_no_pending_bind {A B} (m : M A) (k : A → M B) :
  adds_no_pending m → (∀ a, adds_no_pending (k a)) → adds_no_pending (bind m k).
Proof.
  intros Hm Hk w. unfold bind.
  specialize (Hm w). destruct (m w) as [[a|e] w1]; simpl in *.
  - specialize (Hk a w1). lia.
  - exact Hm.
Qed.

Lemma adds_no_pending_notify (m : Message) : adds_no_pending (notify m).
Proof. intros w. simpl. lia. Qed.

Lemma adds_no_pending_ddb_number (x : float) : adds_no_pending (storage.ddb_number x).
Proof.
  intros w. unfold storage.ddb_number.
  destruct (storage.number_error w x); simpl; lia.
Qed.

Lemma adds_no_pending_put_alert (payload : AlertPayload.t) :
  adds_no_pending (storage.put_alert payload).
Proof.
  intros w. destruct (put_alert_run payload w) as (w' & Hrun & Htable & _).
  rewrite Hrun. cbn [snd]. rewrite Htable. lia.
Qed.

Lemma adds_no_pending_list_positions (statuses : list Status) :
  adds_no_pending (storage.list_positions statuses).
Proof. intros w. rewrite list_positions_run. simpl. lia. Qed.

(** An update that makes no item pending adds no pending position. *)
Lemma adds_no_pending_update_item (key : string) (condition : Item.t → bool)
    (set : Item.t → Item.t) :
  (∀ item,
     condition item = true →
     storage.status_is_in [STATUS_OPEN_PENDING_CONFIRM] (set item) = true →
     storage.status_is_in [STATUS_OPEN_PENDING_CONFIRM] item = true) →
  adds_no_pending (storage.update_item key condition set).
Proof.
  intros Hset w. unfold storage.update_item, bind, get_world.
  destruct (condition (default Item.empty (positions_table w !! key))) eqn:Hcond;
    simpl; [|lia].
  unfold pending_count.
  pose proof (count_status_insert [STATUS_OPEN_PENDING_CONFIRM] (positions_table w) key
                (set (default Item.empty (positions_table w !! key)))) as Hcount.
  specialize (Hset _ Hcond).
  destruct (storage.status_is_in [STATUS_OPEN_PENDING_CONFIRM]
              (set (default Item.empty (positions_table w !! key)))).
  - rewrite (Hset eq_refl) in Hcount. lia.
  - lia.
Qed.

Lemma adds_no_pending_returned (position_id : string) (resp : option Item.t) :
  adds_no_pending
    (match resp with
     | None => ret None
     | Some attributes =>
         let* p := of_outcome (storage._position_from_item position_id attributes) in
         ret (Some p)
     end).
Proof.
  destruct resp as [attributes|]; [|apply adds_no_pending_ret].
  apply adds_no_pending_bind; [apply adds_no_pending_of_outcome|].
  intros p. apply adds_no_pending_ret.
Qed.

Lemma adds_no_pending_confirm_open (position_id : string) (e b : float) (now_ms : Z)
    (chat_id : string) :
  adds_no_pending (storage.confirm_open position_id e b now_ms chat_id).
Proof.
  unfold storage.confirm_open.
  apply adds_no_pending_bind; [apply adds_no_pending_ddb_number|]. intros entry.
  apply adds_no_pending_bind; [apply adds_no_pending_ddb_number|]. intros trigger.
  apply adds_no_pending_bind; [|apply adds_no_pending_returned].
  apply adds_no_pending_update_item. intros item _ H. discriminate H.
Qed.

Lemma adds_no_pending_mark_open_alert_sent (position_id : string) (now_ms : Z) :
  adds_no_pending (storage.mark_open_alert_sent position_id now_ms).
Proof.
  unfold storage.mark_open_alert_sent.
  apply adds_no_pending_bind; [|intros _; apply adds_no_pending_ret].
  apply adds_no_pending_update_item. intros item _ H. exact H.
Qed.

Lemma adds_no_pending_mark_close_signalled (position_id : string) (now_ms : Z) :
  adds_no_pending (storage.mark_close_signalled position_id now_ms).
Proof.
  unfold storage.mark_close_signalled.
  apply adds_no_pending_bind; [|apply adds_no_pending_returned].
  apply adds_no_pending_update_item. intros item _ H. discriminate H.
Qed.

Lemma adds_no_pending_mark_close_alert_sent (position_id : string) (now_ms : Z) :
  adds_no_pending (storage.mark_close_alert_sent position_id now_ms).
Proof.
  unfold storage.mark_close_alert_sent.
  apply adds_no_pending_bind; [|apply adds_no_pending_returned].
  apply adds_no_pending_update_item. intros item _ H. exact H.
Qed.

Lemma adds_no_pending_close_position (position_id : string) (c : float) (now_ms : Z)
    (chat_id : string) :
  adds_no_pending (storage.close_position position_id c now_ms chat_id).
Proof.
  unfold storage.close_position.
  apply adds_no_pending_bind; [apply adds_no_pending_ddb_number|]. intros actual.
  apply adds_no_pending_bind; [|apply adds_no_pending_returned].
  apply adds_no_pending_update_item. intros item _ H. discriminate H.
Qed.

Lemma adds_no_pending_for_each {A} (l : list A) (body : A → M unit) :
  (∀ x, adds_no_pending (body x)) →
  adds_no_pending (position_manager.for_each l body).
Proof.
  intros Hbody. induction l as [|x l IH]; simpl.
  - apply adds_no_pending_ret.
  - apply adds_no_pending_bind; [apply Hbody|]. intros _. exact IH.
Qed.

Lemma adds_no_pending_process_close_signals (snapshot : MarketSnapshot.t)
    (cfg : RuntimeConfig.t) (now_ms : Z) :
  adds_no_pending (position_manager.process_close_signals snapshot cfg now_ms).
Proof.
  unfold position_manager.process_close_signals.
  apply adds_no_pending_bind; [apply adds_no_pending_list_positions|].
  intros positions. apply adds_no_pending_for_each. intros p.
  unfold position_manager.close_signal_step.
  destruct (PositionRecord.close_trigger p); [|apply adds_no_pending_ret].
  destruct (_ && _).
  - apply adds_no_pending_bind; [apply adds_no_pending_mark_close_signalled|].
    intros [updated|]; [|apply adds_no_pending_ret].
    apply adds_no_pending_bind; [apply adds_no_pending_notify|]. intros _.
    apply adds_no_pending_put_alert.
  - destruct (_ && _); [|apply adds_no_pending_ret].
    apply adds_no_pending_bind; [apply adds_no_pending_notify|]. intros _.
    apply adds_no_pending_bind; [apply adds_no_pending_mark_close_alert_sent|].
    intros _. apply adds_no_pending_put_alert.
Qed.

Lemma adds_no_pending_manager_confirm_open (chat_id : string) (e b : float)
    (now_ms : Z) (position_id : option string) :
  adds_no_pending (position_manager.confirm_open chat_id e b now_ms position_id).
Proof.
  unfold position_manager.confirm_open.
  destruct position_id as [target|]; [apply adds_no_pending_confirm_open|].
  apply adds_no_pending_bind; [apply adds_no_pending_list_positions|].
  intros pending. destruct (last pending); [|apply adds_no_pending_ret].
  apply adds_no_pending_confirm_open.
Qed.

Lemma adds_no_pending_manager_confirm_close (chat_id : string) (c : float)
    (now_ms : Z) (position_id : option string) :
  adds_no_pending (position_manager.confirm_close chat_id c now_ms position_id).
Proof.
  unfold position_manager.confirm_close.
  destruct position_id as [target|]; [apply adds_no_pending_close_position|].
  apply adds_no_pending_bind; [apply adds_no_pending_list_positions|].
  intros candidates. destruct (bool_decide _); [apply adds_no_pending_ret|].
  destruct (head candidates); [|apply adds_no_pending_ret].
  apply adds_no_pending_close_position.
Qed.

(** The reminder branch of [process_open_signals]. *)
Lemma adds_no_pending_open_reminder (snapshot : MarketSnapshot.t)
    (cfg : RuntimeConfig.t) (now_ms : Z) (latest : PositionRecord.t)
    (payload : AlertPayload.t) :
  adds_no_pending
    (let* _ :=
       notify (position_manager._open_signal_message latest snapshot
                 (RuntimeConfig.threshold_open cfg) true) in
     let* _ :=
       storage.mark_open_alert_sent (PositionRecord.position_id latest) now_ms in
     storage.put_alert payload).
Proof.
  apply adds_no_pending_bind; [apply adds_no_pending_notify|]. intros _.
  apply adds_no_pending_bind; [apply adds_no_pending_mark_open_alert_sent|]. intros _.
  apply adds_no_pending_put_alert.
Qed.

End pending_count_facts.

(** X10. The manager keeps at most one position pending.  On a well-formed
    table [process_open_signals] creates a position only when none is
    pending, so it leaves at most one pending if there was at most one;
    [process_close_signals], [confirm_open] and [confirm_close] never add
    a pending position. *)
Theorem at_most_one_pending_position (w : World) :
  wf_table (positions_table w) →
  (pending_count (positions_table w) ≤ 1)%nat →
  (∀ snapshot cfg now_ms,
     (pending_count
        (positions_table (position_manager.process_open_signals snapshot cfg now_ms w).2)
      ≤ 1)%nat)
  ∧ (∀ snapshot cfg now_ms,
       (pending_count
          (positions_table
             (position_manager.process_close_signals snapshot cfg now_ms w).2)
        ≤ pending_count (positions_table w))%nat)
  ∧ (∀ chat_id e b now_ms position_id,
       (pending_count
          (positions_table
             (position_manager.confirm_open chat_id e b now_ms position_id w).2)
        ≤ pending_count (positions_table w))%nat)
  ∧ (∀ chat_id c now_ms position_id,
       (pending_count
          (positions_table
             (position_manager.confirm_close chat_id c now_ms position_id w).2)
        ≤ pending_count (positions_table w))%nat).
Proof.
  intros Hwf Hone.
  split; [|split; [|split]].
  - intros snapshot cfg now_ms.
    destruct (signals.is_open_signal snapshot (RuntimeConfig.threshold_open cfg))
      eqn:Hsignal.
    + destruct (list_positions_wf [STATUS_OPEN_PENDING_CONFIRM] w (cons_ne_nil _ _) Hwf)
        as (ps & Hrun & _ & Hlen).
      destruct (last (storage.sort_by_signal_ts ps)) as [latest|] eqn:Hlast.
      * unfold position_manager.process_open_signals.
        rewrite Hsignal. cbn [negb].
        rewrite (bind_Returned _ _ _ _ _ Hrun), Hlast.
        destruct (signals.should_repeat _ _ _); [|simpl; exact Hone].
        etransitivity; [apply adds_no_pending_open_reminder|exact Hone].
      * apply last_None in Hlast. rewrite Hlast in Hrun, Hlen. simpl in Hlen.
        destruct (storage.number_error w (MarketSnapshot.spread_open snapshot))
          as [ex|] eqn:Hnumber.
        { unfold position_manager.process_open_signals.
          rewrite Hsignal. cbn [negb].
          rewrite (bind_Returned _ _ _ _ _ Hrun). cbn [last].
          unfold bind at 1.
          rewrite (create_pending_position_refused _ _ _ _ _ _ Hnumber).
          simpl. exact Hone. }
        rewrite (open_tick_creates _ _ _ _ Hsignal Hrun Hnumber).
        unfold pending_count in *.
        pose proof (count_status_insert [STATUS_OPEN_PENDING_CONFIRM] (positions_table w)
                      (next_uuid w)
                      (created_item
                         (storage.float_from_decimal (MarketSnapshot.spread_open snapshot))
                         (MarketSnapshot.ts_ms snapshot) (signal_metadata snapshot)
                         now_ms)) as Hcount.
        change (storage.status_is_in [STATUS_OPEN_PENDING_CONFIRM]
                  (created_item
                     (storage.float_from_decimal (MarketSnapshot.spread_open snapshot))
                     (MarketSnapshot.ts_ms snapshot) (signal_metadata snapshot) now_ms))
          with true in Hcount.
        cbv iota in Hcount.
        destruct (storage.status_is_in [STATUS_OPEN_PENDING_CONFIRM]
                    (default Item.empty (positions_table w !! next_uuid w))); lia.
    + unfold position_manager.process_open_signals. rewrite Hsignal. simpl. exact Hone.
  - intros. apply adds_no_pending_process_close_signals.
  - intros. apply adds_no_pending_manager_confirm_open.
  - intros. apply adds_no_pending_manager_confirm_close.
Qed.

Lemma at_most_one_pending_position_witness :
  wf_table (positions_table samples.one_pending)
  ∧ (pending_count (positions_table samples.one_pending) ≤ 1)%nat
  ∧ (pending_count
       (positions_table
          (position_manager.process_open_signals (samples.snapshot 42 (-38.5))
             samples.cfg 2400000 samples.one_pending).2) ≤ 1)%nat.
Proof.
  assert (wf_table (positions_table samples.one_pending)) as Hwf.
  { apply wf_table_decide. vm_compute. reflexivity. }
  assert (pending_count (positions_table samples.one_pending) ≤ 1)%nat as Hone.
  { vm_compute. lia. }
  split; [exact Hwf|]. split; [exact Hone|].
  destruct (at_most_one_pending_position samples.one_pending Hwf Hone) as [Hopen _].
  apply Hopen.
Defined.

Section close_round.

Variable snapshot : MarketSnapshot.t.
Variable cfg : RuntimeConfig.t.
Variable now_ms : Z.

Abbreviation step := (position_manager.close_signal_step snapshot cfg now_ms).
Abbreviation action := (close_action snapshot cfg now_ms).

Lemma messages_about_app (key : string) (l k : list Message) :
  messages_about key (l ++ k) = messages_about key l ++ messages_about key k.
Proof. apply List.filter_app. Qed.

Lemma close_round_messages_about (a : CloseAction) (p : PositionRecord.t)
    (item : Item.t) (new : list Message) (key : string) :
  close_round_messages a snapshot now_ms p item new →
  messages_about key new
  = if decide (key = PositionRecord.position_id p) then new else [].
Proof.
  destruct a; simpl.
  - intros (updated & Hconv & ->).
    destruct (position_from_item_status _ _ _ Hconv) as [_ Hid].
    unfold messages_about. simpl. rewrite Hid.
    destruct (decide (key = PositionRecord.position_id p)) as [->|Hne].
    + rewrite String.eqb_refl. reflexivity.
    + destruct (String.eqb_spec (PositionRecord.position_id p) key);
        [congruence|reflexivity].
  - intros ->. unfold messages_about. simpl.
    destruct (decide (key = PositionRecord.position_id p)) as [->|Hne].
    + rewrite String.eqb_refl. reflexivity.
    + destruct (String.eqb_spec (PositionRecord.position_id p) key);
        [congruence|reflexivity].
  - intros ->. destruct (decide _); reflexivity.
Qed.

(** One round of the loop body on a position just listed. *)
Lemma close_step_spec (p : PositionRecord.t) (item : Item.t) (w : World) :
  stored_as (positions_table w) p item →
  put_alert_error w (MarketSnapshot.spread_close snapshot) = None →
  ∃ w1 new,
    step p w = (Returned tt, w1)
    ∧ positions_table w1
      = <[PositionRecord.position_id p := close_round_item (action p) now_ms item]>
          (positions_table w)
    ∧ sent w1 = sent w ++ new
    ∧ close_round_messages (action p) snapshot now_ms p item new
    ∧ put_alert_error w1 (MarketSnapshot.spread_close snapshot) = None.
Proof.
  intros [Hlook Hconv] Haccepted.
  assert (Hquiet : ∃ w1 new,
            (Returned tt, w) = (Returned tt, w1)
            ∧ positions_table w1
              = <[PositionRecord.position_id p := item]> (positions_table w)
            ∧ sent w1 = sent w ++ new ∧ new = []
            ∧ put_alert_error w1 (MarketSnapshot.spread_close snapshot) = None).
  { exists w, []. rewrite app_nil_r, (insert_id _ _ _ Hlook). auto. }
  destruct (position_from_item_status _ _ _ Hconv) as [Hst _].
  unfold position_manager.close_signal_step, close_action.
  destruct (PositionRecord.close_trigger p) as [trigger|]; [|exact Hquiet].
  destruct (bool_decide (PositionRecord.status p = STATUS_OPEN_CONFIRMED)
            && signals.is_close_signal snapshot p) eqn:Hfirst.
  - apply andb_prop in Hfirst as [Hoc _]. apply bool_decide_eq_true_1 in Hoc.
    rewrite Hoc in Hst.
    pose proof (mark_close_signalled_hit w _ item now_ms Hlook Hst) as Hrun.
    destruct (wf_item_converts (PositionRecord.position_id p)
                (storage.set_close_signalled now_ms item) STATUS_CLOSE_SIGNALLED
                eq_refl) as [updated Hupdated].
    { apply wf_item_set_close_signalled; [exact (converts_wf_item _ _ _ Hconv)|].
      unfold storage.status_eq. rewrite Hst. reflexivity. }
    rewrite (returned_record_Some _ _ _ Hupdated) in Hrun.
    rewrite (bind_Returned _ _ _ _ _ Hrun).
    rewrite (bind_Returned _ _ _ _ _ (notify_run _ _)).
    match goal with
    | |- context [storage.put_alert ?payload ?w1] =>
        pose proof (put_alert_keeps_error payload w1
                      (MarketSnapshot.spread_close snapshot)) as Hkeeps;
        destruct (put_alert_run payload w1) as (w' & Hput & Htable & Hsent & _);
        change (put_alert_error w1 (MarketSnapshot.spread_close snapshot))
          with (put_alert_error w (MarketSnapshot.spread_close snapshot)) in Hkeeps;
        change (put_alert_error w1 (AlertPayload.spread payload).2)
          with (put_alert_error w (MarketSnapshot.spread_close snapshot)) in Hput
    end.
    rewrite Haccepted in Hput, Hkeeps. rewrite Hput in Hkeeps. cbn [snd] in Hkeeps.
    rewrite Hput. exists w'. eexists. split; [reflexivity|].
    rewrite Htable, Hsent. cbn [sent positions_table set_positions_table].
    split; [reflexivity|]. split; [reflexivity|].
    split; [|exact Hkeeps].
    simpl. exists updated. auto.
  - destruct (bool_decide (PositionRecord.status p = STATUS_CLOSE_SIGNALLED)
              && signals.should_repeat (PositionRecord.last_close_alert_ts p)
                   now_ms (RuntimeConfig.repeat_alert_sec cfg)) eqn:Hsecond;
      [|exact Hquiet].
    rewrite (bind_Returned _ _ _ _ _ (notify_run _ _)).
    match goal with
    | |- context [bind (storage.mark_close_alert_sent ?key ?now) _ ?w1] =>
        pose proof (mark_close_alert_sent_run w1 key now) as Hrun
    end.
    cbn [positions_table] in Hrun. rewrite Hlook in Hrun. simpl default in Hrun.
    rewrite (returned_record_Some _ _ _ (position_from_stamped_close _ _ _ now_ms Hconv))
      in Hrun.
    rewrite (bind_Returned _ _ _ _ _ Hrun).
    match goal with
    | |- context [storage.put_alert ?payload ?w1] =>
        pose proof (put_alert_keeps_error payload w1
                      (MarketSnapshot.spread_close snapshot)) as Hkeeps;
        destruct (put_alert_run payload w1) as (w' & Hput & Htable & Hsent & _);
        change (put_alert_error w1 (MarketSnapshot.spread_close snapshot))
          with (put_alert_error w (MarketSnapshot.spread_close snapshot)) in Hkeeps;
        change (put_alert_error w1 (AlertPayload.spread payload).2)
          with (put_alert_error w (MarketSnapshot.spread_close snapshot)) in Hput
    end.
    rewrite Haccepted in Hput, Hkeeps. rewrite Hput in Hkeeps. cbn [snd] in Hkeeps.
    rewrite Hput. exists w'. eexists. split; [reflexivity|].
    rewrite Htable, Hsent. cbn [sent positions_table set_positions_table].
    split; [reflexivity|]. split; [reflexivity|]. split; [reflexivity|exact Hkeeps].
Qed.

(** The whole loop over a listing just taken: each listed position gets
    the item and the messages of its branch, nothing else changes. *)
Lemma close_loop_spec (l : list PositionRecord.t) (w : World) :
  NoDup (PositionRecord.position_id <$> l) →
  (∀ p, p ∈ l → ∃ item, stored_as (positions_table w) p item) →
  put_alert_error w (MarketSnapshot.spread_close snapshot) = None →
  ∃ w' new,
    position_manager.for_each l step w = (Returned tt, w')
    ∧ sent w' = sent w ++ new
    ∧ (length new ≤ length l)%nat
    ∧ (∀ key, key ∉ PositionRecord.position_id <$> l →
              positions_table w' !! key = positions_table w !! key
              ∧ messages_about key new = [])
    ∧ (∀ p item, p ∈ l → stored_as (positions_table w) p item →
         positions_table w' !! PositionRecord.position_id p
         = Some (close_round_item (action p) now_ms item)
         ∧ close_round_messages (action p) snapshot now_ms p item
             (messages_about (PositionRecord.position_id p) new)).
Proof.
  revert w. induction l as [|p0 l IH]; intros w Hnodup Hstored Haccepted.
  - exists w, []. simpl. rewrite app_nil_r.
    split; [reflexivity|]. split; [reflexivity|]. split; [lia|].
    split; [auto|]. intros p item Hin. inversion Hin.
  - simpl in Hnodup. apply NoDup_cons in Hnodup as [Hnotin Hnodup].
    destruct (Hstored p0 ltac:(left)) as [item0 Hstored0].
    destruct (close_step_spec p0 item0 w Hstored0 Haccepted)
      as (w1 & new0 & Hstep & Htable1 & Hsent1 & Hmsgs0 & Haccepted1).
    assert (∀ p item, p ∈ l → stored_as (positions_table w) p item →
                      stored_as (positions_table w1) p item) as Hkeep.
    { intros p item Hin [Hlook Hconv]. split; [|exact Hconv].
      rewrite Htable1, lookup_insert_ne; [exact Hlook|].
      intros Heq. apply Hnotin. rewrite Heq. apply list_elem_of_fmap_2, Hin. }
    destruct (IH w1 Hnodup) as (w' & new1 & Hloop & Hsent' & Hlen & Hframe & Heach);
      [|exact Haccepted1|].
    { intros p Hin. destruct (Hstored p ltac:(right; exact Hin)) as [item Hp].
      exists item. apply Hkeep; assumption. }
    exists w', (new0 ++ new1). simpl.
    rewrite (bind_Returned _ _ _ _ _ Hstep).
    split; [exact Hloop|].
    split; [rewrite Hsent', Hsent1, app_assoc; reflexivity|].
    split.
    { rewrite length_app.
      assert (length new0 ≤ 1)%nat; [|lia].
      destruct (action p0); simpl in Hmsgs0.
      - destruct Hmsgs0 as (u & _ & ->). simpl. lia.
      - rewrite Hmsgs0. simpl. lia.
      - rewrite Hmsgs0. simpl. lia. }
    split.
    { intros key Hkey. apply not_elem_of_cons in Hkey as [Hne Hkey].
      destruct (Hframe key Hkey) as [Hlook' Hnone].
      rewrite Hlook', Htable1, lookup_insert_ne; [|congruence].
      split; [reflexivity|].
      rewrite messages_about_app, Hnone,
        (close_round_messages_about _ _ _ _ key Hmsgs0), decide_False; auto. }
    intros p item Hin Hp.
    apply elem_of_cons in Hin as [->|Hin].
    + destruct Hstored0 as [Hlook0 Hconv0]. destruct Hp as [Hlook _].
      rewrite Hlook0 in Hlook. inversion Hlook; subst item.
      destruct (Hframe _ Hnotin) as [Hlook' Hnone].
      rewrite Hlook', Htable1, lookup_insert_eq. split; [reflexivity|].
      rewrite messages_about_app, Hnone, app_nil_r,
        (close_round_messages_about _ _ _ _ _ Hmsgs0), decide_True; auto.
    + destruct (Heach p item Hin (Hkeep p item Hin Hp)) as [Hlook' Hmsgs].
      split; [exact Hlook'|].
      rewrite messages_about_app,
        (close_round_messages_about _ _ _ _ _ Hmsgs0), decide_False; [exact Hmsgs|].
      intros Heq. apply Hnotin. rewrite <- Heq. apply list_elem_of_fmap_2, Hin.
Qed.

(** One call of [process_close_signals] on a well-formed table. *)
Lemma close_round_spec (w : World) :
  wf_table (positions_table w) →
  put_alert_error w (MarketSnapshot.spread_close snapshot) = None →
  ∃ w' new,
    position_manager.process_close_signals snapshot cfg now_ms w = (Returned tt, w')
    ∧ sent w' = sent w ++ new
    ∧ (length new
       ≤ count_status [STATUS_OPEN_CONFIRMED; STATUS_CLOSE_SIGNALLED] (positions_table w))%nat
    ∧ (∀ key,
         (∀ s, status_of w key = Some s →
               s ≠ STATUS_OPEN_CONFIRMED ∧ s ≠ STATUS_CLOSE_SIGNALLED) →
         positions_table w' !! key = positions_table w !! key
         ∧ messages_about key new = [])
    ∧ (∀ p item,
         stored_as (positions_table w) p item →
         PositionRecord.status p = STATUS_OPEN_CONFIRMED
         ∨ PositionRecord.status p = STATUS_CLOSE_SIGNALLED →
         positions_table w' !! PositionRecord.position_id p
         = Some (close_round_item (action p) now_ms item)
         ∧ close_round_messages (action p) snapshot now_ms p item
             (messages_about (PositionRecord.position_id p) new)).
Proof.
  intros Hwf Haccepted. unfold position_manager.process_close_signals.
  set (open := [STATUS_OPEN_CONFIRMED; STATUS_CLOSE_SIGNALLED]).
  destruct (list_positions_wf open w (cons_ne_nil _ _) Hwf) as (ps & Hrun & _ & Hlen).
  destruct (list_positions_shape open w) as [_ Hshape].
  rewrite Hrun in Hshape. simpl in Hshape. destruct Hshape as (_ & Hnodup & Hmem).
  assert (∀ item, selected open item = true
                  ↔ Item.status item = Some STATUS_OPEN_CONFIRMED
                    ∨ Item.status item = Some STATUS_CLOSE_SIGNALLED) as Hopen.
  { intros item. unfold selected, open, storage.status_is_in.
    destruct (Item.status item) as [[]|]; split; intros H;
      try reflexivity; try (vm_compute in H; discriminate); auto;
      destruct H as [H|H]; discriminate H. }
  destruct (close_loop_spec (storage.sort_by_signal_ts ps) w Hnodup)
    as (w' & new & Hloop & Hsent & Hcount & Hframe & Heach); [|exact Haccepted|].
  { intros p Hin. apply Hmem in Hin as (item & Hlook & _ & Hconv).
    exists item. split; assumption. }
  exists w', new. rewrite (bind_Returned _ _ _ _ _ Hrun).
  split; [exact Hloop|]. split; [exact Hsent|]. split; [lia|].
  split.
  - intros key Hother. apply Hframe.
    rewrite list_elem_of_fmap. intros (p & -> & Hin).
    apply Hmem in Hin as (item & Hlook & Hsel & Hconv).
    apply Hopen in Hsel.
    destruct (Hother (PositionRecord.status p)) as [Hoc Hcs].
    { rewrite (status_of_lookup _ _ _ Hlook).
      exact (proj1 (position_from_item_status _ _ _ Hconv)). }
    destruct (position_from_item_status _ _ _ Hconv) as [Hst _].
    rewrite Hst in Hsel. destruct Hsel as [H|H]; inversion H; congruence.
  - intros p item [Hlook Hconv] Hstatus. apply Heach; [|split; assumption].
    apply Hmem. exists item. split; [exact Hlook|]. split; [|exact Hconv].
    apply Hopen. destruct (position_from_item_status _ _ _ Hconv) as [Hst _].
    rewrite Hst. destruct Hstatus as [-> | ->]; auto.
Qed.

End close_round.

Section close_round_cases.

Lemma position_from_item_fields (position_id : string) (item : Item.t)
    (r : PositionRecord.t) :
  storage._position_from_item position_id item = Returned r →
  PositionRecord.close_trigger r = Item.close_trigger item
  ∧ PositionRecord.close_signalled_ts r = Item.close_signalled_ts item
  ∧ PositionRecord.last_close_alert_ts r = Item.last_close_alert_ts item
  ∧ PositionRecord.entry_spread_actual r = Item.entry_spread_actual item.
Proof. intros Hconv. invert_item Hconv item. auto. Qed.

(** A stored item with a status, on a well-formed table, and its record. *)
Lemma wf_table_stored_as (w : World) (position_id : string) (item : Item.t)
    (s : Status) :
  wf_table (positions_table w) →
  positions_table w !! position_id = Some item →
  Item.status item = Some s →
  ∃ p, stored_as (positions_table w) p item
       ∧ PositionRecord.position_id p = position_id
       ∧ PositionRecord.status p = s.
Proof.
  intros Hwf Hlook Hs.
  destruct (wf_item_converts position_id item s Hs (Hwf _ _ Hlook)) as [p Hp].
  destruct (position_from_item_status _ _ _ Hp) as [Hst Hid].
  exists p. unfold stored_as. rewrite Hid. repeat split; auto. congruence.
Qed.

End close_round_cases.

(** X11. One call of [process_close_signals] on a well-formed table, with
    a close spread [put_alert] can write (no alerts table, or a number the
    table takes), moves every OPEN_CONFIRMED position whose trigger the
    close spread has reached to CLOSE_SIGNALLED: the call returns, the item
    is the old one
    with the status and the three stamps [close_signalled_ts],
    [last_close_alert_ts], [updated_at_ts] set to [now_ms], and exactly one
    message about the position is sent, the first close signal (not a
    reminder), carrying the updated record. *)
Theorem close_signal_promotes_confirmed_position (snapshot : MarketSnapshot.t)
    (cfg : RuntimeConfig.t) (now_ms : Z) (w : World) (position_id : string)
    (item : Item.t) (trigger : float) :
  wf_table (positions_table w) →
  positions_table w !! position_id = Some item →
  Item.status item = Some STATUS_OPEN_CONFIRMED →
  Item.close_trigger item = Some trigger →
  signals.float_ge (MarketSnapshot.spread_close snapshot) trigger = true →
  put_alert_error w (MarketSnapshot.spread_close snapshot) = None →
  ∃ w' new updated,
    position_manager.process_close_signals snapshot cfg now_ms w = (Returned tt, w')
    ∧ sent w' = sent w ++ new
    ∧ positions_table w' !! position_id = Some (storage.set_close_signalled now_ms item)
    ∧ status_of w' position_id = Some STATUS_CLOSE_SIGNALLED
    ∧ storage.get_position position_id w' = (Returned (Some updated), w')
    ∧ PositionRecord.close_signalled_ts updated = Some now_ms
    ∧ PositionRecord.last_close_alert_ts updated = Some now_ms
    ∧ messages_about position_id new = [CloseSignalText updated snapshot false].
Proof.
  intros Hwf Hlook Hst Htrigger Hfires Haccepted.
  destruct (wf_table_stored_as w position_id item _ Hwf Hlook Hst)
    as (p & Hstored & Hid & Hstatus).
  destruct (position_from_item_fields _ _ _ (proj2 Hstored)) as (Hct & _).
  assert (close_action snapshot cfg now_ms p = Promote) as Haction.
  { unfold close_action, signals.is_close_signal.
    rewrite Hct, Htrigger, Hstatus, Hfires. reflexivity. }
  destruct (close_round_spec snapshot cfg now_ms w Hwf Haccepted)
    as (w' & new & Hrun & Hsent & _ & _ & Heach).
  destruct (Heach p item Hstored (or_introl Hstatus)) as [Hlook' Hmsgs].
  rewrite Haction, Hid in Hlook', Hmsgs. simpl in Hlook', Hmsgs.
  destruct Hmsgs as (updated & Hupdated & Hnew). rewrite Hid in Hupdated.
  destruct (position_from_item_fields _ _ _ Hupdated) as (_ & Hcs & Hlast & _).
  exists w', new, updated.
  split; [exact Hrun|]. split; [exact Hsent|]. split; [exact Hlook'|].
  split; [rewrite (status_of_lookup _ _ _ Hlook'); reflexivity|].
  split.
  { rewrite (get_position_lookup _ _ _ Hlook'), (returned_record_Some _ _ _ Hupdated).
    reflexivity. }
  split; [exact Hcs|]. split; [exact Hlast|exact Hnew].
Qed.

Lemma close_signal_promotes_confirmed_position_witness :
  wf_table (positions_table samples.two_open)
  ∧ positions_table samples.two_open !! "p1"
    = Some (samples.confirmed_item STATUS_OPEN_CONFIRMED None)
  ∧ signals.float_ge (MarketSnapshot.spread_close (samples.snapshot 42 (-38.9))) (-39)
    = true
  ∧ put_alert_error samples.two_open (-38.9) = None
  ∧ ∃ w' new updated,
      position_manager.process_close_signals (samples.snapshot 42 (-38.9)) samples.cfg
        2600000 samples.two_open = (Returned tt, w')
      ∧ status_of w' "p1" = Some STATUS_CLOSE_SIGNALLED
      ∧ messages_about "p1" new
        = [CloseSignalText updated (samples.snapshot 42 (-38.9)) false].
Proof.
  assert (wf_table (positions_table samples.two_open)) as Hwf.
  { apply wf_table_decide. vm_compute. reflexivity. }
  assert (positions_table samples.two_open !! "p1"
          = Some (samples.confirmed_item STATUS_OPEN_CONFIRMED None)) as Hlook
    by (vm_compute; reflexivity).
  assert (signals.float_ge (MarketSnapshot.spread_close (samples.snapshot 42 (-38.9)))
            (-39) = true) as Hfires by (vm_compute; reflexivity).
  assert (put_alert_error samples.two_open (-38.9) = None) as Haccepted
    by (vm_compute; reflexivity).
  split; [exact Hwf|]. split; [exact Hlook|]. split; [exact Hfires|].
  split; [exact Haccepted|].
  destruct (close_signal_promotes_confirmed_position (samples.snapshot 42 (-38.9))
              samples.cfg 2600000 samples.two_open "p1" _ (-39)%float
              Hwf Hlook eq_refl eq_refl Hfires Haccepted)
    as (w' & new & updated & Hrun & _ & _ & Hstatus & _ & _ & _ & Hnew).
  exists w', new, updated. auto.
Defined.

(** X12. One call of [process_close_signals] on a well-formed table, with
    a close spread [put_alert] can write (no alerts table, or a number the
    table takes),
    reminds of every CLOSE_SIGNALLED position whose last close alert is at
    least [repeat_alert_sec] seconds old (or missing), whatever the spread
    is by now: exactly one message about the position is sent, a reminder
    carrying the record as listed, the status stays CLOSE_SIGNALLED and
    [last_close_alert_ts] becomes [now_ms]. *)
Theorem close_signal_reminder_after_interval (snapshot : MarketSnapshot.t)
    (cfg : RuntimeConfig.t) (now_ms : Z) (w : World) (position_id : string)
    (item : Item.t) (trigger : float) :
  wf_table (positions_table w) →
  positions_table w !! position_id = Some item →
  Item.status item = Some STATUS_CLOSE_SIGNALLED →
  Item.close_trigger item = Some trigger →
  signals.should_repeat (Item.last_close_alert_ts item) now_ms
    (RuntimeConfig.repeat_alert_sec cfg) = true →
  put_alert_error w (MarketSnapshot.spread_close snapshot) = None →
  ∃ w' new p,
    position_manager.process_close_signals snapshot cfg now_ms w = (Returned tt, w')
    ∧ sent w' = sent w ++ new
    ∧ storage._position_from_item position_id item = Returned p
    ∧ positions_table w' !! position_id = Some (storage.set_close_alert_sent now_ms item)
    ∧ status_of w' position_id = Some STATUS_CLOSE_SIGNALLED
    ∧ (Item.last_close_alert_ts <$> positions_table w' !! position_id)
      = Some (Some now_ms)
    ∧ messages_about position_id new = [CloseSignalText p snapshot true].
Proof.
  intros Hwf Hlook Hst Htrigger Hrepeat Haccepted.
  destruct (wf_table_stored_as w position_id item _ Hwf Hlook Hst)
    as (p & Hstored & Hid & Hstatus).
  destruct (position_from_item_fields _ _ _ (proj2 Hstored)) as (Hct & _ & Hlast & _).
  assert (close_action snapshot cfg now_ms p = Remind) as Haction.
  { unfold close_action. rewrite Hct, Htrigger, Hstatus, Hlast, Hrepeat. reflexivity. }
  destruct (close_round_spec snapshot cfg now_ms w Hwf Haccepted)
    as (w' & new & Hrun & Hsent & _ & _ & Heach).
  destruct (Heach p item Hstored (or_intror Hstatus)) as [Hlook' Hmsgs].
  destruct Hstored as [_ Hconv].
  rewrite Haction, Hid in Hlook', Hmsgs. rewrite Hid in Hconv.
  simpl in Hlook', Hmsgs.
  exists w', new, p.
  split; [exact Hrun|]. split; [exact Hsent|]. split; [exact Hconv|].
  split; [exact Hlook'|].
  split; [rewrite (status_of_lookup _ _ _ Hlook'); exact Hst|].
  split; [rewrite Hlook'; reflexivity|exact Hmsgs].
Qed.

Lemma close_signal_reminder_after_interval_witness :
  wf_table (positions_table samples.two_open)
  ∧ positions_table samples.two_open !! "p2"
    = Some (samples.confirmed_item STATUS_CLOSE_SIGNALLED (Some 2500000))
  ∧ signals.should_repeat (Some 2500000) 2800000
      (RuntimeConfig.repeat_alert_sec samples.cfg) = true
  ∧ put_alert_error samples.two_open (-45) = None
  ∧ ∃ w' new p,
      position_manager.process_close_signals (samples.snapshot 42 (-45)) samples.cfg
        2800000 samples.two_open = (Returned tt, w')
      ∧ (Item.last_close_alert_ts <$> positions_table w' !! "p2") = Some (Some 2800000)
      ∧ messages_about "p2" new = [CloseSignalText p (samples.snapshot 42 (-45)) true].
Proof.
  assert (wf_table (positions_table samples.two_open)) as Hwf.
  { apply wf_table_decide. vm_compute. reflexivity. }
  assert (positions_table samples.two_open !! "p2"
          = Some (samples.confirmed_item STATUS_CLOSE_SIGNALLED (Some 2500000))) as Hlook
    by (vm_compute; reflexivity).
  assert (put_alert_error samples.two_open (-45) = None) as Haccepted
    by (vm_compute; reflexivity).
  split; [exact Hwf|]. split; [exact Hlook|]. split; [reflexivity|].
  split; [exact Haccepted|].
  destruct (close_signal_reminder_after_interval (samples.snapshot 42 (-45))
              samples.cfg 2800000 samples.two_open "p2" _ (-39)%float
              Hwf Hlook eq_refl eq_refl eq_refl Haccepted)
    as (w' & new & p & Hrun & _ & _ & _ & _ & Hstamp & Hnew).
  exists w', new, p. auto.
Defined.

(** X13. What one call of [process_close_signals] on a well-formed table
    leaves alone, with a close spread [put_alert] can write (no alerts
    table, or a number the table takes).  It returns, adds and removes no
    key, and sends at most
    one message per position that is OPEN_CONFIRMED or CLOSE_SIGNALLED.
    A key whose status is neither (pending, closed, absent) keeps its item
    and gets no message; so does an OPEN_CONFIRMED position whose trigger
    the close spread has not reached, a CLOSE_SIGNALLED position whose
    last close alert is younger than the repeat interval, and any position
    without a close trigger. *)
Theorem close_round_leaves_the_rest (snapshot : MarketSnapshot.t)
    (cfg : RuntimeConfig.t) (now_ms : Z) (w : World) :
  wf_table (positions_table w) →
  put_alert_error w (MarketSnapshot.spread_close snapshot) = None →
  ∃ w' new,
    position_manager.process_close_signals snapshot cfg now_ms w = (Returned tt, w')
    ∧ sent w' = sent w ++ new
    ∧ (length new
       ≤ count_status [STATUS_OPEN_CONFIRMED; STATUS_CLOSE_SIGNALLED]
           (positions_table w))%nat
    ∧ (∀ key, is_Some (positions_table w' !! key) ↔ is_Some (positions_table w !! key))
    ∧ (∀ key,
         (∀ s, status_of w key = Some s →
               s ≠ STATUS_OPEN_CONFIRMED ∧ s ≠ STATUS_CLOSE_SIGNALLED) →
         positions_table w' !! key = positions_table w !! key
         ∧ messages_about key new = [])
    ∧ (∀ key item,
         positions_table w !! key = Some item →
         Item.status item = Some STATUS_OPEN_CONFIRMED →
         (∀ trigger, Item.close_trigger item = Some trigger →
            signals.float_ge (MarketSnapshot.spread_close snapshot) trigger = false) →
         positions_table w' !! key = Some item ∧ messages_about key new = [])
    ∧ (∀ key item,
         positions_table w !! key = Some item →
         Item.status item = Some STATUS_CLOSE_SIGNALLED →
         signals.should_repeat (Item.last_close_alert_ts item) now_ms
           (RuntimeConfig.repeat_alert_sec cfg) = false →
         positions_table w' !! key = Some item ∧ messages_about key new = [])
    ∧ (∀ key item,
         positions_table w !! key = Some item →
         Item.close_trigger item = None →
         positions_table w' !! key = Some item ∧ messages_about key new = []).
Proof.
  intros Hwf Haccepted.
  destruct (close_round_spec snapshot cfg now_ms w Hwf Haccepted)
    as (w' & new & Hrun & Hsent & Hcount & Hframe & Heach).
  assert (∀ key item,
            positions_table w !! key = Some item →
            (∀ p, stored_as (positions_table w) p item →
                  PositionRecord.position_id p = key →
                  close_action snapshot cfg now_ms p = Skip) →
            positions_table w' !! key = Some item ∧ messages_about key new = [])
    as Hskip.
  { intros key item Hlook Hquiet.
    destruct (decide (Item.status item = Some STATUS_OPEN_CONFIRMED
                      ∨ Item.status item = Some STATUS_CLOSE_SIGNALLED)) as [Hopen|Hother].
    - assert (∃ s, Item.status item = Some s
                   ∧ (s = STATUS_OPEN_CONFIRMED ∨ s = STATUS_CLOSE_SIGNALLED))
        as (s & Hs & Hcases) by (destruct Hopen; eauto).
      destruct (wf_table_stored_as w key item s Hwf Hlook Hs)
        as (p & Hstored & Hid & Hstatus).
      destruct (Heach p item Hstored) as [Hlook' Hmsgs].
      { rewrite Hstatus. exact Hcases. }
      rewrite (Hquiet p Hstored Hid), Hid in Hlook', Hmsgs. auto.
    - destruct (Hframe key) as [Hlook' Hnone].
      { intros s Hs. rewrite (status_of_lookup _ _ _ Hlook) in Hs.
        split; intros ->; apply Hother; auto. }
      rewrite Hlook' , Hlook. auto. }
  exists w', new.
  split; [exact Hrun|]. split; [exact Hsent|]. split; [exact Hcount|].
  split.
  { intros key.
    destruct (positions_table w !! key) as [item|] eqn:Hlook.
    - destruct (decide (Item.status item = Some STATUS_OPEN_CONFIRMED
                        ∨ Item.status item = Some STATUS_CLOSE_SIGNALLED))
        as [Hopen|Hother].
      + assert (∃ s, Item.status item = Some s
                     ∧ (s = STATUS_OPEN_CONFIRMED ∨ s = STATUS_CLOSE_SIGNALLED))
          as (s & Hs & Hcases) by (destruct Hopen; eauto).
        destruct (wf_table_stored_as w key item s Hwf Hlook Hs)
          as (p & Hstored & Hid & Hstatus).
        destruct (Heach p item Hstored) as [Hlook' _].
        { rewrite Hstatus. exact Hcases. }
        rewrite Hid in Hlook'. rewrite Hlook'. split; eauto.
      + destruct (Hframe key) as [Hlook' _].
        { intros s Hs. rewrite (status_of_lookup _ _ _ Hlook) in Hs.
          split; intros ->; apply Hother; auto. }
        rewrite Hlook', Hlook. reflexivity.
    - destruct (Hframe key) as [Hlook' _].
      { intros s Hs. unfold status_of in Hs. rewrite Hlook in Hs. discriminate. }
      rewrite Hlook', Hlook. reflexivity. }
  split; [exact Hframe|].
  split.
  { intros key item Hlook Hst Hquiet. apply (Hskip key item Hlook).
    intros p [_ Hconv] Hid.
    destruct (position_from_item_status _ _ _ Hconv) as [Hstatus _].
    destruct (position_from_item_fields _ _ _ Hconv) as (Hct & _).
    rewrite Hst in Hstatus. inversion Hstatus as [Hs].
    unfold close_action, signals.is_close_signal. rewrite Hct, <- Hs.
    destruct (Item.close_trigger item) as [trigger|] eqn:Htrigger; [|reflexivity].
    rewrite (Hquiet trigger eq_refl). reflexivity. }
  split.
  { intros key item Hlook Hst Hquiet. apply (Hskip key item Hlook).
    intros p [_ Hconv] Hid.
    destruct (position_from_item_status _ _ _ Hconv) as [Hstatus _].
    destruct (position_from_item_fields _ _ _ Hconv) as (Hct & _ & Hlast & _).
    rewrite Hst in Hstatus. inversion Hstatus as [Hs].
    unfold close_action. rewrite Hct, Hlast, <- Hs, Hquiet.
    destruct (Item.close_trigger item); reflexivity. }
  intros key item Hlook Hnone. apply (Hskip key item Hlook).
  intros p [_ Hconv] Hid.
  destruct (position_from_item_fields _ _ _ Hconv) as (Hct & _).
  unfold close_action. rewrite Hct, Hnone. reflexivity.
Qed.

Lemma close_round_leaves_the_rest_witness :
  wf_table (positions_table samples.two_open)
  ∧ put_alert_error samples.two_open (-45) = None
  ∧ ∃ w' new,
      position_manager.process_close_signals (samples.snapshot 42 (-45)) samples.cfg
        2600000 samples.two_open = (Returned tt, w')
      ∧ sent w' = sent samples.two_open ++ new
      ∧ (length new ≤ 2)%nat
      ∧ positions_table w' !! "p1"
        = Some (samples.confirmed_item STATUS_OPEN_CONFIRMED None)
      ∧ messages_about "p1" new = [].
Proof.
  assert (wf_table (positions_table samples.two_open)) as Hwf.
  { apply wf_table_decide. vm_compute. reflexivity. }
  assert (put_alert_error samples.two_open (-45) = None) as Haccepted
    by (vm_compute; reflexivity).
  split; [exact Hwf|]. split; [exact Haccepted|].
  destruct (close_round_leaves_the_rest (samples.snapshot 42 (-45)) samples.cfg 2600000
              samples.two_open Hwf Haccepted)
    as (w' & new & Hrun & Hsent & Hcount & _ & _ & Hquiet & _).
  exists w', new. split; [exact Hrun|]. split; [exact Hsent|].
  split; [exact Hcount|].
  apply Hquiet; [vm_compute; reflexivity|reflexivity|].
  intros trigger Htrigger. inversion Htrigger. vm_compute. reflexivity.
Defined.

(** * Further properties of the configuration store *)

Section merge_facts.

Variable float_of_str : string → option float.
Variable int_of_str : string → option Z.
Variable str_of : Raw → string.

Abbreviation float_cast := (config_store.py_float float_of_str).
Abbreviation int_cast := (config_store.py_int int_of_str).
Abbreviation parse_chat_ids := (config_store._parse_chat_ids str_of).
Abbreviation merge_one := (config_store.merge_step float_of_str int_of_str str_of).
Abbreviation merge := (config_store._merge_overrides float_of_str int_of_str str_of).
Abbreviation refresh_store := (config_store.refresh float_of_str int_of_str str_of).

Lemma float_cast_of_call (raw : Raw) :
  and_then (config_store.call float_of_str int_of_str config_store.float_type raw)
    float_cast
  = float_cast raw.
Proof. unfold config_store.call. destruct (float_cast raw); reflexivity. Qed.

Lemma int_cast_of_call (raw : Raw) :
  and_then (config_store.call float_of_str int_of_str config_store.int_type raw) int_cast
  = int_cast raw.
Proof. unfold config_store.call. destruct (int_cast raw); reflexivity. Qed.

(** The casts raise [TypeError], [ValueError] or [OverflowError] only. *)
Lemma float_cast_no_KeyError (raw : Raw) (key : string) :
  float_cast raw ≠ Raised (KeyError key).
Proof.
  destruct raw as [|b|z|f|s|l]; simpl; try discriminate.
  - unfold config_store.float_of_int. destruct (is_infinity _); discriminate.
  - destruct (float_of_str s); discriminate.
Qed.

Lemma int_cast_no_KeyError (raw : Raw) (key : string) :
  int_cast raw ≠ Raised (KeyError key).
Proof.
  destruct raw as [|b|z|f|s|l]; simpl; try discriminate.
  - unfold config_store.int_of_float. destruct (Prim2SF f); discriminate.
  - destruct (int_of_str s); discriminate.
Qed.

Lemma float_cast_no_NumberOutOfRange (raw : Raw) :
  float_cast raw ≠ Raised NumberOutOfRange.
Proof.
  destruct raw as [|b|z|f|s|l]; simpl; try discriminate.
  - unfold config_store.float_of_int. destruct (is_infinity _); discriminate.
  - destruct (float_of_str s); discriminate.
Qed.

Lemma int_cast_no_NumberOutOfRange (raw : Raw) :
  int_cast raw ≠ Raised NumberOutOfRange.
Proof.
  destruct raw as [|b|z|f|s|l]; simpl; try discriminate.
  - unfold config_store.int_of_float. destruct (Prim2SF f); discriminate.
  - destruct (int_of_str s); discriminate.
Qed.

(** What one round of the loop does for a numeric key: it raises exactly
    when the cast overflows, and otherwise sets the key to the stored
    value, or leaves it. *)
Ltac numeric_step c :=
  unfold config_store.merge_step, config_store.apply_override, override_or, overflows;
  cbn [fst snd String.eqb Ascii.eqb Bool.eqb];
  match goal with
  | |- context [?o !! ?k] => destruct (o !! k) as [raw|]
  end;
  [ rewrite ?float_cast_of_call, ?int_cast_of_call;
    match goal with
    | |- context [config_store.py_float ?f ?r] =>
        destruct (config_store.py_float f r) as [v|[]] eqn:?
    | |- context [config_store.py_int ?f ?r] =>
        destruct (config_store.py_int f r) as [v|[]] eqn:?
    end; simpl;
    first [ match goal with
            | H : _ = Raised (KeyError _) |- _ =>
                exfalso;
                first [ exact (float_cast_no_KeyError _ _ H)
                      | exact (int_cast_no_KeyError _ _ H) ]
            | H : _ = Raised NumberOutOfRange |- _ =>
                exfalso;
                first [ exact (float_cast_no_NumberOutOfRange _ H)
                      | exact (int_cast_no_NumberOutOfRange _ H) ]
            end
          | left; eexists; split; [reflexivity|eauto]
          | right; destruct c; split; [reflexivity|];
            intros (r & Hr & Hraise); inversion Hr; subst; congruence
          | right; split; [reflexivity|];
            intros (r & Hr & Hraise); inversion Hr; subst; congruence ]
  | right; destruct c; split; [reflexivity|];
    intros (r & Hr & _); discriminate Hr ].

Lemma exact_threshold_open (o : gmap string Raw) (c : RuntimeConfig.t) :
  (∃ e, merge_one o c ("threshold_open", config_store.float_type) = Raised e
        ∧ overflows (o !! "threshold_open") float_cast)
  ∨ (merge_one o c ("threshold_open", config_store.float_type)
     = Returned
         (config_store.set_threshold_open
            (override_or (o !! "threshold_open") float_cast id
               (RuntimeConfig.threshold_open c)) c)
     ∧ ¬ overflows (o !! "threshold_open") float_cast).
Proof. numeric_step c. Qed.

Lemma exact_close_buffer (o : gmap string Raw) (c : RuntimeConfig.t) :
  (∃ e, merge_one o c ("close_buffer", config_store.float_type) = Raised e
        ∧ overflows (o !! "close_buffer") float_cast)
  ∨ (merge_one o c ("close_buffer", config_store.float_type)
     = Returned
         (config_store.set_close_buffer
            (override_or (o !! "close_buffer") float_cast id
               (RuntimeConfig.close_buffer c)) c)
     ∧ ¬ overflows (o !! "close_buffer") float_cast).
Proof. numeric_step c. Qed.

Lemma exact_repeat_alert_sec (o : gmap string Raw) (c : RuntimeConfig.t) :
  (∃ e, merge_one o c ("repeat_alert_sec", config_store.int_type) = Raised e
        ∧ overflows (o !! "repeat_alert_sec") int_cast)
  ∨ (merge_one o c ("repeat_alert_sec", config_store.int_type)
     = Returned
         (config_store.set_repeat_alert_sec
            (override_or (o !! "repeat_alert_sec") int_cast (config_store.max_int 30)
               (RuntimeConfig.repeat_alert_sec c)) c)
     ∧ ¬ overflows (o !! "repeat_alert_sec") int_cast).
Proof. numeric_step c. Qed.

Lemma exact_annual_factor (o : gmap string Raw) (c : RuntimeConfig.t) :
  (∃ e, merge_one o c ("annual_factor", config_store.float_type) = Raised e
        ∧ overflows (o !! "annual_factor") float_cast)
  ∨ (merge_one o c ("annual_factor", config_store.float_type)
     = Returned
         (config_store.set_annual_factor
            (override_or (o !! "annual_factor") float_cast id
               (RuntimeConfig.annual_factor c)) c)
     ∧ ¬ overflows (o !! "annual_factor") float_cast).
Proof. numeric_step c. Qed.

Lemma exact_poll_interval_sec (o : gmap string Raw) (c : RuntimeConfig.t) :
  (∃ e, merge_one o c ("poll_interval_sec", config_store.float_type) = Raised e
        ∧ overflows (o !! "poll_interval_sec") float_cast)
  ∨ (merge_one o c ("poll_interval_sec", config_store.float_type)
     = Returned
         (config_store.set_poll_interval_sec
            (override_or (o !! "poll_interval_sec") float_cast (config_store.max_float 0.5)
               (RuntimeConfig.poll_interval_sec c)) c)
     ∧ ¬ overflows (o !! "poll_interval_sec") float_cast).
Proof. numeric_step c. Qed.

Lemma exact_allowed_chat_ids (o : gmap string Raw) (c : RuntimeConfig.t) :
  merge_one o c ("allowed_chat_ids", config_store.list_type)
  = Returned
      (config_store.set_tg_allowed_chat_ids
         (match o !! "allowed_chat_ids" with
          | Some raw => parse_chat_ids raw
          | None => RuntimeConfig.tg_allowed_chat_ids c
          end) c).
Proof.
  unfold config_store.merge_step, config_store.apply_override.
  cbn [fst snd String.eqb Ascii.eqb Bool.eqb].
  destruct (o !! "allowed_chat_ids"); [reflexivity|]. destruct c; reflexivity.
Qed.

(** The whole merge: it raises exactly when the stored value of a numeric
    key overflows its cast; otherwise each setting is the stored override
    where there is one and it casts, the base value elsewhere, and what no
    override can reach is the base's. *)
Lemma merge_exact (base : RuntimeConfig.t) (o : gmap string Raw) :
  match merge base o with
  | Returned merged =>
      RuntimeConfig.threshold_open merged
      = override_or (o !! "threshold_open") float_cast id
          (RuntimeConfig.threshold_open base)
      ∧ RuntimeConfig.close_buffer merged
        = override_or (o !! "close_buffer") float_cast id
            (RuntimeConfig.close_buffer base)
      ∧ RuntimeConfig.repeat_alert_sec merged
        = override_or (o !! "repeat_alert_sec") int_cast (config_store.max_int 30)
            (RuntimeConfig.repeat_alert_sec base)
      ∧ RuntimeConfig.annual_factor merged
        = override_or (o !! "annual_factor") float_cast id
            (RuntimeConfig.annual_factor base)
      ∧ RuntimeConfig.poll_interval_sec merged
        = override_or (o !! "poll_interval_sec") float_cast (config_store.max_float 0.5)
            (RuntimeConfig.poll_interval_sec base)
      ∧ RuntimeConfig.tg_allowed_chat_ids merged
        = match o !! "allowed_chat_ids" with
          | Some raw => parse_chat_ids raw
          | None => RuntimeConfig.tg_allowed_chat_ids base
          end
      ∧ same_deployment base merged
  | Raised _ =>
      overflows (o !! "threshold_open") float_cast
      ∨ overflows (o !! "close_buffer") float_cast
      ∨ overflows (o !! "repeat_alert_sec") int_cast
      ∨ overflows (o !! "annual_factor") float_cast
      ∨ overflows (o !! "poll_interval_sec") float_cast
  end.
Proof.
  unfold config_store._merge_overrides, config_store.DYNAMIC_KEYS.
  cbn [config_store.merge_loop].
  destruct (exact_threshold_open o base) as [(e & -> & Hraise)|[-> _]];
    cbn [and_then]; [tauto|].
  match goal with
  | |- context [merge_one o ?c ("close_buffer", _)] =>
      destruct (exact_close_buffer o c) as [(e & -> & Hraise)|[-> _]]
  end; cbn [and_then]; [tauto|].
  match goal with
  | |- context [merge_one o ?c ("repeat_alert_sec", _)] =>
      destruct (exact_repeat_alert_sec o c) as [(e & -> & Hraise)|[-> _]]
  end; cbn [and_then]; [tauto|].
  match goal with
  | |- context [merge_one o ?c ("annual_factor", _)] =>
      destruct (exact_annual_factor o c) as [(e & -> & Hraise)|[-> _]]
  end; cbn [and_then]; [tauto|].
  match goal with
  | |- context [merge_one o ?c ("poll_interval_sec", _)] =>
      destruct (exact_poll_interval_sec o c) as [(e & -> & Hraise)|[-> _]]
  end; cbn [and_then]; [tauto|].
  rewrite exact_allowed_chat_ids. unfold same_deployment. simpl.
  repeat split; reflexivity.
Qed.

(** X14. A refresh that is due and whose merge returns stores the merged
    configuration; from then on, for every call less than
    [config_refresh_sec] seconds later, [refresh] answers that same
    configuration without reading the table, whatever the table holds by
    then: an override written meanwhile stays invisible until the
    interval has passed. *)
Theorem refresh_serves_cache_within_interval (self : config_store.RuntimeConfigStore.t)
    (t1 t2 : Z) (w1 w2 : World) (merged : RuntimeConfig.t) :
  RuntimeConfig.config_refresh_sec (config_store.RuntimeConfigStore._current self) * 1000
    ≤ t1 - config_store.RuntimeConfigStore._last_refresh_ms self →
  merge (config_store.RuntimeConfigStore._base self) (config_table w1) = Returned merged →
  t2 - t1
    < RuntimeConfig.config_refresh_sec (config_store.RuntimeConfigStore._base self) * 1000 →
  ∃ self1,
    refresh_store self t1 w1 = (Returned (self1, merged), w1)
    ∧ config_store.current self1 = merged
    ∧ config_store.RuntimeConfigStore._base self1
      = config_store.RuntimeConfigStore._base self
    ∧ refresh_store self1 t2 w2 = (Returned (self1, merged), w2).
Proof.
  intros Hdue Hmerge Hsoon.
  pose proof (merge_exact (config_store.RuntimeConfigStore._base self) (config_table w1))
    as Hexact.
  rewrite Hmerge in Hexact.
  destruct Hexact as (_ & _ & _ & _ & _ & _ & Hsame).
  destruct Hsame as (_ & _ & _ & Hinterval & _).
  eexists. split.
  { unfold config_store.refresh.
    rewrite (proj2 (Z.ltb_ge _ _) Hdue).
    unfold storage.load_config_map.
    cbv beta iota delta [bind get_world ret of_outcome].
    rewrite Hmerge. reflexivity. }
  split; [reflexivity|]. split; [reflexivity|].
  unfold config_store.refresh. cbn [config_store.RuntimeConfigStore._last_refresh_ms
    config_store.RuntimeConfigStore._current].
  rewrite Hinterval, (proj2 (Z.ltb_lt _ _) Hsoon). reflexivity.
Qed.

(** X15. When the merge returns, each dynamic setting is decided by its
    own stored override alone: absent, or with a cast that raises, the
    setting is the base value; otherwise it is the cast value, floored at
    30 for [repeat_alert_sec] and at 0.5 for [poll_interval_sec] (a NaN
    poll interval becomes 0.5); [allowed_chat_ids], when stored, replaces
    the base set by the parsed one. *)
Theorem merged_settings_are_the_stored_overrides (base merged : RuntimeConfig.t)
    (o : gmap string Raw) :
  merge base o = Returned merged →
  RuntimeConfig.threshold_open merged
  = override_or (o !! "threshold_open") float_cast id (RuntimeConfig.threshold_open base)
  ∧ RuntimeConfig.close_buffer merged
    = override_or (o !! "close_buffer") float_cast id (RuntimeConfig.close_buffer base)
  ∧ RuntimeConfig.repeat_alert_sec merged
    = override_or (o !! "repeat_alert_sec") int_cast (config_store.max_int 30)
        (RuntimeConfig.repeat_alert_sec base)
  ∧ RuntimeConfig.annual_factor merged
    = override_or (o !! "annual_factor") float_cast id (RuntimeConfig.annual_factor base)
  ∧ RuntimeConfig.poll_interval_sec merged
    = override_or (o !! "poll_interval_sec") float_cast (config_store.max_float 0.5)
        (RuntimeConfig.poll_interval_sec base)
  ∧ RuntimeConfig.tg_allowed_chat_ids merged
    = match o !! "allowed_chat_ids" with
      | Some raw => parse_chat_ids raw
      | None => RuntimeConfig.tg_allowed_chat_ids base
      end
  ∧ (∀ v, config_store.max_int 30 v = Z.max 30 v)
  ∧ (∀ v, is_nan v = true → config_store.max_float 0.5 v = 0.5%float).
Proof.
  intros Hmerge. pose proof (merge_exact base o) as Hexact.
  rewrite Hmerge in Hexact.
  destruct Hexact as (H1 & H2 & H3 & H4 & H5 & H6 & _).
  repeat (split; [assumption|]). split.
  - intros v. unfold config_store.max_int. destruct (30 <? v) eqn:Hlt; lia.
  - intros v Hnan. unfold config_store.max_float.
    destruct (0.5 <? v)%float eqn:Hlt; [|reflexivity].
    rewrite FloatAxioms.ltb_spec in Hlt. unfold SFltb in Hlt.
    unfold is_nan in Hnan. rewrite FloatAxioms.eqb_spec in Hnan.
    destruct (Prim2SF v) eqn:Hv; simpl in Hlt, Hnan; try discriminate.
    + destruct s; discriminate.
    + unfold SFeqb in Hnan. rewrite SFcompare_refl in Hnan; discriminate.
Qed.

(** X16. No override reaches the deployment settings: when the merge
    returns, the API URL, the quote size, the pair, the refresh interval,
    the TTL, the region, the four table names and the bot token are the
    base's.  A stored key that is not one of the six dynamic keys is
    ignored: the merge is the same with and without it. *)
Theorem merge_keeps_deployment_settings (base : RuntimeConfig.t)
    (o : gmap string Raw) :
  match merge base o with
  | Returned merged => same_deployment base merged
  | Raised _ => True
  end
  ∧ (∀ key raw,
       key ∉ config_store.DYNAMIC_KEYS.*1 →
       merge base (<[key := raw]> o) = merge base o
       ∧ merge base (delete key o) = merge base o).
Proof.
  split.
  - pose proof (merge_exact base o) as Hexact.
    destruct (merge base o); [|exact I]. tauto.
  - intros key raw Hkey. simpl in Hkey.
    repeat (apply not_elem_of_cons in Hkey as [? Hkey]).
    unfold config_store._merge_overrides, config_store.DYNAMIC_KEYS.
    cbn [config_store.merge_loop]. unfold config_store.merge_step.
    cbn [fst snd].
    rewrite !lookup_insert_ne, !lookup_delete_ne by congruence.
    split; reflexivity.
Qed.

End merge_facts.

Lemma refresh_serves_cache_within_interval_witness :
  RuntimeConfig.config_refresh_sec
      (config_store.RuntimeConfigStore._current (config_store.init samples.cfg)) * 1000
    ≤ 100000 - config_store.RuntimeConfigStore._last_refresh_ms
                 (config_store.init samples.cfg)
  ∧ ∃ self1,
      samples.refresh (config_store.init samples.cfg) 100000
        (samples.config_world {[ "threshold_open" := RInt 45 ]})
      = (Returned (self1, config_store.set_threshold_open 45 samples.cfg),
         samples.config_world {[ "threshold_open" := RInt 45 ]})
      ∧ samples.refresh self1 129999
          (samples.config_world {[ "threshold_open" := RInt 50 ]})
        = (Returned (self1, config_store.set_threshold_open 45 samples.cfg),
           samples.config_world {[ "threshold_open" := RInt 50 ]}).
Proof.
  assert (RuntimeConfig.config_refresh_sec
            (config_store.RuntimeConfigStore._current (config_store.init samples.cfg))
          * 1000
          ≤ 100000 - config_store.RuntimeConfigStore._last_refresh_ms
                       (config_store.init samples.cfg)) as Hdue by (vm_compute; discriminate).
  split; [exact Hdue|].
  destruct (refresh_serves_cache_within_interval samples.float_of_str samples.int_of_str
              samples.str_of (config_store.init samples.cfg) 100000 129999
              (samples.config_world {[ "threshold_open" := RInt 45 ]})
              (samples.config_world {[ "threshold_open" := RInt 50 ]})
              (config_store.set_threshold_open 45 samples.cfg) Hdue)
    as (self1 & Hfirst & _ & _ & Hsecond).
  - vm_compute. reflexivity.
  - vm_compute. reflexivity.
  - exists self1. split; [exact Hfirst|exact Hsecond].
Defined.

Lemma merged_settings_are_the_stored_overrides_witness :
  config_store._merge_overrides samples.float_of_str samples.int_of_str samples.str_of
    samples.cfg {[ "repeat_alert_sec" := RInt 10 ]}
  = Returned (config_store.set_repeat_alert_sec 30 samples.cfg)
  ∧ RuntimeConfig.repeat_alert_sec (config_store.set_repeat_alert_sec 30 samples.cfg)
    = override_or
        (({[ "repeat_alert_sec" := RInt 10 ]} : gmap string Raw) !! "repeat_alert_sec")
        (config_store.py_int samples.int_of_str) (config_store.max_int 30)
        (RuntimeConfig.repeat_alert_sec samples.cfg).
Proof.
  assert (config_store._merge_overrides samples.float_of_str samples.int_of_str
            samples.str_of samples.cfg {[ "repeat_alert_sec" := RInt 10 ]}
          = Returned (config_store.set_repeat_alert_sec 30 samples.cfg)) as Hmerge
    by (vm_compute; reflexivity).
  split; [exact Hmerge|].
  destruct (merged_settings_are_the_stored_overrides samples.float_of_str
              samples.int_of_str samples.str_of samples.cfg _ _ Hmerge)
    as (_ & _ & Hrepeat & _).
  exact Hrepeat.
Defined.

(** * Properties of the service *)

Section api_failures.

Import main.

Lemma send_to_each (bot : bot.TelegramBot.t) (message : Text)
    (chats : list string) (posted : list (string * Text)) :
  bot.enabled bot = true →
  foldl (fun posted chat_id => bot.send_message bot chat_id message posted) posted chats
  = posted ++ ((fun chat_id => (chat_id, message)) <$> chats).
Proof.
  intros Henabled. revert posted.
  induction chats as [|chat chats IH]; intros posted; simpl.
  - rewrite app_nil_r. reflexivity.
  - rewrite IH. unfold bot.send_message. rewrite Henabled, <- app_assoc. reflexivity.
Qed.

(** One failed fetch: the count goes up by one; an alert is posted, and
    stamped, exactly when the count has reached the threshold and the
    cooldown since the last alert has passed. *)
Lemma handle_api_failure_run (error : string) (now_ms : Z) (p : Process) :
  let self := service p in
  let count := MonitorService.api_failure_count self + 1 in
  _handle_api_failure error now_ms p
  = (Ok tt,
     if (count <? MonitorService.api_failure_alert_threshold self)
        || (now_ms - MonitorService.last_api_failure_alert_ts self
            <? MonitorService.api_failure_alert_cooldown_sec self * 1000)
     then mkProcess (set_api_failure_count count self) (posted p) (tables p)
     else
       mkProcess
         (set_last_api_failure_alert_ts now_ms (set_api_failure_count count self))
         (if bot.enabled (MonitorService.bot self)
          then posted p ++ api_failure_alerts self count error
          else posted p)
         (tables p)).
Proof.
  destruct p as [self posted tables]. cbn zeta. cbn [service main.posted main.tables].
  unfold _handle_api_failure, bind_p, get_service, set_service, ok. cbn.
  destruct (MonitorService.api_failure_count self + 1
            <? MonitorService.api_failure_alert_threshold self); [reflexivity|].
  destruct (now_ms - MonitorService.last_api_failure_alert_ts self
            <? MonitorService.api_failure_alert_cooldown_sec self * 1000); [reflexivity|].
  cbn. unfold _notify_allowed. cbn.
  destruct (bot.enabled (MonitorService.bot self)) eqn:Henabled; cbn; [|reflexivity].
  destruct (bool_decide (bot.TelegramBot.allowed_chat_ids (MonitorService.bot self) = ∅))
    eqn:Hempty; cbn.
  - apply bool_decide_eq_true_1 in Hempty.
    unfold api_failure_alerts. rewrite Hempty, elements_empty. cbn.
    rewrite app_nil_r. reflexivity.
  - rewrite (send_to_each _ _ _ _ Henabled). reflexivity.
Qed.

Lemma record_fetch_frame (outcome : Fetch) (now_ms : Z) (p : Process) :
  (record_fetch outcome now_ms p).1 = Ok tt
  ∧ tables (record_fetch outcome now_ms p).2 = tables p
  ∧ same_settings (service p) (service (record_fetch outcome now_ms p).2).
Proof.
  destruct outcome as [|error]; simpl.
  - unfold same_settings. destruct p as [self posted tables]. cbn. auto 10.
  - rewrite handle_api_failure_run. cbn zeta.
    destruct (_ || _); unfold same_settings; cbn; auto 10.
Qed.

(** A round inside the cooldown posts nothing and keeps the stamp. *)
Lemma record_fetch_in_cooldown (outcome : Fetch) (now_ms : Z) (p : Process) :
  now_ms - MonitorService.last_api_failure_alert_ts (service p)
    < MonitorService.api_failure_alert_cooldown_sec (service p) * 1000 →
  posted (record_fetch outcome now_ms p).2 = posted p
  ∧ MonitorService.last_api_failure_alert_ts (service (record_fetch outcome now_ms p).2)
    = MonitorService.last_api_failure_alert_ts (service p).
Proof.
  intros Hcool. destruct outcome as [|error]; simpl.
  - destruct p as [self posted tables]. cbn. auto.
  - rewrite handle_api_failure_run. cbn zeta.
    rewrite (proj2 (Z.ltb_lt _ _) Hcool), orb_true_r. cbn. auto.
Qed.

(** A round below the threshold posts nothing. *)
Lemma record_fetch_below_threshold (outcome : Fetch) (now_ms : Z) (p : Process) :
  Z.max (MonitorService.api_failure_count (service p)) 0 + 1
    < MonitorService.api_failure_alert_threshold (service p) →
  posted (record_fetch outcome now_ms p).2 = posted p
  ∧ Z.max (MonitorService.api_failure_count (service (record_fetch outcome now_ms p).2)) 0
    ≤ Z.max (MonitorService.api_failure_count (service p)) 0 + 1.
Proof.
  intros Hbelow. destruct outcome as [|error]; simpl.
  - destruct p as [self posted tables]. cbn in *. split; [reflexivity|lia].
  - rewrite handle_api_failure_run. cbn zeta.
    assert ((MonitorService.api_failure_count (service p) + 1
             <? MonitorService.api_failure_alert_threshold (service p)) = true) as ->
      by (apply Z.ltb_lt; lia).
    cbn. split; [reflexivity|lia].
Qed.

End api_failures.

Section failure_steps.

Import main.

Lemma run_step_cool (step : Step) (p : Process) :
  keeps_failure_state step →
  (∀ outcome now_ms, step = Handle outcome now_ms →
     now_ms - MonitorService.last_api_failure_alert_ts (service p)
     < MonitorService.api_failure_alert_cooldown_sec (service p) * 1000) →
  MonitorService.last_api_failure_alert_ts (service (run_step p step))
  = MonitorService.last_api_failure_alert_ts (service p)
  ∧ MonitorService.api_failure_alert_cooldown_sec (service (run_step p step))
    = MonitorService.api_failure_alert_cooldown_sec (service p).
Proof.
  intros Hkeeps Hcool. destruct step as [outcome now_ms|f]; simpl.
  - destruct (record_fetch_in_cooldown outcome now_ms p (Hcool _ _ eq_refl)) as [_ Hlast].
    destruct (record_fetch_frame outcome now_ms p) as (_ & _ & _ & _ & _ & _ & Hcd).
    auto.
  - destruct (Hkeeps p) as (_ & Hlast & _ & Hcd). auto.
Qed.

Lemma run_steps_cool (steps : list Step) (p : Process) :
  (∀ step, step ∈ steps → keeps_failure_state step) →
  (∀ outcome now_ms, Handle outcome now_ms ∈ steps →
     now_ms - MonitorService.last_api_failure_alert_ts (service p)
     < MonitorService.api_failure_alert_cooldown_sec (service p) * 1000) →
  handlings_post_nothing steps p
  ∧ MonitorService.last_api_failure_alert_ts (service (run_steps steps p))
    = MonitorService.last_api_failure_alert_ts (service p).
Proof.
  revert p. induction steps as [|step steps IH]; intros p Hkeeps Hcool.
  - split; [|reflexivity]. intros [|? ?] ? ? ? Heq; discriminate Heq.
  - destruct (run_step_cool step p) as [Hlast Hcd].
    { apply Hkeeps. left. }
    { intros outcome now_ms ->. apply (Hcool outcome). left. }
    destruct (IH (run_step p step)) as [IHsilent IHlast].
    { intros s Hin. apply Hkeeps. right. exact Hin. }
    { intros outcome now_ms Hin. rewrite Hlast, Hcd. apply (Hcool outcome). right.
      exact Hin. }
    split; [|simpl; rewrite IHlast; exact Hlast].
    intros [|first before] outcome now_ms after Heq; simpl in Heq.
    + injection Heq as -> _. simpl.
      apply (record_fetch_in_cooldown outcome now_ms p). apply (Hcool outcome). left.
    + injection Heq as <- Heq. simpl. exact (IHsilent _ _ _ _ Heq).
Qed.

Lemma run_step_below (step : Step) (p : Process) :
  keeps_failure_state step →
  Z.max (MonitorService.api_failure_count (service p)) 0
    + Z.of_nat (length (handlings [step]))
  < MonitorService.api_failure_alert_threshold (service p) →
  Z.max (MonitorService.api_failure_count (service (run_step p step))) 0
  ≤ Z.max (MonitorService.api_failure_count (service p)) 0
    + Z.of_nat (length (handlings [step]))
  ∧ MonitorService.api_failure_alert_threshold (service (run_step p step))
    = MonitorService.api_failure_alert_threshold (service p).
Proof.
  intros Hkeeps Hbelow. destruct step as [outcome now_ms|f]; simpl in *.
  - destruct (record_fetch_below_threshold outcome now_ms p) as [_ Hcount]; [lia|].
    destruct (record_fetch_frame outcome now_ms p) as (_ & _ & _ & _ & _ & Hth & _).
    split; [lia|exact Hth].
  - destruct (Hkeeps p) as (Hcount & _ & Hth & _). rewrite Hcount. split; [lia|exact Hth].
Qed.

Lemma run_steps_below (steps : list Step) (p : Process) :
  (∀ step, step ∈ steps → keeps_failure_state step) →
  Z.max (MonitorService.api_failure_count (service p)) 0
    + Z.of_nat (length (handlings steps))
  < MonitorService.api_failure_alert_threshold (service p) →
  handlings_post_nothing steps p.
Proof.
  revert p. induction steps as [|step steps IH]; intros p Hkeeps Hbelow.
  - intros [|? ?] ? ? ? Heq; discriminate Heq.
  - assert (length (handlings (step :: steps))
            = (length (handlings [step]) + length (handlings steps))%nat) as Hlen.
    { unfold handlings. cbn [omap list_omap]. destruct step; reflexivity. }
    rewrite Hlen in Hbelow.
    destruct (run_step_below step p) as [Hcount Hth]; [apply Hkeeps; left|lia|].
    intros [|first before] outcome now_ms after Heq; simpl in Heq.
    + injection Heq as -> _. simpl in *.
      apply (record_fetch_below_threshold outcome now_ms p). lia.
    + injection Heq as <- Heq. simpl.
      apply (IH (run_step p step)) with (after := after); [| |exact Heq].
      * intros s Hin. apply Hkeeps. right. exact Hin.
      * rewrite Hth. lia.
Qed.

Lemma run_steps_limits (steps : list Step) (p : Process) :
  (∀ step, step ∈ steps → keeps_failure_state step) →
  MonitorService.api_failure_alert_threshold (service (run_steps steps p))
  = MonitorService.api_failure_alert_threshold (service p)
  ∧ MonitorService.api_failure_alert_cooldown_sec (service (run_steps steps p))
    = MonitorService.api_failure_alert_cooldown_sec (service p).
Proof.
  revert p. induction steps as [|step steps IH]; intros p Hkeeps; [auto|].
  destruct (IH (run_step p step)) as [Hth Hcd].
  { intros s Hin. apply Hkeeps. right. exact Hin. }
  simpl. rewrite Hth, Hcd.
  specialize (Hkeeps step ltac:(left)).
  destruct step as [outcome now_ms|f]; simpl.
  - destruct (record_fetch_frame outcome now_ms p) as (_ & _ & _ & _ & _ & H1 & H2). auto.
  - destruct (Hkeeps p) as (_ & _ & H1 & H2). auto.
Qed.

End failure_steps.

(** X17. API failure alerts are rate-limited twice.  Take any sequence of
    steps of the service: handlings of the outcome of a fetch, successes
    and failures alike, and between them anything that assigns neither the
    count of failures, nor the time of the last alert, nor the two limits
    (it may post, write the tables, change the bot and the configuration).
    No handling posts anything while the clock of each is less than
    [api_failure_alert_cooldown_sec] seconds past the last alert, however
    many failures pile up, and the time of the last alert stays; and no
    handling posts anything when the handlings are too few to bring the
    count of consecutive failures to the threshold.  The two limits are
    the same after the steps. *)
Theorem api_failure_alerts_are_rate_limited (steps : list Step) (p : main.Process) :
  (∀ step, step ∈ steps → keeps_failure_state step) →
  ((∀ outcome now_ms, Handle outcome now_ms ∈ steps →
      now_ms - main.MonitorService.last_api_failure_alert_ts (main.service p)
      < main.MonitorService.api_failure_alert_cooldown_sec (main.service p) * 1000) →
   handlings_post_nothing steps p
   ∧ main.MonitorService.last_api_failure_alert_ts (main.service (run_steps steps p))
     = main.MonitorService.last_api_failure_alert_ts (main.service p))
  ∧ (Z.max (main.MonitorService.api_failure_count (main.service p)) 0
       + Z.of_nat (length (handlings steps))
     < main.MonitorService.api_failure_alert_threshold (main.service p) →
     handlings_post_nothing steps p)
  ∧ main.MonitorService.api_failure_alert_threshold (main.service (run_steps steps p))
    = main.MonitorService.api_failure_alert_threshold (main.service p)
  ∧ main.MonitorService.api_failure_alert_cooldown_sec (main.service (run_steps steps p))
    = main.MonitorService.api_failure_alert_cooldown_sec (main.service p).
Proof.
  intros Hkeeps.
  split; [apply run_steps_cool, Hkeeps|].
  split; [apply run_steps_below, Hkeeps|].
  apply run_steps_limits, Hkeeps.
Qed.

Lemma api_failure_alerts_are_rate_limited_witness :
  handlings samples.failure_steps
  = [(main.FetchFailed "timeout", 1000); (main.FetchFailed "timeout", 3000)]
  ∧ main.posted
      (run_steps [Handle (main.FetchFailed "timeout") 1000; samples.reply_step]
         (samples.process_of samples.monitor (samples.world_of ∅)))
    = [("alice", main.HelpText)]
  ∧ main.posted
      (main.record_fetch (main.FetchFailed "timeout") 3000
         (run_steps [Handle (main.FetchFailed "timeout") 1000; samples.reply_step]
            (samples.process_of samples.monitor (samples.world_of ∅)))).2
    = main.posted
        (run_steps [Handle (main.FetchFailed "timeout") 1000; samples.reply_step]
           (samples.process_of samples.monitor (samples.world_of ∅)))
  ∧ main.MonitorService.api_failure_count
      (main.service
         (run_steps samples.failure_steps
            (samples.process_of samples.monitor (samples.world_of ∅)))) = 2.
Proof.
  split; [reflexivity|]. split; [vm_compute; reflexivity|].
  split; [|vm_compute; reflexivity].
  assert (∀ step, step ∈ samples.failure_steps → keeps_failure_state step) as Hkeeps.
  { intros step Hin. unfold samples.failure_steps in Hin.
    repeat (apply elem_of_cons in Hin as [->|Hin]); try exact I.
    - intros [self posted tables]. unfold same_failure_state. simpl. auto.
    - apply elem_of_nil in Hin. destruct Hin. }
  destruct (api_failure_alerts_are_rate_limited samples.failure_steps
              (samples.process_of samples.monitor (samples.world_of ∅)) Hkeeps)
    as (_ & Hbelow & _).
  apply (Hbelow ltac:(vm_compute; reflexivity)
           [Handle (main.FetchFailed "timeout") 1000; samples.reply_step]
           (main.FetchFailed "timeout") 3000 []).
  reflexivity.
Defined.

(** X18. A failed fetch that brings the count of consecutive failures to
    the threshold, the cooldown since the last alert having passed, posts
    one alert to every allowed chat (when the bot has a token), carrying
    the count and the reason, and stamps the alert time; a fetched
    snapshot resets the count.  After the alert every round less than the
    cooldown later is silent. *)
Theorem api_failure_alert_fires (error : string) (now_ms : Z) (p : main.Process) :
  main.MonitorService.api_failure_alert_threshold (main.service p)
    ≤ main.MonitorService.api_failure_count (main.service p) + 1 →
  main.MonitorService.api_failure_alert_cooldown_sec (main.service p) * 1000
    ≤ now_ms - main.MonitorService.last_api_failure_alert_ts (main.service p) →
  bot.enabled (main.MonitorService.bot (main.service p)) = true →
  ∃ p',
    main._handle_api_failure error now_ms p = (main.Ok tt, p')
    ∧ main.posted p'
      = main.posted p
        ++ api_failure_alerts (main.service p)
             (main.MonitorService.api_failure_count (main.service p) + 1) error
    ∧ main.MonitorService.api_failure_count (main.service p')
      = main.MonitorService.api_failure_count (main.service p) + 1
    ∧ main.MonitorService.last_api_failure_alert_ts (main.service p') = now_ms
    ∧ main.MonitorService.api_failure_count
        (main.service (main.record_fetch main.Fetched now_ms p').2) = 0
    ∧ (∀ outcome later,
         later - now_ms
           < main.MonitorService.api_failure_alert_cooldown_sec (main.service p) * 1000 →
         main.posted (main.record_fetch outcome later p').2 = main.posted p').
Proof.
  intros Hcount Hcooled Henabled.
  rewrite handle_api_failure_run. cbn zeta.
  rewrite (proj2 (Z.ltb_ge _ _) Hcount), (proj2 (Z.ltb_ge _ _) Hcooled), Henabled.
  cbn [orb]. eexists. split; [reflexivity|].
  cbn [main.posted main.service]. split; [reflexivity|].
  split; [reflexivity|]. split; [reflexivity|]. split; [reflexivity|].
  intros outcome later Hsoon.
  apply record_fetch_in_cooldown. cbn. exact Hsoon.
Qed.

Lemma api_failure_alert_fires_witness :
  bot.enabled (main.MonitorService.bot (main.set_api_failure_count 2 samples.monitor))
    = true
  ∧ ∃ p',
      main._handle_api_failure "API request failed: timeout" 1700000000000
        (samples.process_of (main.set_api_failure_count 2 samples.monitor)
           (samples.world_of ∅))
      = (main.Ok tt, p')
      ∧ main.posted p'
        = [("alice", main.ApiFailureAlertText 3 "API request failed: timeout")]
      ∧ main.MonitorService.last_api_failure_alert_ts (main.service p') = 1700000000000.
Proof.
  split; [reflexivity|].
  destruct (api_failure_alert_fires "API request failed: timeout" 1700000000000
              (samples.process_of (main.set_api_failure_count 2 samples.monitor)
                 (samples.world_of ∅)))
    as (p' & Hrun & Hposted & _ & Hlast & _).
  - vm_compute. discriminate.
  - vm_compute. discriminate.
  - reflexivity.
  - exists p'. split; [exact Hrun|]. split; [|exact Hlast].
    rewrite Hposted. vm_compute. reflexivity.
Defined.

Section commands.

Import main.

Variable float_of_str : string → option float.
Variable int_of_str : string → option Z.
Variable str_of : Raw → string.
Variable rejects : Raw → option Exn.
Variable int_of_decimal : float → Z.
Variable summary_error : PositionRecord.t → option Exn.

Abbreviation handle :=
  (_handle_command float_of_str int_of_str str_of rejects int_of_decimal summary_error).
Abbreviation run_dispatch :=
  (dispatch float_of_str int_of_str str_of rejects int_of_decimal summary_error).

Lemma is_authorized_iff (self : bot.TelegramBot.t) (chat_id : string) :
  bot.is_authorized self chat_id = true
  ↔ chat_id ∈ bot.TelegramBot.allowed_chat_ids self.
Proof.
  unfold bot.is_authorized.
  destruct (bool_decide (bot.TelegramBot.allowed_chat_ids self = ∅)) eqn:Hempty.
  - apply bool_decide_eq_true_1 in Hempty. rewrite Hempty.
    split; [discriminate|]. intros Hin. apply elem_of_empty in Hin. destruct Hin.
  - apply bool_decide_eq_true.
Qed.

Lemma parse_chat_ids_non_empty (raw : Raw) :
  EmptyString ∉ config_store._parse_chat_ids str_of raw.
Proof.
  assert (∀ l : list string, EmptyString ∉ List.filter config_store.non_empty l) as Hfilter.
  { intros l Hin. apply list_elem_of_In, filter_In in Hin as [_ Hne]. discriminate Hne. }
  destruct raw as [|b|z|f|s|l]; simpl;
    try (destruct (config_store.non_empty _) eqn:Hne;
         [intros Hin; apply elem_of_singleton in Hin; rewrite <- Hin in Hne;
          discriminate Hne
         |apply not_elem_of_empty]).
  - apply not_elem_of_empty.
  - rewrite elem_of_list_to_set. apply Hfilter.
  - rewrite elem_of_list_to_set. apply Hfilter.
Qed.

Lemma handle_unauthorized (command : bot.BotCommand.t) (cfg : RuntimeConfig.t)
    (now_ms : Z) (p : Process) :
  bot.is_authorized (MonitorService.bot (service p)) (bot.BotCommand.chat_id command)
    = false →
  handle command cfg now_ms p
  = (Ok tt, replied p (bot.BotCommand.chat_id command) UnauthorizedText).
Proof.
  intros Hno. unfold _handle_command, bind_p, get_service. rewrite Hno. reflexivity.
Qed.

Lemma handle_authorized (command : bot.BotCommand.t) (cfg : RuntimeConfig.t)
    (now_ms : Z) (p : Process) :
  bot.is_authorized (MonitorService.bot (service p)) (bot.BotCommand.chat_id command)
    = true →
  handle command cfg now_ms p
  = match split (bot.BotCommand.text command) with
    | [] => (Fail IndexError, p)
    | first :: rest =>
        try_except
          (run_dispatch (lower first) (first :: rest) (bot.BotCommand.chat_id command)
             cfg now_ms)
          (fun exc =>
             send_message (bot.BotCommand.chat_id command) (CommandFailedText exc)) p
    end.
Proof.
  intros Hyes. unfold _handle_command, bind_p, get_service. rewrite Hyes. cbn [negb].
  destruct (split (bot.BotCommand.text command)); reflexivity.
Qed.

Lemma format_summaries_run (positions : list PositionRecord.t) (p : Process) :
  format_summaries summary_error positions p = (Ok tt, p)
  ∨ ∃ e, format_summaries summary_error positions p = (Fail (Exception e), p).
Proof.
  induction positions as [|position positions IH]; simpl; [left; reflexivity|].
  destruct (summary_error position) as [e|]; [right; exists e; reflexivity|exact IH].
Qed.

(** A reply from inside the [try], as the handler sees it. *)
Lemma try_reply (p : Process) (chat_id : string) (reply : Text)
    (handler : Failure → P unit) :
  try_except (send_message chat_id reply) handler p = (Ok tt, replied p chat_id reply).
Proof. reflexivity. Qed.

Lemma bind_lift_Returned {A B} (m : M A) (k : A → P B) (p : Process) (a : A)
    (w : World) :
  m (tables p) = (Returned a, w) →
  bind_p (lift m) k p = k a (mkProcess (service p) (posted p) w).
Proof. intros H. unfold bind_p, lift. rewrite H. reflexivity. Qed.

Lemma bind_lift_Raised {A B} (m : M A) (k : A → P B) (p : Process) (e : Exn)
    (w : World) :
  m (tables p) = (Raised e, w) →
  bind_p (lift m) k p = (Fail (Exception e), mkProcess (service p) (posted p) w).
Proof. intros H. unfold bind_p, lift. rewrite H. reflexivity. Qed.

(** X19. A chat that is not in the allowed set changes nothing, whatever
    it sends: the handler answers "Unauthorized chat_id." to that chat and
    touches neither the tables nor the service.  A chat is authorized
    exactly when it is in the set, so an empty set authorizes nobody; and
    no stored [allowed_chat_ids] override ever allows the empty chat
    id. *)
Theorem unauthorized_chat_changes_nothing (command : bot.BotCommand.t)
    (cfg : RuntimeConfig.t) (now_ms : Z) (p : Process) :
  bot.BotCommand.chat_id command
    ∉ bot.TelegramBot.allowed_chat_ids (MonitorService.bot (service p)) →
  handle command cfg now_ms p
    = (Ok tt, replied p (bot.BotCommand.chat_id command) UnauthorizedText)
  ∧ (∀ self chat_id,
       bot.is_authorized self chat_id = true
       ↔ chat_id ∈ bot.TelegramBot.allowed_chat_ids self)
  ∧ (∀ token chat_id, bot.is_authorized (bot.init token None) chat_id = false)
  ∧ (∀ raw, EmptyString ∉ config_store._parse_chat_ids str_of raw).
Proof.
  intros Hout. split.
  - apply handle_unauthorized.
    destruct (bot.is_authorized _ _) eqn:Hyes; [|reflexivity].
    apply is_authorized_iff in Hyes. contradiction.
  - split; [exact is_authorized_iff|]. split; [|exact parse_chat_ids_non_empty].
    intros token chat_id. reflexivity.
Qed.

(** X20. Only [/open], [/close] and [/set] can change anything.  Any other
    command of an authorized chat, known or not, returns, leaves the
    tables and the service as they were and posts exactly one reply to the
    chat (the help for [/start] and [/help], the configuration passed in
    for [/config]); this holds for [/positions] also when the listing or
    a summary raises, the reply then being "Command failed".  A text
    without any token raises [IndexError], outside the [try]. *)
Theorem other_commands_only_reply (command : bot.BotCommand.t) (cfg : RuntimeConfig.t)
    (now_ms : Z) (p : Process) :
  bot.BotCommand.chat_id command
    ∈ bot.TelegramBot.allowed_chat_ids (MonitorService.bot (service p)) →
  match split (bot.BotCommand.text command) with
  | [] => handle command cfg now_ms p = (Fail IndexError, p)
  | first :: rest =>
      lower first ≠ "/open" → lower first ≠ "/close" → lower first ≠ "/set" →
      ∃ reply,
        handle command cfg now_ms p
        = (Ok tt, replied p (bot.BotCommand.chat_id command) reply)
        ∧ (lower first = "/start" ∨ lower first = "/help" → reply = HelpText)
        ∧ (lower first = "/config" → reply = ConfigText cfg)
  end.
Proof.
  intros Hin. apply is_authorized_iff in Hin.
  rewrite (handle_authorized _ _ _ _ Hin).
  destruct (split (bot.BotCommand.text command)) as [|first rest]; [reflexivity|].
  intros Hopen Hclose Hset.
  set (chat_id := bot.BotCommand.chat_id command).
  unfold dispatch.
  destruct (String.eqb_spec (lower first) "/start") as [E|Nstart].
  { rewrite E. cbn [orb]. rewrite try_reply. exists HelpText.
    split; [reflexivity|]. split; [reflexivity|]. discriminate. }
  destruct (String.eqb_spec (lower first) "/help") as [E|Nhelp].
  { rewrite E. cbn [orb]. rewrite try_reply. exists HelpText.
    split; [reflexivity|]. split; [reflexivity|]. discriminate. }
  cbn [orb].
  destruct (String.eqb_spec (lower first) "/status") as [E|Nstatus].
  { rewrite E.
    unfold try_except, bind_p, get_service.
    destruct (MonitorService.last_snapshot (service p)) as [snapshot|]; cbn.
    - eexists. split; [reflexivity|]. split; [intros [H|H]; discriminate H|discriminate].
    - eexists. split; [reflexivity|]. split; [intros [H|H]; discriminate H|discriminate]. }
  destruct (String.eqb_spec (lower first) "/positions") as [E|Npositions].
  { rewrite E.
    assert (∃ reply,
              try_except
                (let! positions := lift position_manager.list_active_positions in
                 match positions with
                 | [] => send_message chat_id NoActivePositionsText
                 | _ :: _ =>
                     let! _ := format_summaries summary_error positions in
                     send_message chat_id (ActivePositionsText positions)
                 end)
                (fun exc => send_message chat_id (CommandFailedText exc)) p
              = (Ok tt, replied p chat_id reply)) as [reply Hreply].
    { unfold position_manager.list_active_positions.
      pose proof (list_positions_shape
                    [STATUS_OPEN_PENDING_CONFIRM; STATUS_OPEN_CONFIRMED;
                     STATUS_CLOSE_SIGNALLED] (tables p)) as [Hworld _].
      destruct (storage.list_positions
                  [STATUS_OPEN_PENDING_CONFIRM; STATUS_OPEN_CONFIRMED;
                   STATUS_CLOSE_SIGNALLED] (tables p)) as [[positions|e] w] eqn:Hlist;
        simpl in Hworld; subst w; unfold try_except.
      - rewrite (bind_lift_Returned _ _ _ _ _ Hlist).
        destruct p as [self posted tables]. cbn [service main.posted main.tables].
        destruct positions as [|position positions]; [eexists; reflexivity|].
        unfold bind_p.
        destruct (format_summaries_run (position :: positions)
                    (mkProcess self posted tables)) as [->|[e ->]];
          eexists; reflexivity.
      - rewrite (bind_lift_Raised _ _ _ _ _ Hlist).
        destruct p as [self posted tables]. eexists. reflexivity. }
    exists reply. split; [exact Hreply|].
    split; [intros [H|H]; discriminate H|discriminate]. }
  destruct (String.eqb_spec (lower first) "/open") as [E|_]; [contradiction|].
  destruct (String.eqb_spec (lower first) "/close") as [E|_]; [contradiction|].
  destruct (String.eqb_spec (lower first) "/set") as [E|_]; [contradiction|].
  destruct (String.eqb_spec (lower first) "/config") as [E|Nconfig].
  { rewrite try_reply. exists (ConfigText cfg).
    split; [reflexivity|]. split; [|reflexivity]. rewrite E. intros [H|H]; discriminate H. }
  rewrite try_reply. exists UnknownCommandText.
  split; [reflexivity|]. split; [intros [H|H]; contradiction|contradiction].
Qed.

End commands.

Lemma unauthorized_chat_changes_nothing_witness :
  ("mallory" ∉ bot.TelegramBot.allowed_chat_ids
                 (main.MonitorService.bot
                    (main.service (samples.process_of samples.monitor samples.one_pending))))
  ∧ samples._handle_command (bot.BotCommand.mk "mallory" "7" "/open p1 39") samples.cfg
      2100000 (samples.process_of samples.monitor samples.one_pending)
    = (main.Ok tt,
       replied (samples.process_of samples.monitor samples.one_pending) "mallory"
         main.UnauthorizedText).
Proof.
  assert ("mallory" ∉ bot.TelegramBot.allowed_chat_ids
                        (main.MonitorService.bot
                           (main.service
                              (samples.process_of samples.monitor samples.one_pending))))
    as Hout.
  { simpl. intros Hin. apply elem_of_singleton in Hin. discriminate Hin. }
  split; [exact Hout|].
  exact (proj1 (unauthorized_chat_changes_nothing samples.float_of_text
                  samples.int_of_text samples.str_of samples.rejects
                  samples.int_of_decimal samples.summary_error
                  (bot.BotCommand.mk "mallory" "7" "/open p1 39") samples.cfg 2100000
                  (samples.process_of samples.monitor samples.one_pending) Hout)).
Defined.

Lemma other_commands_only_reply_witness :
  ("alice" ∈ bot.TelegramBot.allowed_chat_ids
               (main.MonitorService.bot
                  (main.service (samples.process_of samples.monitor samples.one_pending))))
  ∧ (∃ reply,
       samples._handle_command (bot.BotCommand.mk "alice" "1" "/Positions") samples.cfg
         2100000 (samples.process_of samples.monitor samples.one_pending)
       = (main.Ok tt,
          replied (samples.process_of samples.monitor samples.one_pending) "alice"
            reply)).
Proof.
  assert ("alice" ∈ bot.TelegramBot.allowed_chat_ids
                      (main.MonitorService.bot
                         (main.service
                            (samples.process_of samples.monitor samples.one_pending))))
    as Hin.
  { simpl. apply elem_of_singleton. reflexivity. }
  split; [exact Hin|].
  pose proof (other_commands_only_reply samples.float_of_text samples.int_of_text
                samples.str_of samples.rejects samples.int_of_decimal samples.summary_error
                (bot.BotCommand.mk "alice" "1" "/Positions") samples.cfg 2100000
                (samples.process_of samples.monitor samples.one_pending) Hin) as Hreply.
  change (main.split (bot.BotCommand.text (bot.BotCommand.mk "alice" "1" "/Positions")))
    with ["/Positions"] in Hreply.
  destruct Hreply as (reply & Hrun & _); [vm_compute; discriminate..|].
  exists reply. exact Hrun.
Defined.

Section writing_commands.

Import main.

Variable float_of_str : string → option float.
Variable int_of_str : string → option Z.
Variable str_of : Raw → string.
Variable rejects : Raw → option Exn.
Variable int_of_decimal : float → Z.
Variable summary_error : PositionRecord.t → option Exn.

Abbreviation handle_command :=
  (_handle_command float_of_str int_of_str str_of rejects int_of_decimal summary_error).
Abbreviation dispatch_command :=
  (dispatch float_of_str int_of_str str_of rejects int_of_decimal summary_error).

(** The handler of an authorized chat, on a text with a first token. *)
Lemma handle_dispatch (command : bot.BotCommand.t) (cfg : RuntimeConfig.t) (now_ms : Z)
    (p : Process) (first : string) (rest : list string) :
  bot.BotCommand.chat_id command
    ∈ bot.TelegramBot.allowed_chat_ids (MonitorService.bot (service p)) →
  split (bot.BotCommand.text command) = first :: rest →
  handle_command command cfg now_ms p
  = try_except
      (dispatch_command (lower first) (first :: rest) (bot.BotCommand.chat_id command)
         cfg now_ms)
      (fun exc => send_message (bot.BotCommand.chat_id command) (CommandFailedText exc))
      p.
Proof.
  intros Hin Hsplit. apply is_authorized_iff in Hin.
  rewrite (handle_authorized _ _ _ _ _ _ _ _ _ _ Hin), Hsplit. reflexivity.
Qed.

Lemma dispatch_open (parts : list string) (chat_id : string) (cfg : RuntimeConfig.t)
    (now_ms : Z) :
  dispatch_command "/open" parts chat_id cfg now_ms
  = _handle_open_command float_of_str parts chat_id cfg now_ms.
Proof. reflexivity. Qed.

Lemma dispatch_close (parts : list string) (chat_id : string) (cfg : RuntimeConfig.t)
    (now_ms : Z) :
  dispatch_command "/close" parts chat_id cfg now_ms
  = _handle_close_command float_of_str parts chat_id now_ms.
Proof. reflexivity. Qed.

Lemma dispatch_set (parts : list string) (chat_id : string) (cfg : RuntimeConfig.t)
    (now_ms : Z) :
  dispatch_command "/set" parts chat_id cfg now_ms
  = _handle_set_command float_of_str int_of_str str_of rejects int_of_decimal parts
      chat_id now_ms.
Proof. reflexivity. Qed.

(** X21. [/open <id> <spread>] from an authorized chat, on a pending
    position.  With a spread the table takes, and a trigger
    [-spread + close_buffer] of the configuration passed in that it takes,
    the handler returns; the position is OPEN_CONFIRMED with the spread as
    its entry and that trigger, both as the table holds them, the time and
    the chat; the chat gets the confirmation with the id, the entry and the
    trigger of the record; nothing is sent through the notifier, and
    neither the service nor the configuration table changes.  With a
    number the table refuses (a NaN, say) the chat is told "Command
    failed" with the error, and nothing else changes. *)
Theorem open_command_confirms_position (command : bot.BotCommand.t)
    (cfg : RuntimeConfig.t) (now_ms : Z) (p : Process) (first id actual : string)
    (entry : float) (item : Item.t) :
  bot.BotCommand.chat_id command
    ∈ bot.TelegramBot.allowed_chat_ids (MonitorService.bot (service p)) →
  split (bot.BotCommand.text command) = [first; id; actual] →
  lower first = "/open" →
  float_of_str actual = Some entry →
  positions_table (tables p) !! id = Some item →
  Item.status item = Some STATUS_OPEN_PENDING_CONFIRM →
  wf_item item = true →
  (confirm_open_error (tables p) entry (RuntimeConfig.close_buffer cfg) = None →
   ∃ p',
     handle_command command cfg now_ms p = (Ok tt, p')
     ∧ service p' = service p
     ∧ posted p'
       = bot.send_message (MonitorService.bot (service p))
           (bot.BotCommand.chat_id command)
           (OpenConfirmedText id (storage.float_from_decimal entry)
              (storage.float_from_decimal
                 (signals.close_trigger entry (RuntimeConfig.close_buffer cfg))))
           (posted p)
     ∧ positions_table (tables p')
       = <[id := storage.set_open_confirmed (storage.float_from_decimal entry)
                   (storage.float_from_decimal
                      (signals.close_trigger entry (RuntimeConfig.close_buffer cfg)))
                   now_ms (bot.BotCommand.chat_id command) item]>
           (positions_table (tables p))
     ∧ status_of (tables p') id = Some STATUS_OPEN_CONFIRMED
     ∧ sent (tables p') = sent (tables p)
     ∧ config_table (tables p') = config_table (tables p))
  ∧ (∀ e,
       confirm_open_error (tables p) entry (RuntimeConfig.close_buffer cfg) = Some e →
       handle_command command cfg now_ms p
       = (Ok tt,
          replied p (bot.BotCommand.chat_id command) (CommandFailedText (Exception e)))).
Proof.
  intros Hin Hsplit Hcmd Hfloat Hlook Hst Hwf.
  set (chat_id := bot.BotCommand.chat_id command).
  rewrite (handle_dispatch _ _ _ _ _ _ Hin Hsplit), Hcmd, dispatch_open.
  unfold _handle_open_command, float_of_text. rewrite Hfloat.
  split.
  - intros Haccepted.
    unfold try_except, bind_p at 1, ok, confirm_open_command.
    set (new := storage.set_open_confirmed (storage.float_from_decimal entry)
                  (storage.float_from_decimal
                     (signals.close_trigger entry (RuntimeConfig.close_buffer cfg)))
                  now_ms chat_id item).
    pose proof (confirm_open_hit (tables p) id item entry (RuntimeConfig.close_buffer cfg)
                  now_ms chat_id Hlook Hst Haccepted) as Hrun.
    fold (signals.close_trigger entry (RuntimeConfig.close_buffer cfg)) in Hrun.
    fold new in Hrun.
    destruct (wf_item_converts id new STATUS_OPEN_CONFIRMED eq_refl) as [r Hr].
    { apply wf_item_set_open_confirmed; [exact Hwf|].
      unfold storage.status_eq. rewrite Hst. reflexivity. }
    rewrite (returned_record_Some _ _ _ Hr) in Hrun.
    destruct (position_from_item_fields _ _ _ Hr) as (Htrigger & _ & _ & Hentry).
    destruct (position_from_item_status _ _ _ Hr) as [_ Hid].
    simpl in Htrigger, Hentry.
    rewrite (bind_lift_Returned _ _ _ _ _ Hrun).
    rewrite Hentry, Htrigger, Hid.
    unfold bind_p at 1, send_message.
    cbn [service main.posted main.tables].
    match goal with
    | |- context [storage.put_alert ?payload] =>
        destruct (put_alert_returns payload
                    (set_positions_table (insert id new) (tables p)))
          as (w' & Hput & Htable & Hsent & Hconfig & _)
    end.
    { apply (put_alert_error_accepted (tables p)); [reflexivity|].
      apply (confirm_open_error_None _ _ _ Haccepted). }
    unfold lift. cbn [service main.posted main.tables]. rewrite Hput.
    eexists. split; [reflexivity|].
    cbn [service main.posted main.tables].
    split; [reflexivity|]. split; [reflexivity|].
    split; [rewrite Htable; reflexivity|].
    split.
    { unfold status_of. rewrite Htable. simpl. rewrite lookup_insert_eq. reflexivity. }
    split; [rewrite Hsent; reflexivity|rewrite Hconfig; reflexivity].
  - intros e Hrefused.
    unfold try_except, bind_p at 1, ok, confirm_open_command.
    pose proof (confirm_open_refused (tables p) id entry (RuntimeConfig.close_buffer cfg)
                  now_ms chat_id e Hrefused) as Hrun.
    rewrite (bind_lift_Raised _ _ _ _ _ Hrun).
    destruct p as [self posted tables]. reflexivity.
Qed.

Lemma position_from_item_close_spread (position_id : string) (item : Item.t)
    (r : PositionRecord.t) :
  storage._position_from_item position_id item = Returned r →
  PositionRecord.close_spread_actual r = Item.close_spread_actual item.
Proof. intros Hconv. invert_item Hconv item. reflexivity. Qed.

(** X22. [/close <id> <spread>] from an authorized chat, on a position
    that is OPEN_CONFIRMED or CLOSE_SIGNALLED.  With a spread the table
    takes, the handler returns; the position is CLOSED with the spread as
    its close spread, as the table holds it, the time and the chat; the
    chat gets the confirmation with the id and the close spread of the
    record; nothing is sent through the notifier, and neither the service
    nor the configuration table changes.  With a spread the table refuses
    the chat is told "Command failed" with the error, and nothing else
    changes. *)
Theorem close_command_closes_position (command : bot.BotCommand.t)
    (cfg : RuntimeConfig.t) (now_ms : Z) (p : Process) (first id actual : string)
    (close_spread : float) (item : Item.t) :
  bot.BotCommand.chat_id command
    ∈ bot.TelegramBot.allowed_chat_ids (MonitorService.bot (service p)) →
  split (bot.BotCommand.text command) = [first; id; actual] →
  lower first = "/close" →
  float_of_str actual = Some close_spread →
  positions_table (tables p) !! id = Some item →
  Item.status item = Some STATUS_OPEN_CONFIRMED
  ∨ Item.status item = Some STATUS_CLOSE_SIGNALLED →
  wf_item item = true →
  (storage.number_error (tables p) close_spread = None →
   ∃ p',
     handle_command command cfg now_ms p = (Ok tt, p')
     ∧ service p' = service p
     ∧ posted p'
       = bot.send_message (MonitorService.bot (service p))
           (bot.BotCommand.chat_id command)
           (CloseConfirmedText id (storage.float_from_decimal close_spread)) (posted p)
     ∧ positions_table (tables p')
       = <[id := storage.set_closed (storage.float_from_decimal close_spread) now_ms
                   (bot.BotCommand.chat_id command) item]>
           (positions_table (tables p))
     ∧ status_of (tables p') id = Some STATUS_CLOSED
     ∧ sent (tables p') = sent (tables p)
     ∧ config_table (tables p') = config_table (tables p))
  ∧ (∀ e,
       storage.number_error (tables p) close_spread = Some e →
       handle_command command cfg now_ms p
       = (Ok tt,
          replied p (bot.BotCommand.chat_id command) (CommandFailedText (Exception e)))).
Proof.
  intros Hin Hsplit Hcmd Hfloat Hlook Hst Hwf.
  set (chat_id := bot.BotCommand.chat_id command).
  rewrite (handle_dispatch _ _ _ _ _ _ Hin Hsplit), Hcmd, dispatch_close.
  unfold _handle_close_command, float_of_text. rewrite Hfloat.
  split.
  - intros Haccepted.
    unfold try_except, bind_p at 1, ok, confirm_close_command.
    set (new := storage.set_closed (storage.float_from_decimal close_spread) now_ms
                  chat_id item).
    pose proof (close_position_hit (tables p) id item close_spread now_ms chat_id
                  Hlook Hst Haccepted) as Hrun.
    fold new in Hrun.
    destruct (wf_item_converts id new STATUS_CLOSED eq_refl) as [r Hr].
    { apply wf_item_set_closed; [exact Hwf|].
      unfold storage.status_is_in.
      destruct Hst as [-> | ->]; reflexivity. }
    rewrite (returned_record_Some _ _ _ Hr) in Hrun.
    pose proof (position_from_item_close_spread _ _ _ Hr) as Hclose.
    destruct (position_from_item_status _ _ _ Hr) as [_ Hid].
    simpl in Hclose.
    rewrite (bind_lift_Returned _ _ _ _ _ Hrun).
    rewrite Hclose, Hid.
    unfold bind_p at 1, send_message.
    cbn [service main.posted main.tables].
    match goal with
    | |- context [storage.put_alert ?payload] =>
        destruct (put_alert_returns payload
                    (set_positions_table (insert id new) (tables p)))
          as (w' & Hput & Htable & Hsent & Hconfig & _)
    end.
    { apply (put_alert_error_accepted (tables p)); [reflexivity|exact Haccepted]. }
    unfold lift. cbn [service main.posted main.tables]. rewrite Hput.
    eexists. split; [reflexivity|].
    cbn [service main.posted main.tables].
    split; [reflexivity|]. split; [reflexivity|].
    split; [rewrite Htable; reflexivity|].
    split.
    { unfold status_of. rewrite Htable. simpl. rewrite lookup_insert_eq. reflexivity. }
    split; [rewrite Hsent; reflexivity|rewrite Hconfig; reflexivity].
  - intros e Hrefused.
    unfold try_except, bind_p at 1, ok, confirm_close_command.
    pose proof (close_position_refused (tables p) id close_spread now_ms chat_id e
                  Hrefused) as Hrun.
    rewrite (bind_lift_Raised _ _ _ _ _ Hrun).
    destruct p as [self posted tables]. reflexivity.
Qed.

(** X23. A command the handler refuses changes nothing but the replies:
    [/open] and [/close] with other than one or two arguments answer
    their usage, and with a spread that is no number "Command failed"
    (the [ValueError] of [float]); [/set] with other than two arguments
    answers its usage, with an alias outside [open], [repeat], [annual],
    [close_buffer], [poll] "Unsupported key", and with a value its caster
    refuses "Invalid value type".  In each case the tables and the service
    stay as they were. *)
Theorem refused_commands_change_nothing (command : bot.BotCommand.t)
    (cfg : RuntimeConfig.t) (now_ms : Z) (p : Process) (first : string)
    (rest : list string) :
  bot.BotCommand.chat_id command
    ∈ bot.TelegramBot.allowed_chat_ids (MonitorService.bot (service p)) →
  split (bot.BotCommand.text command) = first :: rest →
  (lower first = "/open" →
     (length rest ≠ 1%nat → length rest ≠ 2%nat →
      handle_command command cfg now_ms p
      = (Ok tt, replied p (bot.BotCommand.chat_id command) OpenUsageText))
     ∧ (∀ actual, rest = [actual] ∨ (∃ id, rest = [id; actual]) →
          float_of_str actual = None →
          handle_command command cfg now_ms p
          = (Ok tt, replied p (bot.BotCommand.chat_id command)
                      (CommandFailedText (Exception ValueError)))))
  ∧ (lower first = "/close" →
     (length rest ≠ 1%nat → length rest ≠ 2%nat →
      handle_command command cfg now_ms p
      = (Ok tt, replied p (bot.BotCommand.chat_id command) CloseUsageText))
     ∧ (∀ actual, rest = [actual] ∨ (∃ id, rest = [id; actual]) →
          float_of_str actual = None →
          handle_command command cfg now_ms p
          = (Ok tt, replied p (bot.BotCommand.chat_id command)
                      (CommandFailedText (Exception ValueError)))))
  ∧ (lower first = "/set" →
     (length rest ≠ 2%nat →
      handle_command command cfg now_ms p
      = (Ok tt, replied p (bot.BotCommand.chat_id command) SetUsageText))
     ∧ (∀ alias value, rest = [alias; value] →
          key_map (lower (config_store.strip alias)) = None →
          handle_command command cfg now_ms p
          = (Ok tt, replied p (bot.BotCommand.chat_id command) UnsupportedKeyText))
     ∧ (∀ alias value key caster, rest = [alias; value] →
          key_map (lower (config_store.strip alias)) = Some (key, caster) →
          cast_text float_of_str int_of_str caster (config_store.strip value) = None →
          handle_command command cfg now_ms p
          = (Ok tt, replied p (bot.BotCommand.chat_id command) InvalidValueTypeText))).
Proof.
  intros Hin Hsplit.
  rewrite (handle_dispatch _ _ _ _ _ _ Hin Hsplit).
  split; [|split]; intros ->.
  - rewrite dispatch_open. split.
    + intros H1 H2. destruct rest as [|a [|b [|c rest]]]; simpl in H1, H2;
        try congruence; reflexivity.
    + intros actual [->|[id ->]] Hnone;
        unfold _handle_open_command, float_of_text; rewrite Hnone; reflexivity.
  - rewrite dispatch_close. split.
    + intros H1 H2. destruct rest as [|a [|b [|c rest]]]; simpl in H1, H2;
        try congruence; reflexivity.
    + intros actual [->|[id ->]] Hnone;
        unfold _handle_close_command, float_of_text; rewrite Hnone; reflexivity.
  - rewrite dispatch_set. split; [|split].
    + intros H2. destruct rest as [|a [|b [|c rest]]]; simpl in H2;
        try congruence; reflexivity.
    + intros alias value -> Hnone. unfold _handle_set_command. rewrite Hnone.
      reflexivity.
    + intros alias value key caster -> Hkey Hnone. unfold _handle_set_command.
      rewrite Hkey, Hnone. reflexivity.
Qed.

(** X24. [/set <alias> <value>] from an authorized chat, with a known
    alias and a value its caster and the table accept: the table holds
    under the key of the alias what [from_decimal] reads back of the value
    (an integer for a float without a fraction), the store is refreshed at
    once (the save marks it due) and holds the merge of the base
    configuration with the stored overrides, and the chat is told the
    effective value, which is the merged one: for [repeat] the value
    floored at 30, for [open] the float itself when it has a fraction and
    else the float of the integer read back.  The positions are not
    touched. *)
Theorem set_command_takes_effect (command : bot.BotCommand.t) (cfg : RuntimeConfig.t)
    (now_ms : Z) (p : Process) (first alias value key : string)
    (caster : config_store.Caster) (v : Raw) (merged : RuntimeConfig.t) :
  bot.BotCommand.chat_id command
    ∈ bot.TelegramBot.allowed_chat_ids (MonitorService.bot (service p)) →
  split (bot.BotCommand.text command) = [first; alias; value] →
  lower first = "/set" →
  key_map (lower (config_store.strip alias)) = Some (key, caster) →
  cast_text float_of_str int_of_str caster (config_store.strip value) = Some v →
  rejects v = None →
  RuntimeConfig.config_refresh_sec
      (config_store.RuntimeConfigStore._current (MonitorService.config_store (service p)))
    * 1000 ≤ now_ms →
  config_store._merge_overrides float_of_str int_of_str str_of
      (config_store.RuntimeConfigStore._base (MonitorService.config_store (service p)))
      (<[key := utils.from_decimal int_of_decimal (storage._to_ddb_value v)]>
         (config_table (tables p)))
    = Returned merged →
  ∃ p',
    handle_command command cfg now_ms p = (Ok tt, p')
    ∧ config_table (tables p')
      = <[key := utils.from_decimal int_of_decimal (storage._to_ddb_value v)]>
          (config_table (tables p))
    ∧ positions_table (tables p') = positions_table (tables p)
    ∧ sent (tables p') = sent (tables p)
    ∧ MonitorService.config_store (service p')
      = config_store.RuntimeConfigStore.mk
          (config_store.RuntimeConfigStore._base (MonitorService.config_store (service p)))
          merged now_ms
    ∧ posted p'
      = bot.send_message (MonitorService.bot (service p)) (bot.BotCommand.chat_id command)
          (UpdatedText key (effective key merged)) (posted p)
    ∧ (∀ n, key = "repeat_alert_sec" → v = RInt n →
            config_table (tables p') !! key = Some (RInt n)
            ∧ effective key merged = RInt (Z.max 30 n))
    ∧ (∀ f, key = "threshold_open" → v = RFloat f → utils.is_integer f = false →
            config_table (tables p') !! key = Some (RFloat f)
            ∧ effective key merged = RFloat f)
    ∧ (∀ f g, key = "threshold_open" → v = RFloat f → utils.is_integer f = true →
              config_store.float_of_int (int_of_decimal f) = Returned g →
              config_table (tables p') !! key = Some (RInt (int_of_decimal f))
              ∧ effective key merged = RFloat g).
Proof.
  intros Hin Hsplit Hcmd Hkey Hcast Haccepts Hdue Hmerge.
  rewrite (handle_dispatch _ _ _ _ _ _ Hin Hsplit), Hcmd, dispatch_set.
  unfold _handle_set_command. rewrite Hkey, Hcast.
  destruct p as [self posted tables]. cbn [service main.posted main.tables] in *.
  unfold try_except, bind_p, get_service, set_service, lift, send_message.
  cbn [service main.posted main.tables].
  unfold config_store.save_override, storage.save_config_value.
  rewrite Haccepts.
  cbv beta iota delta [bind modify ret fst snd].
  cbn [service main.posted main.tables MonitorService.config_store set_config_store].
  unfold config_store.refresh.
  cbn [config_store.RuntimeConfigStore._last_refresh_ms
       config_store.RuntimeConfigStore._current config_store.RuntimeConfigStore._base].
  rewrite Z.sub_0_r, (proj2 (Z.ltb_ge _ _) Hdue).
  unfold storage.load_config_map.
  cbv beta iota delta [bind get_world ret of_outcome].
  cbn [config_table set_config_table]. rewrite Hmerge.
  cbn [fst snd service main.posted main.tables MonitorService.config_store
       set_config_store config_store.current config_store.RuntimeConfigStore._current].
  eexists. split; [reflexivity|].
  cbn [service main.posted main.tables MonitorService.config_store MonitorService.bot
       config_table set_config_table].
  split; [reflexivity|]. split; [reflexivity|]. split; [reflexivity|].
  split; [reflexivity|]. split; [reflexivity|].
  pose proof (merge_exact float_of_str int_of_str str_of
                (config_store.RuntimeConfigStore._base (MonitorService.config_store self))
                (<[key := utils.from_decimal int_of_decimal (storage._to_ddb_value v)]>
                   (config_table tables)))
    as Hexact.
  rewrite Hmerge in Hexact. destruct Hexact as (Hopen & _ & Hrepeat & _).
  split; [|split].
  - intros n -> ->. rewrite lookup_insert_eq in Hrepeat |- *.
    split; [reflexivity|].
    unfold effective. cbn [String.eqb Ascii.eqb Bool.eqb]. rewrite Hrepeat. cbn.
    f_equal. unfold config_store.max_int. destruct (30 <? n) eqn:Hlt; lia.
  - intros f -> -> Hfraction. rewrite lookup_insert_eq in Hopen |- *.
    cbn [utils.from_decimal storage._to_ddb_value] in Hopen |- *. rewrite Hfraction in Hopen |- *.
    split; [reflexivity|].
    unfold effective. cbn [String.eqb Ascii.eqb Bool.eqb]. rewrite Hopen. reflexivity.
  - intros f g -> -> Hwhole Hfloat. rewrite lookup_insert_eq in Hopen |- *.
    cbn [utils.from_decimal storage._to_ddb_value] in Hopen |- *. rewrite Hwhole in Hopen |- *.
    split; [reflexivity|].
    unfold effective. cbn [String.eqb Ascii.eqb Bool.eqb]. rewrite Hopen.
    unfold override_or. cbn [config_store.py_float]. rewrite Hfloat. reflexivity.
Qed.

End writing_commands.

Lemma alice_is_allowed (w : World) :
  "alice" ∈ bot.TelegramBot.allowed_chat_ids
              (main.MonitorService.bot (main.service (samples.process_of samples.monitor w))).
Proof. simpl. apply elem_of_singleton. reflexivity. Qed.

Lemma open_command_confirms_position_witness :
  main.split "/open p1 39" = ["/open"; "p1"; "39"]
  ∧ positions_table samples.one_pending !! "p1"
    = Some (samples.pending_item 42 1000 2000000)
  ∧ confirm_open_error samples.one_pending 39 (RuntimeConfig.close_buffer samples.cfg)
    = None
  ∧ ∃ p',
      samples._handle_command (bot.BotCommand.mk "alice" "1" "/open p1 39") samples.cfg
        2100000 (samples.process_of samples.monitor samples.one_pending)
      = (main.Ok tt, p')
      ∧ main.posted p' = [("alice", main.OpenConfirmedText "p1" 39 (-39))]
      ∧ status_of (main.tables p') "p1" = Some STATUS_OPEN_CONFIRMED.
Proof.
  assert (positions_table samples.one_pending !! "p1"
          = Some (samples.pending_item 42 1000 2000000)) as Hlook
    by (vm_compute; reflexivity).
  assert (confirm_open_error samples.one_pending 39
            (RuntimeConfig.close_buffer samples.cfg) = None) as Haccepted
    by (vm_compute; reflexivity).
  split; [reflexivity|]. split; [exact Hlook|]. split; [exact Haccepted|].
  destruct (proj1 (open_command_confirms_position samples.float_of_text
                     samples.int_of_text samples.str_of samples.rejects
                     samples.int_of_decimal samples.summary_error
                     (bot.BotCommand.mk "alice" "1" "/open p1 39") samples.cfg 2100000
                     (samples.process_of samples.monitor samples.one_pending)
                     "/open" "p1" "39" 39%float (samples.pending_item 42 1000 2000000)
                     (alice_is_allowed _) eq_refl eq_refl eq_refl Hlook eq_refl eq_refl)
              Haccepted)
    as (p' & Hrun & _ & Hposted & _ & Hstatus & _).
  exists p'. split; [exact Hrun|]. split; [|exact Hstatus].
  rewrite Hposted. vm_compute. reflexivity.
Defined.

Lemma close_command_closes_position_witness :
  main.split "/close p1 -38.2" = ["/close"; "p1"; "-38.2"]
  ∧ positions_table samples.two_open !! "p1"
    = Some (samples.confirmed_item STATUS_OPEN_CONFIRMED None)
  ∧ storage.number_error samples.two_open (-38.2) = None
  ∧ ∃ p',
      samples._handle_command (bot.BotCommand.mk "alice" "1" "/close p1 -38.2")
        samples.cfg 2600000 (samples.process_of samples.monitor samples.two_open)
      = (main.Ok tt, p')
      ∧ main.posted p' = [("alice", main.CloseConfirmedText "p1" (-38.2))]
      ∧ status_of (main.tables p') "p1" = Some STATUS_CLOSED.
Proof.
  assert (positions_table samples.two_open !! "p1"
          = Some (samples.confirmed_item STATUS_OPEN_CONFIRMED None)) as Hlook
    by (vm_compute; reflexivity).
  assert (storage.number_error samples.two_open (-38.2) = None) as Haccepted
    by (vm_compute; reflexivity).
  split; [reflexivity|]. split; [exact Hlook|]. split; [exact Haccepted|].
  destruct (proj1 (close_command_closes_position samples.float_of_text
                     samples.int_of_text samples.str_of samples.rejects
                     samples.int_of_decimal samples.summary_error
                     (bot.BotCommand.mk "alice" "1" "/close p1 -38.2") samples.cfg
                     2600000 (samples.process_of samples.monitor samples.two_open)
                     "/close" "p1" "-38.2" (-38.2)%float
                     (samples.confirmed_item STATUS_OPEN_CONFIRMED None)
                     (alice_is_allowed _) eq_refl eq_refl eq_refl Hlook
                     (or_introl eq_refl) eq_refl)
              Haccepted)
    as (p' & Hrun & _ & Hposted & _ & Hstatus & _).
  exists p'. split; [exact Hrun|]. split; [|exact Hstatus].
  rewrite Hposted. vm_compute. reflexivity.
Defined.

Lemma refused_commands_change_nothing_witness :
  main.split "/set volume 11" = ["/set"; "volume"; "11"]
  ∧ samples._handle_command (bot.BotCommand.mk "alice" "1" "/set volume 11") samples.cfg
      2100000 (samples.process_of samples.monitor samples.one_pending)
    = (main.Ok tt,
       replied (samples.process_of samples.monitor samples.one_pending) "alice"
         main.UnsupportedKeyText).
Proof.
  split; [reflexivity|].
  destruct (refused_commands_change_nothing samples.float_of_text samples.int_of_text
              samples.str_of samples.rejects samples.int_of_decimal samples.summary_error
              (bot.BotCommand.mk "alice" "1" "/set volume 11") samples.cfg 2100000
              (samples.process_of samples.monitor samples.one_pending)
              "/set" ["volume"; "11"] (alice_is_allowed _) eq_refl)
    as (_ & _ & Hset).
  destruct (Hset eq_refl) as (_ & Hunsupported & _).
  apply (Hunsupported "volume" "11"); reflexivity.
Defined.

Lemma set_command_takes_effect_witness :
  main.split "/set open 45" = ["/set"; "open"; "45"]
  ∧ ∃ p',
      samples._handle_command (bot.BotCommand.mk "alice" "1" "/set open 45") samples.cfg
        1700000000000 (samples.process_of samples.monitor (samples.world_of ∅))
      = (main.Ok tt, p')
      ∧ config_table (main.tables p') = {[ "threshold_open" := RInt 45 ]}
      ∧ main.posted p' = [("alice", main.UpdatedText "threshold_open" (RFloat 45))].
Proof.
  split; [reflexivity|].
  destruct (set_command_takes_effect samples.float_of_text samples.int_of_text
              samples.str_of samples.rejects samples.int_of_decimal samples.summary_error
              (bot.BotCommand.mk "alice" "1" "/set open 45") samples.cfg 1700000000000
              (samples.process_of samples.monitor (samples.world_of ∅))
              "/set" "open" "45" "threshold_open" config_store.float_type (RFloat 45)
              (config_store.set_threshold_open 45 samples.cfg)
              (alice_is_allowed _) eq_refl eq_refl eq_refl eq_refl eq_refl)
    as (p' & Hrun & Hconfig & _ & _ & _ & Hposted & _).
  - vm_compute. discriminate.
  - vm_compute. reflexivity.
  - exists p'. split; [exact Hrun|]. split; [rewrite Hconfig; vm_compute; reflexivity|].
    rewrite Hposted. vm_compute. reflexivity.
Defined.

(** * Properties of the collector *)

Section key_order.

Lemma ascii_compare_refl (c : Ascii.ascii) : Ascii.compare c c = Eq.
Proof. unfold Ascii.compare. apply N.compare_refl. Qed.

Lemma key_le_trans (a b c : string) : key_le a b → key_le b c → key_le a c.
Proof.
  unfold key_le, String.leb. revert b c.
  induction a as [|c1 a IH]; intros [|c2 b] [|c3 c]; simpl; try congruence.
  destruct (Ascii.compare c1 c2) eqn:H12; destruct (Ascii.compare c2 c3) eqn:H23;
    try congruence.
  - apply Ascii.compare_eq_iff in H12, H23. subst. rewrite ascii_compare_refl.
    apply IH.
  - apply Ascii.compare_eq_iff in H12. subst. rewrite H23. reflexivity.
  - apply Ascii.compare_eq_iff in H23. subst. rewrite H12. reflexivity.
  - unfold Ascii.compare in *. rewrite N.compare_lt_iff in H12, H23.
    assert (N_of_ascii c1 < N_of_ascii c3)%N as Hlt by lia.
    rewrite <- N.compare_lt_iff in Hlt. rewrite Hlt. reflexivity.
Qed.

Lemma key_le_total (a b : string) : key_le a b ∨ key_le b a.
Proof. apply String.leb_total. Qed.

Lemma insert_key_perm (key : string) (keys : list string) :
  collector.insert_key key keys ≡ₚ key :: keys.
Proof.
  induction keys as [|k keys IH]; simpl; [reflexivity|].
  destruct (String.leb key k); [reflexivity|].
  rewrite IH. apply Permutation_swap.
Qed.

Lemma sorted_keys_perm (keys : list string) : collector.sorted_keys keys ≡ₚ keys.
Proof.
  induction keys as [|key keys IH]; simpl; [reflexivity|].
  rewrite insert_key_perm, IH. reflexivity.
Qed.

Lemma insert_key_sorted (key : string) (keys : list string) :
  StronglySorted key_le keys → StronglySorted key_le (collector.insert_key key keys).
Proof.
  induction 1 as [|k keys Hsorted IH Hall]; simpl.
  - repeat constructor.
  - destruct (String.leb key k) eqn:Hle.
    + constructor; [constructor; assumption|].
      constructor; [exact Hle|].
      eapply Forall_impl; [exact Hall|]. intros x Hx.
      exact (key_le_trans _ _ _ Hle Hx).
    + constructor; [exact IH|].
      rewrite insert_key_perm. constructor; [|exact Hall].
      destruct (key_le_total key k) as [H|H]; [unfold key_le in H; congruence|exact H].
Qed.

Lemma sorted_keys_sorted (keys : list string) :
  StronglySorted key_le (collector.sorted_keys keys).
Proof.
  induction keys as [|key keys IH]; simpl; [constructor|].
  apply insert_key_sorted, IH.
Qed.

End key_order.

Section collector_facts.

Variable float_of_str : string → option float.

Abbreviation level := (collector._extract_quote_level float_of_str).
Abbreviation extract_quote := (collector._extract_quote float_of_str).
Abbreviation safe := (collector.safe_float float_of_str).
Abbreviation fetch := (collector.fetch_snapshot float_of_str).

Lemma find_listing_Some (listings : list collector.Json) (ticker : string)
    (d : gmap string collector.Json) :
  collector._find_listing listings ticker = Some d →
  collector.JDict d ∈ listings ∧ d !! "ticker" = Some (collector.JStr ticker).
Proof.
  induction listings as [|item listings IH]; simpl; [discriminate|].
  destruct item as [| | | | |l|d']; try (intros H; destruct (IH H); split;
    [right; assumption|assumption]).
  destruct (d' !! "ticker") as [[| | | |t| |]|] eqn:Hticker;
    try (intros H; destruct (IH H); split; [right; assumption|assumption]).
  destruct (String.eqb_spec t ticker) as [->|Hne].
  - intros H. inversion H; subst. split; [left|exact Hticker].
  - intros H. destruct (IH H). split; [right; assumption|assumption].
Qed.

(** A missing key parses to no level. *)
Lemma level_of_missing : level collector.JNull = Returned None.
Proof. reflexivity. Qed.

(** The loop over the keys: it stops at the first key whose level parses;
    the keys before it parse to nothing. *)
Lemma first_quote_level_spec (keys : list string) (quotes : gmap string collector.Json) :
  match collector.first_quote_level float_of_str keys quotes with
  | Returned (Some (bid, ask, key)) =>
      ∃ before after,
        keys = before ++ key :: after
        ∧ level (collector.get key quotes) = Returned (Some (bid, ask))
        ∧ ∀ k, k ∈ before → level (collector.get k quotes) = Returned None
  | Returned None => ∀ k, k ∈ keys → level (collector.get k quotes) = Returned None
  | Raised e => ∃ k, k ∈ keys ∧ level (collector.get k quotes) = Raised e
  end.
Proof.
  induction keys as [|key keys IH]; simpl.
  - intros k Hk. inversion Hk.
  - destruct (level (collector.get key quotes)) as [[[bid ask]|]|e] eqn:Hlevel; simpl.
    + exists [], keys. split; [reflexivity|]. split; [exact Hlevel|].
      intros k Hk. inversion Hk.
    + destruct (collector.first_quote_level float_of_str keys quotes)
        as [[[[bid ask] found]|]|e].
      * destruct IH as (before & after & -> & Hfound & Hbefore).
        exists (key :: before), after. split; [reflexivity|]. split; [exact Hfound|].
        intros k Hk. apply elem_of_cons in Hk as [->|Hk]; auto.
      * intros k Hk. apply elem_of_cons in Hk as [->|Hk]; auto.
      * destruct IH as (k & Hk & Hraise). exists k. split; [right; exact Hk|exact Hraise].
    + exists key. split; [left|exact Hlevel].
Qed.

Lemma key_le_refl (a : string) : key_le a a.
Proof. destruct (key_le_total a a); assumption. Qed.

(** X25. [_extract_quote] on a listing with quotes: when the level of the
    configured quote size parses (a numeric bid and ask), it is returned,
    labelled with that size; when it does not, the result is the level of
    the least key, in the order of strings, whose level parses, labelled
    with that key, and [None] when no level parses at all.  Without
    quotes, or with an empty object of quotes, the result is [None]. *)
Theorem extract_quote_prefers_configured_size (self : collector.MarketCollector.t)
    (listing quotes : gmap string collector.Json) :
  collector.get "quotes" listing = collector.JDict quotes →
  (quotes = ∅ → extract_quote self listing = Returned None)
  ∧ (quotes ≠ ∅ →
     (∀ bid ask,
        level (collector.get (collector.MarketCollector.quote_size self) quotes)
          = Returned (Some (bid, ask)) →
        extract_quote self listing
        = Returned (Some (bid, ask, collector.MarketCollector.quote_size self)))
     ∧ (level (collector.get (collector.MarketCollector.quote_size self) quotes)
          = Returned None →
        match extract_quote self listing with
        | Returned (Some (bid, ask, size)) =>
            level (collector.get size quotes) = Returned (Some (bid, ask))
            ∧ is_Some (quotes !! size)
            ∧ ∀ key bid' ask',
                level (collector.get key quotes) = Returned (Some (bid', ask')) →
                key_le size key
        | Returned None => ∀ key, level (collector.get key quotes) = Returned None
        | Raised e => ∃ key, level (collector.get key quotes) = Raised e
        end)
     ∧ (∀ e,
          level (collector.get (collector.MarketCollector.quote_size self) quotes)
            = Raised e →
          extract_quote self listing = Raised e)).
Proof.
  intros Hquotes. unfold collector._extract_quote. rewrite Hquotes. split.
  { intros ->. reflexivity. }
  intros Hne. rewrite bool_decide_eq_false_2 by exact Hne.
  split; [intros bid ask ->; reflexivity|]. split; [|intros e ->; reflexivity].
  intros ->. cbn [and_then].
  set (keys := collector.sorted_keys (map_to_list quotes).*1).
  assert (∀ key, key ∈ keys ↔ is_Some (quotes !! key)) as Hkeys.
  { intros key. unfold keys. rewrite (sorted_keys_perm (map_to_list quotes).*1).
    rewrite list_elem_of_fmap. split.
    - intros ([k v] & -> & Hin). apply elem_of_map_to_list in Hin. simpl. eauto.
    - intros [v Hv]. exists (key, v). split; [reflexivity|].
      apply elem_of_map_to_list. exact Hv. }
  assert (∀ key, key ∉ keys → level (collector.get key quotes) = Returned None)
    as Hmissing.
  { intros key Hout. unfold collector.get.
    destruct (quotes !! key) as [v|] eqn:Hv; [|reflexivity].
    destruct Hout. apply Hkeys. eauto. }
  pose proof (sorted_keys_sorted (map_to_list quotes).*1) as Hsorted. fold keys in Hsorted.
  pose proof (first_quote_level_spec keys quotes) as Hspec.
  destruct (collector.first_quote_level float_of_str keys quotes)
    as [[[[bid ask] size]|]|e].
  - destruct Hspec as (before & after & Hsplit & Hfound & Hbefore).
    split; [exact Hfound|]. split.
    { apply Hkeys. rewrite Hsplit. apply elem_of_app. right. left. }
    intros key bid' ask' Hvalid.
    destruct (decide (key ∈ keys)) as [Hin|Hout];
      [|rewrite (Hmissing key Hout) in Hvalid; discriminate].
    rewrite Hsplit in Hin, Hsorted.
    apply elem_of_app in Hin as [Hin|Hin].
    { rewrite (Hbefore key Hin) in Hvalid. discriminate. }
    apply StronglySorted_app in Hsorted as (_ & _ & Hsorted).
    apply StronglySorted_cons in Hsorted as [Hall _].
    apply elem_of_cons in Hin as [->|Hin]; [apply key_le_refl|].
    rewrite Forall_forall in Hall. apply Hall, Hin.
  - intros key. destruct (decide (key ∈ keys)) as [Hin|Hout]; auto.
  - destruct Hspec as (key & _ & Hraise). exists key. exact Hraise.
Qed.

(** X26. A snapshot [fetch_snapshot] returns is consistent with the
    payload it was read from: the payload is an object whose [listings]
    is a list holding an object with ticker PAXG and one with ticker XAUT;
    the four quotes and the two quote sizes are those [_extract_quote]
    finds in them; [spread_open] is [paxg_bid - xaut_ask] and
    [spread_close] is [xaut_bid - paxg_ask]; the funding difference is
    there exactly when both funding rates are, and its annual value is the
    difference times the annual factor of the collector. *)
Theorem fetched_snapshot_is_consistent (self : collector.MarketCollector.t)
    (response : string + collector.Json) (latency_ms ts_ms : Z) (s : MarketSnapshot.t) :
  fetch self response latency_ms ts_ms = collector.Fetched s →
  MarketSnapshot.spread_open s
    = (MarketSnapshot.paxg_bid s - MarketSnapshot.xaut_ask s)%float
  ∧ MarketSnapshot.spread_close s
    = (MarketSnapshot.xaut_bid s - MarketSnapshot.paxg_ask s)%float
  ∧ MarketSnapshot.funding_diff_raw s
    = match MarketSnapshot.paxg_funding s, MarketSnapshot.xaut_funding s with
      | Some p, Some x => Some (p - x)%float
      | _, _ => None
      end
  ∧ MarketSnapshot.funding_diff_annual s
    = (fun raw => (raw * collector.MarketCollector.annual_factor self)%float)
        <$> MarketSnapshot.funding_diff_raw s
  ∧ MarketSnapshot.annual_factor s = collector.MarketCollector.annual_factor self
  ∧ MarketSnapshot.ts_ms s = ts_ms
  ∧ MarketSnapshot.latency_ms s = latency_ms
  ∧ ∃ payload listings paxg xaut,
      response = inr (collector.JDict payload)
      ∧ collector.get "listings" payload = collector.JList listings
      ∧ collector.JDict paxg ∈ listings
      ∧ paxg !! "ticker" = Some (collector.JStr "PAXG")
      ∧ collector.JDict xaut ∈ listings
      ∧ xaut !! "ticker" = Some (collector.JStr "XAUT")
      ∧ extract_quote self paxg
        = Returned (Some (MarketSnapshot.paxg_bid s, MarketSnapshot.paxg_ask s,
                          MarketSnapshot.quote_size_paxg s))
      ∧ extract_quote self xaut
        = Returned (Some (MarketSnapshot.xaut_bid s, MarketSnapshot.xaut_ask s,
                          MarketSnapshot.quote_size_xaut s))
      ∧ safe (collector.get "funding_rate" paxg) = Returned (MarketSnapshot.paxg_funding s)
      ∧ safe (collector.get "funding_rate" xaut) = Returned (MarketSnapshot.xaut_funding s).
Proof.
  unfold collector.fetch_snapshot.
  destruct response as [exc|[| | | | | |payload]]; try discriminate.
  destruct (collector.get "listings" payload) as [| | | | |listings|] eqn:Hlistings;
    try discriminate.
  destruct (collector._find_listing listings "PAXG") as [paxg|] eqn:Hpaxg;
    [|discriminate].
  destruct (collector._find_listing listings "XAUT") as [xaut|] eqn:Hxaut;
    [|discriminate].
  apply find_listing_Some in Hpaxg as [Hpin Hpticker].
  apply find_listing_Some in Hxaut as [Hxin Hxticker].
  unfold collector.calling.
  destruct (extract_quote self paxg) as [[[[pb pa] ps]|]|e] eqn:Hpq; try discriminate;
    destruct (extract_quote self xaut) as [[[[xb xa] xs]|]|e] eqn:Hxq; try discriminate.
  destruct (safe (collector.get "funding_rate" paxg)) as [pf|e] eqn:Hpf; [|discriminate].
  destruct (safe (collector.get "funding_rate" xaut)) as [xf|e] eqn:Hxf; [|discriminate].
  intros H. inversion H; subst s; clear H. cbn.
  split; [reflexivity|]. split; [reflexivity|]. split; [reflexivity|].
  split; [destruct pf, xf; reflexivity|].
  split; [reflexivity|]. split; [reflexivity|]. split; [reflexivity|].
  exists payload, listings, paxg, xaut. auto 12.
Qed.

(** X27. [safe_float] turns into [None] what [float] refuses with
    [TypeError] or [ValueError]: null, lists, objects, text that is no
    number; it returns the float of a number, of numeric text and of a
    boolean (1.0 for true).  It is not total: on an integer beyond the
    range of a float, [float] raises [OverflowError], which [safe_float]
    does not catch and [_extract_quote_level] lets through. *)
Theorem safe_float_catches_type_and_value_errors (value : collector.Json) :
  match safe value with
  | Returned (Some f) => collector.py_float float_of_str value = Returned f
  | Returned None =>
      match value with
      | collector.JNull => True
      | collector.JList _ => True
      | collector.JDict _ => True
      | collector.JStr text => float_of_str text = None
      | _ => False
      end
  | Raised e =>
      e = OverflowError
      ∧ ∃ z, value = collector.JInt z
             ∧ config_store.float_of_int z = Raised OverflowError
  end
  ∧ safe (collector.JBool true) = Returned (Some 1%float)
  ∧ safe (collector.JInt (10 ^ 309)) = Raised OverflowError
  ∧ (∀ quote, quote !! "bid" = Some (collector.JInt (10 ^ 309)) →
              level (collector.JDict quote) = Raised OverflowError).
Proof.
  split.
  - unfold collector.safe_float, utils.safe_float.
    destruct value as [|b|z|f|text|l|d]; simpl; auto.
    + unfold config_store.float_of_int.
      destruct (is_infinity _) eqn:Hinf; [|reflexivity].
      split; [reflexivity|]. exists z. split; [reflexivity|].
      unfold config_store.float_of_int. rewrite Hinf. reflexivity.
    + destruct (float_of_str text); reflexivity.
  - split; [reflexivity|]. split; [vm_compute; reflexivity|].
    intros quote Hbid. unfold collector._extract_quote_level, collector.get.
    rewrite Hbid. cbn [default from_option id].
    assert (safe (collector.JInt (10 ^ 309)) = Raised OverflowError) as ->
      by (vm_compute; reflexivity).
    reflexivity.
Qed.

End collector_facts.

Lemma extract_quote_prefers_configured_size_witness :
  collector.get "quotes" (samples.listing "PAXG" 2340 2341)
    = collector.JDict (samples.quotes 2340 2341)
  ∧ collector._extract_quote samples.float_of_text samples.market_collector
      (samples.listing "PAXG" 2340 2341)
    = Returned (Some (2340%float, 2341%float, "size_100k")).
Proof.
  assert (collector.get "quotes" (samples.listing "PAXG" 2340 2341)
          = collector.JDict (samples.quotes 2340 2341)) as Hquotes
    by (vm_compute; reflexivity).
  split; [exact Hquotes|].
  destruct (extract_quote_prefers_configured_size samples.float_of_text
              samples.market_collector _ _ Hquotes) as [_ Hfull].
  destruct Hfull as [Hpreferred _].
  - intros Hempty.
    assert (samples.quotes 2340 2341 !! "size_1k" = None) as Hnone
      by (rewrite Hempty; apply lookup_empty).
    vm_compute in Hnone. discriminate Hnone.
  - apply Hpreferred. vm_compute. reflexivity.
Defined.

Lemma fetched_snapshot_is_consistent_witness :
  ∃ s,
    collector.fetch_snapshot samples.float_of_text samples.market_collector
      (inr samples.payload) 20 1000 = collector.Fetched s
    ∧ MarketSnapshot.spread_open s
      = (MarketSnapshot.paxg_bid s - MarketSnapshot.xaut_ask s)%float
    ∧ MarketSnapshot.spread_close s
      = (MarketSnapshot.xaut_bid s - MarketSnapshot.paxg_ask s)%float.
Proof.
  destruct (collector.fetch_snapshot samples.float_of_text samples.market_collector
              (inr samples.payload) 20 1000) as [s|f] eqn:Hfetch;
    [|vm_compute in Hfetch; discriminate Hfetch].
  exists s. split; [reflexivity|].
  destruct (fetched_snapshot_is_consistent samples.float_of_text
              samples.market_collector (inr samples.payload) 20 1000 s Hfetch)
    as (Hopen & Hclose & _).
  split; [exact Hopen|exact Hclose].
Defined.

(** The sample payload gives the snapshot of the two listings at the
    configured size. *)
Example fetch_sample_payload :
  collector.fetch_snapshot samples.float_of_text samples.market_collector
    (inr samples.payload) 20 1000
  = collector.Fetched
      {| MarketSnapshot.ts_ms := 1000;
         MarketSnapshot.paxg_bid := 2340;
         MarketSnapshot.paxg_ask := 2341;
         MarketSnapshot.xaut_bid := 2299;
         MarketSnapshot.xaut_ask := 2300;
         MarketSnapshot.spread_open := 40;
         MarketSnapshot.spread_close := (-42);
         MarketSnapshot.paxg_funding := None;
         MarketSnapshot.xaut_funding := None;
         MarketSnapshot.funding_diff_raw := None;
         MarketSnapshot.funding_diff_annual := None;
         MarketSnapshot.annual_factor := 365;
         MarketSnapshot.quote_size_paxg := "size_100k";
         MarketSnapshot.quote_size_xaut := "size_100k";
         MarketSnapshot.latency_ms := 20 |}.
Proof. vm_compute. reflexivity. Qed.

(** ** The poll of the bot *)

Lemma has_word_split (s : string) : has_word s = true → main.split s ≠ [].
Proof.
  assert (∀ s, has_word s = true →
               config_store.non_empty (main.tokens s).1 = true ∨ (main.tokens s).2 ≠ [])
    as Htokens.
  { clear s. induction s as [|c s IH]; simpl; [discriminate|].
    destruct (main.tokens s) as [token rest]. simpl in IH.
    destruct (config_store.is_space c); simpl.
    - intros Hword. right. destruct (IH Hword) as [Hne|Hne].
      + rewrite Hne. discriminate.
      + destruct (config_store.non_empty token); [discriminate|exact Hne].
    - intros _. left. reflexivity. }
  intros Hword. unfold main.split. specialize (Htokens s Hword).
  destruct (main.tokens s) as [token rest]. simpl in Htokens.
  destruct Htokens as [Hne|Hne].
  - rewrite Hne. discriminate.
  - destruct (config_store.non_empty token); [discriminate|exact Hne].
Qed.

Lemma starts_with_slash_has_word (s : string) :
  bot.starts_with_slash s = true → has_word s = true.
Proof.
  destruct s as [|c s]; simpl; [discriminate|].
  intros Hslash. apply Ascii.eqb_eq in Hslash. subst c. reflexivity.
Qed.

(** [lstrip] drops a prefix of white space. *)
Lemma lstrip_chars (s : string) :
  ∃ pre, String.list_ascii_of_string s
         = pre ++ String.list_ascii_of_string (config_store.lstrip s)
         ∧ Forall (fun c => config_store.is_space c = true) pre.
Proof.
  induction s as [|c s (pre & Heq & Hpre)]; simpl.
  - exists []. split; [reflexivity|constructor].
  - destruct (config_store.is_space c) eqn:Hc.
    + exists (c :: pre). split; [simpl; rewrite <- Heq; reflexivity|].
      constructor; assumption.
    + exists []. split; [reflexivity|constructor].
Qed.

Lemma starts_with_slash_strip (s : string) :
  bot.starts_with_slash s = true →
  bot.starts_with_slash (config_store.strip s) = true.
Proof.
  destruct s as [|c s]; simpl; [discriminate|].
  intros Hslash. apply Ascii.eqb_eq in Hslash. subst c.
  unfold config_store.strip. cbn [config_store.lstrip].
  change (config_store.is_space "/"%char) with false. cbv iota.
  set (t := config_store.reverse_string (String "/"%char s)).
  destruct (lstrip_chars t) as (pre & Heq & Hpre).
  unfold t at 1 in Heq. unfold config_store.reverse_string in Heq.
  rewrite String.list_ascii_of_string_of_list_ascii in Heq. cbn [String.list_ascii_of_string rev] in Heq.
  assert (∀ l : list Ascii.ascii, l = [] ∨ ∃ l' x, l = l' ++ [x]) as Hcases.
  { intros l. destruct l as [|x l' _] using rev_ind; [left; reflexivity|right; eauto]. }
  destruct (Hcases (String.list_ascii_of_string (config_store.lstrip t)))
    as [Hnil|(l' & x & Hlast)].
  - rewrite Hnil, app_nil_r in Heq. rewrite <- Heq in Hpre.
    apply Forall_app in Hpre as [_ Hpre]. inversion Hpre as [|? ? Hspace _].
    discriminate Hspace.
  - rewrite Hlast, app_assoc in Heq. apply app_inj_tail in Heq as [_ Hx]. subst x.
    unfold config_store.reverse_string at 1. rewrite Hlast, rev_app_distr. reflexivity.
Qed.

Section poll_properties.

Import main.

Variable float_of_str : string → option float.
Variable int_of_str : string → option Z.
Variable str_of : Raw → string.
Variable rejects : Raw → option Exn.
Variable int_of_decimal : float → Z.
Variable summary_error : PositionRecord.t → option Exn.
Variable str_of_json : collector.Json → string.

(** One update adds at most one command, which has a chat and starts with
    a slash, and moves the offset to the successor of its [update_id] if
    it has one. *)
Lemma poll_update_spec (update : collector.Json)
    (state state' : list bot.BotCommand.t * option Z) :
  bot.poll_update str_of_json update state = bot.Received state' →
  (state'.1 = state.1
   ∨ ∃ c, state'.1 = state.1 ++ [c]
          ∧ config_store.non_empty (bot.BotCommand.chat_id c) = true
          ∧ bot.starts_with_slash (bot.BotCommand.text c) = true)
  ∧ state'.2 = match update_id_of update with
               | Some update_id => Some (update_id + 1)
               | None => state.2
               end.
Proof.
  unfold bot.poll_update, update_id_of. intros Hpoll.
  destruct update as [| | | | | |u]; try (injection Hpoll as <-; auto).
  destruct (bot.int_value (collector.get "update_id" u)) as [update_id|];
    repeat case_match; simplify_eq; cbn [fst snd];
    try (split; [left; reflexivity|reflexivity]).
  all: split; [|reflexivity].
  all: right; eexists; split; [reflexivity|].
  all: cbn [bot.BotCommand.chat_id bot.BotCommand.text].
  all: split; [assumption|]; apply starts_with_slash_strip; assumption.
Qed.

Lemma poll_updates_spec (updates : list collector.Json)
    (state state' : list bot.BotCommand.t * option Z) :
  bot.poll_updates str_of_json updates state = bot.Received state' →
  (∃ commands,
     state'.1 = state.1 ++ commands
     ∧ (length commands ≤ length updates)%nat
     ∧ ∀ c, c ∈ commands →
            config_store.non_empty (bot.BotCommand.chat_id c) = true
            ∧ bot.starts_with_slash (bot.BotCommand.text c) = true)
  ∧ state'.2 = offset_after state.2 updates.
Proof.
  revert state. induction updates as [|update updates IH]; intros state; simpl.
  - intros Heq. injection Heq as <-. split; [|reflexivity].
    exists []. rewrite app_nil_r. split; [reflexivity|]. split; [simpl; lia|].
    intros c Hin. apply elem_of_nil in Hin. destruct Hin.
  - destruct (bot.poll_update str_of_json update state) as [middle|e] eqn:Hupdate;
      [|discriminate].
    intros Hrest. apply poll_update_spec in Hupdate as [Hcommand Hoffset].
    apply IH in Hrest as [(commands & Heq & Hlen & Hgood) Hoffset'].
    split.
    + destruct Hcommand as [Hsame|(c & Hadd & Hchat & Hslash)].
      * exists commands. rewrite Heq, Hsame. split; [reflexivity|].
        split; [simpl; lia|exact Hgood].
      * exists (c :: commands). rewrite Heq, Hadd, <- app_assoc.
        split; [reflexivity|]. split; [simpl; lia|].
        intros c' Hin. apply elem_of_cons in Hin as [->|Hin]; [split; assumption|].
        apply Hgood. exact Hin.
    + rewrite Hoffset', Hoffset. unfold offset_after. cbn [omap list_omap].
      destruct (update_id_of update) as [update_id|]; [|reflexivity].
      rewrite last_cons.
      destruct (last (omap update_id_of updates)); reflexivity.
Qed.

(** What [poll_commands] collects: commands with a chat and a first word,
    at most one per update visited, and the offset after these updates. *)
Lemma poll_commands_spec (self : bot.TelegramBot.t) (offset : option Z)
    (response : option collector.Json) (commands : list bot.BotCommand.t)
    (next_offset : option Z) :
  bot.poll_commands str_of_json self offset response
    = bot.Received (commands, next_offset) →
  (∀ c, c ∈ commands →
        config_store.non_empty (bot.BotCommand.chat_id c) = true
        ∧ bot.starts_with_slash (bot.BotCommand.text c) = true
        ∧ main.split (bot.BotCommand.text c) ≠ [])
  ∧ (length commands ≤ length (updates_of response))%nat
  ∧ next_offset
    = if bot.enabled self then offset_after offset (updates_of response) else offset.
Proof.
  unfold bot.poll_commands, updates_of. intros Hpoll.
  assert (∀ c : bot.BotCommand.t, c ∈ @nil bot.BotCommand.t →
            config_store.non_empty (bot.BotCommand.chat_id c) = true
            ∧ bot.starts_with_slash (bot.BotCommand.text c) = true
            ∧ main.split (bot.BotCommand.text c) ≠ []) as Hnil.
  { intros c Hin. apply elem_of_nil in Hin. destruct Hin. }
  destruct (bot.enabled self) eqn:Henabled; cbn [negb] in Hpoll;
    [|injection Hpoll as <- <-; split; [exact Hnil|split; [simpl; lia|reflexivity]]].
  destruct response as [[| | | | | |data]|];
    try (injection Hpoll as <- <-;
         split; [exact Hnil|split; [simpl; lia|reflexivity]]);
    [|discriminate].
  destruct (bot.truthy (collector.get "ok" data)) eqn:Hok;
    [|injection Hpoll as <- <-; split; [exact Hnil|split; [simpl; lia|reflexivity]]].
  destruct (bot.iterate (data !! "result")) as [updates|e]; [|discriminate].
  apply poll_updates_spec in Hpoll as [(polled & Heq & Hlen & Hgood) Hoffset].
  cbn [fst snd] in Heq, Hoffset. rewrite app_nil_l in Heq. subst polled.
  split; [|split; [exact Hlen|exact Hoffset]].
  intros c Hin. destruct (Hgood c Hin) as [Hchat Hslash].
  split; [exact Hchat|]. split; [exact Hslash|].
  apply has_word_split, starts_with_slash_has_word, Hslash.
Qed.

(** X28. What [poll_commands] returns: every command has a chat id that
    is not empty and a text that starts with a slash, so that
    [text.split()] has a first word; there is at most one command per
    update; the next offset is the successor of the [update_id] of the
    last update of the answer that is an object with an integer
    [update_id], and the offset given when the answer has no such update;
    a bot without a token, an answer that is no object and an answer whose
    ["ok"] is false or missing give no command and leave the offset. *)
Theorem polled_commands_are_commands (self : bot.TelegramBot.t) (offset : option Z)
    (response : option collector.Json) (commands : list bot.BotCommand.t)
    (next_offset : option Z) :
  bot.poll_commands str_of_json self offset response
    = bot.Received (commands, next_offset) →
  (∀ c, c ∈ commands →
        config_store.non_empty (bot.BotCommand.chat_id c) = true
        ∧ bot.starts_with_slash (bot.BotCommand.text c) = true
        ∧ main.split (bot.BotCommand.text c) ≠ [])
  ∧ (length commands ≤ length (updates_of response))%nat
  ∧ next_offset
    = (if bot.enabled self then offset_after offset (updates_of response) else offset)
  ∧ (bot.enabled self = false
     ∨ (∀ data, response ≠ Some (collector.JDict data))
     ∨ (∃ data, response = Some (collector.JDict data)
                ∧ bot.truthy (collector.get "ok" data) = false) →
     commands = [] ∧ next_offset = offset).
Proof.
  intros Hpoll.
  destruct (poll_commands_spec _ _ _ _ _ Hpoll) as (Hgood & Hlen & Hoffset).
  split; [exact Hgood|]. split; [exact Hlen|]. split; [exact Hoffset|].
  assert (updates_of response = [] → commands = [] ∧ next_offset = offset) as Hnone.
  { intros Hempty. rewrite Hempty in Hlen, Hoffset. simpl in Hlen.
    split; [destruct commands; [reflexivity|simpl in Hlen; lia]|].
    rewrite Hoffset. destruct (bot.enabled self); reflexivity. }
  intros [Hoff|[Hshape|(data & -> & Hfalse)]].
  - unfold bot.poll_commands in Hpoll. rewrite Hoff in Hpoll.
    injection Hpoll as <- <-. auto.
  - apply Hnone. unfold updates_of.
    destruct response as [[| | | | | |data]|]; try reflexivity.
    destruct (Hshape data). reflexivity.
  - apply Hnone. unfold updates_of. rewrite Hfalse. reflexivity.
Qed.

(** The handlers of the commands leave the bot and the offset of the
    next poll alone. *)
Lemma keeps_ok {A} (self : MonitorService.t) (a : A) :
  keeps_poll_state self (main.ok a).
Proof. intros p Hsame. exact Hsame. Qed.

Lemma keeps_fail {A} (self : MonitorService.t) (f : main.Failure) :
  keeps_poll_state self (@main.fail A f).
Proof. intros p Hsame. exact Hsame. Qed.

Lemma keeps_send (self : MonitorService.t) (chat_id : string) (message : Text) :
  keeps_poll_state self (main.send_message chat_id message).
Proof. intros p Hsame. exact Hsame. Qed.

Lemma keeps_lift {A} (self : MonitorService.t) (m : M A) :
  keeps_poll_state self (main.lift m).
Proof.
  intros p Hsame. unfold main.lift.
  destruct (m (tables p)) as [[a|e] w]; exact Hsame.
Qed.

Lemma keeps_bind {A B} (self : MonitorService.t) (m : main.P A) (k : A → main.P B) :
  keeps_poll_state self m →
  (∀ a, keeps_poll_state self (k a)) →
  keeps_poll_state self (main.bind_p m k).
Proof.
  intros Hm Hk p Hsame. specialize (Hm p Hsame). unfold main.bind_p.
  destruct (m p) as [[a|f] p']; [apply Hk|]; exact Hm.
Qed.

Lemma keeps_get {B} (self : MonitorService.t) (k : MonitorService.t → main.P B) :
  (∀ current, same_poll_state self current → keeps_poll_state self (k current)) →
  keeps_poll_state self (main.bind_p main.get_service k).
Proof. intros Hk p Hsame. exact (Hk (service p) Hsame p Hsame). Qed.

Lemma keeps_set (self current : MonitorService.t) :
  same_poll_state self current →
  keeps_poll_state self (main.set_service current).
Proof. intros Hcurrent p _. exact Hcurrent. Qed.

Lemma keeps_try {A} (self : MonitorService.t) (body : main.P A)
    (handler : main.Failure → main.P A) :
  keeps_poll_state self body →
  (∀ exc, keeps_poll_state self (handler exc)) →
  keeps_poll_state self (main.try_except body handler).
Proof.
  intros Hbody Hhandler p Hsame. specialize (Hbody p Hsame). unfold main.try_except.
  destruct (body p) as [[a|f] p']; [|apply Hhandler]; exact Hbody.
Qed.

Lemma same_poll_state_set_config_store (self current : MonitorService.t)
    (store : config_store.RuntimeConfigStore.t) :
  same_poll_state self current →
  same_poll_state self (main.set_config_store store current).
Proof. intros Hsame. exact Hsame. Qed.

Lemma keeps_format_summaries (self : MonitorService.t)
    (positions : list PositionRecord.t) :
  keeps_poll_state self (main.format_summaries summary_error positions).
Proof.
  induction positions as [|position positions IH]; simpl; [apply keeps_ok|].
  destruct (summary_error position); [apply keeps_fail|exact IH].
Qed.

Ltac keeps_step :=
  first
    [ apply keeps_ok
    | apply keeps_fail
    | apply keeps_send
    | apply keeps_lift
    | apply keeps_format_summaries
    | apply keeps_set; repeat apply same_poll_state_set_config_store; assumption
    | apply keeps_get; intros ? ?
    | apply keeps_bind; [|intros ?]
    | apply keeps_try; [|intros ?]
    | match goal with
      | |- keeps_poll_state _ (match ?x with _ => _ end) => destruct x
      | |- keeps_poll_state _ (if ?x then _ else _) => destruct x
      end ].

Lemma keeps_handle_command (self : MonitorService.t) (command : bot.BotCommand.t)
    (cfg : RuntimeConfig.t) (now_ms : Z) :
  keeps_poll_state self
    (main._handle_command float_of_str int_of_str str_of rejects int_of_decimal summary_error
       command cfg now_ms).
Proof.
  unfold main._handle_command, main.dispatch, main._handle_open_command,
    main._handle_close_command, main._handle_set_command, main.confirm_open_command,
    main.confirm_close_command, main.float_of_text.
  repeat keeps_step.
Qed.

(** A command whose text has a word is answered: whatever its handler
    raises is caught. *)
Lemma handle_command_returns (command : bot.BotCommand.t) (cfg : RuntimeConfig.t)
    (now_ms : Z) (p : Process) :
  main.split (bot.BotCommand.text command) ≠ [] →
  ∃ p',
    main._handle_command float_of_str int_of_str str_of rejects int_of_decimal summary_error
      command cfg now_ms p = (main.Ok tt, p').
Proof.
  intros Hword. unfold main._handle_command, main.bind_p, main.get_service.
  destruct (negb _); [eexists; reflexivity|].
  destruct (main.split (bot.BotCommand.text command)) as [|first rest];
    [destruct Hword; reflexivity|].
  unfold main.try_except.
  destruct (main.dispatch _ _ _ _ _ _ _ _ _ _ _ p) as [[[]|exc] p'];
    eexists; reflexivity.
Qed.

Lemma handle_commands_run (commands : list bot.BotCommand.t) (cfg : RuntimeConfig.t)
    (now_ms : Z) (p : Process) :
  (∀ c, c ∈ commands → main.split (bot.BotCommand.text c) ≠ []) →
  ∃ p',
    main.handle_commands float_of_str int_of_str str_of rejects int_of_decimal summary_error
      commands cfg now_ms p = (main.Ok tt, p')
    ∧ same_poll_state (service p) (service p')
    ∧ (commands = [] → p' = p).
Proof.
  revert p. induction commands as [|command commands IH]; intros p Hwords; simpl.
  - exists p. split; [reflexivity|]. split; [split; reflexivity|auto].
  - destruct (handle_command_returns command cfg now_ms p) as [p1 Hp1].
    { apply Hwords. left. }
    pose proof (keeps_handle_command (service p) command cfg now_ms p
                  (conj eq_refl eq_refl)) as Hkept.
    rewrite Hp1 in Hkept. cbn [snd] in Hkept.
    destruct (IH p1) as (p' & Hrun & [Hoffset Hbot] & _).
    { intros c Hin. apply Hwords. right. exact Hin. }
    exists p'. unfold main.bind_p. rewrite Hp1. split; [exact Hrun|].
    split; [|discriminate].
    destruct Hkept as [Hoffset1 Hbot1]. split; congruence.
Qed.

(** X29. [_poll_bot_commands] returns, whatever the answer of Telegram
    is: a command that reaches [_handle_command] from the poll has a
    first word, so the [IndexError] of [parts[0]], the one failure the
    handler does not catch, cannot happen.  A poll that raised changes
    nothing, so the same updates are asked for again; otherwise the
    service remembers the next offset, the handlers of the commands
    leaving it and the bot as they are; and an answer without a command
    changes nothing else. *)
Theorem poll_bot_commands_returns (cfg : RuntimeConfig.t) (now_ms : Z)
    (response : option collector.Json) (p : Process) :
  ∃ p',
    main._poll_bot_commands float_of_str int_of_str str_of rejects int_of_decimal summary_error
      str_of_json cfg now_ms response p = (main.Ok tt, p')
    ∧ MonitorService.bot (service p') = MonitorService.bot (service p)
    ∧ match bot.poll_commands str_of_json (MonitorService.bot (service p))
              (MonitorService.last_update_id (service p)) response with
      | bot.Received (commands, next_offset) =>
          MonitorService.last_update_id (service p') = next_offset
          ∧ (commands = [] →
             p' = main.mkProcess (main.set_last_update_id next_offset (service p))
                    (posted p) (tables p))
      | bot.PollFailed _ => p' = p
      end.
Proof.
  unfold main._poll_bot_commands, main.bind_p at 1, main.get_service.
  destruct (bot.enabled (MonitorService.bot (service p))) eqn:Henabled; cbn [negb].
  - destruct (bot.poll_commands str_of_json (MonitorService.bot (service p))
                (MonitorService.last_update_id (service p)) response)
      as [[commands next_offset]|e] eqn:Hpoll.
    + apply poll_commands_spec in Hpoll as (Hgood & _).
      unfold main.bind_p, main.set_service.
      destruct (handle_commands_run commands cfg now_ms
                  (main.mkProcess (main.set_last_update_id next_offset (service p))
                     (posted p) (tables p))) as (p' & Hrun & [Hoffset Hbot] & Hnone).
      { intros c Hin. apply (Hgood c Hin). }
      exists p'. split; [exact Hrun|]. split; [exact Hbot|].
      split; [exact Hoffset|exact Hnone].
    + exists p. split; [reflexivity|]. split; reflexivity.
  - exists p. split; [reflexivity|]. split; [reflexivity|].
    unfold bot.poll_commands. rewrite Henabled. cbn [negb].
    split; [reflexivity|]. intros _. destruct p as [[] ? ?]. reflexivity.
Qed.

End poll_properties.

Lemma polled_commands_are_commands_witness :
  bot.poll_commands samples.str_of_json samples.telegram_bot None (Some samples.updates)
  = bot.Received ([bot.BotCommand.mk "alice" "7" "/status"], Some 13)
  ∧ (omap update_id_of (updates_of (Some samples.updates)) = [11; 12]
     ∧ offset_after None (updates_of (Some samples.updates)) = Some 13)
  ∧ (∀ c, c ∈ [bot.BotCommand.mk "alice" "7" "/status"] →
          config_store.non_empty (bot.BotCommand.chat_id c) = true
          ∧ bot.starts_with_slash (bot.BotCommand.text c) = true
          ∧ main.split (bot.BotCommand.text c) ≠ [])
  ∧ Some 13
    = (if bot.enabled samples.telegram_bot
       then offset_after None (updates_of (Some samples.updates))
       else None).
Proof.
  assert (bot.poll_commands samples.str_of_json samples.telegram_bot None
            (Some samples.updates)
          = bot.Received ([bot.BotCommand.mk "alice" "7" "/status"], Some 13)) as Hpoll
    by (vm_compute; reflexivity).
  split; [exact Hpoll|].
  split; [split; vm_compute; reflexivity|].
  destruct (polled_commands_are_commands samples.str_of_json samples.telegram_bot None
              (Some samples.updates) _ _ Hpoll) as (Hgood & _ & Hoffset & _).
  split; [exact Hgood|exact Hoffset].
Defined.
